(* ===== verification/_CoqProject ===== *)
-Q . S2P
Prelude.v
Text.v
Process.v
Protocol.v
ProtocolTypes.v
ClientInput.v
ConsoleBuffer.v
ConsoleStream.v
ConsoleClient.v
ConsoleWorld.v
ExecSessions.v
ConsoleHandlers.v
PtySpawn.v
Setup.v
ChildInit.v
InitServer.v
Proxy.v
ProxyUdp.v
ClientTrust.v
Handshake.v
Reconnect.v
Forward.v
ClientMain.v
ExecRetry.v
BatchExec.v
Machines.v
Rollout.v
Canaries.v
Template.v
Tenant.v
MachinesApi.v
TenantCreate.v
TenantDelete.v
TenantLife.v
Listing.v
Reports.v
AdminMain.v
ServerMain.v
ProxyMain.v
ClientEndpoint.v
ControlSocket.v
