(* ===== verification/Prelude.v ===== *)
(** * fly-vault verified

    fly-vault runs a development machine as a Fly Machine that only its owner can
    enter.  The program has five parts, each a crate under [src/crates]:

    - [protocol]: the messages the others exchange.
    - [init]: process 1 of the machine.  It provisions a root file system, starts
      it in namespaces, and serves one QUIC endpoint: a control stream that
      attests the machine and takes the access token, and, after that, console,
      exec, exec-list and port-forward streams.
    - [client]: connects, checks the attestation, sends the token, then shows a
      console, runs a command, forwards ports and serves a local control socket.
      It reconnects and resumes a console where its terminal stopped.
    - [proxy]: a UDP relay between clients and machines that are not public.
    - [admin]: creates, lists, updates and deletes the machines of tenants through
      the Fly Machines API.

    The files.

    [Prelude] (this file) has what all share: errors as chains of causes, results
    with panics, the state monad [M S A], machine integers and bytes, the
    interfaces of the [bytes] crate and of asynchronous streams, sorting, what an
    operation preserves ([keeps]) and Hoare-style specifications ([spec]).
    [Text] has the parts of Rust's [str] the admin tool needs, [Process] environment
    variables and what an HTTP client answers.

    - [Protocol]: crates/protocol/src/lib.rs, entirely; [ProtocolTypes]: what the
      decoders return is well-typed.
    - [ConsoleBuffer], [ConsoleStream], [ExecSessions]: init/src/forward.rs - the
      replay buffer, the tasks of one console, the managers of sessions.
    - [ConsoleHandlers]: the handlers of the console and exec-list streams, any
      number of them over the managers, as a refinement of [ExecSessions].
    - [PtySpawn]: spawning a console, with the descriptors it opens and closes.
    - [ConsoleClient]: client/src/console.rs - the session loop; [ClientInput]: its
      raw mode, the reader of the standard input, resizes and the sending task;
      [BatchExec]: an exec whose input is not a terminal, with [ConsoleHandlers].
    - [ConsoleWorld]: buffer, stream and client composed, with their connection and
      a terminal whose writes may fail halfway.
    - [Setup]: init/src/setup.rs - provisioning over a file system whose every call
      may fail, the stat of [Path::exists] too.
    - [ChildInit]: the child of setup.rs - mount namespace, exec, fallback init.
    - [InitServer]: init/src/quic.rs, attest.rs and main.rs - connections, control
      stream, token, boot; it drives [Setup].  [ServerMain]: the process around it,
      with firewall.rs, the endpoint, what the connections' tasks do to the machine
      before and after the signal, and the shutdown.
    - [Proxy]: proxy/src/{machines,session,proxy}.rs as interleaved tasks;
      [ProxyMain]: its main.rs, and the tasks with the requests they make.
    - [ProxyUdp]: client/src/proxy_udp.rs, composed with [Proxy].
    - [ClientTrust]: client/src/{cache,attest}.rs and connect_ready of quic.rs,
      with the cache file shared by several client processes; [ClientEndpoint]: the
      endpoints and the TLS configuration of quic.rs; [Handshake]: [ClientTrust] and
      [InitServer] on one connection.
    - [Reconnect]: ReconnectableConnection and the retrying commands of quic.rs.
    - [Forward]: client/src/{forward,control}.rs and the server side of a forward;
      [ControlSocket]: the control socket with the requests of all its clients.
    - [ClientMain]: client/src/main.rs and the commands of quic.rs and forward.rs;
      [ExecRetry]: an exec over lost connections, with [ConsoleHandlers].
    - [Machines]: admin/src/machines.rs - configurations, health, errors, waits
      (with the loops of tenant.rs), usage facts.
    - [MachinesApi]: the HTTP client of machines.rs, its requests and answers.
    - [Rollout]: admin/src/rollout.rs, with [Canaries] for the canaries it chooses.
    - [Template]: admin/src/template.rs and parse_vars of main.rs.
    - [Tenant]: admin/src/tenant.rs, with [TenantCreate] and [TenantDelete] for
      what creation and deletion do and [TenantLife] for one after the other;
      [Listing]: summaries and usage facts; [Reports]: their JSON, the tables and the
      usage-facts server.
    - [AdminMain]: admin/src/main.rs, against an interface of the commands whose
      instance the files above are.

    A definition has the name of the function, type or method it models; a
    function that awaits in the middle of what others can see is a step function
    over its program points ([stream_step], [connect_step], [starter_step]), and a
    component with such functions is an inductive step relation with its reachable
    states.  What the program does not decide - the network, TLS, the clock, what
    a system call or the Machines API answers, the order of a hash map - is an
    argument of the definitions or an interface, and the theorems hold for every
    such answer unless they say otherwise.  Integers are [Z] with the wrap-around
    of their width written out.  A Rust panic is the result [Panic].

    What is proved.

    - Trust: the token only goes to a certificate that was attested for the
      configured organization, app and machine, by the very token the server's
      attestation carried, and every cache entry was verified; the server serves streams only after the token was compared
      exactly; a refused setup changes nothing; the two ends of a handshake agree on
      whether it succeeded, on the token, the attestation and the root file system.
    - Processes: a machine boots and listens only behind its firewall, without the
      token in its environment; the proxy asks the API for nothing but its own
      machines; commands of the admin tool that only read change nothing, and its
      server tells facts only to who has the token.
    - Consoles: across disconnections the client shows what the console wrote,
      exactly once, as long as the buffer kept it and the terminal took it; no wake-up is lost; the exit
      code arrives; a takeover is exclusive; running sessions are kept; input is sent
      in the order it was typed, and the terminal is given back as it was.
    - Console handlers: they implement the session protocol under every
      interleaving, a session is attached exactly when a stream serves it, a
      stream that ends is detached, one shell runs, a request reaches its session,
      a client reads the list of the server's sessions; a spawn that fails leaks
      no descriptor and one that succeeds gives the fresh console they assume.
    - Provisioning: persistent directories survive whatever fails; a successful
      provisioning leaves the staged root active; a failed start puts the previous
      root back; the init sees the provisioned root and the persistent directories
      and nothing else, and the fallback's marker is the one the parent reads.
    - Proxy: datagrams reach their machine from the client's socket on, running
      relays belong to mapped sessions, one start per machine at a time.
    - Reconnection: one attempt at a time, stale invalidations are ignored.
    - Commands of the client: every request of an exec is its command, its status
      is the command's, a connect serves the forwards it was given, the control socket
      is a map from ports to targets.
    - Admin: a rollout that succeeds updated every selected machine, one that
      fails restored every image; canaries represent the tenants, batches respect the
      concurrency and spread over tenants; a failed creation leaves nothing, a creation that succeeds is
      complete, a deletion removes the tenant and nothing else, a creation and a deletion leave
      no trace; facts survive JSON; rendering is a
      substitution; the waits end, and ask the API for no more than their timeout;
      different calls of the API client are different requests.
    - Wire formats: round trips, canonical decoding, decoders that do not panic
      and return well-typed values, and exactly when the proxy's decoder does.

    Theorems about behaviour that is not what the documents say or the code means
    to do are next to the component: an exit frame that overtakes output, a replay
    that repeats after an eviction, output repeated after a write that failed halfway,
    a failed stat that loses the root, a connection that starts the machine again
    after its shutdown, a reaper that takes attached sessions, a cold
    machine that a failed provisioning leaves ready, a stopped relay that stays in
    use, a refused exec that is retried for ever, a reconnection that runs the command
    again, a cache file that loses another process's entry, a dropped attempt that
    blocks the client, a lost notification, input lost to a reconnection, an exec
    without a terminal that is cut off, a cached certificate that is trusted without
    its key, a half-close that ends both directions, a forward that is listed when its
    loop has ended, a lost update that is not rolled back, and a rendering that
    depends on the order of a hash map.

    Bounds and fuel.

    The waiting loops of the admin tool have the fuel their timeout allows - a turn
    sleeps two seconds, a wait takes up to a minute of what remains - and
    [waits_end] shows that it suffices.  The rolling stage has one more turn than
    machines, and every turn takes at least one.  The loops over events (a PTY, a
    bridge, a session) are structural on the list of what the environment
    answered; they return [None] when the list ends before they do, and the
    theorems about them say what happened up to there.

    Not modelled.

    TLS and QUIC themselves; the HTTP transport and framing, and the parsing of
    JSON, TOML and command lines, which are parameters; what the child of a
    console does before its exec; the memory of the process, so neither an allocation
    that fails (a decoder reserves the count a peer announces) nor the descriptors
    libraries keep for their own handles; the poll of an aborted task that is
    already running, an abort taking effect at once; logging and progress messages; the tests; the fact that
    a task of a batch of a rollout sees the others' machines change, which no task
    looks at. *)

From Stdlib Require Export ZArith Lia.
From Stdlib Require Import Strings.Byte.
Export Init.Byte.
From stdpp Require Export base list gmap strings pretty.
From stdpp Require Import sorting.

#[export] Set Default Proof Using "Type".

Open Scope Z_scope.

(** ** Errors: [anyhow::Error] as its chain of causes

    The outermost context comes first.  [Msg] is a message made with [anyhow!]
    or [.context]; the other constructors are the typed causes the code later
    looks for with [downcast_ref]. *)

Inductive IoErrorKind :=
| UnexpectedEof
| NotFound
| AlreadyExists
| WriteZero
| InvalidInput
| WouldBlock
| OtherIo.

(** The variants of [quinn::ConnectionError] the source matches on; every
    other variant is [ConnOther]. *)
Inductive ConnectionError :=
| ApplicationClosed
| ConnectionClosed
| Reset
| TimedOut
| TransportError
| ConnOther.

(** [quinn::ReadError] and [quinn::WriteError], again with the named variants. *)
Inductive ReadError :=
| ReadReset
| ReadConnectionLost (e : ConnectionError)
| ReadOther.

Inductive WriteError :=
| WriteStopped
| WriteConnectionLost (e : ConnectionError)
| WriteOther.

Inductive Cause :=
| Msg (s : string)
| Io (k : IoErrorKind)
| Utf8Error
| ParseIntError
| ConnErr (e : ConnectionError)
| RdErr (e : ReadError)
| WrErr (e : WriteError)
| ApiError (status : Z) (body : string).

Abbreviation Error := (list Cause) (only parsing).

Definition eol : string := String (Ascii.ascii_of_nat 10) EmptyString.

(** [{err}] of an [anyhow] error: its outermost message. *)
Definition display_error (show : Cause -> string) (e : Error) : string :=
  match e with c :: _ => show c | [] => "" end.

#[export] Instance IoErrorKind_eq_dec : EqDecision IoErrorKind.
Proof. solve_decision. Defined.
#[export] Instance ConnectionError_eq_dec : EqDecision ConnectionError.
Proof. solve_decision. Defined.
#[export] Instance ReadError_eq_dec : EqDecision ReadError.
Proof. solve_decision. Defined.
#[export] Instance WriteError_eq_dec : EqDecision WriteError.
Proof. solve_decision. Defined.
#[export] Instance Cause_eq_dec : EqDecision Cause.
Proof. solve_decision. Defined.

(** ** Results: [Ok], [Err] or a panic of the running task *)

Inductive Res (A : Type) :=
| Ok (a : A)
| Err (e : Error)
| Panic.
Arguments Ok {A} _.
Arguments Err {A} _.
Arguments Panic {A}.

#[export] Instance Res_ret : MRet Res := @Ok.
#[export] Instance Res_bind : MBind Res :=
  fun A B f m => match m with Ok a => f a | Err e => Err e | Panic => Panic end.
#[export] Instance Res_fmap : FMap Res :=
  fun A B f m => match m with Ok a => Ok (f a) | Err e => Err e | Panic => Panic end.

Definition anyhow {A} (msg : string) : Res A := Err [Msg msg].

(** [Context::context] / [with_context]. *)
Definition with_context {A} (msg : string) (r : Res A) : Res A :=
  match r with Err e => Err (Msg msg :: e) | _ => r end.

(** [Option::ok_or_else(|| anyhow!(msg))]. *)
Definition ok_or {A} (msg : string) (o : option A) : Res A :=
  match o with Some a => Ok a | None => anyhow msg end.

(** The variant without payload, for properties on success and failure. *)
Definition is_ok {A} (r : Res A) : bool :=
  match r with Ok _ => true | _ => false end.

(** ** Effectful code: explicit state passing around a result *)

Definition M (S A : Type) : Type := S -> Res A * S.

Definition mret_st {S A} (a : A) : M S A := fun s => (Ok a, s).
Definition mbind_st {S A B} (m : M S A) (f : A -> M S B) : M S B :=
  fun s => match m s with
           | (Ok a, s') => f a s'
           | (Err e, s') => (Err e, s')
           | (Panic, s') => (Panic, s')
           end.
Definition mlift {S A} (r : Res A) : M S A := fun s => (r, s).
Definition mcontext {S A} (msg : string) (m : M S A) : M S A :=
  fun s => let '(r, s') := m s in (with_context msg r, s').
Definition mget {S} : M S S := fun s => (Ok s, s).
Definition mput {S} (s : S) : M S unit := fun _ => (Ok tt, s).
Definition mmodify {S} (f : S -> S) : M S unit := fun s => (Ok tt, f s).
(** [match m.await { r => .. }]: the result as a value, the state kept. *)
Definition mtry {S A} (m : M S A) : M S (Res A) :=
  fun s => match m s with
           | (Panic, s') => (Panic, s')
           | (r, s') => (Ok r, s')
           end.

#[export] Instance M_ret {S} : MRet (M S) := @mret_st S.
#[export] Instance M_bind {S} : MBind (M S) := fun A B f m => @mbind_st S A B m f.

(** ** Machine integers

    An unsigned integer is its value as a [Z]; the casts and wrapping
    operations are written out where the source has them. *)

Definition U8 : Z := 2 ^ 8.
Definition U16 : Z := 2 ^ 16.
Definition U32 : Z := 2 ^ 32.
Definition U64 : Z := 2 ^ 64.
(** [usize] on the supported (64-bit) targets. *)
Definition USIZE : Z := 2 ^ 64.

Definition as_u32 (x : Z) : Z := x mod U32.
Definition saturating_add_u64 (x y : Z) : Z := Z.min (x + y) (U64 - 1).
Definition saturating_sub (x y : Z) : Z := Z.max 0 (x - y).
Definition wrapping_add_usize (x y : Z) : Z := (x + y) mod USIZE.

Definition len {A} (l : list A) : Z := Z.of_nat (length l).

(** ** Bytes *)

#[export] Instance byte_eq_dec : EqDecision byte := Byte.byte_eq_dec.

Definition b2z (b : byte) : Z := Z.of_N (Byte.to_N b).
Definition z2b (z : Z) : byte :=
  match Byte.of_N (Z.to_N (z mod 256)) with Some b => b | None => x00 end.

(** [n] bytes of [x], most significant first ([uN::to_be_bytes]). *)
Fixpoint be_bytes (n : nat) (x : Z) : list byte :=
  match n with
  | O => []
  | S n' => be_bytes n' (x / 256) ++ [z2b x]
  end.

Definition be_value (bs : list byte) : Z :=
  fold_left (fun acc b => acc * 256 + b2z b) bs 0.

Definition le_bytes (n : nat) (x : Z) : list byte := rev (be_bytes n x).
Definition le_value (bs : list byte) : Z := be_value (rev bs).

(** ** Strings: a Rust [String] is its UTF-8 bytes *)

Definition as_bytes (s : string) : list byte := String.list_byte_of_string s.
Definition from_bytes_unchecked (bs : list byte) : string := String.string_of_list_byte bs.

(** [str::len]: the number of bytes. *)
Definition slen (s : string) : Z := Z.of_nat (String.length s).

(** UTF-8 well-formedness, the table of [core::str::from_utf8]. *)
Definition between (lo hi : Z) (b : byte) : bool := (lo <=? b2z b) && (b2z b <=? hi).
Definition utf8_cont : byte -> bool := between 128 191.

Definition utf8_second_of_3 (b0 b1 : byte) : bool :=
  if b2z b0 =? 224 then between 160 191 b1
  else if b2z b0 =? 237 then between 128 159 b1
  else utf8_cont b1.

Definition utf8_second_of_4 (b0 b1 : byte) : bool :=
  if b2z b0 =? 240 then between 144 191 b1
  else if b2z b0 =? 244 then between 128 143 b1
  else utf8_cont b1.

Fixpoint utf8_valid (bs : list byte) : bool :=
  match bs with
  | [] => true
  | b0 :: r =>
      if between 0 127 b0 then utf8_valid r
      else if between 194 223 b0 then
        match r with
        | b1 :: r1 => utf8_cont b1 && utf8_valid r1
        | _ => false
        end
      else if between 224 239 b0 then
        match r with
        | b1 :: b2 :: r2 => utf8_second_of_3 b0 b1 && utf8_cont b2 && utf8_valid r2
        | _ => false
        end
      else if between 240 244 b0 then
        match r with
        | b1 :: b2 :: b3 :: r3 =>
            utf8_second_of_4 b0 b1 && utf8_cont b2 && utf8_cont b3 && utf8_valid r3
        | _ => false
        end
      else false
  end.

(** [String::from_utf8]. *)
Definition from_utf8 (bs : list byte) : Res string :=
  if utf8_valid bs then Ok (from_bytes_unchecked bs) else Err [Utf8Error].

(** The type invariant of a Rust string. *)
Definition str_ok (s : string) : Prop := utf8_valid (as_bytes s) = true.

(** ** Interfaces to libraries that are not part of the repository *)

(** The [bytes] crate: [Buf] for [&[u8]] and [BufMut] for [BytesMut], with the
    documented behaviour.  [None] stands for the panic of a short buffer. *)
Class BytesCrate := {
  get_u8 : list byte -> option (Z * list byte);
  get_u16 : list byte -> option (Z * list byte);
  get_u32 : list byte -> option (Z * list byte);
  get_u64 : list byte -> option (Z * list byte);
  put_u8 : list byte -> Z -> list byte;
  put_u16 : list byte -> Z -> list byte;
  put_u32 : list byte -> Z -> list byte;
  put_u64 : list byte -> Z -> list byte;
  get_u8_spec bs : (1 <= length bs)%nat -> get_u8 bs = Some (be_value (take 1 bs), drop 1 bs);
  get_u16_spec bs : (2 <= length bs)%nat -> get_u16 bs = Some (be_value (take 2 bs), drop 2 bs);
  get_u32_spec bs : (4 <= length bs)%nat -> get_u32 bs = Some (be_value (take 4 bs), drop 4 bs);
  get_u64_spec bs : (8 <= length bs)%nat -> get_u64 bs = Some (be_value (take 8 bs), drop 8 bs);
  put_u8_spec out x : put_u8 out x = out ++ be_bytes 1 x;
  put_u16_spec out x : put_u16 out x = out ++ be_bytes 2 x;
  put_u32_spec out x : put_u32 out x = out ++ be_bytes 4 x;
  put_u64_spec out x : put_u64 out x = out ++ be_bytes 8 x;
}.

(** A read that panics on [None]. *)
Definition or_panic {A} (o : option A) : Res A :=
  match o with Some a => Ok a | None => Panic end.

(** [tokio::io::AsyncReadExt] on a reader [R]: what [read_from] calls. *)
Class AsyncRead (R : Type) := {
  read_u8 : M R Z;
  read_u32 : M R Z;
  read_exact : nat -> M R (list byte);
}.

(** [ahead r bs]: the bytes [r] still delivers before its end are [bs]. *)
Class AsyncReadOk (R : Type) `{AsyncRead R} := {
  ahead : R -> list byte -> Prop;
  read_u8_ok r bs : ahead r bs -> (1 <= length bs)%nat ->
    exists r', read_u8 r = (Ok (be_value (take 1 bs)), r') /\ ahead r' (drop 1 bs);
  read_u32_ok r bs : ahead r bs -> (4 <= length bs)%nat ->
    exists r', read_u32 r = (Ok (be_value (take 4 bs)), r') /\ ahead r' (drop 4 bs);
  read_exact_ok n r bs : ahead r bs -> (n <= length bs)%nat ->
    exists r', read_exact n r = (Ok (take n bs), r') /\ ahead r' (drop n bs);
  read_u8_eof r bs : ahead r bs -> (length bs < 1)%nat -> fst (read_u8 r) = Err [Io UnexpectedEof];
  read_u32_eof r bs : ahead r bs -> (length bs < 4)%nat -> fst (read_u32 r) = Err [Io UnexpectedEof];
  read_exact_eof n r bs : ahead r bs -> (length bs < n)%nat ->
    fst (read_exact n r) = Err [Io UnexpectedEof];
}.

(** [tokio::io::AsyncWriteExt] on a writer [W]. *)
Class AsyncWrite (W : Type) := {
  write_u8 : Z -> M W unit;
  write_u32 : Z -> M W unit;
  write_all : list byte -> M W unit;
  flush : M W unit;
}.

(** [written w]: every byte accepted by [w] so far. *)
Class AsyncWriteOk (W : Type) `{AsyncWrite W} := {
  written : W -> list byte;
  write_u8_ok x w w' : write_u8 x w = (Ok tt, w') -> written w' = written w ++ be_bytes 1 x;
  write_u32_ok x w w' : write_u32 x w = (Ok tt, w') -> written w' = written w ++ be_bytes 4 x;
  write_all_ok bs w w' : write_all bs w = (Ok tt, w') -> written w' = written w ++ bs;
  flush_ok w w' : flush w = (Ok tt, w') -> written w' = written w;
}.

(** ** Sorting as [slice::sort_by] does it: stable, by a boolean order *)

Section sort_by.
Context {A : Type} (leb : A -> A -> bool).

Fixpoint insert_by (x : A) (l : list A) : list A :=
  match l with
  | [] => [x]
  | y :: l' => if leb x y then x :: y :: l' else y :: insert_by x l'
  end.

Fixpoint sort_by (l : list A) : list A :=
  match l with
  | [] => []
  | x :: l' => insert_by x (sort_by l')
  end.
End sort_by.

(** [str::cmp] is the bytewise lexicographic order. *)
Definition str_leb (a b : string) : bool := String.leb a b.

(** ** Lemmas on bytes and integers *)

Lemma len_app {A} (l k : list A) : len (l ++ k) = len l + len k.
Proof. unfold len. rewrite length_app. lia. Qed.

Lemma len_nonneg {A} (l : list A) : 0 <= len l.
Proof. unfold len. lia. Qed.

Lemma len_cons {A} (x : A) l : len (x :: l) = 1 + len l.
Proof. unfold len. cbn [length]. lia. Qed.

Lemma b2z_range b : 0 <= b2z b < 256.
Proof. unfold b2z. pose proof (Byte.to_N_bounded b). lia. Qed.

Lemma b2z_z2b z : b2z (z2b z) = z mod 256.
Proof.
  unfold b2z, z2b.
  assert (Hz : 0 <= z mod 256 < 256) by (apply Z.mod_pos_bound; lia).
  destruct (Byte.of_N (Z.to_N (z mod 256))) as [b|] eqn:E.
  - apply Byte.to_of_N in E. rewrite E. lia.
  - apply Byte.of_N_None_iff in E. lia.
Qed.

Lemma z2b_b2z b : z2b (b2z b) = b.
Proof.
  unfold z2b. rewrite Z.mod_small by apply b2z_range.
  unfold b2z. rewrite N2Z.id, Byte.of_to_N. done.
Qed.

Lemma b2z_inj a b : b2z a = b2z b -> a = b.
Proof. intros H. rewrite <- (z2b_b2z a), <- (z2b_b2z b), H. done. Qed.

Lemma be_bytes_length n x : length (be_bytes n x) = n.
Proof. revert x. induction n as [|n IH]; intros x; cbn; [done|]. rewrite length_app, IH. cbn. lia. Qed.

Lemma le_bytes_length n x : length (le_bytes n x) = n.
Proof. unfold le_bytes. rewrite length_rev. apply be_bytes_length. Qed.

Lemma be_value_snoc bs b : be_value (bs ++ [b]) = be_value bs * 256 + b2z b.
Proof. unfold be_value. rewrite fold_left_app. done. Qed.

Lemma be_value_range bs : 0 <= be_value bs < 256 ^ len bs.
Proof.
  induction bs as [|b bs IH] using rev_ind; [done|].
  rewrite be_value_snoc, len_app. change (len [b]) with 1.
  rewrite Z.pow_add_r by (pose proof (len_nonneg bs); lia). pose proof (b2z_range b). nia.
Qed.

Lemma be_value_bytes n x : be_value (be_bytes n x) = x mod 256 ^ Z.of_nat n.
Proof.
  revert x. induction n as [|n IH]; intros x.
  { cbn. rewrite Z.mod_1_r. done. }
  change (be_bytes (S n) x) with (be_bytes n (x / 256) ++ [z2b x]).
  rewrite be_value_snoc, IH, b2z_z2b.
  replace (Z.of_nat (S n)) with (1 + Z.of_nat n) by lia.
  rewrite Z.pow_add_r by lia. rewrite Z.pow_1_r.
  rewrite Z.rem_mul_r by lia. lia.
Qed.

Lemma be_bytes_value bs : be_bytes (length bs) (be_value bs) = bs.
Proof.
  induction bs as [|b bs IH] using rev_ind; [done|].
  rewrite length_app, Nat.add_comm. cbn [length Nat.add be_bytes].
  rewrite be_value_snoc. f_equal.
  - pose proof (b2z_range b).
    rewrite Z.div_add_l by lia. rewrite (Z.div_small (b2z b)) by lia.
    rewrite Z.add_0_r. exact IH.
  - f_equal. unfold z2b. rewrite Z.add_comm, Z.mod_add by lia. apply z2b_b2z.
Qed.

Lemma le_value_bytes n x : le_value (le_bytes n x) = x mod 256 ^ Z.of_nat n.
Proof. unfold le_value, le_bytes. rewrite rev_involutive. apply be_value_bytes. Qed.

Lemma le_value_range bs : 0 <= le_value bs < 256 ^ len bs.
Proof.
  unfold le_value. pose proof (be_value_range (rev bs)) as H.
  unfold len in *. rewrite length_rev in H. done.
Qed.

(** ** Lemmas on strings and UTF-8 *)

Lemma from_bytes_as_bytes s : from_bytes_unchecked (as_bytes s) = s.
Proof. apply String.string_of_list_byte_of_string. Qed.

Lemma as_bytes_from_bytes bs : as_bytes (from_bytes_unchecked bs) = bs.
Proof. apply String.list_byte_of_string_of_list_byte. Qed.

Lemma as_bytes_inj s t : as_bytes s = as_bytes t -> s = t.
Proof. intros H. rewrite <- (from_bytes_as_bytes s), H. apply from_bytes_as_bytes. Qed.

Lemma length_as_bytes s : length (as_bytes s) = String.length s.
Proof.
  unfold as_bytes, String.list_byte_of_string.
  induction s as [|c s IH]; [done|]. cbn in *. rewrite IH. done.
Qed.

Lemma len_as_bytes s : len (as_bytes s) = slen s.
Proof. unfold len, slen. rewrite length_as_bytes. done. Qed.

Lemma slen_nonneg s : 0 <= slen s.
Proof. unfold slen. lia. Qed.

Lemma slen_0 s : slen s = 0 -> s = EmptyString.
Proof. destruct s; [done|]. unfold slen. cbn [String.length]. lia. Qed.

Lemma from_utf8_as_bytes s : str_ok s -> from_utf8 (as_bytes s) = Ok s.
Proof. unfold str_ok, from_utf8. intros ->. rewrite from_bytes_as_bytes. done. Qed.

Lemma from_utf8_Ok bs s : from_utf8 bs = Ok s -> as_bytes s = bs /\ str_ok s.
Proof.
  unfold from_utf8, str_ok. destruct (utf8_valid bs) eqn:E; [|done].
  intros [= <-]. rewrite as_bytes_from_bytes. done.
Qed.

Lemma from_utf8_not_panic bs : from_utf8 bs <> Panic.
Proof. unfold from_utf8. destruct (utf8_valid bs); done. Qed.

(** ** Lemmas on results *)

Lemma bind_Ok {A B} (m : Res A) (f : A -> Res B) b :
  m ≫= f = Ok b <-> exists a, m = Ok a /\ f a = Ok b.
Proof. destruct m; cbn; naive_solver. Qed.

Lemma with_context_Ok {A} msg (r : Res A) a : with_context msg r = Ok a <-> r = Ok a.
Proof. destruct r; cbn; naive_solver. Qed.

Lemma with_context_Panic {A} msg (r : Res A) : with_context msg r = Panic <-> r = Panic.
Proof. destruct r; cbn; naive_solver. Qed.

Lemma bind_not_Panic {A B} (m : Res A) (f : A -> Res B) :
  m <> Panic -> (forall a, m = Ok a -> f a <> Panic) -> m ≫= f <> Panic.
Proof. destruct m; cbn; naive_solver. Qed.

Lemma with_context_not_Panic {A} msg (r : Res A) : r <> Panic -> with_context msg r <> Panic.
Proof. destruct r; cbn; naive_solver. Qed.

Lemma anyhow_not_Panic {A} msg : @anyhow A msg <> Panic.
Proof. done. Qed.

Lemma M_bind_Ok {S A B} (m : M S A) (f : A -> M S B) s a s' :
  m s = (Ok a, s') -> (m ≫= f) s = f a s'.
Proof. unfold mbind, M_bind, mbind_st. intros ->. done. Qed.

Lemma M_bind_Err {S A B} (m : M S A) (f : A -> M S B) s e s' :
  m s = (Err e, s') -> (m ≫= f) s = (Err e, s').
Proof. unfold mbind, M_bind, mbind_st. intros ->. done. Qed.

Lemma M_bind_inv {S A B} (m : M S A) (f : A -> M S B) s b s' :
  (m ≫= f) s = (Ok b, s') -> exists a s1, m s = (Ok a, s1) /\ f a s1 = (Ok b, s').
Proof.
  unfold mbind, M_bind, mbind_st. destruct (m s) as [[a|e|] s1]; naive_solver.
Qed.

Lemma mcontext_Ok {S A} msg (m : M S A) s a s' :
  mcontext msg m s = (Ok a, s') <-> m s = (Ok a, s').
Proof. unfold mcontext. destruct (m s) as [[x|e|] s1]; cbn; naive_solver. Qed.

(** ** What an effectful operation preserves, whatever its result *)

Definition keeps {S A} (I : S -> Prop) (m : M S A) : Prop := forall s, I s -> I (snd (m s)).

Section keeps.
Context {S : Type} (I : S -> Prop).

Lemma keeps_ret {A} (a : A) : keeps I (mret a : M S A).
Proof. by intros s Hs. Qed.

Lemma keeps_lift {A} (r : Res A) : keeps I (mlift r).
Proof. by intros s Hs. Qed.

Lemma keeps_get : keeps I mget.
Proof. by intros s Hs. Qed.

Lemma keeps_modify f : (forall s, I s -> I (f s)) -> keeps I (mmodify f).
Proof. intros Hf s Hs. by apply Hf. Qed.

Lemma keeps_bind {A B} (m : M S A) (f : A -> M S B) :
  keeps I m -> (forall a, keeps I (f a)) -> keeps I (m ≫= f).
Proof.
  intros Hm Hf s Hs. unfold mbind, M_bind, mbind_st. specialize (Hm s Hs).
  destruct (m s) as [[a|e|] s1]; [by apply Hf|done|done].
Qed.

Lemma keeps_try {A} (m : M S A) : keeps I m -> keeps I (mtry m).
Proof. intros Hm s Hs. unfold mtry. specialize (Hm s Hs). by destruct (m s) as [[] ?]. Qed.

Lemma keeps_context {A} msg (m : M S A) : keeps I m -> keeps I (mcontext msg m).
Proof. intros Hm s Hs. unfold mcontext. specialize (Hm s Hs). by destruct (m s). Qed.
End keeps.

Lemma mtry_inv {S A} (m : M S A) s r s' : mtry m s = (Ok r, s') -> m s = (r, s').
Proof. unfold mtry. destruct (m s) as [[]]; congruence. Qed.

(** A sequence ran its second part from where the first succeeded, or stopped
    where the first failed. *)
Lemma mbind_run {S A B} (m : M S A) (f : A -> M S B) s r s' :
  (m ≫= f) s = (r, s') ->
  (exists a s1, m s = (Ok a, s1) /\ f a s1 = (r, s')) \/
  (exists x, m s = (x, s') /\ is_ok x = false /\ is_ok r = false).
Proof.
  unfold mbind, M_bind, mbind_st. destruct (m s) as [[a|e|] s1]; intros Hr; [eauto|..];
    injection Hr as <- <-; eauto.
Qed.

Lemma mbind_Panic {S A B} (m : M S A) (f : A -> M S B) s s' :
  (m ≫= f) s = (Panic, s') ->
  m s = (Panic, s') \/ exists a s1, m s = (Ok a, s1) /\ f a s1 = (Panic, s').
Proof.
  unfold mbind, M_bind, mbind_st. destruct (m s) as [[a|e|] s1]; intros Hr; [eauto|done|].
  injection Hr as <-. by left.
Qed.

Lemma mcontext_Panic {S A} msg (m : M S A) s s' : mcontext msg m s = (Panic, s') -> m s = (Panic, s').
Proof. unfold mcontext. destruct (m s) as [[]]; cbn; congruence. Qed.

Lemma keeps_run {S A B} (I : S -> Prop) (m : M S A) (f : A -> M S B) s r s' :
  keeps I m -> I s -> (m ≫= f) s = (r, s') ->
  (exists a s1, m s = (Ok a, s1) /\ I s1 /\ f a s1 = (r, s')) \/ (I s' /\ is_ok r = false).
Proof.
  intros Hk Hs Hb. specialize (Hk s Hs).
  apply mbind_run in Hb as [(a & s1 & Hm & Hf)|(x & Hm & _ & Hr)]; rewrite Hm in Hk; eauto 6.
Qed.

Create HintDb keeps discriminated.
#[export] Hint Resolve keeps_ret keeps_lift keeps_get keeps_bind keeps_try keeps_context : keeps.

(** Closes a [keeps] goal by the structure of the code. *)
Ltac keeps_code :=
  repeat match goal with
  | |- keeps _ (_ ≫= _) => apply keeps_bind; [|intros ?]
  | |- keeps _ (mcontext _ _) => apply keeps_context
  | |- keeps _ (mtry _) => apply keeps_try
  | |- keeps _ (mmodify _) => apply keeps_modify; intros ? Hkept; exact Hkept
  | |- keeps _ (if ?b then _ else _) => destruct b
  | |- keeps _ (match ?x with _ => _ end) => destruct x
  | |- keeps _ _ => by auto with keeps
  end.

(** ** Specifications of effectful operations

    From a state of [P], the operation ends in [Q] with its value, or in [E] with
    an error; nothing is said of a panic. *)

Definition spec {S A} (P : S -> Prop) (m : M S A) (Q : A -> S -> Prop) (E : S -> Prop) : Prop :=
  forall s, P s -> match m s with (Ok a, s') => Q a s' | (Err _, s') => E s' | (Panic, _) => True end.

Section spec.
Context {S : Type}.

Lemma spec_ret {A} (P : S -> Prop) (a : A) (Q : A -> S -> Prop) E : (forall s, P s -> Q a s) -> spec P (mret a) Q E.
Proof. intros HQ s Hs. by apply HQ. Qed.

Lemma spec_lift {A} (P : S -> Prop) (r : Res A) (Q : A -> S -> Prop) (E : S -> Prop) :
  (forall a s, r = Ok a -> P s -> Q a s) -> (forall e s, r = Err e -> P s -> E s) -> spec P (mlift r) Q E.
Proof. intros HQ HE s Hs. unfold mlift. destruct r; eauto. Qed.

Lemma spec_bind {A B} (P : S -> Prop) (m : M S A) (f : A -> M S B) R Q E :
  spec P m R E -> (forall a, spec (R a) (f a) Q E) -> spec P (m ≫= f) Q E.
Proof.
  intros Hm Hf s Hs. specialize (Hm s Hs). unfold mbind, M_bind, mbind_st.
  destruct (m s) as [[a|e|] s1]; [by apply Hf|done|done].
Qed.

Lemma spec_try {A} (P : S -> Prop) (m : M S A) (Q : A -> S -> Prop) (E : S -> Prop) E' :
  spec P m Q E ->
  spec P (mtry m) (fun r s => match r with Ok a => Q a s | Err _ => E s | Panic => False end) E'.
Proof. intros Hm s Hs. specialize (Hm s Hs). unfold mtry. by destruct (m s) as [[a|e|] s1]. Qed.

Lemma spec_context {A} msg (P : S -> Prop) (m : M S A) Q E : spec P m Q E -> spec P (mcontext msg m) Q E.
Proof. intros Hm s Hs. specialize (Hm s Hs). unfold mcontext. by destruct (m s) as [[a|e|] s1]. Qed.

Lemma spec_weaken {A} (P P' : S -> Prop) (m : M S A) (Q Q' : A -> S -> Prop) (E E' : S -> Prop) :
  spec P m Q E -> (forall s, P' s -> P s) -> (forall a s, Q a s -> Q' a s) -> (forall s, E s -> E' s) ->
  spec P' m Q' E'.
Proof.
  intros Hm HP HQ HE s Hs. specialize (Hm s (HP s Hs)). destruct (m s) as [[a|e|] s1]; auto.
Qed.

Lemma spec_and {A} (P P' : S -> Prop) (m : M S A) (Q Q' : A -> S -> Prop) (E E' : S -> Prop) :
  spec P m Q E -> spec P' m Q' E' ->
  spec (fun s => P s /\ P' s) m (fun a s => Q a s /\ Q' a s) (fun s => E s /\ E' s).
Proof. intros H1 H2 s [Hs Hs']. specialize (H1 s Hs). specialize (H2 s Hs'). by destruct (m s) as [[]]. Qed.

Lemma spec_true {A} (P : S -> Prop) (m : M S A) : spec P m (fun _ _ => True) (fun _ => True).
Proof. intros s _. by destruct (m s) as [[]]. Qed.

(** A pure step. *)
Lemma spec_lift_bind {A B} (P : S -> Prop) (r : Res A) (f : A -> M S B) Q E :
  (forall a, r = Ok a -> spec P (f a) Q E) -> (forall e s, r = Err e -> P s -> E s) -> spec P (mlift r ≫= f) Q E.
Proof. intros HQ HE s Hs. destruct r as [a|e|]; [by apply HQ|by apply (HE e)|done]. Qed.

Lemma spec_pre {A} (P P' : S -> Prop) (m : M S A) Q E : spec P m Q E -> (forall s, P' s -> P s) -> spec P' m Q E.
Proof. intros Hm HP s Hs. apply Hm, HP, Hs. Qed.
End spec.

(** ** Lemmas on sorting *)

Section sort_lemmas.
Context {A : Type} (leb : A -> A -> bool).
Context (leb_total : forall x y, leb x y = true \/ leb y x = true).
Context (leb_trans : forall x y z, leb x y = true -> leb y z = true -> leb x z = true).

Lemma insert_by_perm x l : insert_by leb x l ≡ₚ x :: l.
Proof.
  induction l as [|y l IH]; cbn; [done|]. destruct (leb x y); [done|].
  rewrite IH. apply Permutation_swap.
Qed.

Lemma sort_by_perm l : sort_by leb l ≡ₚ l.
Proof. induction l as [|x l IH]; cbn; [done|]. rewrite insert_by_perm, IH. done. Qed.

Lemma insert_by_sorted x l :
  StronglySorted (fun a b => leb a b = true) l ->
  StronglySorted (fun a b => leb a b = true) (insert_by leb x l).
Proof using leb_total leb_trans.
  induction 1 as [|y l Hl IH Hy]; cbn; [repeat constructor|].
  destruct (leb x y) eqn:E.
  - constructor; [by constructor|]. constructor; [done|].
    eapply Forall_impl; [exact Hy|]. cbn. eauto.
  - constructor; [done|]. rewrite insert_by_perm. constructor; [|done].
    destruct (leb_total x y); congruence.
Qed.

Lemma sort_by_sorted l : StronglySorted (fun a b => leb a b = true) (sort_by leb l).
Proof using leb_total leb_trans. induction l; cbn; [constructor|by apply insert_by_sorted]. Qed.

(** When the order identifies no two elements, the result does not depend on
    the order the elements came in. *)
Lemma sort_by_unique l k :
  (forall x y, x ∈ l -> y ∈ l -> leb x y = true -> leb y x = true -> x = y) ->
  l ≡ₚ k -> sort_by leb l = sort_by leb k.
Proof using leb_total leb_trans.
  intros Hanti Hperm. eapply StronglySorted_unique_strong;
    [|apply sort_by_sorted|apply sort_by_sorted|by rewrite !sort_by_perm].
  intros x y. rewrite !sort_by_perm, <- Hperm. auto.
Qed.
End sort_lemmas.

Lemma str_leb_total a b : str_leb a b = true \/ str_leb b a = true.
Proof. apply String.leb_total. Qed.

Lemma str_leb_antisym a b : str_leb a b = true -> str_leb b a = true -> a = b.
Proof. apply String.leb_antisym. Qed.

Lemma str_leb_cons c s d t :
  str_leb (String c s) (String d t) = true <->
  (Ascii.N_of_ascii c < Ascii.N_of_ascii d)%N \/ c = d /\ str_leb s t = true.
Proof.
  unfold str_leb, String.leb. cbn [String.compare].
  destruct (Ascii.compare c d) eqn:E.
  - apply Ascii.compare_eq_iff in E as ->.
    assert (~ (Ascii.N_of_ascii d < Ascii.N_of_ascii d)%N) by lia.
    destruct (String.compare s t); naive_solver.
  - unfold Ascii.compare in E. apply N.compare_lt_iff in E. naive_solver.
  - unfold Ascii.compare in E. apply N.compare_gt_iff in E.
    split; [done|]. intros [?|[-> _]]; lia.
Qed.

Lemma str_leb_trans a b c : str_leb a b = true -> str_leb b c = true -> str_leb a c = true.
Proof.
  revert b c. induction a as [|x a IH]; intros [|y b] [|z c]; try done.
  rewrite !str_leb_cons.
  intros [H1|[-> H1]] [H2|[-> H2]]; [left; lia|left; lia|left; lia|right; eauto].
Qed.

Lemma slen_app a b : slen (a +:+ b) = slen a + slen b.
Proof.
  unfold slen. induction a as [|c a IH]; [done|].
  change (String c a +:+ b) with (String c (a +:+ b)). cbn [String.length]. lia.
Qed.

(** ** Automation *)

(** Split a hypothesis that says a chain of fallible steps succeeded. *)
Ltac inv_ok :=
  repeat match goal with
    | H : _ ≫= _ = Ok _ |- _ => apply bind_Ok in H as (? & ? & ?)
    | H : with_context _ _ = Ok _ |- _ => apply with_context_Ok in H
    | H : Ok _ = Ok _ |- _ => injection H as H; try subst
    | H : mret _ = Ok _ |- _ => injection H as H; try subst
    | H : anyhow _ = Ok _ |- _ => discriminate H
    | H : Err _ = Ok _ |- _ => discriminate H
    | H : Panic = Ok _ |- _ => discriminate H
    | H : (Ok _, _) = (Ok _, _) |- _ => injection H as H; try subst
    | H : (Err _, _) = (Ok _, _) |- _ => discriminate H
    | H : (_ ≫= _) _ = (Ok _, _) |- _ => apply M_bind_inv in H as (? & ? & ? & ?)
    | H : mcontext _ _ _ = (Ok _, _) |- _ => apply mcontext_Ok in H
    end.

(** Case on the condition of the first test of the goal. *)
Ltac case_test :=
  match goal with
  | |- context [if ?b then _ else _] =>
      match type of b with bool => destruct b eqn:? end
  end.

(** Case on the condition of the first test of a hypothesis. *)
Ltac case_in H :=
  match type of H with
  | context [if ?b then _ else _] =>
      match type of b with bool => destruct b eqn:? end
  end; try discriminate H.

Create HintDb vault discriminated.
Create Rewrite HintDb vault.
#[export] Hint Resolve len_nonneg slen_nonneg b2z_range be_value_range : vault.
#[export] Hint Resolve from_utf8_not_panic with_context_not_Panic anyhow_not_Panic : vault.
#[export] Hint Rewrite @len_app @len_cons @length_app be_bytes_length le_bytes_length
  length_as_bytes len_as_bytes : vault.
#[export] Hint Rewrite <- @app_assoc : vault.

#[global] Arguments be_bytes : simpl never.
#[global] Arguments be_value : simpl never.
#[global] Arguments len : simpl never.
#[global] Arguments slen : simpl never.
#[global] Arguments U8 : simpl never.
#[global] Arguments U16 : simpl never.
#[global] Arguments U32 : simpl never.
#[global] Arguments U64 : simpl never.
#[global] Arguments as_u32 : simpl never.
#[global] Arguments as_bytes : simpl never.
#[global] Arguments from_bytes_unchecked : simpl never.
#[global] Arguments from_utf8 : simpl never.
#[global] Arguments utf8_valid : simpl never.
#[global] Arguments with_context : simpl nomatch.
