(* ===== verification/Text.v ===== *)
(** * The parts of Rust's [str] the admin tool works with

    Characters of a UTF-8 string, trimming, ASCII case, splitting at a byte,
    replacing and searching a pattern.  Strings are their bytes. *)

From S2P Require Import Prelude.

(** The characters of a string, each with its bytes: a continuation byte belongs
    to the character before it. *)
Fixpoint char_list (bs : list byte) : list (list byte) :=
  match bs with
  | [] => []
  | b :: rest =>
      match char_list rest with
      | (c :: w) :: cs => if utf8_cont c then (b :: c :: w) :: cs else [b] :: (c :: w) :: cs
      | cs => [b] :: cs
      end
  end.

Definition chars (s : string) : list (list byte) := char_list (as_bytes s).
Definition from_chars (cs : list (list byte)) : string := from_bytes_unchecked (concat cs).

(** [char::is_whitespace]: the characters of the Unicode property White_Space. *)
Definition is_whitespace (c : list byte) : bool :=
  match map b2z c with
  | [b] => ((9 <=? b) && (b <=? 13)) || (b =? 32)
  | [194; b] => (b =? 133) || (b =? 160)
  | [225; 154; 128] => true
  | [226; 128; b] => ((128 <=? b) && (b <=? 138)) || (b =? 168) || (b =? 169) || (b =? 175)
  | [226; 129; 159] => true
  | [227; 128; 128] => true
  | _ => false
  end.

Fixpoint drop_while {A} (f : A -> bool) (l : list A) : list A :=
  match l with
  | x :: rest => if f x then drop_while f rest else l
  | [] => []
  end.

Definition trim (s : string) : string :=
  from_chars (rev (drop_while is_whitespace (rev (drop_while is_whitespace (chars s))))).

Definition lower_byte (b : byte) : byte := if between 65 90 b then z2b (b2z b + 32) else b.

Definition to_ascii_lowercase (s : string) : string :=
  from_bytes_unchecked (map lower_byte (as_bytes s)).

(** [s.is_empty()]. *)
Definition is_empty (s : string) : bool := bool_decide (s = "").

(** [.map(str::trim).filter(|value| !value.is_empty())]. *)
Definition trimmed_nonempty (s : string) : option string :=
  let s := trim s in if is_empty s then None else Some s.

(** [split_once] at a byte. *)
Fixpoint split_at_byte (sep : byte) (bs : list byte) : option (list byte * list byte) :=
  match bs with
  | [] => None
  | b :: rest =>
      if bool_decide (b = sep) then Some ([], rest)
      else '(key, value) ← split_at_byte sep rest; Some (b :: key, value)
  end.

Definition split_once (sep : byte) (s : string) : option (string * string) :=
  '(key, value) ← split_at_byte sep (as_bytes s);
  Some (from_bytes_unchecked key, from_bytes_unchecked value).

(** What follows [pat] at the start of [bs]. *)
Fixpoint strip_bytes (pat bs : list byte) : option (list byte) :=
  match pat, bs with
  | [], _ => Some bs
  | p :: pat, b :: bs => if bool_decide (p = b) then strip_bytes pat bs else None
  | _ :: _, [] => None
  end.

Definition starts_with (pat bs : list byte) : bool :=
  match strip_bytes pat bs with Some _ => true | None => false end.

Definition strip_prefix (pat s : string) : option string :=
  from_bytes_unchecked <$> strip_bytes (as_bytes pat) (as_bytes s).

(** [contains]. *)
Fixpoint contains_bytes (pat bs : list byte) : bool :=
  starts_with pat bs || match bs with [] => false | _ :: rest => contains_bytes pat rest end.

(** [replace], for a pattern that is not empty: the matches from left to right,
    without overlaps; [skip] bytes still belong to the last match. *)
Fixpoint replace_bytes (pat value : list byte) (skip : nat) (bs : list byte) : list byte :=
  match bs with
  | [] => []
  | b :: rest =>
      match skip with
      | S skip => replace_bytes pat value skip rest
      | O =>
          if starts_with pat bs then value ++ replace_bytes pat value (length pat - 1) rest
          else b :: replace_bytes pat value 0 rest
      end
  end.

(** ** Lemmas *)

Lemma as_bytes_app a b : as_bytes (a +:+ b) = as_bytes a ++ as_bytes b.
Proof.
  unfold as_bytes, String.list_byte_of_string. rewrite <- map_app. f_equal.
  induction a as [|c a IH]; [done|]. cbn. by rewrite <- IH.
Qed.

Lemma concat_char_list bs : concat (char_list bs) = bs.
Proof.
  induction bs as [|b bs IH]; [done|]. cbn. destruct (char_list bs) as [|[|c w] cs]; cbn in *.
  - by rewrite <- IH.
  - by rewrite IH.
  - destruct (utf8_cont c); cbn; by rewrite <- IH.
Qed.

Lemma from_chars_chars s : from_chars (chars s) = s.
Proof. unfold from_chars, chars. by rewrite concat_char_list, from_bytes_as_bytes. Qed.

Lemma starts_with_head p pat b bs : p <> b -> starts_with (p :: pat) (b :: bs) = false.
Proof. intros Hn. unfold starts_with. cbn. by rewrite bool_decide_false. Qed.

Lemma starts_with_app pat bs : starts_with pat (pat ++ bs) = true.
Proof.
  unfold starts_with. induction pat as [|p pat IH]; [done|]. cbn. by rewrite bool_decide_true.
Qed.

(** The bytes of a match are skipped. *)
Lemma replace_bytes_skip pat value l bs :
  replace_bytes pat value (length l) (l ++ bs) = replace_bytes pat value 0 bs.
Proof. induction l as [|b l IH]; [by destruct bs|]. done. Qed.

(** A byte that does not start the pattern is copied. *)
Lemma replace_bytes_copy p pat value l bs :
  p ∉ l -> replace_bytes (p :: pat) value 0 (l ++ bs) = l ++ replace_bytes (p :: pat) value 0 bs.
Proof.
  intros Hl. induction l as [|b l IH]; [done|].
  rewrite <- app_comm_cons. cbn [replace_bytes].
  rewrite starts_with_head by (intros ->; apply Hl; by left). cbn. rewrite IH; [done|].
  intros Hin. apply Hl. by right.
Qed.

Lemma contains_bytes_app pat l bs : contains_bytes pat bs = true -> contains_bytes pat (l ++ bs) = true.
Proof.
  intros Hc. induction l as [|b l IH]; [done|]. cbn. by rewrite IH, orb_true_r.
Qed.

Lemma contains_bytes_here pat bs : contains_bytes pat (pat ++ bs) = true.
Proof. destruct (pat ++ bs) eqn:E; cbn; rewrite <- E, starts_with_app; done. Qed.

(** A pattern is not found where its first byte is not. *)
Lemma contains_bytes_absent p pat bs : p ∉ bs -> contains_bytes (p :: pat) bs = false.
Proof.
  induction bs as [|b bs IH]; intros Hn; [done|]. cbn [contains_bytes].
  rewrite starts_with_head by (intros ->; apply Hn; by left). apply IH. intros Hin. apply Hn. by right.
Qed.
