(* ===== verification/Process.v ===== *)
(** * The process a program runs in

    Environment variables, as [std::env] gives them to the [main] of the admin tool,
    the proxy and the init; and what [reqwest] answers. *)

From S2P Require Import Prelude.

(** A variable whose value is not Unicode is there, but cannot be read. *)
Abbreviation Vars := (gmap string (option string)).

(** [std::env::var]. *)
Definition env_var (name : string) (vars : Vars) : Res string :=
  match vars !! name with
  | Some (Some value) => Ok value
  | Some None => Err [Msg "environment variable was not valid unicode"]
  | None => Err [Msg "environment variable not found"]
  end.

(** [Result::ok]. *)
Definition ok {A} (r : Res A) : option A := match r with Ok a => Some a | _ => None end.

Definition set_var (name value : string) : Vars -> Vars := <[name := Some value]>.
Definition remove_var (name : string) : Vars -> Vars := delete name.

(** What every [main] does first: a level for the log. *)
Definition default_log_level (vars : Vars) : Vars :=
  match env_var "RUST_LOG" vars with
  | Ok _ => vars
  | _ => set_var "RUST_LOG" "info" vars
  end.

Lemma default_log_level_other name vars : name <> "RUST_LOG" -> default_log_level vars !! name = vars !! name.
Proof.
  intros Hn. unfold default_log_level, set_var. destruct (env_var "RUST_LOG" vars); [done|by rewrite lookup_insert_ne..].
Qed.

Lemma env_var_log name vars : name <> "RUST_LOG" -> env_var name (default_log_level vars) = env_var name vars.
Proof. intros Hn. unfold env_var. by rewrite default_log_level_other. Qed.

(** An answer over HTTP: its status, and its body or the error of reading it. *)
Record Reply (A : Type) := mkReply { reply_status : Z; reply_body : Res A }.
Arguments mkReply {A} _ _.
Arguments reply_status {A} _.
Arguments reply_body {A} _.

(** [Response::error_for_status]: an error for 400 to 599. *)
Definition is_error_status (status : Z) : bool := (400 <=? status) && (status <? 600).
Definition success_reply {A} (status_error : Z -> Error) (reply : Reply A) : Res (Reply A) :=
  if is_error_status (reply_status reply) then Err (status_error (reply_status reply)) else Ok reply.
