(* ===== verification/Protocol.v ===== *)
(** * The shared wire protocol ([crates/protocol/src/lib.rs])

    The stream and frame tags, the payload types with their encoders and
    decoders, the framing of control and console messages on a stream, and the
    header of a proxied UDP packet.  Encoders return the bytes they append;
    decoders return a result and, where the source advances a cursor, the rest.
    The [bytes] crate and the asynchronous reader and writer are the interfaces
    of [Prelude]. *)

From S2P Require Import Prelude.

(** ** Constants *)

Definition PROTOCOL_VERSION : Z := 1.
Definition CHANNEL_BINDING_LABEL : string := "fly-vault-channel-binding".

Definition STREAM_CONTROL : Z := 1.
Definition STREAM_PORT_FORWARD : Z := 2.
Definition STREAM_CONSOLE : Z := 3.
Definition STREAM_EXEC_LIST : Z := 4.

Definition CONTROL_REQUEST_ATTESTATION : Z := 1.
Definition CONTROL_ATTESTATION : Z := 2.
Definition CONTROL_SETUP_REQUEST : Z := 3.
Definition CONTROL_SETUP_COMPLETE : Z := 4.
Definition CONTROL_ERROR : Z := 5.

Definition CONSOLE_DATA : Z := 0.
Definition CONSOLE_RESIZE : Z := 1.
Definition CONSOLE_EXIT : Z := 2.
Definition CONSOLE_SHELL : Z := 3.
Definition CONSOLE_EXEC : Z := 4.

(** ** Machine and runtime state *)

Inductive VmState := Cold | Ready.

#[export] Instance VmState_eq_dec : EqDecision VmState.
Proof. solve_decision. Defined.

Definition VmState_as_u8 (s : VmState) : Z :=
  match s with Cold => 0 | Ready => 1 end.

Definition VmState_from_u8 (value : Z) : Res VmState :=
  if value =? 0 then Ok Cold
  else if value =? 1 then Ok Ready
  else anyhow ("invalid vm state: " +:+ pretty value).

Inductive RuntimeStatus := NotStarted | SystemInit | FallbackInit.

#[export] Instance RuntimeStatus_eq_dec : EqDecision RuntimeStatus.
Proof. solve_decision. Defined.

Definition RuntimeStatus_as_u8 (s : RuntimeStatus) : Z :=
  match s with NotStarted => 0 | SystemInit => 1 | FallbackInit => 2 end.

Definition RuntimeStatus_from_u8 (value : Z) : Res RuntimeStatus :=
  if value =? 0 then Ok NotStarted
  else if value =? 1 then Ok SystemInit
  else if value =? 2 then Ok FallbackInit
  else anyhow ("invalid runtime status: " +:+ pretty value).

(** ** Frames: [ControlFrame] and [ConsoleFrame]

    The two types have the same fields and the same framing: a type byte, a
    big-endian 32-bit length and the payload. *)

Record ControlFrame := mkControlFrame { cf_ty : Z; cf_payload : list byte }.
Record ConsoleFrame := mkConsoleFrame { cs_ty : Z; cs_payload : list byte }.

Section frames.
Context {R : Type} `{AsyncRead R} {W : Type} `{AsyncWrite W}.

Definition ControlFrame_read_from : M R ControlFrame :=
  ty ← mcontext "read control type" read_u8;
  len ← mcontext "read control payload length" read_u32;
  payload ← mcontext "read control payload" (read_exact (Z.to_nat len));
  mret (mkControlFrame ty payload).

Definition ControlFrame_write_to (self : ControlFrame) : M W unit :=
  _ ← mcontext "write control type" (write_u8 (cf_ty self));
  _ ← mcontext "write control payload length" (write_u32 (as_u32 (len (cf_payload self))));
  _ ← mcontext "write control payload" (write_all (cf_payload self));
  mcontext "flush control frame" flush.

Definition ConsoleFrame_read_from : M R ConsoleFrame :=
  ty ← mcontext "read console type" read_u8;
  len ← mcontext "read console payload length" read_u32;
  payload ← mcontext "read console payload" (read_exact (Z.to_nat len));
  mret (mkConsoleFrame ty payload).

Definition ConsoleFrame_write_to (self : ConsoleFrame) : M W unit :=
  _ ← mcontext "write console type" (write_u8 (cs_ty self));
  _ ← mcontext "write console payload length" (write_u32 (as_u32 (len (cs_payload self))));
  _ ← mcontext "write console payload" (write_all (cs_payload self));
  mcontext "flush console frame" flush.
End frames.

(** ** Payloads *)

Record AttestationPayload := mkAttestation {
  protocol_version : Z;
  state : VmState;
  runtime_status : RuntimeStatus;
  jwt : string;
}.

Inductive RootfsSource :=
| RootfsNone
| RootfsInline (data : list byte)
| RootfsUrl (url : string).

Record SetupRequest := mkSetupRequest { access_token : string; rootfs : RootfsSource }.

Inductive ControlMessage :=
| CMRequestAttestation
| CMAttestation (payload : AttestationPayload)
| CMSetupRequest (payload : SetupRequest)
| CMSetupComplete
| CMError (message : string).

Record SharedConsoleRequest := mkSharedConsoleRequest { scr_rendered_bytes : Z }.

Record ExecSessionRequest := mkExecRequest {
  req_session_id : string;
  req_argv : option (list string);
  req_context : option string;
  req_rendered_bytes : Z;
}.

Record ExecSessionInfo := mkExecInfo {
  info_session_id : string;
  info_argv : list string;
  info_context : option string;
  info_attached : bool;
  info_exit_code : option Z;
}.

Record ExecSessionList := mkExecList { sessions : list ExecSessionInfo }.

Record ProxyPacket := mkProxyPacket { machine_id : string; pp_payload : list byte }.

#[export] Instance RootfsSource_eq_dec : EqDecision RootfsSource.
Proof. solve_decision. Defined.

(** [bytes.has_remaining()]. *)
Definition has_remaining (bytes : list byte) : bool := 0 <? len bytes.

Section codec.
Context {BC : BytesCrate}.

Definition take_len_prefixed (bytes : list byte) (label : string) :
    Res (list byte * list byte) :=
  if len bytes <? 4 then anyhow (label +:+ " length prefix truncated")
  else
    '(n, bytes) ← or_panic (get_u32 bytes);
    if len bytes <? n then anyhow (label +:+ " payload truncated")
    else Ok (take (Z.to_nat n) bytes, drop (Z.to_nat n) bytes).

(** [out.put_u32(len as u32)] and [out.extend_from_slice(..)], the shape every
    variable-length field is written in. *)
Definition put_len_prefixed (out data : list byte) : list byte :=
  put_u32 out (as_u32 (len data)) ++ data.

Definition AttestationPayload_to_bytes (self : AttestationPayload) : list byte :=
  let out := put_u16 [] (protocol_version self) in
  let out := put_u8 out (VmState_as_u8 (state self)) in
  let out := put_u8 out (RuntimeStatus_as_u8 (runtime_status self)) in
  put_len_prefixed out (as_bytes (jwt self)).

Definition AttestationPayload_from_bytes (bytes : list byte) : Res AttestationPayload :=
  if len bytes <? 8 then anyhow "attestation payload too short"
  else
    '(protocol_version, bytes) ← or_panic (get_u16 bytes);
    '(v, bytes) ← or_panic (get_u8 bytes);
    state ← VmState_from_u8 v;
    '(v, bytes) ← or_panic (get_u8 bytes);
    runtime_status ← RuntimeStatus_from_u8 v;
    '(jwt_len, bytes) ← or_panic (get_u32 bytes);
    if negb (len bytes =? jwt_len) then
      anyhow ("attestation payload length mismatch: expected " +:+ pretty jwt_len
              +:+ ", got " +:+ pretty (len bytes))
    else
      jwt ← with_context "attestation jwt not utf-8" (from_utf8 bytes);
      Ok (mkAttestation protocol_version state runtime_status jwt).

Definition RootfsSource_encode (self : RootfsSource) (out : list byte) : list byte :=
  match self with
  | RootfsNone => put_u8 out 0
  | RootfsInline data => put_len_prefixed (put_u8 out 1) data
  | RootfsUrl url => put_len_prefixed (put_u8 out 2) (as_bytes url)
  end.

Definition RootfsSource_decode (bytes : list byte) : Res (RootfsSource * list byte) :=
  if negb (has_remaining bytes) then anyhow "rootfs source payload too short"
  else
    '(kind, bytes) ← or_panic (get_u8 bytes);
    if kind =? 0 then Ok (RootfsNone, bytes)
    else if kind =? 1 then
      '(payload, bytes) ← take_len_prefixed bytes "inline rootfs";
      Ok (RootfsInline payload, bytes)
    else if kind =? 2 then
      '(payload, bytes) ← take_len_prefixed bytes "rootfs url";
      url ← with_context "rootfs url not utf-8" (from_utf8 payload);
      Ok (RootfsUrl url, bytes)
    else anyhow ("invalid rootfs source kind: " +:+ pretty kind).

Definition SetupRequest_to_bytes (self : SetupRequest) : list byte :=
  RootfsSource_encode (rootfs self) (put_len_prefixed [] (as_bytes (access_token self))).

Definition SetupRequest_from_bytes (bytes : list byte) : Res SetupRequest :=
  '(token, bytes) ← take_len_prefixed bytes "access token";
  access_token ← with_context "setup access token not utf-8" (from_utf8 token);
  '(rootfs, bytes) ← RootfsSource_decode bytes;
  if has_remaining bytes then anyhow "setup request payload has trailing bytes"
  else Ok (mkSetupRequest access_token rootfs).

Definition ControlMessage_from_frame (frame : ControlFrame) : Res ControlMessage :=
  if cf_ty frame =? CONTROL_REQUEST_ATTESTATION then
    if negb (len (cf_payload frame) =? 0) then
      anyhow "request attestation frame must be empty"
    else Ok CMRequestAttestation
  else if cf_ty frame =? CONTROL_ATTESTATION then
    payload ← AttestationPayload_from_bytes (cf_payload frame);
    Ok (CMAttestation payload)
  else if cf_ty frame =? CONTROL_SETUP_REQUEST then
    payload ← SetupRequest_from_bytes (cf_payload frame);
    Ok (CMSetupRequest payload)
  else if cf_ty frame =? CONTROL_SETUP_COMPLETE then
    if negb (len (cf_payload frame) =? 0) then
      anyhow "setup complete frame must be empty"
    else Ok CMSetupComplete
  else if cf_ty frame =? CONTROL_ERROR then
    message ← with_context "control error not utf-8" (from_utf8 (cf_payload frame));
    Ok (CMError message)
  else anyhow ("unknown control type: " +:+ pretty (cf_ty frame)).

Definition ControlMessage_to_frame (self : ControlMessage) : ControlFrame :=
  match self with
  | CMRequestAttestation => mkControlFrame CONTROL_REQUEST_ATTESTATION []
  | CMAttestation payload =>
      mkControlFrame CONTROL_ATTESTATION (AttestationPayload_to_bytes payload)
  | CMSetupRequest payload =>
      mkControlFrame CONTROL_SETUP_REQUEST (SetupRequest_to_bytes payload)
  | CMSetupComplete => mkControlFrame CONTROL_SETUP_COMPLETE []
  | CMError message => mkControlFrame CONTROL_ERROR (as_bytes message)
  end.

Definition ControlMessage_read_from {R} `{AsyncRead R} : M R ControlMessage :=
  frame ← ControlFrame_read_from;
  mlift (ControlMessage_from_frame frame).

Definition ControlMessage_write_to {W} `{AsyncWrite W} (self : ControlMessage) : M W unit :=
  ControlFrame_write_to (ControlMessage_to_frame self).

Definition encode_resize (rows cols : Z) : list byte := be_bytes 2 rows ++ be_bytes 2 cols.

Definition decode_resize (data : list byte) : Res (Z * Z) :=
  if negb (len data =? 4) then
    anyhow ("invalid resize payload length: " +:+ pretty (len data))
  else Ok (be_value (take 2 data), be_value (drop 2 data)).

Definition encode_exit (exit_code : Z) : list byte := be_bytes 4 exit_code.

Definition decode_exit (data : list byte) : Res Z :=
  if negb (len data =? 4) then
    anyhow ("invalid exit payload length: " +:+ pretty (len data))
  else Ok (be_value data).

Definition encode_exec_argv (argv : list string) : list byte :=
  fold_left (fun out arg => put_len_prefixed out (as_bytes arg))
    argv (put_u32 [] (as_u32 (len argv))).

(** The loop body of [decode_exec_argv] for one element. *)
Definition decode_exec_arg (data : list byte) : Res (string * list byte) :=
  if len data <? 4 then anyhow "exec argv length prefix truncated"
  else
    '(n, data) ← or_panic (get_u32 data);
    if len data <? n then anyhow "exec argv element truncated"
    else
      arg ← with_context "exec argv not utf-8" (from_utf8 (take (Z.to_nat n) data));
      Ok (arg, drop (Z.to_nat n) data).

(** [for _ in 0..count { out.push(step(&mut data)?) }]. *)
Fixpoint decode_many {A} (step : list byte -> Res (A * list byte)) (count : nat)
    (data : list byte) : Res (list A * list byte) :=
  match count with
  | O => Ok ([], data)
  | S count' =>
      '(x, data) ← step data;
      '(xs, data) ← decode_many step count' data;
      Ok (x :: xs, data)
  end.

(** Memory is not modelled: [Vec::with_capacity] of the count in the message, here and in
    [ExecSessionList::from_bytes], reserves what a peer asks for, and the process is
    aborted when that cannot be had. *)
Definition decode_exec_argv (data : list byte) : Res (list string) :=
  if len data <? 4 then anyhow "exec argv payload too short"
  else
    '(argc, data) ← or_panic (get_u32 data);
    '(argv, data) ← decode_many decode_exec_arg (Z.to_nat argc) data;
    if has_remaining data then anyhow "exec argv payload has trailing bytes"
    else Ok argv.

Definition SharedConsoleRequest_to_bytes (self : SharedConsoleRequest) : list byte :=
  be_bytes 8 (scr_rendered_bytes self).

Definition SharedConsoleRequest_from_bytes (data : list byte) : Res SharedConsoleRequest :=
  if len data =? 0 then Ok (mkSharedConsoleRequest 0)
  else if len data =? 8 then Ok (mkSharedConsoleRequest (be_value data))
  else anyhow ("invalid shared console payload length: " +:+ pretty (len data)).

(** [Some(x) => put_u8(1), length, bytes; None => put_u8(0)]. *)
Definition put_opt_prefixed (out : list byte) (x : option (list byte)) : list byte :=
  match x with
  | Some data => put_len_prefixed (put_u8 out 1) data
  | None => put_u8 out 0
  end.

Definition ExecSessionRequest_to_bytes (self : ExecSessionRequest) : list byte :=
  let out := put_len_prefixed [] (as_bytes (req_session_id self)) in
  let out := put_opt_prefixed out (encode_exec_argv <$> req_argv self) in
  let out := put_opt_prefixed out (as_bytes <$> req_context self) in
  put_u64 out (req_rendered_bytes self).

(** The context field shared by [ExecSessionRequest] and [ExecSessionInfo]. *)
Definition decode_context (bytes : list byte) : Res (option string * list byte) :=
  '(has_context, bytes) ← or_panic (get_u8 bytes);
  if has_context =? 0 then Ok (None, bytes)
  else if has_context =? 1 then
    '(payload, bytes) ← take_len_prefixed bytes "exec session context";
    ctx ← with_context "exec session context not utf-8" (from_utf8 payload);
    Ok (Some ctx, bytes)
  else anyhow ("invalid exec session context flag: " +:+ pretty has_context).

Definition ExecSessionRequest_from_bytes (data : list byte) : Res ExecSessionRequest :=
  '(session_id, data) ← take_len_prefixed data "exec session id";
  session_id ← with_context "exec session id not utf-8" (from_utf8 session_id);
  if slen session_id =? 0 then anyhow "exec session id must not be empty"
  else if negb (has_remaining data) then anyhow "exec session payload missing argv flag"
  else
    '(has_argv, data) ← or_panic (get_u8 data);
    '(argv, data) ←
      (if has_argv =? 0 then Ok (None, data)
       else if has_argv =? 1 then
         '(argv, data) ← take_len_prefixed data "exec session argv";
         argv ← decode_exec_argv argv;
         Ok (Some argv, data)
       else anyhow ("invalid exec session argv flag: " +:+ pretty has_argv));
    if negb (has_remaining data) then Ok (mkExecRequest session_id argv None 0)
    else
      '(ctx, data) ← decode_context data;
      rendered_bytes ←
        (if len data =? 0 then Ok 0
         else if len data =? 8 then fst <$> or_panic (get_u64 data)
         else anyhow ("exec session payload has invalid rendered byte length: "
                      +:+ pretty (len data)));
      Ok (mkExecRequest session_id argv ctx rendered_bytes).

Definition ExecSessionInfo_encode (self : ExecSessionInfo) (out : list byte) : list byte :=
  let out := put_len_prefixed out (as_bytes (info_session_id self)) in
  let out := put_u8 out (if info_attached self then 1 else 0) in
  let out := match info_exit_code self with
             | Some code => put_u32 (put_u8 out 1) code
             | None => put_u8 out 0
             end in
  let out := put_len_prefixed out (encode_exec_argv (info_argv self)) in
  put_opt_prefixed out (as_bytes <$> info_context self).

Definition ExecSessionInfo_decode (data : list byte) : Res (ExecSessionInfo * list byte) :=
  '(session_id, data) ← take_len_prefixed data "exec session info id";
  session_id ← with_context "exec session info id not utf-8" (from_utf8 session_id);
  if slen session_id =? 0 then anyhow "exec session info id must not be empty"
  else if len data <? 2 then anyhow "exec session info payload too short"
  else
    '(v, data) ← or_panic (get_u8 data);
    attached ←
      (if v =? 0 then Ok false else if v =? 1 then Ok true
       else anyhow ("invalid exec session attached flag: " +:+ pretty v));
    '(v, data) ← or_panic (get_u8 data);
    '(exit_code, data) ←
      (if v =? 0 then Ok (None, data)
       else if v =? 1 then
         if len data <? 4 then anyhow "exec session exit code truncated"
         else '(code, data) ← or_panic (get_u32 data); Ok (Some code, data)
       else anyhow ("invalid exec session exit flag: " +:+ pretty v));
    '(argv, data) ← take_len_prefixed data "exec session argv";
    argv ← decode_exec_argv argv;
    if negb (has_remaining data) then
      Ok (mkExecInfo session_id argv None attached exit_code, data)
    else
      '(ctx, data) ← decode_context data;
      Ok (mkExecInfo session_id argv ctx attached exit_code, data).

Definition ExecSessionList_to_bytes (self : ExecSessionList) : list byte :=
  fold_left (fun out session => ExecSessionInfo_encode session out)
    (sessions self) (put_u32 [] (as_u32 (len (sessions self)))).

Definition ExecSessionList_from_bytes (data : list byte) : Res ExecSessionList :=
  if len data <? 4 then anyhow "exec session list payload too short"
  else
    '(count, data) ← or_panic (get_u32 data);
    '(sessions, data) ← decode_many ExecSessionInfo_decode (Z.to_nat count) data;
    if has_remaining data then anyhow "exec session list payload has trailing bytes"
    else Ok (mkExecList sessions).

Definition ExecSessionList_read_from {R} `{AsyncRead R} : M R ExecSessionList :=
  len ← mcontext "read exec session list length" read_u32;
  payload ← mcontext "read exec session list payload" (read_exact (Z.to_nat len));
  mlift (ExecSessionList_from_bytes payload).

Definition ExecSessionList_write_to {W} `{AsyncWrite W} (self : ExecSessionList) : M W unit :=
  let payload := ExecSessionList_to_bytes self in
  _ ← mcontext "write exec session list length" (write_u32 (as_u32 (len payload)));
  _ ← mcontext "write exec session list payload" (write_all payload);
  mcontext "flush exec session list" flush.
End codec.

#[global] Arguments encode_exec_argv : simpl never.
#[global] Arguments decode_exec_argv : simpl never.
#[global] Arguments take_len_prefixed : simpl never.
#[global] Arguments decode_context : simpl never.
#[global] Arguments has_remaining : simpl never.

(** ** Proxied UDP packets *)

Definition encode_proxy_machine_header (machine_id : string) : Res (list byte) :=
  if slen machine_id =? 0 then anyhow "machine_id must not be empty"
  else Ok (le_bytes 8 (len (as_bytes machine_id)) ++ as_bytes machine_id).

(** A slice [&packet[lo..hi]]: a panic unless [lo <= hi <= packet.len()]. *)
Definition slice {A} (l : list A) (lo hi : Z) : Res (list A) :=
  if (lo <=? hi) && (hi <=? len l)
  then Ok (take (Z.to_nat (hi - lo)) (drop (Z.to_nat lo) l))
  else Panic.

(** The sum [8 + id_len] is [usize] arithmetic: it wraps in a release build. *)
Definition decode_proxy_packet (packet : list byte) : Res ProxyPacket :=
  if len packet <? 8 then anyhow "packet too short for proxy header"
  else
    let id_len := le_value (take 8 packet) in
    if id_len =? 0 then anyhow "proxy machine id must not be empty"
    else if len packet <? wrapping_add_usize 8 id_len then
      anyhow "packet too short for proxy machine id"
    else
      machine_id_bytes ← slice packet 8 (wrapping_add_usize 8 id_len);
      machine_id ← with_context "proxy machine id not utf-8" (from_utf8 machine_id_bytes);
      payload ← slice packet (wrapping_add_usize 8 id_len) (len packet);
      if len payload =? 0 then anyhow "proxy packet payload must not be empty"
      else Ok (mkProxyPacket machine_id payload).

(** ** Concrete instances of the interfaces, for evaluation *)

Definition get_be (n : nat) (bs : list byte) : option (Z * list byte) :=
  if (n <=? length bs)%nat then Some (be_value (take n bs), drop n bs) else None.

Lemma get_be_spec n bs : (n <= length bs)%nat -> get_be n bs = Some (be_value (take n bs), drop n bs).
Proof. unfold get_be. intros H%Nat.leb_le. rewrite H. done. Qed.

Definition bytes_crate : BytesCrate := {|
  get_u8 := get_be 1; get_u16 := get_be 2; get_u32 := get_be 4; get_u64 := get_be 8;
  put_u8 out x := out ++ be_bytes 1 x; put_u16 out x := out ++ be_bytes 2 x;
  put_u32 out x := out ++ be_bytes 4 x; put_u64 out x := out ++ be_bytes 8 x;
  get_u8_spec := get_be_spec 1; get_u16_spec := get_be_spec 2;
  get_u32_spec := get_be_spec 4; get_u64_spec := get_be_spec 8;
  put_u8_spec _ _ := eq_refl; put_u16_spec _ _ := eq_refl;
  put_u32_spec _ _ := eq_refl; put_u64_spec _ _ := eq_refl;
|}.

(** A byte list as a reader (the rest of it) and as a writer (what it holds). *)
Definition list_read (n : nat) : M (list byte) (list byte) := fun r =>
  if (n <=? length r)%nat then (Ok (take n r), drop n r) else (Err [Io UnexpectedEof], []).

#[export] Instance list_AsyncRead : AsyncRead (list byte) := {|
  read_u8 := bs ← list_read 1; mret (be_value bs);
  read_u32 := bs ← list_read 4; mret (be_value bs);
  read_exact := list_read;
|}.

#[export] Instance list_AsyncWrite : AsyncWrite (list byte) := {|
  write_u8 x := fun w => (Ok tt, w ++ be_bytes 1 x);
  write_u32 x := fun w => (Ok tt, w ++ be_bytes 4 x);
  write_all bs := fun w => (Ok tt, w ++ bs);
  flush := fun w => (Ok tt, w);
|}.

(** ** Well-formed values: the type invariants and the sizes a length field can carry *)

Definition field_ok (data : list byte) : Prop := len data < U32.
Definition str_field_ok (s : string) : Prop := str_ok s /\ field_ok (as_bytes s).

Definition AttestationPayload_ok (p : AttestationPayload) : Prop :=
  0 <= protocol_version p < U16 /\ str_field_ok (jwt p).

Definition RootfsSource_ok (r : RootfsSource) : Prop :=
  match r with
  | RootfsNone => True
  | RootfsInline data => field_ok data
  | RootfsUrl url => str_field_ok url
  end.

Definition SetupRequest_ok (r : SetupRequest) : Prop :=
  str_field_ok (access_token r) /\ RootfsSource_ok (rootfs r).

(** A length-prefixed field as bytes. *)
Definition lp (data : list byte) : list byte := be_bytes 4 (as_u32 (len data)) ++ data.
Definition opt_lp (x : option (list byte)) : list byte :=
  match x with Some data => be_bytes 1 1 ++ lp data | None => be_bytes 1 0 end.

(** The bytes of an argv, as the concatenation of its fields. *)
Definition argv_bytes (argv : list string) : list byte :=
  be_bytes 4 (as_u32 (len argv)) ++ concat ((fun arg => lp (as_bytes arg)) <$> argv).

Definition argv_ok (argv : list string) : Prop :=
  len argv < U32 /\ Forall str_field_ok argv /\ field_ok (argv_bytes argv).

Definition opt_ok {A} (P : A -> Prop) (x : option A) : Prop :=
  match x with Some a => P a | None => True end.

Definition ExecSessionRequest_ok (r : ExecSessionRequest) : Prop :=
  req_session_id r <> EmptyString /\ str_field_ok (req_session_id r) /\
  opt_ok argv_ok (req_argv r) /\ opt_ok str_field_ok (req_context r) /\
  0 <= req_rendered_bytes r < U64.

Definition ExecSessionInfo_ok (i : ExecSessionInfo) : Prop :=
  info_session_id i <> EmptyString /\ str_field_ok (info_session_id i) /\
  argv_ok (info_argv i) /\ opt_ok str_field_ok (info_context i) /\
  opt_ok (fun c => 0 <= c < U32) (info_exit_code i).

Definition ExecSessionList_ok (l : ExecSessionList) : Prop :=
  len (sessions l) < U32 /\ Forall ExecSessionInfo_ok (sessions l).

(** ** Shared lemmas of the codecs *)

Section codec_lemmas.
Context {BC : BytesCrate}.

Lemma take_be n x rest : take n (be_bytes n x ++ rest) = be_bytes n x.
Proof. apply take_app_length'. rewrite be_bytes_length. done. Qed.

Lemma drop_be n x rest : drop n (be_bytes n x ++ rest) = rest.
Proof. apply drop_app_length'. rewrite be_bytes_length. done. Qed.

Lemma get_u8_app x rest : get_u8 (be_bytes 1 x ++ rest) = Some (x mod U8, rest).
Proof.
  rewrite get_u8_spec by (rewrite length_app, be_bytes_length; lia).
  rewrite take_be, drop_be, be_value_bytes. done.
Qed.

Lemma get_u8_small x rest : 0 <= x < 256 -> get_u8 (be_bytes 1 x ++ rest) = Some (x, rest).
Proof. intros H. rewrite get_u8_app. unfold U8. rewrite Z.mod_small by done. done. Qed.

Lemma get_u16_app x rest : get_u16 (be_bytes 2 x ++ rest) = Some (x mod U16, rest).
Proof.
  rewrite get_u16_spec by (rewrite length_app, be_bytes_length; lia).
  rewrite take_be, drop_be, be_value_bytes. done.
Qed.

Lemma get_u32_app x rest : get_u32 (be_bytes 4 x ++ rest) = Some (x mod U32, rest).
Proof.
  rewrite get_u32_spec by (rewrite length_app, be_bytes_length; lia).
  rewrite take_be, drop_be, be_value_bytes. done.
Qed.

Lemma get_u64_app x rest : get_u64 (be_bytes 8 x ++ rest) = Some (x mod U64, rest).
Proof.
  rewrite get_u64_spec by (rewrite length_app, be_bytes_length; lia).
  rewrite take_be, drop_be, be_value_bytes. done.
Qed.

Lemma as_u32_small x : 0 <= x < U32 -> as_u32 x mod U32 = x.
Proof. intros H. unfold as_u32. rewrite Zmod_mod, Z.mod_small; done. Qed.

Lemma len_be n x : len (be_bytes n x) = Z.of_nat n.
Proof. unfold len. rewrite be_bytes_length. done. Qed.

Lemma len_lp data : len (lp data) = 4 + len data.
Proof. unfold lp. rewrite len_app, len_be. done. Qed.

Lemma put_len_prefixed_lp out data : put_len_prefixed out data = out ++ lp data.
Proof. unfold put_len_prefixed, lp. rewrite put_u32_spec, <- app_assoc. done. Qed.

Lemma put_opt_prefixed_lp out x : put_opt_prefixed out x = out ++ opt_lp x.
Proof.
  destruct x as [data|]; cbn [put_opt_prefixed opt_lp].
  - rewrite put_len_prefixed_lp, put_u8_spec, <- app_assoc. done.
  - apply put_u8_spec.
Qed.

Lemma take_len_prefixed_lp data rest label :
  field_ok data -> take_len_prefixed (lp data ++ rest) label = Ok (data, rest).
Proof.
  unfold field_ok. intros Hlen. pose proof (len_nonneg data). pose proof (len_nonneg rest).
  unfold take_len_prefixed. rewrite len_app, len_lp.
  destruct (Z.ltb_spec (4 + len data + len rest) 4); [lia|].
  unfold lp. rewrite <- app_assoc, get_u32_app. cbn.
  rewrite as_u32_small, len_app by lia.
  destruct (Z.ltb_spec (len data + len rest) (len data)); [lia|].
  unfold len. rewrite Nat2Z.id, take_app_length, drop_app_length. done.
Qed.

Lemma get_u32_decompose bs n rest :
  (4 <= length bs)%nat -> get_u32 bs = Some (n, rest) ->
  bs = be_bytes 4 n ++ rest /\ 0 <= n < U32.
Proof.
  intros Hl. rewrite get_u32_spec by done. intros [= <- <-].
  assert (H4 : length (take 4 bs) = 4%nat) by (rewrite length_take; lia).
  split.
  - rewrite <- H4 at 1. rewrite be_bytes_value, take_drop. done.
  - pose proof (be_value_range (take 4 bs)) as Hr. unfold len in Hr. rewrite H4 in Hr. done.
Qed.

(** What a successful read says about the input: it started with that field. *)
Lemma take_len_prefixed_inv bs label data rest :
  take_len_prefixed bs label = Ok (data, rest) -> bs = lp data ++ rest /\ field_ok data.
Proof.
  unfold take_len_prefixed. destruct (Z.ltb_spec (len bs) 4) as [|Hb]; [done|].
  intros H. inv_ok. destruct (get_u32 bs) as [[n bs']|] eqn:E; [|done].
  cbn in *. inv_ok. apply get_u32_decompose in E as [-> Hn]; [|unfold len in Hb; lia].
  destruct (Z.ltb_spec (len bs') n) as [|Hl]; [done|]. injection H0 as <- <-.
  assert (Hlen : len (take (Z.to_nat n) bs') = n).
  { unfold len in *. rewrite length_take. lia. }
  unfold lp, field_ok. rewrite Hlen, <- app_assoc, take_drop. split; [|lia].
  unfold as_u32. rewrite Z.mod_small by lia. done.
Qed.

Lemma take_len_prefixed_no_panic bs label : take_len_prefixed bs label <> Panic.
Proof.
  unfold take_len_prefixed. destruct (Z.ltb_spec (len bs) 4) as [|Hb]; [done|].
  rewrite get_u32_spec by (unfold len in Hb; lia). cbn. case_test; done.
Qed.

Lemma decode_many_encode {A} (enc : A -> list byte) step l rest :
  (forall x k, x ∈ l -> step (enc x ++ k) = Ok (x, k)) ->
  decode_many step (length l) (concat (enc <$> l) ++ rest) = Ok (l, rest).
Proof.
  induction l as [|x l IH]; intros Hstep; [done|].
  rewrite fmap_cons. cbn [concat length decode_many].
  rewrite <- app_assoc, Hstep by set_solver. cbn.
  rewrite IH by set_solver. done.
Qed.

Lemma decode_many_inv {A} (enc : A -> list byte) (P : A -> Prop) step n bs l rest :
  (forall bs x k, step bs = Ok (x, k) -> bs = enc x ++ k /\ P x) ->
  decode_many step n bs = Ok (l, rest) ->
  bs = concat (enc <$> l) ++ rest /\ length l = n /\ Forall P l.
Proof.
  intros Hstep. revert bs l. induction n as [|n IH]; intros bs l H; cbn in H.
  { injection H as <- <-. auto. }
  apply bind_Ok in H as ([x bs1] & Hs & H). apply bind_Ok in H as ([xs bs2] & Hr & H).
  injection H as <- <-. apply Hstep in Hs as [-> Hx]. apply IH in Hr as (-> & <- & Hl).
  rewrite fmap_cons. cbn [concat length]. rewrite <- app_assoc. auto.
Qed.

Lemma decode_many_no_panic {A} (step : list byte -> Res (A * list byte)) n bs :
  (forall bs, step bs <> Panic) -> decode_many step n bs <> Panic.
Proof.
  intros Hstep. revert bs. induction n as [|n IH]; intros bs; [done|]. cbn.
  apply bind_not_Panic; [apply Hstep|]. intros [x k] _.
  apply bind_not_Panic; [apply IH|]. intros [xs k'] _. done.
Qed.

Lemma encode_exec_argv_bytes argv : encode_exec_argv argv = argv_bytes argv.
Proof.
  unfold encode_exec_argv, argv_bytes. rewrite put_u32_spec. cbn [app].
  generalize (be_bytes 4 (as_u32 (len argv))) as out.
  induction argv as [|a argv IH]; intros out; cbn.
  - rewrite app_nil_r. done.
  - rewrite put_len_prefixed_lp, IH, <- app_assoc. done.
Qed.

Lemma decode_exec_arg_lp arg rest :
  str_field_ok arg -> decode_exec_arg (lp (as_bytes arg) ++ rest) = Ok (arg, rest).
Proof.
  intros [Hs Hf]. pose proof (take_len_prefixed_lp (as_bytes arg) rest "" Hf) as H.
  unfold take_len_prefixed in H. unfold decode_exec_arg.
  case_in H. apply bind_Ok in H as ([n data] & -> & H). cbn.
  case_in H. injection H as -> ->. rewrite from_utf8_as_bytes by done. done.
Qed.

Lemma decode_exec_arg_inv bs arg rest :
  decode_exec_arg bs = Ok (arg, rest) -> bs = lp (as_bytes arg) ++ rest /\ str_field_ok arg.
Proof.
  unfold decode_exec_arg. destruct (Z.ltb_spec (len bs) 4) as [|Hb]; [done|].
  intros H. pose proof (take_len_prefixed_inv bs "") as Hinv. unfold take_len_prefixed in Hinv.
  destruct (Z.ltb_spec (len bs) 4) as [|_]; [lia|].
  apply bind_Ok in H as ([n data] & HE & H). rewrite HE in Hinv. cbn in Hinv, H.
  case_in H. inv_ok. apply from_utf8_Ok in H as [Hx Hs].
  destruct (Hinv _ _ eq_refl) as [-> Hf]. rewrite Hx. split; [done|].
  split; [done|]. unfold field_ok in *. rewrite Hx. done.
Qed.

Lemma decode_exec_arg_no_panic bs : decode_exec_arg bs <> Panic.
Proof.
  unfold decode_exec_arg. destruct (Z.ltb_spec (len bs) 4) as [|Hb]; [done|].
  rewrite get_u32_spec by (unfold len in Hb; lia). cbn. case_test; [done|].
  apply bind_not_Panic; auto with vault.
Qed.

Lemma decode_exec_argv_bytes argv : argv_ok argv -> decode_exec_argv (argv_bytes argv) = Ok argv.
Proof.
  intros (Hn & Hall & _). pose proof (len_nonneg argv).
  unfold decode_exec_argv, argv_bytes. rewrite len_app, len_be.
  set (tail := concat _). pose proof (len_nonneg tail).
  destruct (Z.ltb_spec (Z.of_nat 4 + len tail) 4); [lia|].
  rewrite get_u32_app. cbn. rewrite as_u32_small by lia.
  unfold len at 1. rewrite Nat2Z.id. subst tail. rewrite <- (app_nil_r (concat _)).
  rewrite decode_many_encode; [done|]. intros x k Hx. rewrite Forall_forall in Hall.
  apply decode_exec_arg_lp, Hall. done.
Qed.

Lemma decode_exec_argv_no_panic bs : decode_exec_argv bs <> Panic.
Proof.
  unfold decode_exec_argv. destruct (Z.ltb_spec (len bs) 4) as [|Hb]; [done|].
  rewrite get_u32_spec by (unfold len in Hb; lia). cbn.
  apply bind_not_Panic; [apply decode_many_no_panic, decode_exec_arg_no_panic|].
  intros [l k] _. case_test; done.
Qed.
End codec_lemmas.

#[export] Hint Resolve take_len_prefixed_no_panic decode_exec_argv_no_panic : vault.

(** ** Round trips and totality of the payload codecs *)

Section payloads.
Context {BC : BytesCrate}.

Lemma has_remaining_cons bs : has_remaining bs = false -> bs = [].
Proof.
  unfold has_remaining. destruct bs as [|b bs]; [done|]. rewrite len_cons.
  pose proof (len_nonneg bs). intros Hr. apply Z.ltb_ge in Hr. lia.
Qed.

Lemma has_remaining_be n x rest : has_remaining (be_bytes (S n) x ++ rest) = true.
Proof.
  unfold has_remaining. rewrite len_app, len_be. pose proof (len_nonneg rest).
  apply Z.ltb_lt. lia.
Qed.

Lemma AttestationPayload_to_bytes_lp p :
  AttestationPayload_to_bytes p =
  be_bytes 2 (protocol_version p) ++ be_bytes 1 (VmState_as_u8 (state p)) ++
  be_bytes 1 (RuntimeStatus_as_u8 (runtime_status p)) ++ lp (as_bytes (jwt p)).
Proof.
  unfold AttestationPayload_to_bytes.
  rewrite put_len_prefixed_lp, !put_u8_spec, put_u16_spec, <- !app_assoc. done.
Qed.

Lemma VmState_from_as_u8 s : VmState_from_u8 (VmState_as_u8 s mod U8) = Ok s.
Proof. destruct s; done. Qed.

Lemma RuntimeStatus_from_as_u8 s : RuntimeStatus_from_u8 (RuntimeStatus_as_u8 s mod U8) = Ok s.
Proof. destruct s; done. Qed.

Lemma attestation_codec p :
  AttestationPayload_ok p -> AttestationPayload_from_bytes (AttestationPayload_to_bytes p) = Ok p.
Proof.
  intros (Hv & Hs & Hf). pose proof (len_nonneg (as_bytes (jwt p))).
  rewrite AttestationPayload_to_bytes_lp. unfold AttestationPayload_from_bytes.
  rewrite !len_app, !len_be, len_lp.
  destruct (Z.ltb_spec (Z.of_nat 2 + (Z.of_nat 1 + (Z.of_nat 1 + (4 + len (as_bytes (jwt p)))))) 8);
    [lia|].
  rewrite get_u16_app. cbn. rewrite get_u8_app. cbn. rewrite VmState_from_as_u8. cbn.
  rewrite get_u8_app. cbn. rewrite RuntimeStatus_from_as_u8. cbn.
  unfold lp. rewrite get_u32_app. cbn. rewrite as_u32_small by done.
  rewrite Z.eqb_refl. cbn. rewrite from_utf8_as_bytes by done. cbn.
  rewrite Z.mod_small by done. destruct p; done.
Qed.

Lemma RootfsSource_encode_app r out :
  RootfsSource_encode r out = out ++ RootfsSource_encode r [].
Proof.
  destruct r; cbn; rewrite ?put_len_prefixed_lp, !put_u8_spec, <- ?app_assoc; done.
Qed.

Lemma rootfs_codec r rest :
  RootfsSource_ok r -> RootfsSource_decode (RootfsSource_encode r [] ++ rest) = Ok (r, rest).
Proof.
  unfold RootfsSource_decode. destruct r as [|data|url]; cbn;
    rewrite ?put_len_prefixed_lp, !put_u8_spec; cbn [app]; rewrite <- ?app_assoc.
  - intros _. rewrite has_remaining_be; rewrite get_u8_small by lia. done.
  - intros Hd. rewrite has_remaining_be; rewrite get_u8_small by lia. cbn.
    rewrite take_len_prefixed_lp by done. done.
  - intros [Hs Hf]. rewrite has_remaining_be; rewrite get_u8_small by lia. cbn.
    rewrite take_len_prefixed_lp by done. cbn. rewrite from_utf8_as_bytes by done. done.
Qed.

Lemma setup_request_codec r :
  SetupRequest_ok r -> SetupRequest_from_bytes (SetupRequest_to_bytes r) = Ok r.
Proof.
  intros [[Hs Hf] Hr]. unfold SetupRequest_from_bytes, SetupRequest_to_bytes.
  rewrite RootfsSource_encode_app, put_len_prefixed_lp. cbn [app].
  rewrite take_len_prefixed_lp by done. cbn. rewrite from_utf8_as_bytes by done. cbn.
  rewrite <- (app_nil_r (RootfsSource_encode _ _)), rootfs_codec by done.
  destruct r; done.
Qed.

(** The decoder accepts nothing but encodings. *)
Lemma RootfsSource_decode_inv bs r rest :
  RootfsSource_decode bs = Ok (r, rest) -> bs = RootfsSource_encode r [] ++ rest /\ RootfsSource_ok r.
Proof.
  unfold RootfsSource_decode. destruct (has_remaining bs) eqn:Hrem; [|done]. cbn [negb].
  destruct bs as [|b bs]; [done|].
  rewrite get_u8_spec by (cbn; lia).
  change (take 1 (b :: bs)) with [b]. change (drop 1 (b :: bs)) with bs.
  cbn [or_panic mbind Res_bind].
  assert (Hb : be_bytes 1 (be_value [b]) = [b]) by apply (be_bytes_value [b]).
  intros H. case_in H; [|case_in H; [|case_in H]].
  - injection H as <- <-. apply Z.eqb_eq in Heqb0.
    cbn. rewrite put_u8_spec, <- Heqb0, Hb. done.
  - apply bind_Ok in H as ([payload k] & H & Hk). injection Hk as <- <-.
    apply take_len_prefixed_inv in H as [-> Hf]. apply Z.eqb_eq in Heqb1.
    cbn. rewrite put_len_prefixed_lp, put_u8_spec, <- Heqb1, Hb. done.
  - apply bind_Ok in H as ([payload k] & H & Hk).
    apply bind_Ok in Hk as (url & Hu & Hk). apply with_context_Ok, from_utf8_Ok in Hu as [Hu Hs].
    injection Hk as <- <-. apply take_len_prefixed_inv in H as [-> Hf]. apply Z.eqb_eq in Heqb2.
    cbn. rewrite put_len_prefixed_lp, put_u8_spec, <- Heqb2, Hb, Hu.
    unfold str_field_ok, field_ok in *. rewrite Hu. done.
Qed.

Lemma setup_request_canonical bs r :
  SetupRequest_from_bytes bs = Ok r -> SetupRequest_to_bytes r = bs /\ SetupRequest_ok r.
Proof.
  unfold SetupRequest_from_bytes. intros H.
  apply bind_Ok in H as ([token k] & H & Hk). apply take_len_prefixed_inv in H as [-> Hf].
  apply bind_Ok in Hk as (t & Ht & Hk). apply with_context_Ok, from_utf8_Ok in Ht as [<- Hs].
  apply bind_Ok in Hk as ([rf k'] & Hrf & Hk). apply RootfsSource_decode_inv in Hrf as [-> Hr].
  case_in Hk. injection Hk as <-. apply has_remaining_cons in Heqb as ->.
  unfold SetupRequest_to_bytes. cbn. rewrite RootfsSource_encode_app, put_len_prefixed_lp, app_nil_r.
  done.
Qed.

Lemma attestation_no_panic bs : AttestationPayload_from_bytes bs <> Panic.
Proof.
  unfold AttestationPayload_from_bytes. destruct (Z.ltb_spec (len bs) 8) as [|Hb]; [done|].
  unfold len in Hb.
  rewrite get_u16_spec by lia. cbn. rewrite get_u8_spec by (rewrite length_drop; lia). cbn.
  apply bind_not_Panic; [unfold VmState_from_u8; repeat case_test; done|]. intros s _.
  rewrite get_u8_spec by (rewrite !length_drop; lia). cbn.
  apply bind_not_Panic; [unfold RuntimeStatus_from_u8; repeat case_test; done|]. intros rs _.
  rewrite get_u32_spec by (rewrite !length_drop; lia). cbn. case_test; [done|].
  apply bind_not_Panic; auto with vault.
Qed.

Lemma get_u8_remaining bs : has_remaining bs = true ->
  exists v k, get_u8 bs = Some (v, k).
Proof.
  unfold has_remaining. intros H. rewrite get_u8_spec; [eauto|]. unfold len in H. lia.
Qed.

Lemma rootfs_no_panic bs : RootfsSource_decode bs <> Panic.
Proof.
  unfold RootfsSource_decode. destruct (has_remaining bs) eqn:Hr; [|done].
  apply get_u8_remaining in Hr as (v & k & ->). cbn. repeat case_test; try done.
  - apply bind_not_Panic; [auto with vault|]. intros [? ?] _. done.
  - apply bind_not_Panic; [auto with vault|]. intros [? ?] _.
    apply bind_not_Panic; auto with vault.
Qed.

Lemma setup_request_no_panic bs : SetupRequest_from_bytes bs <> Panic.
Proof.
  unfold SetupRequest_from_bytes. apply bind_not_Panic; [auto with vault|]. intros [? ?] _.
  apply bind_not_Panic; [auto with vault|]. intros ? _.
  apply bind_not_Panic; [apply rootfs_no_panic|]. intros [? ?] _. case_test; done.
Qed.

(** *** Exec sessions *)

Lemma ExecSessionRequest_to_bytes_lp r :
  ExecSessionRequest_to_bytes r =
  lp (as_bytes (req_session_id r)) ++ opt_lp (argv_bytes <$> req_argv r) ++
  opt_lp (as_bytes <$> req_context r) ++ be_bytes 8 (req_rendered_bytes r).
Proof.
  unfold ExecSessionRequest_to_bytes.
  rewrite put_u64_spec, !put_opt_prefixed_lp, put_len_prefixed_lp, <- !app_assoc.
  destruct (req_argv r) as [argv|]; cbn; rewrite ?encode_exec_argv_bytes; done.
Qed.

Lemma opt_lp_remaining x rest : has_remaining (opt_lp x ++ rest) = true.
Proof. destruct x; cbn [opt_lp]; rewrite <- ?app_assoc; apply has_remaining_be. Qed.

Lemma decode_context_opt c rest :
  opt_ok str_field_ok c -> decode_context (opt_lp (as_bytes <$> c) ++ rest) = Ok (c, rest).
Proof.
  unfold decode_context. destruct c as [c|]; cbn.
  - intros [Hs Hf]. rewrite <- app_assoc; rewrite get_u8_small by lia. cbn.
    rewrite take_len_prefixed_lp by done. cbn. rewrite from_utf8_as_bytes by done. done.
  - intros _. rewrite get_u8_small by lia. done.
Qed.

Lemma slen_ne s : s <> EmptyString -> (slen s =? 0) = false.
Proof. intros H. apply Z.eqb_neq. intros E%slen_0. done. Qed.

Lemma exec_request_codec r :
  ExecSessionRequest_ok r -> ExecSessionRequest_from_bytes (ExecSessionRequest_to_bytes r) = Ok r.
Proof.
  intros (Hne & [Hs Hf] & Hargv & Hctx & Hrb).
  rewrite ExecSessionRequest_to_bytes_lp. unfold ExecSessionRequest_from_bytes.
  rewrite take_len_prefixed_lp by done. cbn. rewrite from_utf8_as_bytes by done. cbn.
  rewrite slen_ne by done. rewrite opt_lp_remaining. cbn [negb].
  destruct r as [sid argv ctx rb]; cbn in *.
  assert (Htail : decode_context (opt_lp (as_bytes <$> ctx) ++ be_bytes 8 rb) = Ok (ctx, be_bytes 8 rb))
    by (apply decode_context_opt; done).
  assert (Hu : or_panic (get_u64 (be_bytes 8 rb)) = Ok (rb, [])).
  { rewrite <- (app_nil_r (be_bytes 8 rb)), get_u64_app, Z.mod_small by done. done. }
  destruct argv as [argv|]; cbn in *.
  - rewrite <- app_assoc; rewrite get_u8_small by lia. cbn. rewrite take_len_prefixed_lp by apply Hargv. cbn.
    rewrite decode_exec_argv_bytes by done. cbn. rewrite opt_lp_remaining. cbn.
    rewrite Htail. cbn. rewrite len_be. cbn. rewrite Hu. done.
  - rewrite get_u8_small by lia. cbn. rewrite opt_lp_remaining. cbn.
    rewrite Htail. cbn. rewrite len_be. cbn. rewrite Hu. done.
Qed.

Lemma decode_context_no_panic bs : has_remaining bs = true -> decode_context bs <> Panic.
Proof.
  intros Hr. unfold decode_context. apply get_u8_remaining in Hr as (v & k & ->). cbn.
  repeat case_test; try done. apply bind_not_Panic; [auto with vault|]. intros [? ?] _.
  apply bind_not_Panic; auto with vault.
Qed.

Lemma exec_request_no_panic bs : ExecSessionRequest_from_bytes bs <> Panic.
Proof.
  unfold ExecSessionRequest_from_bytes. apply bind_not_Panic; [auto with vault|]. intros [? d] _.
  apply bind_not_Panic; [auto with vault|]. intros ? _. case_test; [done|].
  destruct (has_remaining d) eqn:Hr; [|done]. apply get_u8_remaining in Hr as (v & k & ->). cbn.
  apply bind_not_Panic.
  { repeat case_test; try done. apply bind_not_Panic; [auto with vault|]. intros [? ?] _.
    apply bind_not_Panic; auto with vault. }
  intros [? d'] _. destruct (has_remaining d') eqn:Hr; [|done]. cbn [negb].
  apply bind_not_Panic; [apply decode_context_no_panic; done|]. intros [? d2] _.
  apply bind_not_Panic; [|done]. case_test; [done|].
  destruct (Z.eqb_spec (len d2) 8) as [E|]; [|done].
  rewrite get_u64_spec by (unfold len in E; lia). done.
Qed.

Lemma ExecSessionInfo_encode_app i out :
  ExecSessionInfo_encode i out = out ++ ExecSessionInfo_encode i [].
Proof.
  unfold ExecSessionInfo_encode. destruct (info_exit_code i);
  rewrite !put_opt_prefixed_lp, !put_len_prefixed_lp, ?put_u32_spec, !put_u8_spec, <- !app_assoc; done.
Qed.

Lemma exec_info_codec i rest :
  ExecSessionInfo_ok i -> ExecSessionInfo_decode (ExecSessionInfo_encode i [] ++ rest) = Ok (i, rest).
Proof.
  intros (Hne & [Hs Hf] & Hargv & Hctx & Hcode).
  destruct i as [sid argv ctx att code]; cbn in *.
  set (tail := lp (argv_bytes argv) ++ opt_lp (as_bytes <$> ctx) ++ rest).
  assert (E : ExecSessionInfo_encode (mkExecInfo sid argv ctx att code) [] ++ rest =
    lp (as_bytes sid) ++ be_bytes 1 (if att then 1 else 0) ++
    match code with Some c => be_bytes 1 1 ++ be_bytes 4 c ++ tail | None => be_bytes 1 0 ++ tail end).
  { subst tail. unfold ExecSessionInfo_encode. cbn.
    destruct code; rewrite !put_opt_prefixed_lp, !put_len_prefixed_lp, ?put_u32_spec, !put_u8_spec,
      encode_exec_argv_bytes, <- !app_assoc; done. }
  rewrite E. unfold ExecSessionInfo_decode. rewrite take_len_prefixed_lp by done. cbn.
  rewrite from_utf8_as_bytes by done. cbn. rewrite slen_ne by done.
  assert (Htail : forall rest', decode_context (opt_lp (as_bytes <$> ctx) ++ rest') = Ok (ctx, rest'))
    by (intros; apply decode_context_opt; done).
  destruct (Z.ltb_spec (len (be_bytes 1 (if att then 1 else 0) ++
    match code with Some c => be_bytes 1 1 ++ be_bytes 4 c ++ tail | None => be_bytes 1 0 ++ tail end)) 2)
    as [Hshort|_].
  { exfalso. pose proof (len_nonneg tail). rewrite len_app, len_be in Hshort.
    destruct code; rewrite ?len_app, ?len_be in Hshort; lia. }
  rewrite get_u8_app. cbn. replace (_ mod U8) with (if att then 1 else 0 : Z) by (destruct att; done).
  assert (Hattr : (if (if att then 1 else 0) =? 0 then Ok false
     else if (if att then 1 else 0) =? 1 then Ok true
     else anyhow ("invalid exec session attached flag: " +:+ pretty (if att then 1 else 0))) = Ok att)
    by (destruct att; done).
  rewrite Hattr. cbn.
  destruct code as [c|]; rewrite get_u8_small by lia; cbn.
  - destruct (Z.ltb_spec (len (be_bytes 4 c ++ tail)) 4) as [Hshort|_].
    { rewrite len_app, len_be in Hshort. pose proof (len_nonneg tail). lia. }
    rewrite get_u32_app. cbn. subst tail. rewrite take_len_prefixed_lp by apply Hargv. cbn.
    rewrite decode_exec_argv_bytes by done. cbn. rewrite opt_lp_remaining. cbn.
    rewrite Htail. cbn. rewrite Z.mod_small by done. done.
  - subst tail. rewrite take_len_prefixed_lp by apply Hargv. cbn.
    rewrite decode_exec_argv_bytes by done. cbn. rewrite opt_lp_remaining. cbn.
    rewrite Htail. done.
Qed.

Lemma ExecSessionList_to_bytes_lp l :
  ExecSessionList_to_bytes l =
  be_bytes 4 (as_u32 (len (sessions l))) ++ concat ((fun i => ExecSessionInfo_encode i []) <$> sessions l).
Proof.
  unfold ExecSessionList_to_bytes. rewrite put_u32_spec. cbn [app].
  generalize (be_bytes 4 (as_u32 (len (sessions l)))) as out.
  induction (sessions l) as [|i l0 IH]; intros out.
  - cbn. rewrite app_nil_r. done.
  - rewrite fmap_cons. cbn [fold_left concat].
    rewrite IH, (ExecSessionInfo_encode_app i out), <- app_assoc. done.
Qed.

Lemma exec_list_codec l :
  ExecSessionList_ok l -> ExecSessionList_from_bytes (ExecSessionList_to_bytes l) = Ok l.
Proof.
  intros [Hn Hall]. pose proof (len_nonneg (sessions l)).
  rewrite ExecSessionList_to_bytes_lp. unfold ExecSessionList_from_bytes.
  set (tail := concat _). pose proof (len_nonneg tail). rewrite len_app, len_be.
  destruct (Z.ltb_spec (Z.of_nat 4 + len tail) 4); [lia|].
  rewrite get_u32_app. cbn. rewrite as_u32_small by lia.
  unfold len at 1. rewrite Nat2Z.id. subst tail. rewrite <- (app_nil_r (concat _)).
  rewrite (decode_many_encode (fun i => ExecSessionInfo_encode i [])).
  - destruct l; done.
  - intros i k Hi. rewrite Forall_forall in Hall. apply exec_info_codec, Hall. done.
Qed.

Lemma exec_info_no_panic bs : ExecSessionInfo_decode bs <> Panic.
Proof.
  unfold ExecSessionInfo_decode. apply bind_not_Panic; [auto with vault|]. intros [? d] _.
  apply bind_not_Panic; [auto with vault|]. intros ? _. case_test; [done|].
  destruct (Z.ltb_spec (len d) 2) as [|Hd]; [done|]. unfold len in Hd.
  rewrite get_u8_spec by lia. cbn. apply bind_not_Panic; [repeat case_test; done|]. intros ? _.
  rewrite get_u8_spec by (rewrite length_drop; lia). cbn.
  apply bind_not_Panic.
  { repeat case_test; try done. apply Z.ltb_ge in Heqb2. unfold len in Heqb2.
    rewrite get_u32_spec by lia. done. }
  intros [? d'] _. apply bind_not_Panic; [auto with vault|]. intros [? d2] _.
  apply bind_not_Panic; [auto with vault|]. intros ? _.
  destruct (has_remaining d2) eqn:Hr; [|done]. cbn [negb].
  apply bind_not_Panic; [apply decode_context_no_panic; done|]. intros [? ?] _. done.
Qed.

Lemma exec_list_no_panic bs : ExecSessionList_from_bytes bs <> Panic.
Proof.
  unfold ExecSessionList_from_bytes. destruct (Z.ltb_spec (len bs) 4) as [|Hb]; [done|].
  rewrite get_u32_spec by (unfold len in Hb; lia). cbn.
  apply bind_not_Panic; [apply decode_many_no_panic, exec_info_no_panic|].
  intros [l k] _. case_test; done.
Qed.
End payloads.

(** ** Framing on a stream *)

(** The bytes a frame occupies on the wire. *)
Definition frame_bytes (ty : Z) (payload : list byte) : list byte :=
  be_bytes 1 ty ++ lp payload.

Definition ControlMessage_ok (m : ControlMessage) : Prop :=
  match m with
  | CMAttestation p => AttestationPayload_ok p
  | CMSetupRequest r => SetupRequest_ok r
  | CMError message => str_ok message
  | _ => True
  end.

Section stream_lemmas.
Context {R : Type} `{AsyncReadOk R} {W : Type} `{AsyncWriteOk W}.

Lemma read_u8_app r x rest : 0 <= x < 256 -> ahead r (be_bytes 1 x ++ rest) ->
  exists r', read_u8 r = (Ok x, r') /\ ahead r' rest.
Proof.
  intros Hx Hr. destruct (read_u8_ok r _ Hr) as (r' & E & Ha);
    [rewrite length_app, be_bytes_length; lia|].
  rewrite take_be, be_value_bytes, Z.mod_small in E by done. rewrite drop_be in Ha. eauto.
Qed.

Lemma read_u32_app r x rest : 0 <= x < U32 -> ahead r (be_bytes 4 x ++ rest) ->
  exists r', read_u32 r = (Ok x, r') /\ ahead r' rest.
Proof.
  intros Hx Hr. destruct (read_u32_ok r _ Hr) as (r' & E & Ha);
    [rewrite length_app, be_bytes_length; lia|].
  rewrite take_be, be_value_bytes, Z.mod_small in E by done. rewrite drop_be in Ha. eauto.
Qed.

Lemma read_lp r data rest : field_ok data -> ahead r (lp data ++ rest) ->
  exists r1 r', read_u32 r = (Ok (len data), r1) /\
    read_exact (Z.to_nat (len data)) r1 = (Ok data, r') /\ ahead r' rest.
Proof.
  unfold field_ok, lp, as_u32. intros Hd Hr. pose proof (len_nonneg data).
  rewrite Z.mod_small, <- app_assoc in Hr by done.
  apply read_u32_app in Hr as (r1 & E & Ha); [|done].
  destruct (read_exact_ok (Z.to_nat (len data)) r1 _ Ha) as (r' & E' & Ha').
  { unfold len. rewrite length_app. lia. }
  unfold len in E', Ha'. rewrite Nat2Z.id in E', Ha'.
  rewrite take_app_length in E'. rewrite drop_app_length in Ha'.
  exists r1, r'. unfold len at 2. rewrite Nat2Z.id. done.
Qed.

Lemma read_control_frame r ty payload rest :
  0 <= ty < 256 -> field_ok payload -> ahead r (frame_bytes ty payload ++ rest) ->
  exists r', ControlFrame_read_from r = (Ok (mkControlFrame ty payload), r') /\ ahead r' rest.
Proof.
  unfold frame_bytes. intros Hty Hp Hr. rewrite <- app_assoc in Hr.
  apply read_u8_app in Hr as (r1 & E1 & Ha1); [|done].
  apply read_lp in Ha1 as (r2 & r3 & E2 & E3 & Ha3); [|done].
  exists r3. split; [|done]. unfold ControlFrame_read_from.
  rewrite (M_bind_Ok _ _ r ty r1) by (apply mcontext_Ok; done).
  rewrite (M_bind_Ok _ _ r1 (len payload) r2) by (apply mcontext_Ok; done).
  rewrite (M_bind_Ok _ _ r2 payload r3) by (apply mcontext_Ok; done). done.
Qed.

Lemma read_console_frame r ty payload rest :
  0 <= ty < 256 -> field_ok payload -> ahead r (frame_bytes ty payload ++ rest) ->
  exists r', ConsoleFrame_read_from r = (Ok (mkConsoleFrame ty payload), r') /\ ahead r' rest.
Proof.
  unfold frame_bytes. intros Hty Hp Hr. rewrite <- app_assoc in Hr.
  apply read_u8_app in Hr as (r1 & E1 & Ha1); [|done].
  apply read_lp in Ha1 as (r2 & r3 & E2 & E3 & Ha3); [|done].
  exists r3. split; [|done]. unfold ConsoleFrame_read_from.
  rewrite (M_bind_Ok _ _ r ty r1) by (apply mcontext_Ok; done).
  rewrite (M_bind_Ok _ _ r1 (len payload) r2) by (apply mcontext_Ok; done).
  rewrite (M_bind_Ok _ _ r2 payload r3) by (apply mcontext_Ok; done). done.
Qed.

Lemma write_control_frame f w w' :
  ControlFrame_write_to f w = (Ok tt, w') ->
  written w' = written w ++ frame_bytes (cf_ty f) (cf_payload f).
Proof.
  unfold ControlFrame_write_to. intros Hw.
  apply M_bind_inv in Hw as ([] & w1 & E1w%mcontext_Ok & Hw).
  apply M_bind_inv in Hw as ([] & w2 & E2w%mcontext_Ok & Hw).
  apply M_bind_inv in Hw as ([] & w3 & E3w%mcontext_Ok & Hw%mcontext_Ok).
  rewrite (flush_ok _ _ Hw), (write_all_ok _ _ _ E3w), (write_u32_ok _ _ _ E2w), (write_u8_ok _ _ _ E1w).
  unfold frame_bytes, lp. rewrite <- !app_assoc. done.
Qed.

Lemma write_console_frame f w w' :
  ConsoleFrame_write_to f w = (Ok tt, w') ->
  written w' = written w ++ frame_bytes (cs_ty f) (cs_payload f).
Proof.
  unfold ConsoleFrame_write_to. intros Hw.
  apply M_bind_inv in Hw as ([] & w1 & E1w%mcontext_Ok & Hw).
  apply M_bind_inv in Hw as ([] & w2 & E2w%mcontext_Ok & Hw).
  apply M_bind_inv in Hw as ([] & w3 & E3w%mcontext_Ok & Hw%mcontext_Ok).
  rewrite (flush_ok _ _ Hw), (write_all_ok _ _ _ E3w), (write_u32_ok _ _ _ E2w), (write_u8_ok _ _ _ E1w).
  unfold frame_bytes, lp. rewrite <- !app_assoc. done.
Qed.
End stream_lemmas.

(** The byte list as a reader and writer satisfies the laws. *)
#[export] Instance list_AsyncReadOk : AsyncReadOk (list byte).
Proof.
  refine {| ahead r bs := r = bs |}; cbn; unfold list_read.
  all: unfold mbind, M_bind, mbind_st.
  1-3: intros; subst; match goal with |- context [(?n <=? ?m)%nat] => destruct (Nat.leb_spec n m) end;
    [eexists; split; [reflexivity|done]|lia].
  all: intros; subst; match goal with |- context [(?n <=? ?m)%nat] => destruct (Nat.leb_spec n m) end;
    [lia|done].
Defined.

#[export] Instance list_AsyncWriteOk : AsyncWriteOk (list byte).
Proof. refine {| written w := w |}; cbn; congruence. Defined.

(** ** Properties *)

Section properties.
Context {BC : BytesCrate}.

Lemma control_message_codec m :
  ControlMessage_ok m -> ControlMessage_from_frame (ControlMessage_to_frame m) = Ok m.
Proof.
  destruct m as [|p|r| |e]; cbn; try done; intros Hm.
  - change (ControlMessage_from_frame (mkControlFrame CONTROL_ATTESTATION
      (AttestationPayload_to_bytes p)) = Ok (CMAttestation p)).
    unfold ControlMessage_from_frame. cbn. rewrite attestation_codec by done. done.
  - unfold ControlMessage_from_frame. cbn. rewrite setup_request_codec by done. done.
  - unfold ControlMessage_from_frame. cbn. rewrite from_utf8_as_bytes by done. done.
Qed.

Lemma control_message_ty m : 0 <= cf_ty (ControlMessage_to_frame m) < 256.
Proof. destruct m; split; done. Qed.

(** C30: A control message that fits its 32-bit length field, once written to a
    stream, is read back unchanged by the peer, and the peer's cursor stops
    exactly after it, whatever follows. *)
Theorem ControlMessage_stream_roundtrip
    {R} `{AsyncReadOk R} {W} `{AsyncWriteOk W} (m : ControlMessage) (w w' : W) (r : R) rest :
  ControlMessage_ok m ->
  field_ok (cf_payload (ControlMessage_to_frame m)) ->
  ControlMessage_write_to m w = (Ok tt, w') ->
  ahead r (drop (length (written w)) (written w') ++ rest) ->
  exists r', ControlMessage_read_from r = (Ok m, r') /\ ahead r' rest.
Proof.
  intros Hm Hf Hw Hr. unfold ControlMessage_write_to in Hw.
  apply write_control_frame in Hw. rewrite Hw, drop_app_length in Hr.
  apply read_control_frame in Hr as (r' & E & Ha); [|apply control_message_ty|done].
  exists r'. split; [|done]. unfold ControlMessage_read_from.
  rewrite (M_bind_Ok _ _ _ _ _ E). unfold mlift.
  replace (mkControlFrame _ _) with (ControlMessage_to_frame m) by (destruct m; done).
  rewrite control_message_codec by done. done.
Qed.

(** The setup-request decoder accepts only encodings: what it accepts
    re-encodes to the very bytes received, so no two payloads mean the same
    request and no trailing byte is ignored. *)
Theorem SetupRequest_canonical bs r :
  SetupRequest_from_bytes bs = Ok r <-> SetupRequest_to_bytes r = bs /\ SetupRequest_ok r.
Proof.
  split; [apply setup_request_canonical|]. intros [<- Hr]. apply setup_request_codec. done.
Qed.

(** Every well-formed exec-session request survives encoding and decoding,
    with or without argv and context. *)
Theorem ExecSessionRequest_roundtrip r :
  ExecSessionRequest_ok r -> ExecSessionRequest_from_bytes (ExecSessionRequest_to_bytes r) = Ok r.
Proof. apply exec_request_codec. Qed.

(** An exec-session list written to a stream is read back unchanged. *)
Theorem ExecSessionList_stream_roundtrip
    {R} `{AsyncReadOk R} {W} `{AsyncWriteOk W} (l : ExecSessionList) (w w' : W) (r : R) rest :
  ExecSessionList_ok l -> field_ok (ExecSessionList_to_bytes l) ->
  ExecSessionList_write_to l w = (Ok tt, w') ->
  ahead r (drop (length (written w)) (written w') ++ rest) ->
  exists r', ExecSessionList_read_from r = (Ok l, r') /\ ahead r' rest.
Proof.
  intros Hl Hf Hw Hr. unfold ExecSessionList_write_to in Hw.
  apply M_bind_inv in Hw as ([] & w1 & E1w%mcontext_Ok & Hw).
  apply M_bind_inv in Hw as ([] & w2 & E2w%mcontext_Ok & Hw%mcontext_Ok).
  rewrite (flush_ok _ _ Hw), (write_all_ok _ _ _ E2w), (write_u32_ok _ _ _ E1w) in Hr.
  rewrite <- (app_assoc (written w)), drop_app_length in Hr. fold (lp (ExecSessionList_to_bytes l)) in Hr.
  apply read_lp in Hr as (r1 & r2 & E1 & E2 & Ha); [|done].
  exists r2. split; [|done]. unfold ExecSessionList_read_from.
  rewrite (M_bind_Ok _ _ r (len (ExecSessionList_to_bytes l)) r1) by (apply mcontext_Ok; done).
  rewrite (M_bind_Ok _ _ r1 (ExecSessionList_to_bytes l) r2) by (apply mcontext_Ok; done).
  unfold mlift. rewrite exec_list_codec by done. done.
Qed.

(** C39: No payload decoder of the protocol can panic, whatever bytes the peer
    sends: each read is guarded by a check of the remaining length.  (An allocation
    that fails aborts, which is not modelled.) *)
Theorem decoders_never_panic bs :
  AttestationPayload_from_bytes bs <> Panic /\ SetupRequest_from_bytes bs <> Panic /\
  ExecSessionRequest_from_bytes bs <> Panic /\ ExecSessionList_from_bytes bs <> Panic /\
  SharedConsoleRequest_from_bytes bs <> Panic /\ decode_resize bs <> Panic /\
  decode_exit bs <> Panic /\
  forall ty, ControlMessage_from_frame (mkControlFrame ty bs) <> Panic.
Proof.
  split_and!; auto using attestation_no_panic, setup_request_no_panic, exec_request_no_panic,
    exec_list_no_panic.
  - unfold SharedConsoleRequest_from_bytes. repeat case_test; done.
  - unfold decode_resize. case_test; done.
  - unfold decode_exit. case_test; done.
  - intros ty. unfold ControlMessage_from_frame. cbn [cf_ty cf_payload].
    repeat case_test; try done; apply bind_not_Panic;
      auto using attestation_no_panic, setup_request_no_panic with vault; done.
Qed.
End properties.

Lemma slice_Ok {A} (l : list A) lo hi : lo <= hi <= len l ->
  slice l lo hi = Ok (take (Z.to_nat (hi - lo)) (drop (Z.to_nat lo) l)).
Proof. intros H. unfold slice. replace ((lo <=? hi) && (hi <=? len l)) with true by lia. done. Qed.

Lemma slice_full_tail {A} (l : list A) lo : 0 <= lo <= len l ->
  slice l lo (len l) = Ok (drop (Z.to_nat lo) l).
Proof.
  intros Hlo. unfold slice. replace (lo <=? len l) with true by lia.
  rewrite Z.leb_refl. cbn. f_equal. apply take_ge. rewrite length_drop. unfold len in *. lia.
Qed.

Lemma len_le n x : len (le_bytes n x) = Z.of_nat n.
Proof. unfold len. rewrite le_bytes_length. done. Qed.

Lemma decode_proxy_header packet : 8 <= len packet -> 0 <= le_value (take 8 packet) < U64.
Proof.
  intros H. pose proof (le_value_range (take 8 packet)) as Hr. unfold len in *.
  rewrite length_take in Hr. replace (Z.of_nat (8 `min` length packet)) with 8 in Hr by lia. done.
Qed.

(** A packet with the client's header decodes to the machine id and the
    payload it was built from. *)
Theorem proxy_packet_roundtrip machine_id header payload :
  str_ok machine_id -> slen machine_id < USIZE - 8 -> payload <> [] ->
  encode_proxy_machine_header machine_id = Ok header ->
  decode_proxy_packet (header ++ payload) = Ok (mkProxyPacket machine_id payload).
Proof.
  unfold encode_proxy_machine_header, decode_proxy_packet, wrapping_add_usize, USIZE.
  intros Hs Hlen Hp He. pose proof (slen_nonneg machine_id).
  destruct (Z.eqb_spec (slen machine_id) 0) as [|Hne]; [done|].
  assert (header = le_bytes 8 (len (as_bytes machine_id)) ++ as_bytes machine_id) as -> by congruence.
  rewrite len_as_bytes, <- app_assoc.
  set (id := as_bytes machine_id). assert (Hid : len id = slen machine_id) by apply len_as_bytes.
  assert (Hpl : 0 < len payload)
    by (destruct payload; [done|rewrite len_cons; pose proof (len_nonneg payload); lia]).
  rewrite (take_app_length' (le_bytes 8 _)) by (rewrite le_bytes_length; done).
  rewrite le_value_bytes. change (256 ^ Z.of_nat 8) with (2 ^ 64). rewrite !Z.mod_small by lia.
  assert (Hpk : len (le_bytes 8 (slen machine_id) ++ id ++ payload) = 8 + slen machine_id + len payload)
    by (rewrite !len_app, len_le; lia).
  unfold slice. rewrite Hpk.
  replace (8 + slen machine_id + len payload <? 8) with false by lia.
  replace (slen machine_id =? 0) with false by lia.
  replace (8 + slen machine_id + len payload <? 8 + slen machine_id) with false by lia.
  replace ((8 <=? 8 + slen machine_id) && (8 + slen machine_id <=? 8 + slen machine_id + len payload))
    with true by lia. cbn [mbind Res_bind].
  rewrite (drop_app_length' _ _ (Z.to_nat 8)) by (rewrite le_bytes_length; done).
  replace (Z.to_nat (8 + slen machine_id - 8)) with (length id) by (unfold len in Hid; lia).
  rewrite take_app_length. subst id. rewrite from_utf8_as_bytes by done. cbn [mbind Res_bind with_context].
  replace ((8 + slen machine_id <=? 8 + slen machine_id + len payload) &&
    (8 + slen machine_id + len payload <=? 8 + slen machine_id + len payload)) with true by lia.
  cbn [mbind Res_bind].
  rewrite app_assoc, drop_app_length'
    by (rewrite length_app, le_bytes_length; unfold len in Hid; lia).
  rewrite take_ge by (unfold len; lia). replace (len payload =? 0) with false by lia. done.
Qed.

(** C40: The proxy's packet decoder panics, and only then, when the announced
    machine-id length is within eight of [usize::MAX]: the sum [8 + id_len]
    wraps below eight, the length check passes and the slice is out of order. *)
Theorem decode_proxy_packet_panics_iff packet :
  decode_proxy_packet packet = Panic <->
  8 <= len packet /\ USIZE - 8 <= le_value (take 8 packet).
Proof.
  unfold decode_proxy_packet, wrapping_add_usize, USIZE.
  destruct (Z.ltb_spec (len packet) 8) as [|Hl]; [split; [done|lia]|].
  pose proof (decode_proxy_header packet Hl) as Hr. unfold U64 in Hr.
  set (n := le_value (take 8 packet)) in *.
  destruct (Z.eqb_spec n 0) as [->|Hn]; [split; [done|lia]|].
  destruct (Z.le_gt_cases (2 ^ 64 - 8) n) as [Hbig|Hsmall].
  - replace ((8 + n) mod 2 ^ 64) with (8 + n - 2 ^ 64)
      by (apply (Z.mod_unique _ _ 1); [lia|lia]).
    destruct (Z.ltb_spec (len packet) (8 + n - 2 ^ 64)); [lia|].
    unfold slice. replace (8 <=? 8 + n - 2 ^ 64) with false by lia. done.
  - rewrite Z.mod_small by lia. split; [|lia].
    destruct (Z.ltb_spec (len packet) (8 + n)); [done|].
    rewrite (slice_Ok packet 8 (8 + n)) by lia. cbn [mbind Res_bind].
    intros HP. exfalso. refine (bind_not_Panic _ _ _ _ HP); [auto with vault|]. intros s _.
    rewrite slice_full_tail by lia. cbn. case_test; done.
Qed.

(** ** Witnesses *)

Definition sample_setup : ControlMessage :=
  CMSetupRequest (mkSetupRequest "secret" (RootfsInline (as_bytes "tar"))).

Lemma ControlMessage_stream_roundtrip_witness :
  exists w' r', @ControlMessage_write_to bytes_crate _ _ sample_setup (as_bytes "x") = (Ok tt, w') /\
  @ControlMessage_read_from bytes_crate _ _ (drop 1 w' ++ as_bytes "more") = (Ok sample_setup, r') /\
  ahead r' (as_bytes "more").
Proof.
  eexists. assert (H := @ControlMessage_stream_roundtrip bytes_crate (list byte) _ _ (list byte) _ _
    sample_setup (as_bytes "x") _ _ (as_bytes "more")
    ltac:(vm_compute; done) ltac:(vm_compute; done) eq_refl eq_refl).
  destruct H as (r' & E & Ha). exists r'. split; [reflexivity|]. split; [exact E|exact Ha].
Defined.

Definition sample_exec : ExecSessionRequest :=
  mkExecRequest "s1" (Some ["ls"; "-l"]) (Some "ctx") 4096.

Lemma ExecSessionRequest_roundtrip_witness :
  @ExecSessionRequest_from_bytes bytes_crate (@ExecSessionRequest_to_bytes bytes_crate sample_exec)
  = Ok sample_exec.
Proof.
  apply (@ExecSessionRequest_roundtrip bytes_crate).
  split; [done|]. split; [vm_compute; done|]. split.
  - split; [vm_compute; done|]. split; [|vm_compute; done].
    apply Forall_cons. split; [vm_compute; done|]. apply Forall_cons. split; [vm_compute; done|].
    apply Forall_nil. done.
  - split; vm_compute; done.
Defined.

Definition sample_list : ExecSessionList :=
  mkExecList [mkExecInfo "a" ["bash"] (Some "live") true None; mkExecInfo "b" ["echo"] None false (Some 7)].

Lemma ExecSessionList_stream_roundtrip_witness :
  exists w' r', @ExecSessionList_write_to bytes_crate _ _ sample_list [] = (Ok tt, w') /\
  @ExecSessionList_read_from bytes_crate _ _ (drop 0 w' ++ []) = (Ok sample_list, r') /\ ahead r' [].
Proof.
  eexists.
  assert (Hok : ExecSessionList_ok sample_list).
  { split; [vm_compute; done|]. repeat (apply Forall_cons; split); try (apply Forall_nil; done).
    all: split; [done|]; split; [vm_compute; done|]; split;
      [split; [vm_compute; done|]; split; [|vm_compute; done];
       repeat (apply Forall_cons; split); try (apply Forall_nil; done); vm_compute; done
      |split; vm_compute; done]. }
  assert (H := @ExecSessionList_stream_roundtrip bytes_crate (list byte) _ _ (list byte) _ _
    sample_list [] _ _ [] Hok ltac:(vm_compute; done) eq_refl eq_refl).
  destruct H as (r' & E & Ha). exists r'. split; [reflexivity|]. split; [exact E|exact Ha].
Defined.

Lemma proxy_packet_roundtrip_witness :
  exists header, encode_proxy_machine_header "machine-123" = Ok header /\
  decode_proxy_packet (header ++ as_bytes "payload") = Ok (mkProxyPacket "machine-123" (as_bytes "payload")).
Proof.
  eexists. split; [reflexivity|].
  apply proxy_packet_roundtrip; [vm_compute; done|vm_compute; done|vm_compute; done|reflexivity].
Defined.
