(* ===== verification/ProtocolTypes.v ===== *)
(** * What the decoders of the protocol accept ([crates/protocol/src/lib.rs])

    The type invariants of [Protocol] - texts are UTF-8, integers are of their
    width, a field's length fits its prefix - hold of every value a decoder
    returns, whatever the bytes came from. *)

From S2P Require Import Prelude Protocol.

Section types.
Context {BC : BytesCrate}.

Lemma get_u8_inv bs v k : (1 <= length bs)%nat -> get_u8 bs = Some (v, k) -> 0 <= v < U8 /\ len bs = 1 + len k.
Proof.
  intros Hl. rewrite get_u8_spec by done. intros [= <- <-]. pose proof (be_value_range (take 1 bs)) as Hr.
  unfold len in *. rewrite length_take, Nat.min_l in Hr by lia. rewrite length_drop. split; [done|lia].
Qed.

Lemma get_u16_inv bs v k : (2 <= length bs)%nat -> get_u16 bs = Some (v, k) -> 0 <= v < U16 /\ len bs = 2 + len k.
Proof.
  intros Hl. rewrite get_u16_spec by done. intros [= <- <-]. pose proof (be_value_range (take 2 bs)) as Hr.
  unfold len in *. rewrite length_take, Nat.min_l in Hr by lia. rewrite length_drop. split; [done|lia].
Qed.

Lemma get_u32_inv bs v k : (4 <= length bs)%nat -> get_u32 bs = Some (v, k) -> 0 <= v < U32 /\ len bs = 4 + len k.
Proof. intros Hl E. apply get_u32_decompose in E as [-> Hv]; [|done]. by rewrite len_app, len_be. Qed.

Lemma get_u64_inv bs v k : (8 <= length bs)%nat -> get_u64 bs = Some (v, k) -> 0 <= v < U64 /\ len bs = 8 + len k.
Proof.
  intros Hl. rewrite get_u64_spec by done. intros [= <- <-]. pose proof (be_value_range (take 8 bs)) as Hr.
  unfold len in *. rewrite length_take, Nat.min_l in Hr by lia. rewrite length_drop. split; [done|lia].
Qed.

Lemma or_panic_Ok {A} (x : option A) a : or_panic x = Ok a -> x = Some a.
Proof. by destruct x; intros [= ->]. Qed.

Lemma remaining_length bs : has_remaining bs = true -> (1 <= length bs)%nat.
Proof. unfold has_remaining, len. intros H%Z.ltb_lt. lia. Qed.

Lemma attestation_type bs p : AttestationPayload_from_bytes bs = Ok p -> AttestationPayload_ok p.
Proof.
  unfold AttestationPayload_from_bytes. destruct (Z.ltb_spec (len bs) 8) as [|Hl]; [done|]. intros H.
  apply bind_Ok in H as ([pv k1] & E1%or_panic_Ok & H). apply get_u16_inv in E1 as [Hpv L1]; [|unfold len in *; lia].
  apply bind_Ok in H as ([v k2] & E2%or_panic_Ok & H). apply get_u8_inv in E2 as [_ L2]; [|unfold len in *; lia].
  apply bind_Ok in H as (st & _ & H).
  apply bind_Ok in H as ([v' k3] & E3%or_panic_Ok & H). apply get_u8_inv in E3 as [_ L3]; [|unfold len in *; lia].
  apply bind_Ok in H as (rs & _ & H).
  apply bind_Ok in H as ([n k4] & E4%or_panic_Ok & H). apply get_u32_inv in E4 as [Hn L4]; [|unfold len in *; lia].
  destruct (Z.eqb_spec (len k4) n) as [En|]; [|done]. apply bind_Ok in H as (j & Hj & [= <-]).
  apply with_context_Ok, from_utf8_Ok in Hj as [Hb Hs]. split; [done|]. split; [done|].
  unfold field_ok. cbn. rewrite Hb. lia.
Qed.

Lemma exec_argv_inv bs argv : decode_exec_argv bs = Ok argv -> bs = argv_bytes argv /\ len argv < U32 /\ Forall str_field_ok argv.
Proof.
  unfold decode_exec_argv. destruct (Z.ltb_spec (len bs) 4) as [|Hl]; [done|]. intros H.
  apply bind_Ok in H as ([n k] & E%or_panic_Ok & H). apply get_u32_decompose in E as [-> Hn]; [|unfold len in Hl; lia].
  apply bind_Ok in H as ([l rest] & Hm & H). case_in H. injection H as <-.
  apply (decode_many_inv (fun a => lp (as_bytes a)) str_field_ok _ _ _ _ _ decode_exec_arg_inv) in Hm as (-> & Hlen & Hall).
  apply has_remaining_cons in Heqb as ->. assert (El : len l = n) by (unfold len; lia).
  split_and!; [|lia|done]. unfold argv_bytes. rewrite El, app_nil_r. do 2 f_equal.
  unfold as_u32. by rewrite Z.mod_small.
Qed.

Lemma exec_argv_type bs argv : field_ok bs -> decode_exec_argv bs = Ok argv -> argv_ok argv.
Proof. intros Hf H. apply exec_argv_inv in H as (-> & Hn & Hall). by split_and!. Qed.

Lemma context_type bs c k : has_remaining bs = true -> decode_context bs = Ok (c, k) -> opt_ok str_field_ok c.
Proof.
  intros Hr. unfold decode_context. intros H. apply bind_Ok in H as ([v k1] & _ & H).
  case_in H; [by injection H as <- _|]. case_in H. apply bind_Ok in H as ([p k2] & Ht & H).
  apply take_len_prefixed_inv in Ht as [_ Hf]. apply bind_Ok in H as (c' & Hc & [= <- _]).
  apply with_context_Ok, from_utf8_Ok in Hc as [<- Hs]. by split.
Qed.

(** An id: a length-prefixed text that is not empty. *)
Lemma text_type label bs data k (s : string) :
  take_len_prefixed bs label = Ok (data, k) -> from_utf8 data = Ok s -> str_field_ok s.
Proof.
  intros Ht Hs. apply take_len_prefixed_inv in Ht as [_ Hf]. apply from_utf8_Ok in Hs as [<- Hs]. by split.
Qed.

Lemma nonempty_id s : (slen s =? 0) = false -> s <> EmptyString.
Proof. by intros H ->. Qed.

Lemma exec_request_type bs r : ExecSessionRequest_from_bytes bs = Ok r -> ExecSessionRequest_ok r.
Proof.
  unfold ExecSessionRequest_from_bytes. intros H. apply bind_Ok in H as ([sid k1] & Ht & H).
  apply bind_Ok in H as (s & Hs%with_context_Ok & H). pose proof (text_type _ _ _ _ _ Ht Hs) as Hid.
  destruct (slen s =? 0) eqn:Es; [done|]. apply nonempty_id in Es.
  destruct (has_remaining k1); [|done]. cbn [negb] in H. apply bind_Ok in H as ([v k2] & _ & H).
  apply bind_Ok in H as ([argv k3] & Ha & H).
  assert (Hargv : opt_ok argv_ok argv).
  { case_in Ha; [by injection Ha as <- _|]. case_in Ha. apply bind_Ok in Ha as ([p k4] & Hp & Ha).
    apply take_len_prefixed_inv in Hp as [_ Hf]. apply bind_Ok in Ha as (a & Hd & [= <- _]). by eapply exec_argv_type. }
  destruct (has_remaining k3) eqn:Er; cbn [negb] in H; [|injection H as <-; by split_and!].
  apply bind_Ok in H as ([c k4] & Hc & H). apply context_type in Hc; [|done].
  apply bind_Ok in H as (n & Hn & [= <-]). split_and!; try done; cbn.
  all: destruct (Z.eqb_spec (len k4) 0); [injection Hn as <-; done|].
  all: destruct (Z.eqb_spec (len k4) 8) as [E8|]; [|done]; destruct (get_u64 k4) as [[n' k5]|] eqn:E; [|done].
  all: injection Hn as <-; apply get_u64_inv in E as [Hn _]; [apply Hn|unfold len in E8; lia].
Qed.

Lemma exec_info_type bs i k : ExecSessionInfo_decode bs = Ok (i, k) -> ExecSessionInfo_ok i.
Proof.
  unfold ExecSessionInfo_decode. intros H. apply bind_Ok in H as ([sid k1] & Ht & H).
  apply bind_Ok in H as (s & Hs%with_context_Ok & H). pose proof (text_type _ _ _ _ _ Ht Hs) as Hid.
  destruct (slen s =? 0) eqn:Es; [done|]. apply nonempty_id in Es.
  case_in H. apply bind_Ok in H as ([v k2] & _ & H). apply bind_Ok in H as (att & _ & H).
  apply bind_Ok in H as ([v' k3] & _ & H). apply bind_Ok in H as ([code k4] & Hc & H).
  assert (Hcode : opt_ok (fun c => 0 <= c < U32) code).
  { case_in Hc; [by injection Hc as <- _|]. case_in Hc. destruct (Z.ltb_spec (len k3) 4) as [|Hl]; [done|].
    apply bind_Ok in Hc as ([c k5] & E%or_panic_Ok & [= <- _]). apply get_u32_inv in E as [Hr _]; [done|].
    unfold len in Hl. lia. }
  apply bind_Ok in H as ([p k5] & Hp & H). apply take_len_prefixed_inv in Hp as [_ Hf].
  apply bind_Ok in H as (argv & Ha & H). apply exec_argv_type in Ha; [|done].
  destruct (has_remaining k5) eqn:Er; cbn [negb] in H; [|injection H as <- _; by split_and!].
  apply bind_Ok in H as ([c k6] & Hx & [= <- _]). apply context_type in Hx; [|done]. by split_and!.
Qed.

Lemma decode_many_type {A} (P : A -> Prop) step n bs l k :
  (forall bs x k, step bs = Ok (x, k) -> P x) -> decode_many step n bs = Ok (l, k) ->
  length l = n /\ Forall P l.
Proof.
  intros Hs. revert bs l k. induction n as [|n IH]; intros bs l k H; cbn in H; [by injection H as <- _|].
  apply bind_Ok in H as ([x k1] & Hx & H). apply bind_Ok in H as ([xs k2] & Hr & [= <- _]).
  apply IH in Hr as [<- Hall]. split; [done|]. constructor; [by eapply Hs|done].
Qed.

Lemma exec_list_type bs l : ExecSessionList_from_bytes bs = Ok l -> ExecSessionList_ok l.
Proof.
  unfold ExecSessionList_from_bytes. destruct (Z.ltb_spec (len bs) 4) as [|Hl]; [done|]. intros H.
  apply bind_Ok in H as ([n k] & E%or_panic_Ok & H). apply get_u32_inv in E as [Hn _]; [|unfold len in Hl; lia].
  apply bind_Ok in H as ([ss rest] & Hm & H). case_in H. injection H as <-.
  apply (decode_many_type _ _ _ _ _ _ exec_info_type) in Hm as [Hlen Hall]. split; [cbn; unfold len; lia|done].
Qed.

Lemma control_message_type f m : ControlMessage_from_frame f = Ok m -> ControlMessage_ok m.
Proof.
  unfold ControlMessage_from_frame. intros H.
  destruct (_ =? CONTROL_REQUEST_ATTESTATION); [case_in H; by injection H as <-|].
  destruct (_ =? CONTROL_ATTESTATION).
  { apply bind_Ok in H as (p & Hp & [= <-]). by eapply attestation_type. }
  destruct (_ =? CONTROL_SETUP_REQUEST).
  { apply bind_Ok in H as (p & Hp & [= <-]). by apply setup_request_canonical in Hp as [_ ?]. }
  destruct (_ =? CONTROL_SETUP_COMPLETE); [case_in H; by injection H as <-|].
  destruct (_ =? CONTROL_ERROR); [|done]. apply bind_Ok in H as (s & Hs & [= <-]).
  by apply with_context_Ok, from_utf8_Ok in Hs as [_ ?].
Qed.

Lemma be_value_width n bs : len bs = Z.of_nat n -> 0 <= be_value bs < 256 ^ Z.of_nat n.
Proof. intros <-. apply be_value_range. Qed.

Lemma shared_request_codec r :
  0 <= scr_rendered_bytes r < U64 -> SharedConsoleRequest_from_bytes (SharedConsoleRequest_to_bytes r) = Ok r.
Proof.
  intros Hr. unfold SharedConsoleRequest_from_bytes, SharedConsoleRequest_to_bytes. rewrite len_be, be_value_bytes. cbn.
  rewrite Z.mod_small by done. by destruct r.
Qed.

(** C15: Every value a decoder returns is well-typed, whatever the bytes: its texts
    are UTF-8 and its integers of their width, its fields fit their length prefixes,
    a session id is not empty.  Encoding it again and decoding that returns it. *)
Theorem decoded_values_are_well_typed bs :
  (forall ty m, ControlMessage_from_frame (mkControlFrame ty bs) = Ok m ->
     ControlMessage_ok m /\ ControlMessage_from_frame (ControlMessage_to_frame m) = Ok m) /\
  (forall r, ExecSessionRequest_from_bytes bs = Ok r ->
     ExecSessionRequest_ok r /\ ExecSessionRequest_from_bytes (ExecSessionRequest_to_bytes r) = Ok r) /\
  (forall l, ExecSessionList_from_bytes bs = Ok l ->
     ExecSessionList_ok l /\ ExecSessionList_from_bytes (ExecSessionList_to_bytes l) = Ok l) /\
  (forall argv, decode_exec_argv bs = Ok argv -> Forall str_field_ok argv /\ encode_exec_argv argv = bs) /\
  (forall r, SharedConsoleRequest_from_bytes bs = Ok r ->
     0 <= scr_rendered_bytes r < U64 /\ SharedConsoleRequest_from_bytes (SharedConsoleRequest_to_bytes r) = Ok r) /\
  (forall rows cols, decode_resize bs = Ok (rows, cols) ->
     0 <= rows < U16 /\ 0 <= cols < U16 /\ encode_resize rows cols = bs) /\
  (forall code, decode_exit bs = Ok code -> 0 <= code < U32 /\ encode_exit code = bs).
Proof.
  split_and!.
  - intros ty m H%control_message_type. split; [done|by apply control_message_codec].
  - intros r H%exec_request_type. split; [done|by apply exec_request_codec].
  - intros l H%exec_list_type. split; [done|by apply exec_list_codec].
  - intros argv H. apply exec_argv_inv in H as (-> & _ & Hall). split; [done|apply encode_exec_argv_bytes].
  - intros r H. assert (Hr : 0 <= scr_rendered_bytes r < U64).
    { revert H. unfold SharedConsoleRequest_from_bytes. case_test; [by intros [= <-]|].
      destruct (Z.eqb_spec (len bs) 8) as [E|]; [|done]. intros [= <-]. by apply (be_value_width 8). }
    split; [done|by apply shared_request_codec].
  - intros rows cols. unfold decode_resize. destruct (Z.eqb_spec (len bs) 4) as [E|]; [|done]. cbn [negb].
    intros [= <- <-]. unfold len in E.
    assert (H2 : length (take 2 bs) = 2%nat) by (rewrite length_take; lia).
    assert (H2' : length (drop 2 bs) = 2%nat) by (rewrite length_drop; lia).
    split_and!; try (apply (be_value_width 2); unfold len; lia).
    pose proof (be_bytes_value (take 2 bs)) as E1. pose proof (be_bytes_value (drop 2 bs)) as E2.
    rewrite H2 in E1. rewrite H2' in E2. unfold encode_resize. rewrite E1, E2. apply take_drop.
  - intros code. unfold decode_exit. destruct (Z.eqb_spec (len bs) 4) as [E|]; [|done]. cbn [negb].
    intros [= <-]. split; [by apply (be_value_width 4)|]. unfold encode_exit.
    replace 4%nat with (length bs) by (unfold len in E; lia). apply be_bytes_value.
Qed.
End types.

(** ** Witness *)

Lemma decoded_values_are_well_typed_witness :
  ExecSessionRequest_ok sample_exec /\ str_ok "secret".
Proof.
  destruct (@decoded_values_are_well_typed bytes_crate (@ExecSessionRequest_to_bytes bytes_crate sample_exec))
    as (_ & H & _).
  destruct (@decoded_values_are_well_typed bytes_crate (cf_payload (@ControlMessage_to_frame bytes_crate sample_setup)))
    as (H' & _).
  split; [apply H; vm_compute; reflexivity|].
  destruct (H' CONTROL_SETUP_REQUEST sample_setup) as [[[Hs _] _] _]; [vm_compute; reflexivity|exact Hs].
Defined.
