(* ===== verification/ClientInput.v ===== *)
(** * What a session does with the terminal ([crates/client/src/console.rs])

    [run_session] beside its receive loop: the raw mode of the terminal and its
    restoration, the size of the window, and the tasks that carry the input -
    a thread of every session that reads the standard input, which outlives the
    session when it is blocked there, a task that reports resizes, and the task
    that writes the frames.  [libc]'s constants and what its calls return are
    parameters. *)

From S2P Require Import Prelude Protocol.

(** ** Raw mode *)

(** The flags of [libc] that are used, as masks. *)
Class Libc := {
  BRKINT : Z; ICRNL : Z; INPCK : Z; ISTRIP : Z; IXON : Z;
  OPOST : Z;
  CS8 : Z;
  ECHO : Z; ICANON : Z; IEXTEN : Z; ISIG : Z;
  VMIN : nat; VTIME : nat;
}.

Record Termios := mkTermios {
  c_iflag : Z;
  c_oflag : Z;
  c_cflag : Z;
  c_lflag : Z;
  c_cc : list Z;
}.

Section raw.
Context `{LC : Libc}.

Definition input_off : Z := Z.lor (Z.lor (Z.lor (Z.lor BRKINT ICRNL) INPCK) ISTRIP) IXON.
Definition local_off : Z := Z.lor (Z.lor (Z.lor ECHO ICANON) IEXTEN) ISIG.

(** The settings [RawModeGuard::enable] makes of the ones it found. *)
Definition make_raw (original : Termios) : Termios :=
  mkTermios
    (Z.land (c_iflag original) (Z.lnot input_off))
    (Z.land (c_oflag original) (Z.lnot OPOST))
    (Z.lor (c_cflag original) CS8)
    (Z.land (c_lflag original) (Z.lnot local_off))
    (<[VTIME := 0]> (<[VMIN := 1]> (c_cc original))).

(** The terminal, and whether the next calls on it work. *)
Record Tty := mkTty {
  settings : Termios;
  tty_ok : list bool;
}.

Definition tty_call (f : Tty -> Tty) : M Tty bool := fun t =>
  match tty_ok t with
  | false :: rest => (Ok false, mkTty (settings t) rest)
  | ok => (Ok true, f (mkTty (settings t) (tail ok)))
  end.

Definition tcgetattr : M Tty (option Termios) := fun t =>
  let '(r, t') := tty_call id t in ((fun ok : bool => if ok then Some (settings t) else None) <$> r, t').

Definition tcsetattr (raw : Termios) : M Tty bool := tty_call (fun t => mkTty raw (tty_ok t)).

(** The guard is the settings to restore. *)
Definition enable : M Tty Termios :=
  original ← tcgetattr;
  match original with
  | None => mlift (Err [Msg "tcgetattr"; Io OtherIo])
  | Some original =>
      set ← tcsetattr (make_raw original);
      if set : bool then mret original else mlift (Err [Msg "tcsetattr raw"; Io OtherIo])
  end.

(** [Drop for RawModeGuard]. *)
Definition restore (guard : Termios) : M Tty unit := _ ← tcsetattr guard; mret tt.

Definition guarded {A} (guard : Termios) (body : M Tty A) : M Tty A := fun t =>
  let '(r, t) := body t in (r, snd (restore guard t)).

(** A session around its [body], as [run_session]: the guard is dropped however the
    body ends, by a panic too. *)
Definition with_raw_mode {A} (is_tty : bool) (body : M Tty A) : M Tty A :=
  if is_tty then
    guard ← mcontext "enable raw mode" enable;
    guarded guard body
  else body.

(** [terminal_size]: what the [ioctl] gave. *)
Definition terminal_size (winsize : option (Z * Z)) : option (Z * Z) :=
  match winsize with
  | Some (rows, cols) => if (0 <? rows) && (0 <? cols) then Some (rows, cols) else None
  | None => None
  end.
End raw.

(** ** The input of the sessions *)

(** A session's channel of frames, the tasks that hold its senders, and what its
    [send_task] wrote.  [running]: the session has not ended; [rx_open]: the task,
    and the receiver it owns, is there. *)
Record Sending := mkSending {
  running : bool;
  rx_open : bool;
  stdin_tx : bool;
  resize_tx : bool;
  queue : list ConsoleFrame;
  written : list ConsoleFrame;
  finished : bool;
}.

(** The thread of [spawn_stdin_task]. *)
Inductive Thread :=
| Locking
| Reading
| Pushing (chunk : list byte)
| Gone.

(** [lock]: the thread that holds the lock of the standard input.  [reads]: what
    was read from it so far, with the thread that did. *)
Record Input := mkInput {
  threads : list Thread;
  sendings : list Sending;
  lock : option nat;
  reads : list (nat * list byte);
}.

Definition CHANNEL : nat := 64.
Definition STDIN_BUF : nat := 4096.

Definition input_frame (chunk : list byte) : ConsoleFrame := mkConsoleFrame CONSOLE_DATA chunk.
Definition resize_frame (rows cols : Z) : ConsoleFrame := mkConsoleFrame CONSOLE_RESIZE (encode_resize rows cols).

Definition push_frame (f : ConsoleFrame) (s : Sending) : Sending :=
  mkSending (running s) (rx_open s) (stdin_tx s) (resize_tx s) (queue s ++ [f]) (written s) (finished s).
Definition drop_stdin_tx (s : Sending) : Sending :=
  mkSending (running s) (rx_open s) false (resize_tx s) (queue s) (written s) (finished s).
Definition set_thread (i : nat) (t : Thread) (s : Input) : Input :=
  mkInput (<[i := t]> (threads s)) (sendings s) (lock s) (reads s).
Definition set_sending (i : nat) (f : Sending -> Sending) (s : Input) : Input :=
  mkInput (threads s) (alter f i (sendings s)) (lock s) (reads s).
Definition set_lock (l : option nat) (s : Input) : Input := mkInput (threads s) (sendings s) l (reads s).

(** The thread ends: its sender and its lock are dropped. *)
Definition thread_ends (i : nat) (s : Input) : Input :=
  set_lock None (set_sending i drop_stdin_tx (set_thread i Gone s)).

(** A session starts.  [initial]: the size frame it writes before the tasks; the
    resize task keeps its sender when it listens for the signal. *)
Definition start_session (is_tty signals : bool) (size : option (Z * Z)) (s : Input) : Input :=
  let initial := match size with
                 | Some (rows, cols) => if is_tty then [resize_frame rows cols] else []
                 | None => []
                 end in
  mkInput (threads s ++ [Locking])
    (sendings s ++ [mkSending true true true (is_tty && signals) [] initial false]) (lock s) (reads s).

(** [send_task.abort()] and [resize_task.abort()]: the receiver is dropped with
    what it held. *)
Definition end_session (i : nat) (s : Input) : Input :=
  set_sending i (fun c => mkSending false false (stdin_tx c) false [] (written c) (finished c)) s.

(** One step of the thread [i].  [read]: what [stdin.read] gave it. *)
Definition thread_step (i : nat) (read : Res (list byte)) (s : Input) : option Input :=
  t ← threads s !! i; c ← sendings s !! i;
  match t with
  | Locking => match lock s with None => Some (set_lock (Some i) (set_thread i Reading s)) | Some _ => None end
  | Reading =>
      match read with
      | Ok chunk =>
          let s := mkInput (threads s) (sendings s) (lock s) (reads s ++ [(i, chunk)]) in
          match chunk with
          | [] => Some (thread_ends i s)
          | _ => if (length chunk <=? STDIN_BUF)%nat then Some (set_thread i (Pushing chunk) s) else None
          end
      | Err _ => Some (thread_ends i s)
      | Panic => None
      end
  | Pushing chunk =>
      if rx_open c then
        if (length (queue c) <? CHANNEL)%nat
        then Some (set_thread i Reading (set_sending i (push_frame (input_frame chunk)) s)) else None
      else Some (thread_ends i s)
  | Gone => None
  end.

(** One turn of [send_task]; [write]: what [write_to] gave. *)
Definition send_step (i : nat) (write : Res unit) (s : Input) : option Input :=
  c ← sendings s !! i;
  if rx_open c then
    match queue c with
    | frame :: queue =>
        match write with
        | Ok _ => Some (set_sending i (fun c =>
            mkSending (running c) true (stdin_tx c) (resize_tx c) queue (written c ++ [frame]) (finished c)) s)
        | Err _ => Some (set_sending i (fun c =>
            mkSending (running c) false (stdin_tx c) (resize_tx c) [] (written c) (finished c)) s)
        | Panic => None
        end
    | [] =>
        if stdin_tx c || resize_tx c then None
        else Some (set_sending i (fun c => mkSending (running c) false false false [] (written c) true) s)
    end
  else None.

(** A window change, as the resize task reports it. *)
Definition resize_step (i : nat) (size : option (Z * Z)) (s : Input) : option Input :=
  c ← sendings s !! i;
  if resize_tx c then
    match size with
    | Some (rows, cols) =>
        if rx_open c then
          if (length (queue c) <? CHANNEL)%nat
          then Some (set_sending i (push_frame (resize_frame rows cols)) s) else None
        else Some s
    | None => Some s
    end
  else None.

(** Sessions follow one another: one starts when the one before has ended. *)
Inductive input_step : Input -> Input -> Prop :=
| in_start s is_tty signals size :
    (forall c, c ∈ sendings s -> running c = false) ->
    input_step s (start_session is_tty signals size s)
| in_end s i : i = (length (sendings s) - 1)%nat -> input_step s (end_session i s)
| in_thread s i read s' : thread_step i read s = Some s' -> input_step s s'
| in_send s i write s' : send_step i write s = Some s' -> input_step s s'
| in_resize s i size s' : resize_step i size s = Some s' -> input_step s s'.

Definition input_start : Input := mkInput [] [] None [].

Inductive input_reachable : Input -> Prop :=
| input_init : input_reachable input_start
| input_more s s' : input_reachable s -> input_step s s' -> input_reachable s'.

(** ** Lemmas *)

(** The input among frames. *)
Definition frames_data (fs : list ConsoleFrame) : list byte :=
  concat (map (fun f => if cs_ty f =? CONSOLE_DATA then cs_payload f else []) fs).

(** What the thread [i] read. *)
Definition read_by (i : nat) (rs : list (nat * list byte)) : list byte :=
  concat (map (fun r => if (fst r =? i)%nat then snd r else []) rs).

#[local] Arguments frames_data : simpl never.
#[local] Arguments read_by : simpl never.

Definition pending (t : Thread) : list byte := match t with Pushing chunk => chunk | _ => [] end.
Definition holds_lock (t : Thread) : bool := match t with Reading | Pushing _ => true | _ => false end.

Lemma frames_data_app a b : frames_data (a ++ b) = frames_data a ++ frames_data b.
Proof. unfold frames_data. by rewrite map_app, concat_app. Qed.

Lemma frames_data_input chunk : frames_data [input_frame chunk] = chunk.
Proof. unfold frames_data. cbn. apply app_nil_r. Qed.

Lemma read_by_snoc i rs j chunk :
  read_by i (rs ++ [(j, chunk)]) = read_by i rs ++ if (j =? i)%nat then chunk else [].
Proof. unfold read_by. rewrite map_app, concat_app. cbn. by rewrite app_nil_r. Qed.

(** What holds of a thread with its session. *)
Record PairOk (i : nat) (t : Thread) (c : Sending) (rs : list (nat * list byte)) : Prop := {
  po_open : rx_open c = true -> read_by i rs = frames_data (written c ++ queue c) ++ pending t;
  po_prefix : exists rest, read_by i rs = frames_data (written c) ++ rest;
  po_finished : finished c = true -> rx_open c = false /\ t = Gone /\ read_by i rs = frames_data (written c);
  po_tx : stdin_tx c = false <-> t = Gone;
  po_running : rx_open c = true -> running c = true;
}.

Record InputOk (s : Input) : Prop := {
  io_length : length (threads s) = length (sendings s);
  io_lock : forall i t, threads s !! i = Some t -> (holds_lock t = true <-> lock s = Some i);
  io_owner : forall i, lock s = Some i -> exists t, threads s !! i = Some t;
  io_pair : forall i t c, threads s !! i = Some t -> sendings s !! i = Some c -> PairOk i t c (reads s);
  io_reads : forall i chunk, (i, chunk) ∈ reads s -> (i < length (threads s))%nat;
}.

Lemma read_by_none i rs : (forall j chunk, (j, chunk) ∈ rs -> (j < i)%nat) -> read_by i rs = [].
Proof.
  induction rs as [|[j chunk] rs IH]; intros Hlt; [done|]. unfold read_by in *. cbn.
  rewrite IH by (intros k d Hk; apply (Hlt k d); by right).
  specialize (Hlt j chunk ltac:(by left)). destruct (Nat.eqb_spec j i); [lia|done].
Qed.

(** A step that concerns the session [i] alone. *)
Record Local (i : nat) (s s' : Input) : Prop := {
  lc_threads : length (threads s') = length (threads s);
  lc_sendings : length (sendings s') = length (sendings s);
  lc_thread : forall j, j <> i -> threads s' !! j = threads s !! j;
  lc_sending : forall j, j <> i -> sendings s' !! j = sendings s !! j;
  lc_reads : reads s' = reads s \/ exists chunk, reads s' = reads s ++ [(i, chunk)];
  lc_lock : lock s' = lock s \/ (lock s' = None /\ lock s = Some i) \/ (lock s' = Some i /\ lock s = None);
}.

Lemma local_ok i s s' t c :
  InputOk s -> Local i s s' -> threads s' !! i = Some t -> sendings s' !! i = Some c ->
  PairOk i t c (reads s') -> (holds_lock t = true <-> lock s' = Some i) -> InputOk s'.
Proof.
  intros [Hl Hk Ho Hp Hr] [Lt Ls Htj Hsj Lr Ll] Ht Hc Hok Hh. split.
  - congruence.
  - intros j u Hj. destruct (decide (j = i)) as [->|Hn]; [rewrite Ht in Hj; by injection Hj as <-|].
    rewrite Htj in Hj by done. rewrite (Hk _ _ Hj).
    destruct Ll as [-> |[[-> ->]|[-> ->]]]; [done|split; congruence..].
  - intros j Hj. destruct (decide (j = i)) as [->|Hn]; [eauto|]. rewrite Htj by done. apply Ho.
    destruct Ll as [<- |[[E _]|[E _]]]; [done|congruence..].
  - intros j u d Hj Hd. destruct (decide (j = i)) as [->|Hn]; [congruence|].
    rewrite Htj in Hj by done. rewrite Hsj in Hd by done. specialize (Hp _ _ _ Hj Hd).
    assert (E : read_by j (reads s') = read_by j (reads s)).
    { destruct Lr as [-> |[chunk ->]]; [done|]. rewrite read_by_snoc.
      destruct (Nat.eqb_spec i j); [congruence|]. by rewrite app_nil_r. }
    destruct Hp. split; rewrite ?E; done.
  - intros j chunk Hin. rewrite Lt. destruct Lr as [E|[chunk' E]]; rewrite E in Hin; [by eapply Hr|].
    apply elem_of_app in Hin as [Hin|Hin]; [by eapply Hr|].
    apply list_elem_of_singleton in Hin as [= -> ->]. rewrite <- Lt. by eapply lookup_lt_Some.
Qed.

Lemma local_refl i s : Local i s s.
Proof. split; auto. Qed.

Lemma local_thread i t s s' : Local i s s' -> Local i s (set_thread i t s').
Proof.
  intros []. split; cbn; rewrite ?length_insert; auto.
  intros j Hj. rewrite list_lookup_insert_ne by done. auto.
Qed.

Lemma local_sending i f s s' : Local i s s' -> Local i s (set_sending i f s').
Proof.
  intros []. split; cbn; rewrite ?length_alter; auto.
  intros j Hj. rewrite list_lookup_alter_ne by done. auto.
Qed.

Lemma local_release i s s' : lock s = Some i -> Local i s s' -> Local i s (set_lock None s').
Proof. intros Hl []. split; cbn; auto. Qed.

Lemma local_acquire i s s' : lock s = None -> Local i s s' -> Local i s (set_lock (Some i) s').
Proof. intros Hl []. split; cbn; auto. Qed.

Lemma local_read i chunk s :
  Local i s (mkInput (threads s) (sendings s) (lock s) (reads s ++ [(i, chunk)])).
Proof. split; cbn; eauto. Qed.

Create HintDb input discriminated.
#[local] Hint Resolve local_refl local_thread local_sending local_release local_acquire local_read : input.

Lemma local_ends i s s' : lock s = Some i -> Local i s s' -> Local i s (thread_ends i s').
Proof. unfold thread_ends. auto with input. Qed.
#[local] Hint Resolve local_ends : input.

(** Looking up what a step set. *)
Lemma set_sending_lookup i f s c : sendings s !! i = Some c -> sendings (set_sending i f s) !! i = Some (f c).
Proof. intros Hc. cbn. by rewrite list_lookup_alter_eq, Hc. Qed.

Lemma set_thread_lookup i t s : (i < length (threads s))%nat -> threads (set_thread i t s) !! i = Some t.
Proof. intros Hl. cbn. by apply list_lookup_insert_eq. Qed.

Lemma ends_ok i t c s s' :
  InputOk s -> threads s !! i = Some t -> holds_lock t = true -> Local i s s' ->
  threads s' !! i = Some t -> sendings s' !! i = Some c -> pending t = [] \/ rx_open c = false ->
  (rx_open c = true -> read_by i (reads s') = frames_data (written c ++ queue c)) ->
  (exists rest, read_by i (reads s') = frames_data (written c) ++ rest) ->
  finished c = false -> (rx_open c = true -> running c = true) -> InputOk (thread_ends i s').
Proof.
  intros Hok Ht Hh Hloc Ht' Hc Hp Hopen Hpre Hf Hrun.
  assert (Hl : lock s = Some i) by (by eapply (io_lock _ Hok)).
  assert (Hlt : (i < length (threads s'))%nat) by (by eapply lookup_lt_Some).
  eapply (local_ok i s _ Gone (drop_stdin_tx c)); [done|by apply local_ends|..].
  - cbn. by apply list_lookup_insert_eq.
  - cbn. by rewrite list_lookup_alter_eq, Hc.
  - cbn. split; cbn; rewrite ?app_nil_r; [done|done|by rewrite Hf|done|done].
  - done.
Qed.

Lemma thread_step_ok i read s s' : InputOk s -> thread_step i read s = Some s' -> InputOk s'.
Proof.
  intros Hok Hs. unfold thread_step in Hs.
  destruct (threads s !! i) as [t|] eqn:Ht; cbn in Hs; [|done].
  destruct (sendings s !! i) as [c|] eqn:Hc; cbn in Hs; [|done].
  assert (Hlt : (i < length (threads s))%nat) by (by eapply lookup_lt_Some).
  pose proof (io_pair _ Hok _ _ _ Ht Hc) as [Ho [rest Hpre] Hf Htx Hrun].
  pose proof (io_lock _ Hok _ _ Ht) as Hlock.
  assert (Hnf : t <> Gone -> finished c = false).
  { intros Hn. destruct (finished c); [|done]. by destruct (Hf eq_refl) as (_ & ? & _). }
  destruct t as [| |chunk|]; [..|done].
  - destruct (lock s) eqn:El; [done|]. injection Hs as <-.
    eapply (local_ok i s _ Reading c); [done|auto with input|by apply set_thread_lookup|done| |done].
    split; cbn in *; [done|eauto|by rewrite Hnf|rewrite Htx; done|done].
  - destruct read as [chunk|e|]; [|injection Hs as <-; eapply (ends_ok i Reading c s s); eauto with input; intros Hx; rewrite Ho by done; by rewrite app_nil_r|done].
    set (s1 := mkInput _ _ _ _) in Hs.
    assert (Er : read_by i (reads s1) = read_by i (reads s) ++ chunk) by (unfold s1; cbn [reads]; by rewrite read_by_snoc, Nat.eqb_refl).
    assert (Hs1 : Local i s s1) by apply local_read.
    destruct chunk as [|b chunk].
    + injection Hs as <-. rewrite app_nil_r in Er.
      eapply (ends_ok i Reading c s s1); eauto with input; rewrite ?Er; eauto.
      intros Hx. rewrite Ho by done. by rewrite app_nil_r.
    + case_in Hs. injection Hs as <-.
      eapply (local_ok i s _ (Pushing (b :: chunk)) c); [done|auto with input|by apply set_thread_lookup|done| |done].
      cbn [set_thread reads]. split; cbn [pending]; rewrite ?Er.
      * intros Hx. rewrite Ho by done. cbn. by rewrite app_nil_r.
      * exists (rest ++ b :: chunk). by rewrite Hpre, app_assoc.
      * by rewrite Hnf.
      * rewrite Htx. done.
      * done.
  - destruct (rx_open c) eqn:Ex.
    + case_in Hs. injection Hs as <-.
      eapply (local_ok i s _ Reading (push_frame (input_frame chunk) c)); [done|auto with input| | | |].
      * cbn. by apply list_lookup_insert_eq.
      * cbn. by rewrite list_lookup_alter_eq, Hc.
      * cbn. split; cbn; rewrite ?Ex; [|eauto|by rewrite Hnf|rewrite Htx; split; discriminate|auto].
        intros _. rewrite Ho by done. rewrite app_assoc, (frames_data_app _ [_]), !app_nil_r. by rewrite frames_data_input.
      * cbn. rewrite <- Hlock. done.
    + injection Hs as <-. eapply (ends_ok i (Pushing chunk) c s s); eauto with input; congruence.
Qed.

(** What [send_task], the resize task and the end of a session do to a session. *)
Lemma sending_ok i t c f s :
  InputOk s -> threads s !! i = Some t -> sendings s !! i = Some c ->
  PairOk i t (f c) (reads s) -> InputOk (set_sending i f s).
Proof.
  intros Hok Ht Hc Hp. eapply (local_ok i s _ t (f c)); [done|auto with input|done|by apply set_sending_lookup|done|].
  exact (io_lock _ Hok _ _ Ht).
Qed.

Lemma send_step_ok i write s s' : InputOk s -> send_step i write s = Some s' -> InputOk s'.
Proof.
  intros Hok Hs. unfold send_step in Hs. destruct (sendings s !! i) as [c|] eqn:Hc; cbn in Hs; [|done].
  destruct (rx_open c) eqn:Ex; [|done].
  assert (exists t, threads s !! i = Some t) as [t Ht].
  { apply lookup_lt_is_Some. rewrite (io_length _ Hok). by eapply lookup_lt_Some. }
  pose proof (io_pair _ Hok _ _ _ Ht Hc) as [Ho [rest Hpre] Hf Htx Hrun]. specialize (Ho Ex).
  destruct (queue c) as [|frame rest_] eqn:Eq.
  - destruct (stdin_tx c) eqn:Es; [done|]. destruct (resize_tx c) eqn:Er; [done|]. injection Hs as <-.
    rewrite app_nil_r in Ho. assert (t = Gone) as -> by (by apply Htx). cbn in Ho. rewrite app_nil_r in Ho.
    eapply sending_ok; [done|exact Ht|exact Hc|]. split; cbn; eauto. done.
  - destruct write as [u|e|]; [..|done]; injection Hs as <-; (eapply sending_ok; [done|exact Ht|exact Hc|]);
      split; cbn; auto; try (intros E; by destruct (Hf E) as [? _]; congruence).
    + intros _. by rewrite <- app_assoc.
    + exists (frames_data rest_ ++ pending t). rewrite Ho, !frames_data_app. cbn [app].
      change (frame :: rest_) with ([frame] ++ rest_). by rewrite frames_data_app, <- !app_assoc.
    + done.
    + eauto.
Qed.

Lemma resize_step_ok i size s s' : InputOk s -> resize_step i size s = Some s' -> InputOk s'.
Proof.
  intros Hok Hs. unfold resize_step in Hs. destruct (sendings s !! i) as [c|] eqn:Hc; cbn in Hs; [|done].
  destruct (resize_tx c); [|done]. destruct size as [[rows cols]|]; [|by injection Hs as <-].
  destruct (rx_open c) eqn:Ex; [|by injection Hs as <-]. case_in Hs. injection Hs as <-.
  assert (exists t, threads s !! i = Some t) as [t Ht].
  { apply lookup_lt_is_Some. rewrite (io_length _ Hok). by eapply lookup_lt_Some. }
  pose proof (io_pair _ Hok _ _ _ Ht Hc) as [Ho Hpre Hf Htx Hrun].
  eapply sending_ok; [done|exact Ht|exact Hc|]. split; cbn; auto.
  intros _. rewrite (Ho Ex), app_assoc, (frames_data_app _ [_]). by rewrite app_nil_r.
Qed.

Lemma end_session_ok i s : InputOk s -> InputOk (end_session i s).
Proof.
  intros Hok. destruct (sendings s !! i) as [c|] eqn:Hc.
  - assert (exists t, threads s !! i = Some t) as [t Ht].
    { apply lookup_lt_is_Some. rewrite (io_length _ Hok). by eapply lookup_lt_Some. }
    pose proof (io_pair _ Hok _ _ _ Ht Hc) as [Ho Hpre Hf Htx Hrun].
    eapply sending_ok; [done|exact Ht|exact Hc|]. split; cbn; auto; [done|].
    intros E. by destruct (Hf E) as (_ & ? & ?).
  - unfold end_session, set_sending. replace (alter _ i (sendings s)) with (sendings s); [by destruct s|].
    symmetry. apply list_eq. intros j. destruct (decide (i = j)) as [<-|];
      [by rewrite list_lookup_alter_eq, Hc|by rewrite list_lookup_alter_ne].
Qed.

Lemma start_session_ok is_tty signals size s : InputOk s -> InputOk (start_session is_tty signals size s).
Proof.
  intros [Hl Hk Ho Hp Hr]. split; cbn.
  - rewrite !length_app. cbn. lia.
  - intros i t Hi. apply lookup_snoc_Some in Hi as [[_ Hi]|[-> <-]]; [by apply Hk|]. cbn. split; [done|].
    intros Hn. destruct (Ho _ Hn) as [t Ht]. apply lookup_lt_Some in Ht. lia.
  - intros i Hi. destruct (Ho i Hi) as [t Ht]. exists t. by apply lookup_app_l_Some.
  - intros i t c Hi Hc. apply lookup_snoc_Some in Hi as [[Hlt Hi]|[-> <-]];
      apply lookup_snoc_Some in Hc as [[Hlt' Hc]|[E <-]]; [by apply Hp|lia|lia|].
    assert (En : read_by (length (threads s)) (reads s) = []) by (apply read_by_none; intros; by eapply Hr).
    assert (Ei : frames_data (match size with Some (rows, cols) => if is_tty then [resize_frame rows cols] else []
                              | None => [] end) = []) by (destruct size as [[? ?]|]; [destruct is_tty|]; done).
    split; cbn; rewrite ?app_nil_r, ?En, ?Ei; eauto; done.
  - intros i chunk Hin. rewrite length_app. apply Hr in Hin. lia.
Qed.

Lemma input_reachable_ok s : input_reachable s -> InputOk s.
Proof.
  induction 1 as [|s s' _ IH Hs].
  - split; [done|..]; cbn; intros *; rewrite ?lookup_nil; try done. intros H. inversion H.
  - destruct Hs; eauto using start_session_ok, end_session_ok, thread_step_ok, send_step_ok, resize_step_ok.
Qed.

(** ** After a session *)

(** How often the thread [i] read. *)
Definition reads_of (i : nat) (rs : list (nat * list byte)) : nat :=
  length (List.filter (fun r => fst r =? i)%nat rs).

#[local] Arguments reads_of : simpl never.

(** How often it may still read once nobody takes what it reads. *)
Definition budget (t : Thread) : nat := match t with Locking | Reading => 1 | _ => 0 end.

Lemma reads_of_snoc i rs j chunk :
  reads_of i (rs ++ [(j, chunk)]) = (reads_of i rs + if (j =? i)%nat then 1 else 0)%nat.
Proof. unfold reads_of. rewrite List.filter_app, length_app. cbn. by destruct (j =? i)%nat. Qed.

(** The session [i] is over for its thread. *)
Definition over (i : nat) (w : list ConsoleFrame) (n : nat) (s : Input) : Prop :=
  exists c t, sendings s !! i = Some c /\ threads s !! i = Some t /\ rx_open c = false /\ written c = w /\
    (reads_of i (reads s) + budget t <= n)%nat.

Lemma over_other i j w n s s' : Local j s s' -> j <> i -> over i w n s -> over i w n s'.
Proof.
  intros [_ _ Ht Hs Hr _] Hn (c & t & Hc & Hi & Hx & Hw & Hle). exists c, t.
  rewrite Hs, Ht by done. split_and!; [done..|].
  destruct Hr as [-> |[chunk ->]]; [done|]. rewrite reads_of_snoc.
  destruct (Nat.eqb_spec j i); [done|lia].
Qed.

Lemma over_sending i w n f s :
  (forall c, rx_open c = false -> rx_open (f c) = false /\ written (f c) = written c) ->
  over i w n s -> over i w n (set_sending i f s).
Proof.
  intros Hf (c & t & Hc & Ht & Hx & Hw & Hle). destruct (Hf c Hx) as [Hx' Hw'].
  exists (f c), t. split_and!; [by apply set_sending_lookup|done..|congruence|done].
Qed.

Lemma over_thread_ends i w n s : over i w n s -> over i w n (thread_ends i s).
Proof.
  intros (c & t & Hc & Ht & Hx & Hw & Hle). exists (drop_stdin_tx c), Gone. split_and!; [..|done|done|cbn; lia].
  - cbn. by rewrite list_lookup_alter_eq, Hc.
  - cbn. apply list_lookup_insert_eq. by eapply lookup_lt_Some.
Qed.

(** The thread of an ended session: it reads once more at most, and nothing it
    reads is written. *)
Lemma over_thread i w n read s s' : over i w n s -> thread_step i read s = Some s' -> over i w n s'.
Proof.
  intros Hov Hs. pose proof Hov as (c & t & Hc & Ht & Hx & Hw & Hle). unfold thread_step in Hs.
  rewrite Ht, Hc in Hs. cbn in Hs. assert (Hlt : (i < length (threads s))%nat) by (by eapply lookup_lt_Some).
  destruct t as [| |chunk|]; [..|done].
  - destruct (lock s); [done|]. injection Hs as <-. exists c, Reading.
    split_and!; [done|by apply set_thread_lookup|done..].
  - destruct read as [chunk|e|]; [|injection Hs as <-; by apply over_thread_ends|done].
    assert (Hr : (reads_of i (reads s ++ [(i, chunk)]) <= n)%nat).
    { rewrite reads_of_snoc, Nat.eqb_refl. cbn in Hle. lia. }
    destruct chunk as [|b chunk].
    + injection Hs as <-. exists (drop_stdin_tx c), Gone. split_and!; [..|done|done|cbn; lia].
      * cbn. by rewrite list_lookup_alter_eq, Hc.
      * cbn. by apply list_lookup_insert_eq.
    + case_in Hs. injection Hs as <-. exists c, (Pushing (b :: chunk)).
      split_and!; [done|cbn; by apply list_lookup_insert_eq|done|done|cbn [set_thread reads budget]; lia].
  - rewrite Hx in Hs. injection Hs as <-. by apply over_thread_ends.
Qed.

Lemma thread_step_local i read s s' : InputOk s -> thread_step i read s = Some s' -> Local i s s'.
Proof.
  intros Hok Hs. unfold thread_step in Hs.
  destruct (threads s !! i) as [t|] eqn:Ht; cbn in Hs; [|done].
  destruct (sendings s !! i) as [c|] eqn:Hc; cbn in Hs; [|done].
  pose proof (io_lock _ Hok _ _ Ht) as Hl. destruct t as [| |chunk|]; [| | |done].
  - destruct (lock s) eqn:El; [done|]. injection Hs as <-. auto with input.
  - assert (El : lock s = Some i) by (by apply Hl). destruct read as [chunk|e|]; [|injection Hs as <-; auto with input|done].
    pose proof (local_read i chunk s) as Hs1. destruct chunk; [|case_in Hs]; injection Hs as <-; auto with input.
  - assert (El : lock s = Some i) by (by apply Hl).
    destruct (rx_open c); [case_in Hs|]; injection Hs as <-; auto with input.
Qed.

Lemma send_step_shape i write s s' :
  send_step i write s = Some s' ->
  exists c f, sendings s !! i = Some c /\ rx_open c = true /\ s' = set_sending i f s.
Proof.
  unfold send_step. intros Hs. destruct (sendings s !! i) as [c|]; cbn in Hs; [|done].
  destruct (rx_open c) eqn:Ex; [|done]. exists c.
  destruct (queue c); [case_in Hs|destruct write; [..|done]]; injection Hs as <-; eauto.
Qed.

Lemma over_step i w n s s' : InputOk s -> over i w n s -> input_step s s' -> over i w n s'.
Proof.
  intros Hok Hov Hs. destruct Hs as [s is_tty signals size _|s j _|s j read s' Hs|s j write s' Hs|s j size s' Hs].
  - destruct Hov as (c & t & Hc & Ht & Hx & Hw & Hle). exists c, t. cbn.
    split_and!; [by apply lookup_app_l_Some..|done|done|done].
  - destruct (decide (j = i)) as [->|Hn]; [by apply over_sending|].
    apply (over_other i j w n s); [|exact Hn|exact Hov]. unfold end_session. auto with input.
  - destruct (decide (j = i)) as [->|Hn]; [by eapply over_thread|].
    eapply over_other; [by eapply thread_step_local|done|done].
  - apply send_step_shape in Hs as (c & f & Hc & Hx & ->). apply (over_other i j w n s); [auto with input| |exact Hov].
    intros ->. destruct Hov as (c' & t & Hc' & _ & Hx' & _). congruence.
  - unfold resize_step in Hs. destruct (sendings s !! j) as [c|] eqn:Hc; cbn in Hs; [|done].
    destruct (resize_tx c); [|done]. destruct size as [[rows cols]|]; [|by injection Hs as <-].
    destruct (rx_open c) eqn:Ex; [|by injection Hs as <-]. case_in Hs. injection Hs as <-.
    destruct (decide (j = i)) as [->|Hn]; [by apply over_sending|].
    apply (over_other i j w n s); [auto with input|exact Hn|exact Hov].
Qed.

Lemma over_rtc i w n s s' : InputOk s -> over i w n s -> rtc input_step s s' -> over i w n s'.
Proof.
  intros Hok Hov Hr. induction Hr as [|s s1 s' Hs _ IH]; [done|]. apply IH; [|by eapply over_step].
  destruct Hs; eauto using start_session_ok, end_session_ok, thread_step_ok, send_step_ok, resize_step_ok.
Qed.

(** Only the thread that holds the lock reads. *)
Lemma reader_holds_lock s s' i :
  InputOk s -> input_step s s' -> lock s = Some i ->
  reads s' = reads s \/ exists chunk, reads s' = reads s ++ [(i, chunk)].
Proof.
  intros Hok Hs Hl. destruct Hs as [| |s j read s' Hs|s j write s' Hs|s j size s' Hs]; [by left|by left|..].
  - pose proof (thread_step_local j read s s' Hok Hs) as [_ _ _ _ Hr _].
    destruct (decide (j = i)) as [->|Hn]; [done|]. left. unfold thread_step in Hs.
    destruct (threads s !! j) as [t|] eqn:Ht; cbn in Hs; [|done].
    destruct (sendings s !! j) as [c|]; cbn in Hs; [|done].
    pose proof (io_lock _ Hok _ _ Ht) as Hlock.
    destruct t as [| |chunk|]; [by rewrite Hl in Hs| | |done];
      exfalso; apply Hn; assert (E : lock s = Some j) by (by apply Hlock); congruence.
  - apply send_step_shape in Hs as (c & f & _ & _ & ->). by left.
  - unfold resize_step in Hs. destruct (sendings s !! j) as [c|]; cbn in Hs; [|done].
    destruct (resize_tx c); [|done]. destruct size as [[rows cols]|]; [|injection Hs as <-; by left].
    destruct (rx_open c); [case_in Hs|]; injection Hs as <-; by left.
Qed.

(** A frame the client sends: input that fits the buffer, or a size. *)
Definition client_frame (f : ConsoleFrame) : Prop :=
  (exists chunk, (length chunk <= STDIN_BUF)%nat /\ f = input_frame chunk) \/
  exists rows cols, f = resize_frame rows cols.

Definition frames_ok (s : Input) : Prop :=
  (forall i c, sendings s !! i = Some c -> Forall client_frame (written c ++ queue c)) /\
  (forall i chunk, threads s !! i = Some (Pushing chunk) -> (length chunk <= STDIN_BUF)%nat).

Lemma frames_ok_sending i f s :
  (forall c, sendings s !! i = Some c -> Forall client_frame (written c ++ queue c) ->
     Forall client_frame (written (f c) ++ queue (f c))) ->
  frames_ok s -> frames_ok (set_sending i f s).
Proof.
  intros Hf [Hs Ht]. split; [|done]. intros j c Hc. cbn in Hc. rewrite list_lookup_alter in Hc. case_decide as E.
  - subst j. apply fmap_Some in Hc as (d & Hd & ->). eauto.
  - eauto.
Qed.

Lemma frames_ok_thread i t s :
  (forall chunk, t = Pushing chunk -> (length chunk <= STDIN_BUF)%nat) -> frames_ok s -> frames_ok (set_thread i t s).
Proof.
  intros Hp [Hs Ht]. split; [done|]. intros j chunk Hj. cbn in Hj.
  apply list_lookup_insert_Some in Hj as [(_ & -> & _)|[_ Hj]]; eauto.
Qed.

Lemma frames_ok_ends i s : frames_ok s -> frames_ok (thread_ends i s).
Proof.
  intros Hs. unfold thread_ends. apply (frames_ok_sending i _ (set_thread i Gone s)); [done|].
  by apply frames_ok_thread.
Qed.

Lemma frames_ok_push i f s : client_frame f -> frames_ok s -> frames_ok (set_sending i (push_frame f) s).
Proof.
  intros Hf. apply frames_ok_sending. intros c _ Hc. cbn. rewrite app_assoc. apply Forall_app. split; [done|].
  by apply Forall_singleton.
Qed.

Lemma frames_ok_step s s' : input_step s s' -> frames_ok s -> frames_ok s'.
Proof.
  intros Hs Hok. pose proof Hok as [Hfs Hts].
  destruct Hs as [s is_tty signals size _|s i _|s i read s' Hs|s i write s' Hs|s i size s' Hs].
  - split; cbn.
    + intros i c Hi. apply lookup_snoc_Some in Hi as [[_ Hi]|[_ <-]]; [eauto|]. cbn. rewrite app_nil_r.
      destruct size as [[rows cols]|]; [|constructor]. destruct is_tty; [|constructor].
      apply Forall_singleton. right. eauto.
    + intros i chunk Hi. apply lookup_snoc_Some in Hi as [[_ Hi]|[_ Hi]]; [eauto|done].
  - apply frames_ok_sending; [|done]. intros c _ Hc. cbn. rewrite app_nil_r. by apply Forall_app in Hc as [? _].
  - unfold thread_step in Hs. destruct (threads s !! i) as [t|] eqn:Ht; cbn in Hs; [|done].
    destruct (sendings s !! i) as [c|]; cbn in Hs; [|done]. destruct t as [| |chunk|]; [..|done].
    + destruct (lock s); [done|]. injection Hs as <-. by apply frames_ok_thread.
    + destruct read as [chunk|e|]; [|injection Hs as <-; by apply frames_ok_ends|done].
      set (s1 := mkInput _ _ _ _) in Hs. assert (H1 : frames_ok s1) by done.
      destruct chunk as [|b chunk]; [injection Hs as <-; by apply frames_ok_ends|]. case_in Hs.
      injection Hs as <-. apply frames_ok_thread; [|done]. intros x [= <-]. by apply Nat.leb_le.
    + destruct (rx_open c); [case_in Hs|]; injection Hs as <-; [|by apply frames_ok_ends].
      apply frames_ok_thread; [done|]. apply frames_ok_push; [|done]. left. eauto.
  - unfold send_step in Hs. destruct (sendings s !! i) as [c|] eqn:Hc; cbn in Hs; [|done].
    destruct (rx_open c); [|done]. destruct (queue c) as [|frame rest] eqn:Eq.
    + case_in Hs. injection Hs as <-. apply frames_ok_sending; [|done]. intros d _ Hd. cbn. rewrite app_nil_r.
      by apply Forall_app in Hd as [? _].
    + destruct write as [u|e|]; [..|done]; injection Hs as <-; (apply frames_ok_sending; [|done]); intros d Hd Hok'; cbn.
      * rewrite Hc in Hd. injection Hd as <-. rewrite Eq in Hok'. by rewrite <- app_assoc.
      * rewrite app_nil_r. by apply Forall_app in Hok' as [? _].
  - unfold resize_step in Hs. destruct (sendings s !! i) as [c|]; cbn in Hs; [|done].
    destruct (resize_tx c); [|done]. destruct size as [[rows cols]|]; [|by injection Hs as <-].
    destruct (rx_open c); [case_in Hs|]; injection Hs as <-; [|done].
    apply frames_ok_push; [|done]. right. eauto.
Qed.

Lemma input_reachable_frames s : input_reachable s -> frames_ok s.
Proof.
  induction 1 as [|s s' _ IH Hs]; [|by eapply frames_ok_step].
  split; intros *; cbn; rewrite lookup_nil; done.
Qed.

(** A session with no sender left writes its queue and finishes its stream. *)
Lemma queue_is_written s i c :
  sendings s !! i = Some c -> rx_open c = true -> stdin_tx c = false -> resize_tx c = false ->
  exists s', rtc input_step s s' /\ reads s' = reads s /\
    sendings s' !! i = Some (mkSending (running c) false false false [] (written c ++ queue c) true).
Proof.
  remember (queue c) as q eqn:Eq. revert s c Eq. induction q as [|frame q IH]; intros s c Eq Hc Hx Ht Hr.
  - eexists. split; [apply rtc_once, (in_send s i (Ok tt)); unfold send_step; rewrite Hc; cbn;
      rewrite Hx, <- Eq, Ht, Hr; reflexivity|].
    split; [done|]. cbn. rewrite list_lookup_alter_eq, Hc, app_nil_r. done.
  - set (c1 := mkSending (running c) true (stdin_tx c) (resize_tx c) q (written c ++ [frame]) (finished c)).
    set (f := fun c => mkSending (running c) true (stdin_tx c) (resize_tx c) q (written c ++ [frame]) (finished c)).
    assert (H1 : send_step i (Ok tt) s = Some (set_sending i f s))
      by (unfold send_step; rewrite Hc; cbn; by rewrite Hx, <- Eq).
    destruct (IH (set_sending i f s) c1) as (s' & Hs' & Hreads & Hc'); [done|by rewrite (set_sending_lookup _ _ _ c)|done..|].
    exists s'. split; [eapply rtc_l; [by eapply in_send|exact Hs']|]. split; [done|].
    rewrite Hc'. cbn. by rewrite <- app_assoc.
Qed.

(** ** Properties *)

(** C14: Input is sent in the order it is read.  What a session wrote is a prefix of
    what its thread read; while the session sends, what it wrote, what it queued and
    what the thread is about to queue are together all that was read, in order; and
    a session that finished its stream has written all of it. *)
Theorem input_is_sent_in_order s i c t :
  input_reachable s -> sendings s !! i = Some c -> threads s !! i = Some t ->
  (exists rest, read_by i (reads s) = frames_data (written c) ++ rest) /\
  (rx_open c = true -> read_by i (reads s) = frames_data (written c) ++ frames_data (queue c) ++ pending t) /\
  (finished c = true -> read_by i (reads s) = frames_data (written c)).
Proof.
  intros Hs Hc Ht. apply input_reachable_ok in Hs. destruct (io_pair _ Hs _ _ _ Ht Hc) as [Ho Hp Hf _ _].
  split; [done|]. split.
  - intros Hx. by rewrite (Ho Hx), frames_data_app, app_assoc.
  - intros E. by destruct (Hf E) as (_ & _ & ?).
Qed.

(** A reconnection loses input.  When a session ended while its thread was
    waiting for input, that thread keeps the lock: the next input goes to it, whatever
    session has started since, and is never written; it reads once more and no more. *)
Theorem reconnection_loses_input s i c :
  input_reachable s -> lock s = Some i -> sendings s !! i = Some c -> rx_open c = false ->
  (forall s', input_step s s' -> reads s' <> reads s -> exists chunk, reads s' = reads s ++ [(i, chunk)]) /\
  (forall s', rtc input_step s s' -> exists c', sendings s' !! i = Some c' /\ written c' = written c /\
     (reads_of i (reads s') <= reads_of i (reads s) + 1)%nat).
Proof.
  intros Hs Hl Hc Hx. apply input_reachable_ok in Hs. split.
  - intros s' Hstep Hr. by destruct (reader_holds_lock _ _ _ Hs Hstep Hl).
  - intros s' Hr. destruct (io_owner _ Hs _ Hl) as [t Ht].
    assert (Hov : over i (written c) (reads_of i (reads s) + 1) s).
    { exists c, t. split_and!; [done..|]. destruct t; cbn; lia. }
    destruct (over_rtc _ _ _ _ _ Hs Hov Hr) as (c' & t' & Hc' & _ & _ & Hw & Hle).
    exists c'. split_and!; [done..|]. lia.
Qed.

Section raw_mode.
Context `{LC : Libc}.

(** Every bit that [b] has is clear in [z]. *)
Definition clear (z b : Z) : Prop := Z.land z b = 0.

Lemma clear_masked z m b : Z.land b m = b -> clear (Z.land z (Z.lnot m)) b.
Proof.
  intros Hm. unfold clear. rewrite <- Hm. apply Z.bits_inj'. intros n Hn.
  rewrite !Z.land_spec, Z.lnot_spec, Z.bits_0 by done.
  by destruct (Z.testbit z n), (Z.testbit m n), (Z.testbit b n).
Qed.

Lemma kept_masked z m n : 0 <= n -> Z.testbit m n = false -> Z.testbit (Z.land z (Z.lnot m)) n = Z.testbit z n.
Proof. intros Hn Hm. rewrite Z.land_spec, Z.lnot_spec, Hm by done. apply andb_true_r. Qed.

Lemma within_lor_l a b c : Z.land c a = c -> Z.land c (Z.lor a b) = c.
Proof.
  intros H. apply Z.bits_inj'. intros n Hn. rewrite Z.land_spec, Z.lor_spec.
  apply (f_equal (fun z => Z.testbit z n)) in H. rewrite Z.land_spec in H.
  destruct (Z.testbit c n), (Z.testbit a n), (Z.testbit b n); done.
Qed.

Lemma within_lor_r a b c : Z.land c b = c -> Z.land c (Z.lor a b) = c.
Proof. rewrite Z.lor_comm. apply within_lor_l. Qed.

(** No line is edited, echoed, translated or turned into a signal. *)
Record Raw (t : Termios) : Prop := {
  raw_input : clear (c_iflag t) BRKINT /\ clear (c_iflag t) ICRNL /\ clear (c_iflag t) INPCK /\
              clear (c_iflag t) ISTRIP /\ clear (c_iflag t) IXON;
  raw_output : clear (c_oflag t) OPOST;
  raw_control : Z.land CS8 (c_cflag t) = CS8;
  raw_local : clear (c_lflag t) ECHO /\ clear (c_lflag t) ICANON /\ clear (c_lflag t) IEXTEN /\
              clear (c_lflag t) ISIG;
  raw_bytes : (VMIN < length (c_cc t))%nat -> (VTIME < length (c_cc t))%nat -> VMIN <> VTIME ->
              c_cc t !! VMIN = Some 1 /\ c_cc t !! VTIME = Some 0;
}.

Lemma make_raw_Raw t : Raw (make_raw t).
Proof.
  assert (Hs : forall b, Z.land b b = b) by apply Z.land_diag.
  split; cbn.
  - split_and!; apply clear_masked; unfold input_off; eauto 8 using within_lor_l, within_lor_r.
  - by apply clear_masked.
  - apply within_lor_r, Hs.
  - split_and!; apply clear_masked; unfold local_off; eauto 8 using within_lor_l, within_lor_r.
  - rewrite !length_insert. intros Hm Ht Hn. split.
    + rewrite list_lookup_insert_ne by done. by apply list_lookup_insert_eq.
    + apply list_lookup_insert_eq. by rewrite length_insert.
Qed.

(** The settings [u] differ from [t] only where raw mode wants them to. *)
Record KeptBesides (t u : Termios) : Prop := {
  kept_input : forall n, 0 <= n -> Z.testbit input_off n = false -> Z.testbit (c_iflag u) n = Z.testbit (c_iflag t) n;
  kept_output : forall n, 0 <= n -> Z.testbit OPOST n = false -> Z.testbit (c_oflag u) n = Z.testbit (c_oflag t) n;
  kept_control : forall n, 0 <= n -> Z.testbit CS8 n = false -> Z.testbit (c_cflag u) n = Z.testbit (c_cflag t) n;
  kept_local : forall n, 0 <= n -> Z.testbit local_off n = false -> Z.testbit (c_lflag u) n = Z.testbit (c_lflag t) n;
  kept_bytes : length (c_cc u) = length (c_cc t) /\
    forall n, n <> VMIN -> n <> VTIME -> c_cc u !! n = c_cc t !! n;
}.

Lemma make_raw_kept t : KeptBesides t (make_raw t).
Proof.
  split; cbn; try (intros n Hn Hm; by apply kept_masked).
  - intros n Hn Hm. rewrite Z.lor_spec, Hm. apply orb_false_r.
  - rewrite !length_insert. split; [done|]. intros n Hm Ht. by rewrite !list_lookup_insert_ne.
Qed.

(** C33: A session runs on a raw terminal and gives it back.  However the session
    ends - by a result, an error or a panic - the terminal has the settings it had
    before, unless the call that restores them fails; the session itself, which does
    not change them, ran with raw settings and every other flag and control character
    kept; and a terminal that cannot be made raw is left as it was, with no session. *)
Theorem terminal_is_given_back {A} (body : M Tty A) t r t' :
  (forall u, snd (body u) = u) -> with_raw_mode true body t = (r, t') ->
  let ok n := nth n (tty_ok t) true in
  if ok 0%nat && ok 1%nat then
    (exists u, body u = (r, u) /\ Raw (settings u) /\ KeptBesides (settings t) (settings u)) /\
    (ok 2%nat = true -> settings t' = settings t)
  else settings t' = settings t /\ exists e, r = Err e.
Proof.
  intros Hb. destruct t as [o oks].
  assert (Hrun : forall k, exists r0, body (mkTty (make_raw o) k) = (r0, mkTty (make_raw o) k)).
  { intros k. specialize (Hb (mkTty (make_raw o) k)). destruct (body _) as [r0 u0]. cbn in Hb. subst u0. eauto. }
  assert (Hraw : forall k, let u := mkTty (make_raw o) k in Raw (settings u) /\ KeptBesides o (settings u))
    by (intros k; split; [apply make_raw_Raw|apply make_raw_kept]).
  unfold with_raw_mode, guarded, enable, restore, tcgetattr, tcsetattr, tty_call,
    mcontext, mlift, mbind, M_bind, mbind_st, mret, M_ret, mret_st.
  destruct oks as [|[] [|[] oks]]; cbn; try (intros [= <- <-]; cbn; by eauto).
  - destruct (Hrun []) as [r0 E], (Hraw []) as [Hr Hk]. rewrite E. intros [= <- <-]. cbn. eauto 8.
  - destruct (Hrun []) as [r0 E], (Hraw []) as [Hr Hk]. rewrite E. intros [= <- <-]. cbn. eauto 8.
  - destruct (Hrun oks) as [r0 E], (Hraw oks) as [Hr Hk]. rewrite E.
    destruct oks as [|[] oks]; intros [= <- <-]; cbn; (split; [|done]); eauto 8.
Qed.
End raw_mode.

(** ** Witnesses *)

(** The values of [libc] on Linux. *)
#[export] Instance linux : Libc := {|
  BRKINT := 2; ICRNL := 256; INPCK := 16; ISTRIP := 32; IXON := 1024;
  OPOST := 1; CS8 := 48; ECHO := 8; ICANON := 2; IEXTEN := 32768; ISIG := 1; VMIN := 6; VTIME := 5;
|}.

Definition run_thread (i : nat) (read : Res (list byte)) (s : Input) : Input := default s (thread_step i read s).

Lemma run_thread_reachable i read s : input_reachable s -> input_reachable (run_thread i read s).
Proof.
  intros Hs. unfold run_thread. destruct (thread_step i read s) as [s'|] eqn:E; [|done].
  eapply input_more; [exact Hs|by eapply in_thread].
Qed.

Lemma first_session is_tty signals size : input_reachable (start_session is_tty signals size input_start).
Proof. eapply input_more; [apply input_init|]. apply in_start, Forall_forall. constructor. Qed.

(** The first session's thread waits for input when its connection is lost; a
    second session has started. *)
Definition demo_lost : Input :=
  let s := start_session true true None input_start in
  let s := run_thread 0 Panic s in
  let s := end_session 0 s in
  start_session true true None s.

Lemma demo_lost_reachable : input_reachable demo_lost.
Proof.
  unfold demo_lost. eapply input_more; [|apply in_start, Forall_forall; repeat constructor].
  eapply input_more; [|apply in_end; reflexivity]. apply run_thread_reachable, first_session.
Qed.

Lemma input_is_sent_in_order_witness :
  exists rest, read_by 0 (reads demo_lost) = frames_data [] ++ rest.
Proof.
  destruct (input_is_sent_in_order demo_lost 0 (mkSending false false true false [] [] false) Reading
    demo_lost_reachable) as (H & _ & _); [vm_compute; reflexivity..|]. exact H.
Defined.

(** The user's first line after the reconnection is lost. *)
Lemma reconnection_loses_input_witness :
  let s' := run_thread 0 Panic (run_thread 0 (Ok (as_bytes "ls")) demo_lost) in
  reads s' = [(0%nat, as_bytes "ls")] /\
  exists c', sendings s' !! 0%nat = Some c' /\ written c' = [] /\ (reads_of 0 (reads s') <= 0 + 1)%nat.
Proof.
  split; [vm_compute; reflexivity|].
  edestruct (reconnection_loses_input demo_lost 0 (mkSending false false true false [] [] false) demo_lost_reachable)
    as [_ H]; [vm_compute; reflexivity..|]. apply H.
  eapply rtc_l; [apply (in_thread _ 0 (Ok (as_bytes "ls"))); vm_compute; reflexivity|].
  eapply rtc_l; [apply (in_thread _ 0 Panic); vm_compute; reflexivity|]. apply rtc_refl.
Defined.

(** A session that panics. *)
Lemma terminal_is_given_back_witness :
  let cooked := mkTermios 1280 5 191 35387 [0; 0; 0; 0; 0; 0; 1] in
  let '(r, t') := with_raw_mode true (fun u => (Panic : Res unit, u)) (mkTty cooked []) in
  r = Panic /\ settings t' = cooked.
Proof.
  intros cooked. destruct (with_raw_mode true (fun u => (Panic : Res unit, u)) (mkTty cooked [])) as [r t'] eqn:E.
  split; [vm_compute in E; by injection E as <- _|].
  apply (terminal_is_given_back (fun u => (Panic : Res unit, u)) (mkTty cooked []) r t'); done.
Defined.
