(* ===== verification/ConsoleBuffer.v ===== *)
(** * The detached-output buffer of a console ([crates/init/src/forward.rs])

    [BufferedConsoleState] keeps the last [limit_bytes] bytes a console wrote
    together with their absolute offsets; [BufferedConsoleOutput] adds the watch
    channel that wakes the streams.  The abstract state is the whole output, a
    byte list; [Repr] relates the two and every operation is shown to refine its
    obvious meaning on that list. *)

From S2P Require Import Prelude.

Definition DETACHED_OUTPUT_BUFFER_LIMIT_BYTES : Z := 1024 * 1024.

Record BufferedConsoleState := mkBuf {
  retained_start : Z;
  next_offset : Z;
  buffer : list byte;
}.

Definition BufferedConsoleState_default : BufferedConsoleState := mkBuf 0 0 [].

(** [u64::clamp] panics when its bounds are out of order. *)
Definition clamp_u64 (x lo hi : Z) : Res Z :=
  if lo <=? hi then Ok (Z.min (Z.max x lo) hi) else Panic.

(** [BufferedConsoleState::push]; the returned start offset comes first. *)
Definition push (self : BufferedConsoleState) (payload : list byte) (limit_bytes : Z) :
    Z * BufferedConsoleState :=
  let start_offset := next_offset self in
  let next_offset := saturating_add_u64 (next_offset self) (len payload) in
  if limit_bytes =? 0 then (start_offset, mkBuf next_offset next_offset [])
  else if limit_bytes <=? len payload then
    let buffer := drop (Z.to_nat (len payload - limit_bytes)) payload in
    (start_offset, mkBuf (next_offset - len buffer) next_offset buffer)
  else
    let buffer := buffer self ++ payload in
    let overflow := saturating_sub (len buffer) limit_bytes in
    if 0 <? overflow then
      (start_offset,
       mkBuf (saturating_add_u64 (retained_start self) overflow) next_offset
         (drop (Z.to_nat overflow) buffer))
    else (start_offset, mkBuf (retained_start self) next_offset buffer).

Definition state_replay_from (self : BufferedConsoleState) (rendered_bytes : Z) :
    Res (list byte * Z) :=
  replay_from ← clamp_u64 rendered_bytes (retained_start self) (next_offset self);
  let skip := replay_from - retained_start self in
  Ok (drop (Z.to_nat skip) (buffer self), next_offset self).

(** [tokio::sync::watch]: a receiver is told apart from the sender's state by
    whether it has seen the latest modification. *)
Class WatchApi := {
  Watch : Type;
  Rx : Type;
  watch_new : Z -> Watch;
  send_modify : (Z -> Z) -> Watch -> Watch;
  watch_subscribe : Watch -> Rx;
  has_changed : Watch -> Rx -> bool;
  (** the receiver after [changed()] completed *)
  mark_seen : Watch -> Rx -> Rx;
}.

(** Its documented behaviour, for receivers of the channel ([rx_of]). *)
Class WatchLaws `{WatchApi} := {
  rx_of : Watch -> Rx -> Prop;
  rx_of_subscribe w : rx_of w (watch_subscribe w);
  rx_of_send w f rx : rx_of w rx -> rx_of (send_modify f w) rx;
  rx_of_seen w rx : rx_of w rx -> rx_of w (mark_seen w rx);
  changed_subscribe w : has_changed w (watch_subscribe w) = false;
  changed_send w f rx : rx_of w rx -> has_changed (send_modify f w) rx = true;
  changed_seen w rx : rx_of w rx -> has_changed w (mark_seen w rx) = false;
}.

Section output.
Context `{WA : WatchApi}.

Record BufferedConsoleOutput := mkOut {
  limit_bytes : Z;
  out_state : BufferedConsoleState;
  notify : Watch;
}.

Definition BufferedConsoleOutput_new (limit_bytes : Z) : BufferedConsoleOutput :=
  mkOut limit_bytes BufferedConsoleState_default (watch_new 0).

(** [push_data]: the append under the lock, then, the lock released, the
    notification with the offset read under the lock. *)
Definition push_data_state (self : BufferedConsoleOutput) (payload : list byte) :
    BufferedConsoleOutput * Z :=
  let '(_, state) := push (out_state self) payload (limit_bytes self) in
  (mkOut (limit_bytes self) state (notify self), next_offset state).

Definition push_data_notify (self : BufferedConsoleOutput) (next_offset : Z) : BufferedConsoleOutput :=
  mkOut (limit_bytes self) (out_state self) (send_modify (fun _ => next_offset) (notify self)).

Definition push_data (self : BufferedConsoleOutput) (payload : list byte) : BufferedConsoleOutput :=
  let '(self, next_offset) := push_data_state self payload in
  push_data_notify self next_offset.

Definition push_exit (self : BufferedConsoleOutput) (_code : Z) : BufferedConsoleOutput :=
  mkOut (limit_bytes self) (out_state self)
    (send_modify (fun seq => saturating_add_u64 seq 1) (notify self)).

Definition replay_from (self : BufferedConsoleOutput) (offset : Z) : Res (list byte * Z) :=
  state_replay_from (out_state self) offset.

Record BufferedConsoleSubscription := mkSub {
  sub_replay : list byte;
  sub_next_offset : Z;
  notify_rx : Rx;
}.

(** [subscribe_from]: the channel is subscribed to before the state is locked;
    [subscribed] and [self] are the output at those two moments. *)
Definition subscribe_from (subscribed self : BufferedConsoleOutput) (rendered_bytes : Z) :
    Res BufferedConsoleSubscription :=
  let notify_rx := watch_subscribe (notify subscribed) in
  let state := out_state self in
  let next_offset := next_offset state in
  replay_from ← clamp_u64 rendered_bytes (retained_start state) next_offset;
  let skip := replay_from - retained_start state in
  let replay := drop (Z.to_nat skip) (buffer state) in
  Ok (mkSub replay next_offset notify_rx).
End output.

(** A concrete channel: the number of modifications, and the number seen. *)
#[export] Instance counting_watch : WatchApi := {|
  Watch := Z * Z;
  Rx := Z;
  watch_new v := (v, 0);
  send_modify f w := (f (fst w), snd w + 1);
  watch_subscribe w := snd w;
  has_changed w rx := negb (rx =? snd w);
  mark_seen w _ := snd w;
|}.

(** ** Abstraction: the whole output of the console *)

(** The last [n] elements of a list. *)
Definition lastn {A} (n : nat) (l : list A) : list A := drop (length l - n) l.

Definition Repr (limit : Z) (log : list byte) (st : BufferedConsoleState) : Prop :=
  buffer st = lastn (Z.to_nat limit) log /\
  next_offset st = len log /\
  retained_start st = len log - len (buffer st).

(** Where a replay asked from [offset] starts. *)
Definition replay_start (limit : Z) (log : list byte) (offset : Z) : Z :=
  Z.min (Z.max offset (Z.max 0 (len log - limit))) (len log).

(** ** Lemmas *)

Lemma length_lastn {A} n (l : list A) : length (lastn n l) = Nat.min n (length l).
Proof. unfold lastn. rewrite length_drop. lia. Qed.

Lemma len_lastn {A} n (l : list A) : len (lastn n l) = Z.min (Z.of_nat n) (len l).
Proof. unfold len. rewrite length_lastn. lia. Qed.

Lemma lastn_all {A} n (l : list A) : (length l <= n)%nat -> lastn n l = l.
Proof. intros H. unfold lastn. replace (length l - n)%nat with 0%nat by lia. done. Qed.

Lemma lastn_lastn_app {A} n (l k : list A) :
  lastn n (lastn n l ++ k) = lastn n (l ++ k).
Proof.
  unfold lastn. rewrite !length_app, length_drop.
  destruct (decide (length l <= n)%nat).
  - replace (length l - n)%nat with 0%nat by lia. rewrite drop_0. f_equal. lia.
  - rewrite <- (drop_app_le l k (length l - n)) by lia. rewrite drop_drop. f_equal. lia.
Qed.

Lemma lastn_app_long {A} n (l k : list A) :
  (n <= length k)%nat -> lastn n (l ++ k) = lastn n k.
Proof.
  intros H. unfold lastn. rewrite length_app, drop_app_ge by lia. f_equal. lia.
Qed.

Lemma Repr_default limit : 0 <= limit -> Repr limit [] BufferedConsoleState_default.
Proof. intros H. unfold Repr. cbn. done. Qed.

Lemma Repr_retained limit log st : 0 <= limit -> Repr limit log st ->
  retained_start st = Z.max 0 (len log - limit).
Proof.
  intros Hl (Hb & _ & ->). rewrite Hb. unfold len. rewrite length_lastn. lia.
Qed.

Lemma push_repr limit log st payload :
  0 <= limit -> Repr limit log st -> len (log ++ payload) < U64 ->
  Repr limit (log ++ payload) (snd (push st payload limit)) /\
  fst (push st payload limit) = len log.
Proof.
  intros Hlim (Hb & Hn & Hr) Hlen. pose proof (len_nonneg log). pose proof (len_nonneg payload).
  rewrite len_app in Hlen. unfold push, saturating_add_u64, saturating_sub, Repr.
  rewrite Hn, !Z.min_l by lia.
  destruct (Z.eqb_spec limit 0) as [->|Hl0].
  { cbn. rewrite len_app. split; [|done]. split; [|split; [done|unfold len; cbn; lia]].
    unfold lastn. rewrite drop_ge by lia. done. }
  destruct (Z.leb_spec limit (len payload)) as [Hbig|Hsmall].
  { cbn. rewrite len_app. split; [|done]. split; [|done].
    rewrite lastn_app_long by (unfold len in Hbig; lia). unfold lastn, len. f_equal. lia. }
  rewrite len_app. set (n := Z.to_nat limit) in *.
  assert (Hbl : len (buffer st) = Z.min limit (len log))
    by (rewrite Hb; unfold len; rewrite length_lastn; lia).
  rewrite Hbl in *.
  assert (Hlast : lastn n (buffer st ++ payload) = lastn n (log ++ payload))
    by (rewrite Hb; apply lastn_lastn_app).
  destruct (Z.ltb_spec 0 (Z.max 0 (Z.min limit (len log) + len payload - limit))) as [Ho|Ho]; cbn.
  - assert (Hd : drop (Z.to_nat (Z.max 0 (Z.min limit (len log) + len payload - limit)))
        (buffer st ++ payload) = lastn n (log ++ payload)).
    { rewrite <- Hlast. unfold lastn. rewrite length_app. f_equal. unfold len in *. lia. }
    rewrite Hd, Hr. rewrite Z.min_l by lia. rewrite len_app. split; [|done]. split; [done|].
    split; [done|]. rewrite len_lastn, len_app. subst n. lia.
  - assert (Hd : buffer st ++ payload = lastn n (log ++ payload)).
    { rewrite <- Hlast, lastn_all; [done|]. rewrite length_app. unfold len in *. lia. }
    rewrite <- Hd, Hr, !len_app, Hbl. split; [|done]. split; [done|]. split; [done|lia].
Qed.

Lemma replay_repr limit log st offset :
  0 <= limit -> Repr limit log st ->
  state_replay_from st offset = Ok (drop (Z.to_nat (replay_start limit log offset)) log, len log).
Proof.
  intros Hlim HR. pose proof (Repr_retained _ _ _ Hlim HR) as Hret. destruct HR as (Hb & Hn & _).
  pose proof (len_nonneg log).
  unfold state_replay_from, clamp_u64. rewrite Hn, Hret.
  replace (Z.max 0 (len log - limit) <=? len log) with true by lia. cbn.
  f_equal. f_equal. rewrite Hb. unfold lastn. rewrite drop_drop. f_equal.
  unfold replay_start, len in *. lia.
Qed.

#[export] Instance counting_watch_laws : WatchLaws.
Proof. refine {| rx_of w rx := rx <= snd w |}; cbn; lia. Qed.

(** ** Properties *)

(** The buffer refines the whole output: after any sequence of pushes (within
    the 64-bit offset range) it holds exactly the last [limit] bytes written, its
    offsets delimit them, and [push] returns the offset the payload was written at. *)
Theorem push_refines_append limit payloads st :
  0 <= limit -> len (concat payloads) < U64 ->
  st = fold_left (fun st p => snd (push st p limit)) payloads BufferedConsoleState_default ->
  Repr limit (concat payloads) st /\
  forall p, len (concat payloads) + len p < U64 -> fst (push st p limit) = len (concat payloads).
Proof.
  intros Hlim Hlen ->.
  assert (HR : Repr limit (concat payloads)
    (fold_left (fun st p => snd (push st p limit)) payloads BufferedConsoleState_default)).
  { induction payloads as [|p ps IH] using rev_ind; [apply Repr_default; done|].
    rewrite concat_app in *. cbn [concat] in *. rewrite app_nil_r in *.
    rewrite fold_left_app. cbn [fold_left].
    apply push_repr; [done| |done]. apply IH. rewrite len_app in Hlen. pose proof (len_nonneg p). lia. }
  split; [done|]. intros p Hp. apply push_repr; [done|done|]. rewrite len_app. lia.
Qed.

(** A replay never panics and never repeats or reorders: asked from [offset]
    it returns the output from [offset] on, or from the oldest retained byte when
    [offset] was already evicted; what the client had plus the replay is the whole
    output exactly when nothing it lacks was evicted. *)
Theorem replay_from_refines limit log st offset :
  0 <= limit -> Repr limit log st -> 0 <= offset <= len log ->
  exists data, state_replay_from st offset = Ok (data, len log) /\
    data = drop (Z.to_nat (Z.max offset (len log - limit))) log /\
    (take (Z.to_nat offset) log ++ data = log <-> len log - limit <= offset).
Proof.
  intros Hlim HR Ho. eexists. rewrite (replay_repr limit log) by done.
  split; [reflexivity|]. unfold replay_start.
  replace (Z.min (Z.max offset (Z.max 0 (len log - limit))) (len log))
    with (Z.max offset (len log - limit)) by lia.
  split; [done|]. split.
  - intros E%(f_equal length). rewrite length_app, length_take, length_drop in E.
    unfold len in *. lia.
  - intros H. rewrite Z.max_l by done. apply take_drop.
Qed.

(** ** Witnesses *)

Lemma push_refines_append_witness :
  Repr 4 (as_bytes "hello")
    (fold_left (fun st p => snd (push st p 4)) [as_bytes "he"; as_bytes "llo"] BufferedConsoleState_default).
Proof.
  apply (push_refines_append 4 [as_bytes "he"; as_bytes "llo"]); [lia|vm_compute; done|reflexivity].
Defined.

Lemma replay_from_refines_witness :
  exists data, state_replay_from (mkBuf 1 5 (as_bytes "ello")) 3 = Ok (data, 5) /\
  data = as_bytes "lo" /\ (as_bytes "hel" ++ data = as_bytes "hello" <-> 5 - 4 <= 3).
Proof.
  apply (replay_from_refines 4 (as_bytes "hello") (mkBuf 1 5 (as_bytes "ello")) 3);
    [lia|vm_compute; done|vm_compute; split; done].
Defined.
