(* ===== verification/ConsoleStream.v ===== *)
(** * Console sessions on the server ([crates/init/src/forward.rs])

    The three tasks of a persistent console (input, output, wait), the task that
    streams a console to one client, the task that relays the client's input, the
    PTY helpers and the command that is spawned.  A task that waits is a function
    of the events it is woken by; [stream_console_output], which shares the
    output and the exit code with the other tasks, is a coroutine: [stream_step]
    runs it from one access of shared state to the next. *)

From S2P Require Import Prelude Protocol ConsoleBuffer.

(** ** PTY helpers *)

Inductive Errno := EAGAIN | EIO | OtherErrno.

Definition classify_pty_read (read_result : Z) (errno : Errno) : Res (option Z) :=
  if 0 <=? read_result then Ok (Some read_result)
  else
    match errno with
    | EAGAIN => Ok None
    | EIO => Ok (Some 0)
    | OtherErrno => Err [Io OtherIo]
    end.

(** One turn of the loop of [pty_write_all]: what [writable] and [write] gave. *)
Inductive PtyWrite :=
| WritableFailed (e : Error)
| WriteOk (n : nat)
| WriteFailed (e : Error)
| WriteWouldBlock.

(** The loop; [None] while it waits for more events.  The second component is
    what reached the PTY. *)
Fixpoint pty_write_all (events : list PtyWrite) (data : list byte) : option (Res unit) * list byte :=
  match data with
  | [] => (Some (Ok tt), [])
  | _ =>
    match events with
    | [] => (None, [])
    | WritableFailed e :: _ => (Some (Err (Msg "wait pty writable" :: e)), [])
    | WriteFailed e :: _ => (Some (Err (Msg "write pty master" :: e)), [])
    | WriteWouldBlock :: events => pty_write_all events data
    | WriteOk n :: events =>
        let '(r, out) := pty_write_all events (drop n data) in (r, take n data ++ out)
    end
  end.

Definition is_io (k : IoErrorKind) (c : Cause) : bool :=
  match c with Io k' => bool_decide (k' = k) | _ => false end.

Definition is_unexpected_eof (err : Error) : bool := existsb (is_io UnexpectedEof) err.

(** ** The client's input *)

Inductive ConsoleInput :=
| Data (data : list byte)
| Resize (rows cols : Z).

#[export] Instance ConsoleInput_eq_dec : EqDecision ConsoleInput.
Proof. solve_decision. Defined.

(** The input to send on the channel, if any; a send that fails is ignored. *)
Definition forward_client_frame (frame : ConsoleFrame) : Res (option ConsoleInput) :=
  if cs_ty frame =? CONSOLE_DATA then Ok (Some (Data (cs_payload frame)))
  else if cs_ty frame =? CONSOLE_RESIZE then
    '(rows, cols) ← decode_resize (cs_payload frame);
    Ok (Some (Resize rows cols))
  else Ok None.

(** What wakes [relay_client_input]. *)
Inductive RelayEvent :=
| TakeoverCancelled
| FrameRead (r : Res ConsoleFrame).

(** [relay_client_input]: the inputs sent, in order, and the result once the
    loop has ended.  Without a takeover token there is no [TakeoverCancelled]. *)
Fixpoint relay_client_input (takeover : bool) (events : list RelayEvent) :
    list ConsoleInput * option (Res unit) :=
  match events with
  | [] => ([], None)
  | TakeoverCancelled :: events =>
      if takeover then ([], Some (Ok tt)) else relay_client_input takeover events
  | FrameRead (Ok frame) :: events =>
      match forward_client_frame frame with
      | Ok (Some input) =>
          let '(sent, r) := relay_client_input takeover events in (input :: sent, r)
      | Ok None => relay_client_input takeover events
      | Err e => ([], Some (Err e))
      | Panic => ([], Some Panic)
      end
  | FrameRead (Err err) :: _ =>
      if is_unexpected_eof err then ([], Some (Ok tt)) else ([], Some (Err err))
  | FrameRead Panic :: _ => ([], Some Panic)
  end.

(** ** The tasks of a console *)

(** What [run_persistent_console_input] does to the PTY. *)
Inductive PtyOp :=
| PtyWritten (data : list byte)
| PtyWinsize (rows cols : Z).

Inductive InputEvent :=
| InputShutdown
| InputRecv (input : option ConsoleInput) (writes : list PtyWrite).

(** The operations performed and whether the task cancelled [shutdown]. *)
Fixpoint run_persistent_console_input (events : list InputEvent) : list PtyOp * bool :=
  match events with
  | [] => ([], false)
  | InputShutdown :: _ => ([], false)
  | InputRecv None _ :: _ => ([], false)
  | InputRecv (Some (Data data)) writes :: events =>
      match pty_write_all writes data with
      | (Some (Ok _), out) =>
          let '(ops, c) := run_persistent_console_input events in (PtyWritten out :: ops, c)
      | (Some _, out) => ([PtyWritten out], true)
      | (None, out) => ([PtyWritten out], false)
      end
  | InputRecv (Some (Resize rows cols)) _ :: events =>
      let '(ops, c) := run_persistent_console_input events in (PtyWinsize rows cols :: ops, c)
  end.

Inductive OutputEvent :=
| OutputShutdown
| OutputRead (r : Res (list byte)).

Section stream.
Context `{WA : WatchApi}.

Fixpoint run_persistent_console_output (events : list OutputEvent) (output : BufferedConsoleOutput) :
    BufferedConsoleOutput :=
  match events with
  | [] => output
  | OutputShutdown :: _ => output
  | OutputRead (Ok []) :: _ => output
  | OutputRead (Ok buf) :: events => run_persistent_console_output events (push_data output buf)
  | OutputRead _ :: _ => output
  end.

(** [wait_for_persistent_console_exit]: the code stored. *)
Definition exit_status_code (wait : Res (option Z)) : Z :=
  match wait with
  | Ok status => as_u32 (default 255 status)
  | _ => 255
  end.

(** The four writes of [wait_for_persistent_console_exit] after the child was
    waited for, in the order it makes them. *)
Inductive WaitPc := Waiting | CodeStored (code : Z) | TimeStored (code : Z) | ExitPushed | WaitDone.

Record Runtime := mkRuntime {
  output : BufferedConsoleOutput;
  exit_code : option Z;
  exited_at : option Z;
  shutdown : bool;
}.

Definition wait_for_persistent_console_exit (wait : Res (option Z)) (now : Z) (pc : WaitPc)
    (rt : Runtime) : WaitPc * Runtime :=
  match pc with
  | Waiting =>
      let code := exit_status_code wait in
      (CodeStored code, mkRuntime (output rt) (Some code) (exited_at rt) (shutdown rt))
  | CodeStored code =>
      (TimeStored code, mkRuntime (output rt) (exit_code rt) (Some now) (shutdown rt))
  | TimeStored code =>
      (ExitPushed, mkRuntime (push_exit (output rt) code) (exit_code rt) (exited_at rt) (shutdown rt))
  | ExitPushed => (WaitDone, mkRuntime (output rt) (exit_code rt) (exited_at rt) true)
  | WaitDone => (WaitDone, rt)
  end.

(** ** Streaming the output to a client *)

(** [quinn::SendStream::finish] beside [AsyncWrite]. *)
Class QuicSend (W : Type) `{AsyncWrite W} := { finish : M W unit }.

Context `{QS : QuicSend W}.

Definition send_console_bytes (payload : list byte) : M W unit :=
  if len payload =? 0 then mret tt
  else ConsoleFrame_write_to (mkConsoleFrame CONSOLE_DATA payload).

Definition write_exit_frame (code : Z) : M W unit :=
  ConsoleFrame_write_to (mkConsoleFrame CONSOLE_EXIT (be_bytes 4 code)).

(** Where [stream_console_output] is. *)
Inductive StreamPc :=
| SendReplay (replay : list byte)
| CheckFirst
| Await
| Fetch
| SendData (data : list byte) (new_offset : Z)
| CheckExit
| SendExit (code : Z)
| Finish
| Drain
| SendDrained (data : list byte)
| CheckDrained
| Returned (r : Res unit).

Record Stream := mkStream {
  pc : StreamPc;
  stream_next_offset : Z;
  seen : Rx;
}.

Definition stream_start (subscription : BufferedConsoleSubscription) : Stream :=
  mkStream (SendReplay (sub_replay subscription)) (sub_next_offset subscription)
    (notify_rx subscription).

(** The branch of the [select!] that is taken when the stream waits. *)
Inductive Branch := OnTakeover | OnChanged.

(** [?] on the result of a send. *)
Definition try_send (r : Res unit) (next : StreamPc) : StreamPc :=
  match r with Ok _ => next | Err e => Returned (Err e) | Panic => Returned Panic end.

(** [takeover] is the token, if there is one, as whether it is cancelled;
    [sender_alive] is whether the watch channel still has its sender.  [None]:
    the branch is not ready. *)
Definition stream_step (branch : Branch) (rt : Runtime) (takeover : option bool)
    (sender_alive : bool) (finish_context : string) (st : Stream) (send : W) :
    option (Stream * W) :=
  let goto pc := mkStream pc (stream_next_offset st) (seen st) in
  match pc st with
  | SendReplay replay =>
      let '(r, send) := send_console_bytes replay send in
      Some (goto (try_send r CheckFirst), send)
  | CheckFirst =>
      Some (goto (match exit_code rt with Some code => SendExit code | None => Await end), send)
  | Await =>
      match branch with
      | OnTakeover =>
          if default false takeover then Some (goto (Returned (Ok tt)), send) else None
      | OnChanged =>
          if has_changed (notify (output rt)) (seen st) then
            Some (mkStream Fetch (stream_next_offset st)
                    (mark_seen (notify (output rt)) (seen st)), send)
          else if sender_alive then None
          else Some (goto Drain, send)
      end
  | Fetch =>
      match replay_from (output rt) (stream_next_offset st) with
      | Ok (data, new_offset) => Some (goto (SendData data new_offset), send)
      | Err e => Some (goto (Returned (Err e)), send)
      | Panic => Some (goto (Returned Panic), send)
      end
  | SendData data new_offset =>
      let '(r, send) := send_console_bytes data send in
      Some (mkStream (try_send r CheckExit)
              (match r with Ok _ => new_offset | _ => stream_next_offset st end) (seen st), send)
  | CheckExit =>
      Some (goto (match exit_code rt with Some code => SendExit code | None => Await end), send)
  | SendExit code =>
      let '(r, send) := write_exit_frame code send in
      Some (goto (try_send r Finish), send)
  | Finish =>
      let '(r, send) := mcontext finish_context finish send in
      Some (goto (Returned r), send)
  | Drain =>
      match replay_from (output rt) (stream_next_offset st) with
      | Ok (data, _) => Some (goto (SendDrained data), send)
      | Err e => Some (goto (Returned (Err e)), send)
      | Panic => Some (goto (Returned Panic), send)
      end
  | SendDrained data =>
      let '(r, send) := send_console_bytes data send in
      Some (goto (try_send r CheckDrained), send)
  | CheckDrained =>
      Some (goto (match exit_code rt with
                  | Some code => SendExit code | None => Returned (Ok tt) end), send)
  | Returned _ => None
  end.
End stream.
