(* ===== verification/ConsoleClient.v ===== *)
(** * The console client ([crates/client/src/console.rs])

    What one console or exec session does with the frames it receives, how many
    bytes it reports as rendered, and which errors make the caller reconnect.
    The connection, the terminal and the file descriptors are the environment:
    a session is a function of what they answered, in order. *)

From S2P Require Import Prelude Protocol.

Inductive ConsoleSessionOutcome :=
| Exited (code : Z)
| Disconnected.

Record ConsoleSessionProgress := mkProgress {
  outcome : ConsoleSessionOutcome;
  rendered_bytes : Z;
}.

(** ** Which errors mean that the transport was lost *)

Definition is_reconnectable_connection_error (err : ConnectionError) : bool :=
  match err with
  | ApplicationClosed | ConnectionClosed | Reset | TimedOut | TransportError => true
  | ConnOther => false
  end.

Definition is_reconnectable_read_error (err : ReadError) : bool :=
  match err with
  | ReadReset => true
  | ReadConnectionLost conn_err => is_reconnectable_connection_error conn_err
  | ReadOther => false
  end.

Definition is_reconnectable_write_error (err : WriteError) : bool :=
  match err with
  | WriteStopped => true
  | WriteConnectionLost conn_err => is_reconnectable_connection_error conn_err
  | WriteOther => false
  end.

Definition is_reconnectable_cause (cause : Cause) : bool :=
  match cause with
  | ConnErr e => is_reconnectable_connection_error e
  | RdErr e => is_reconnectable_read_error e
  | WrErr e => is_reconnectable_write_error e
  | Io _ => true
  | _ => false
  end.

Definition is_reconnectable_transport (err : Error) : bool := existsb is_reconnectable_cause err.

(** ** Writing to the terminal *)

(** The loop over what each [write] returned; [None] while a [write] blocks.
    The second component is what the terminal received. *)
Fixpoint write_console_output (rets : list Z) (payload : list byte) :
    option (Res unit) * list byte :=
  match payload with
  | [] => (Some (Ok tt), [])
  | _ =>
    match rets with
    | [] => (None, [])
    | ret :: rets =>
        if ret <? 0 then (Some (Err [Msg "write stdout"; Io OtherIo]), [])
        else if ret =? 0 then (Some (Err [Msg "write stdout"; Io WriteZero]), [])
        else
          let '(r, out) := write_console_output rets (drop (Z.to_nat ret) payload) in
          (r, take (Z.to_nat ret) payload ++ out)
    end
  end.

(** ** Requests *)

Definition current_term_for_exec (stdin_is_terminal stdout_is_terminal : bool) : option string :=
  if negb (stdin_is_terminal || stdout_is_terminal) then None else Some "xterm".

(** The [sh] script of the wrapper: export TERM from its first argument. *)
Definition term_script : string :=
  let quote := String (Ascii.ascii_of_nat 34) EmptyString in
  "export TERM=" +:+ quote +:+ "$1" +:+ quote +:+ "; shift; exec " +:+ quote +:+ "$@" +:+ quote.

Definition wrap_exec_with_term (argv : list string) (term : option string) : list string :=
  match term with
  | None => argv
  | Some term => ["/bin/sh"; "-lc"; term_script; "sh"; term] ++ argv
  end.

Definition build_exec_request (stdin_is_terminal stdout_is_terminal : bool) (session_id : string)
    (argv : option (list string)) (context : option string) : ExecSessionRequest :=
  mkExecRequest session_id
    ((fun argv => wrap_exec_with_term argv
        (current_term_for_exec stdin_is_terminal stdout_is_terminal)) <$> argv)
    context 0.

(** ** An interactive session *)

(** The loop of [run_session] over the frames read, each with the returns of the
    [write]s its payload needs.  The result comes with the bytes rendered and
    the terminal's content; [None] while it waits. *)
Fixpoint session_loop (frames : list (Res ConsoleFrame * list Z)) (rendered_bytes : Z) :
    option (Res ConsoleSessionOutcome) * Z * list byte :=
  match frames with
  | [] => (None, rendered_bytes, [])
  | (Err err, _) :: _ =>
      if is_reconnectable_transport err then (Some (Ok Disconnected), rendered_bytes, [])
      else (Some (Err err), rendered_bytes, [])
  | (Panic, _) :: _ => (Some Panic, rendered_bytes, [])
  | (Ok frame, rets) :: frames =>
      if cs_ty frame =? CONSOLE_DATA then
        match write_console_output rets (cs_payload frame) with
        | (Some (Ok _), out) =>
            let '(r, n, out') := session_loop frames
              (saturating_add_u64 rendered_bytes (len (cs_payload frame))) in
            (r, n, out ++ out')
        | (Some (Err e), out) => (Some (Err e), rendered_bytes, out)
        | (Some Panic, out) => (Some Panic, rendered_bytes, out)
        | (None, out) => (None, rendered_bytes, out)
        end
      else if cs_ty frame =? CONSOLE_EXIT then
        (Some (Exited <$> decode_exit (cs_payload frame)), rendered_bytes, [])
      else session_loop frames rendered_bytes
  end.

(** How the aborted resize task ended. *)
Inductive Join :=
| JoinReturned (r : Res unit)
| JoinCancelled
| JoinFailed (e : Error).

(** What the environment of a session answered. *)
Record SessionEnv := mkSessionEnv {
  open_bi : Res unit;
  write_tag : Res unit;
  write_startup : Res unit;
  (** [None]: not a terminal; else [RawModeGuard::enable] and the size write *)
  raw_mode : option (Res unit * option (Res unit));
  frames : list (Res ConsoleFrame * list Z);
  resize_join : Join;
}.

(** An error of the setup: disconnected, or returned with [msg] in front. *)
Definition or_disconnected (rendered_bytes : Z) (err : Error) : Res ConsoleSessionProgress :=
  if is_reconnectable_transport err then Ok (mkProgress Disconnected rendered_bytes) else Err err.

(** [match r { Err(err) => disconnected or return, Ok => k }]. *)
Definition or_disconnected_bind (rendered_bytes : Z) (r : Res unit)
    (k : option (Res ConsoleSessionProgress) * list byte) :
    option (Res ConsoleSessionProgress) * list byte :=
  match r with
  | Ok _ => k
  | Err err => (Some (or_disconnected rendered_bytes err), [])
  | Panic => (Some Panic, [])
  end.

(** After the loop: the tasks are aborted and the result is classified. *)
Definition finish_session (session_result : Res ConsoleSessionOutcome) (join : Join)
    (rendered_bytes : Z) : Res ConsoleSessionProgress :=
  _ ← match join with
      | JoinReturned r => r
      | JoinCancelled => Ok tt
      | JoinFailed e => Err (Msg "join resize task" :: e)
      end;
  match session_result with
  | Ok outcome => Ok (mkProgress outcome rendered_bytes)
  | Err err =>
      if is_reconnectable_transport err then Ok (mkProgress Disconnected rendered_bytes)
      else Err err
  | Panic => Panic
  end.

Definition run_session (env : SessionEnv) (rendered_bytes : Z) :
    option (Res ConsoleSessionProgress) * list byte :=
  or_disconnected_bind rendered_bytes (with_context "open console stream" (open_bi env))
  (or_disconnected_bind rendered_bytes (with_context "write console stream tag" (write_tag env))
  (or_disconnected_bind rendered_bytes (write_startup env)
    (let raw := match raw_mode env with
                | None => Ok tt
                | Some (guard, resize) =>
                    _ ← with_context "enable raw mode" guard; default (Ok tt) resize
                end in
     match raw with
     | Err e => (Some (Err e), [])
     | Panic => (Some Panic, [])
     | Ok _ =>
         let '(r, n, out) := session_loop (frames env) rendered_bytes in
         ((fun r => match r with
                    | Panic => Panic
                    | r => finish_session r (resize_join env) n
                    end) <$> r, out)
     end))).

(** The startup frames of [run_console] and [run_exec]. *)
Definition shell_startup (rendered_bytes : Z) : ConsoleFrame :=
  mkConsoleFrame CONSOLE_SHELL (SharedConsoleRequest_to_bytes (mkSharedConsoleRequest rendered_bytes)).

Definition exec_startup `{BytesCrate} (request : ExecSessionRequest) : ConsoleFrame :=
  mkConsoleFrame CONSOLE_EXEC (ExecSessionRequest_to_bytes request).

(** ** A session whose output goes to a channel *)

(** [wait_for_exit]. *)
Fixpoint wait_for_exit (reads : list (Res ConsoleFrame)) : option (Res (list byte)) :=
  match reads with
  | [] => None
  | Ok frame :: reads =>
      if cs_ty frame =? CONSOLE_EXIT then Some (Ok (cs_payload frame)) else wait_for_exit reads
  | Err e :: _ => Some (Err (Msg "read exec frame while waiting for exit" :: e))
  | Panic :: _ => Some Panic
  end.

(** The loop of [run_exec_streaming]; each frame comes with whether the channel
    accepted its payload.  The list is what the channel received. *)
Fixpoint exec_streaming_loop (frames : list (Res ConsoleFrame * bool)) (rendered_bytes : Z) :
    option (Res ConsoleSessionProgress) * list (list byte) :=
  match frames with
  | [] => (None, [])
  | (Err err, _) :: _ =>
      if is_reconnectable_transport err then
        (Some (Ok (mkProgress Disconnected rendered_bytes)), [])
      else (Some (Err (Msg "read exec frame" :: err)), [])
  | (Panic, _) :: _ => (Some Panic, [])
  | (Ok frame, accepted) :: frames =>
      if cs_ty frame =? CONSOLE_DATA then
        if accepted then
          let '(r, out) := exec_streaming_loop frames
            (saturating_add_u64 rendered_bytes (len (cs_payload frame))) in
          (r, cs_payload frame :: out)
        else
          ((fun r => payload ← r; code ← decode_exit payload;
                     Ok (mkProgress (Exited code) rendered_bytes))
             <$> wait_for_exit (map fst frames), [])
      else if cs_ty frame =? CONSOLE_EXIT then
        (Some (code ← decode_exit (cs_payload frame);
               Ok (mkProgress (Exited code) rendered_bytes)), [])
      else exec_streaming_loop frames rendered_bytes
  end.

Definition run_exec_streaming (open_bi write_tag write_startup : Res unit)
    (frames : list (Res ConsoleFrame * bool)) (request : ExecSessionRequest) :
    option (Res ConsoleSessionProgress) * list (list byte) :=
  let rendered_bytes := req_rendered_bytes request in
  match with_context "open exec stream" open_bi with
  | Panic => (Some Panic, [])
  | Err err => (Some (or_disconnected rendered_bytes err), [])
  | Ok _ =>
  match with_context "write console stream tag" write_tag with
  | Panic => (Some Panic, [])
  | Err err => (Some (or_disconnected rendered_bytes err), [])
  | Ok _ =>
  match write_startup with
  | Panic => (Some Panic, [])
  | Err err =>
      if is_reconnectable_transport err then
        (Some (Ok (mkProgress Disconnected rendered_bytes)), [])
      else (Some (Err (Msg "write exec startup frame" :: err)), [])
  | Ok _ => exec_streaming_loop frames rendered_bytes
  end end end.

(** ** Lemmas *)

(** The data of the frames of a session, in order. *)
Definition frame_data (f : Res ConsoleFrame) : list byte :=
  match f with
  | Ok frame => if cs_ty frame =? CONSOLE_DATA then cs_payload frame else []
  | _ => []
  end.

Definition session_data (frames : list (Res ConsoleFrame)) : list byte :=
  concat (map frame_data frames).

Definition is_exit (f : Res ConsoleFrame) : bool :=
  match f with Ok frame => cs_ty frame =? CONSOLE_EXIT | _ => false end.

Lemma write_console_output_Ok rets payload out :
  write_console_output rets payload = (Some (Ok tt), out) -> out = payload.
Proof.
  revert payload out. induction rets as [|ret rets IH]; intros [|b payload] out; cbn [write_console_output];
    try (intros [= <-]; done); try done.
  case_test; [done|]. case_test; [done|].
  destruct (write_console_output rets (drop (Z.to_nat ret) (b :: payload))) as [r o] eqn:E.
  intros [= -> <-]. apply IH in E as ->. apply take_drop.
Qed.

(** The bytes the terminal got are a prefix of the payload, whatever happened. *)
Lemma write_console_output_prefix rets payload :
  snd (write_console_output rets payload) `prefix_of` payload.
Proof.
  revert payload. induction rets as [|ret rets IH]; intros [|b payload]; cbn [write_console_output];
    try apply prefix_nil; try done.
  case_test; [apply prefix_nil|]. case_test; [apply prefix_nil|].
  specialize (IH (drop (Z.to_nat ret) (b :: payload))).
  destruct (write_console_output rets (drop (Z.to_nat ret) (b :: payload))) as [r o]. cbn in *.
  rewrite <- (take_drop (Z.to_nat ret) (b :: payload)) at 2. by apply prefix_app.
Qed.

Lemma saturating_add_id x y : 0 <= x -> 0 <= y -> x + y < U64 -> saturating_add_u64 x y = x + y.
Proof. unfold saturating_add_u64. lia. Qed.

Lemma saturating_add_range x y : 0 <= x -> 0 <= y -> 0 <= saturating_add_u64 x y <= x + y.
Proof. unfold saturating_add_u64, U64. lia. Qed.

(** What a session that ended without an error consumed and rendered. *)
Lemma session_loop_Ok frames rb r n out :
  session_loop frames rb = (Some (Ok r), n, out) -> 0 <= rb -> rb + len out < U64 ->
  n = rb + len out /\
  exists consumed last rest,
    map fst frames = consumed ++ last :: rest /\
    out = session_data consumed /\ existsb is_exit consumed = false /\
    match r with
    | Exited code => is_exit last = true /\ exists f, last = Ok f /\ decode_exit (cs_payload f) = Ok code
    | Disconnected => exists e, last = Err e /\ is_reconnectable_transport e = true
    end.
Proof.
  revert rb n out. induction frames as [|[[f|e|] rets] frames IH]; intros rb n out; cbn [session_loop].
  - done.
  - case_test.
    + assert (Hx : (cs_ty f =? CONSOLE_EXIT) = false) by (unfold CONSOLE_DATA, CONSOLE_EXIT in *; lia).
      destruct (write_console_output rets (cs_payload f)) as [[[[]|e|]|] o] eqn:Ew; try done.
      apply write_console_output_Ok in Ew as ->.
      destruct (session_loop frames _) as [[r' n'] o'] eqn:El.
      intros [= -> <- <-] H0 Hlt. rewrite len_app in *. pose proof (len_nonneg o').
      pose proof (len_nonneg (cs_payload f)).
      rewrite saturating_add_id in El by lia.
      apply IH in El as (-> & cs & last & rest & E1 & -> & E3 & E4); [|lia|lia].
      split; [lia|]. exists (Ok f :: cs), last, rest. cbn. rewrite E1, E3, Heqb, Hx. done.
    + case_test.
      * destruct (decode_exit (cs_payload f)) eqn:Ed; [|done|done]. intros [= <- <- <-] H0 _.
        unfold len. cbn. split; [lia|]. exists [], (Ok f), (map fst frames). cbn. split_and!; eauto.
      * intros El H0 Hlt. apply IH in El as (-> & cs & last & rest & E1 & -> & E3 & E4); [|lia|lia].
        split; [lia|]. exists (Ok f :: cs), last, rest.
        cbn [map fst app existsb is_exit]. unfold session_data. cbn [map frame_data concat].
        rewrite E1, E3, Heqb, Heqb0. done.
  - case_test; [|done]. intros [= <- <- <-] H0 _. unfold len. cbn. split; [lia|].
    exists [], (Err e), (map fst frames). split_and!; eauto.
  - done.
Qed.

(** A session never reports more bytes than the terminal received. *)
Lemma session_loop_bound frames rb r n out :
  session_loop frames rb = (r, n, out) -> 0 <= rb -> 0 <= n <= rb + len out.
Proof.
  revert rb r n out. induction frames as [|[[f|e|] rets] frames IH]; intros rb r n out; cbn [session_loop].
  - intros [= <- <- <-]. unfold len. cbn. lia.
  - case_test.
    + pose proof (write_console_output_Ok rets (cs_payload f)) as Hw.
      destruct (write_console_output rets (cs_payload f)) as [[[[]|e|]|] o];
        [|intros [= <- <- <-]; pose proof (len_nonneg o); lia..].
      destruct (session_loop frames _) as [[r' n'] o'] eqn:El. intros [= <- <- <-] H0.
      rewrite (Hw o) by done. pose proof (len_nonneg (cs_payload f)).
      pose proof (saturating_add_range rb (len (cs_payload f)) H0 ltac:(lia)).
      apply IH in El; [|lia]. rewrite len_app. lia.
    + case_test; [|apply IH]. intros [= <- <- <-]. unfold len. cbn. lia.
  - case_test; intros [= <- <- <-]; unfold len; cbn; lia.
  - intros [= <- <- <-]. unfold len. cbn. lia.
Qed.

Lemma or_disconnected_bind_inv rb r k p out :
  or_disconnected_bind rb r k = (Some (Ok p), out) ->
  k = (Some (Ok p), out) \/ (mkProgress Disconnected rb = p /\ [] = out).
Proof.
  destruct r as [[]|e|]; cbn; [auto| |done].
  unfold or_disconnected. case_test; [|done]. intros [= <- <-]. auto.
Qed.

(** ** Properties *)

(** What an interactive session reports and what it showed agree: the reported
    count never exceeds the bytes written to the terminal, and when the session
    ends with an exit code, the terminal received exactly the data frames that
    came before the exit frame, in order, the count is the starting count plus
    their bytes, and the code is the one in the exit frame. *)
Theorem run_session_progress env rb p out :
  run_session env rb = (Some (Ok p), out) -> 0 <= rb -> rb + len out < U64 ->
  0 <= rendered_bytes p <= rb + len out /\
  forall code, outcome p = Exited code ->
    rendered_bytes p = rb + len out /\
    exists consumed f rest,
      map fst (frames env) = consumed ++ Ok f :: rest /\ existsb is_exit consumed = false /\
      cs_ty f = CONSOLE_EXIT /\ decode_exit (cs_payload f) = Ok code /\
      out = session_data consumed.
Proof.
  intros Hrun H0 Hlt. unfold run_session in Hrun.
  assert (Hdisc : forall out', mkProgress Disconnected rb = p -> out' = [] -> out' = out ->
    0 <= rendered_bytes p <= rb + len out /\ forall code, outcome p <> Exited code)
    by (intros ? <- -> <-; unfold len; cbn; split; [lia|done]).
  do 3 (apply or_disconnected_bind_inv in Hrun as [Hrun|[<- <-]];
    [|destruct (Hdisc [] eq_refl eq_refl eq_refl); split; [done|]; intros code Hc; by destruct (H1 code)]).
  cbv zeta in Hrun. destruct (match raw_mode env with None => _ | Some _ => _ end) as [[]|e|]; [|done|done].
  destruct (session_loop (frames env) rb) as [[r n] o] eqn:El. injection Hrun as Hr <-.
  pose proof (session_loop_bound _ _ _ _ _ El H0) as Hb.
  destruct r as [[oc|e|]|]; [| |done|done]; cbn in Hr; injection Hr as Hr; unfold finish_session in Hr;
    apply bind_Ok in Hr as ([] & _ & Hr).
  - injection Hr as <-. split; [done|]. cbn. intros code ->.
    apply session_loop_Ok in El as (-> & cs & last & rest & E1 & -> & E3 & Hx & f & -> & Hd);
      [|done|done].
    split; [done|]. exists cs, f, rest. cbn in Hx. split_and!; try done. lia.
  - case_in Hr. injection Hr as <-. done.
Qed.

(** ** Witnesses *)

Lemma run_session_progress_witness :
  let env := mkSessionEnv (Ok tt) (Ok tt) (Ok tt) None
    [(Ok (mkConsoleFrame CONSOLE_DATA (as_bytes "hi")), [1; 1]);
     (Ok (mkConsoleFrame CONSOLE_EXIT (be_bytes 4 7)), [])] JoinCancelled in
  0 <= 12 <= 10 + 2 /\
  forall code, Exited 7 = Exited code ->
    12 = 10 + len (as_bytes "hi") /\
    exists consumed f rest,
      map fst (frames env) = consumed ++ Ok f :: rest /\ existsb is_exit consumed = false /\
      cs_ty f = CONSOLE_EXIT /\ decode_exit (cs_payload f) = Ok code /\
      as_bytes "hi" = session_data consumed.
Proof.
  intros env. apply (run_session_progress env 10 (mkProgress (Exited 7) 12) (as_bytes "hi"));
    [vm_compute; reflexivity|lia|vm_compute; reflexivity].
Defined.
