(* ===== verification/ConsoleWorld.v ===== *)
(** * A console and its client together

    The server's tasks of one console ([ConsoleStream]), the connection, and the
    client's session loop ([ConsoleClient]) as one transition system: every
    interleaving of PTY output, process exit, streaming, delivery, loss of the
    connection, takeover and reconnection.  The connection is a byte queue that
    delivers in order until it is lost.  A write to the terminal takes what it likes
    or fails; what it had shown then is [terminal] but not [counted].  The ghost [log] is everything the
    console ever wrote. *)

From S2P Require Import Prelude Protocol ConsoleBuffer ConsoleStream ConsoleClient.

(** ** The connection *)

Record Wire := mkWire {
  in_flight : list byte;
  fin : bool;
  lost : bool;
}.

Definition wire_write (bs : list byte) : M Wire unit :=
  fun w => if lost w || fin w then (Err [Io OtherIo], w)
           else (Ok tt, mkWire (in_flight w ++ bs) (fin w) (lost w)).

#[export] Instance wire_AsyncWrite : AsyncWrite Wire := {|
  write_u8 x := wire_write (be_bytes 1 x);
  write_u32 x := wire_write (be_bytes 4 x);
  write_all bs := wire_write bs;
  flush := wire_write [];
|}.

#[export] Instance wire_QuicSend : QuicSend Wire := {|
  finish := fun w => if lost w || fin w then (Err [Io OtherIo], w)
                     else (Ok tt, mkWire (in_flight w) true (lost w));
|}.

Section world.
Context `{WL : WatchLaws}.

(** What the output task is doing. *)
Inductive ReaderPc := Reading | Notifying (next_offset : Z) | Stopped.

(** The client's sessions: the count of rendered bytes, what was counted, the outcome of
    the last session; what the terminal shows, and whether a write to it has failed. *)
Record Client := mkClient {
  count : Z;
  counted : list byte;
  ended : option (Res ConsoleSessionOutcome);
  terminal : list byte;
  torn : bool;
}.

(** [attaching]: the output as it was when a new stream subscribed, until that
    stream has locked the state. *)
Record World := mkWorld {
  log : list byte;
  rt : Runtime;
  reader : ReaderPc;
  waiter : WaitPc;
  attaching : option BufferedConsoleOutput;
  stream : Stream;
  takeover : bool;
  wire : Wire;
  client : Client;
}.

Definition with_output (r : Runtime) (o : BufferedConsoleOutput) : Runtime :=
  mkRuntime o (exit_code r) (exited_at r) (shutdown r).

(** Whether the terminal took all of a frame, the [write]s returning [rets]. *)
Definition taken (r : Res ConsoleFrame) (rets : list Z) : bool :=
  match r with
  | Ok f =>
      if cs_ty f =? CONSOLE_DATA then
        match write_console_output rets (cs_payload f) with (Some (Ok _), _) => true | _ => false end
      else true
  | _ => true
  end.

(** One turn of the client's loop on a frame, the [write]s to the terminal returning
    [rets]. *)
Definition client_frame (c : Client) (r : Res ConsoleFrame) (rets : list Z) : Client :=
  let '(out_, n, out) := session_loop [(r, rets)] (count c) in
  mkClient n (if taken r rets then counted c ++ out else counted c)
    ((fun r => outcome <$> finish_session r JoinCancelled n) <$> out_)
    (terminal c ++ out) (torn c || negb (taken r rets)).

(** The [write]s a frame needs have returned. *)
Definition answered (f : ConsoleFrame) (rets : list Z) : Prop :=
  cs_ty f = CONSOLE_DATA -> fst (write_console_output rets (cs_payload f)) <> None.

(** The client after a frame that was shown, and after one that ends the session. *)
Definition grown (c : Client) (p : list byte) : Client :=
  mkClient (count c + len p) (counted c ++ p) None (terminal c ++ p) (torn c).
Definition over (c : Client) (o : Res ConsoleSessionOutcome) : Client :=
  mkClient (count c) (counted c) (Some o) (terminal c) (torn c).

(** A console just spawned, and a client about to attach from offset 0. *)
Definition initial (limit : Z) : World :=
  let output := BufferedConsoleOutput_new limit in
  mkWorld [] (mkRuntime output None None false) Reading Waiting None
    (mkStream (Returned (Ok tt)) 0 (watch_subscribe (notify output))) false
    (mkWire [] false false) (mkClient 0 [] (Some (Ok Disconnected)) [] false).

Definition set_server (w : World) (log : list byte) (rt : Runtime) (reader : ReaderPc) : World :=
  mkWorld log rt reader (waiter w) (attaching w) (stream w) (takeover w) (wire w) (client w).

Definition set_session (w : World) (stream : Stream) (wire : Wire) (client : Client) : World :=
  mkWorld (log w) (rt w) (reader w) (waiter w) (attaching w) stream (takeover w) wire client.

Inductive step : World -> World -> Prop :=
| step_read w data o next :
    reader w = Reading -> 0 < len data <= 8192 -> len (log w ++ data) < U64 ->
    push_data_state (output (rt w)) data = (o, next) ->
    step w (set_server w (log w ++ data) (with_output (rt w) o) (Notifying next))
| step_notify w next :
    reader w = Notifying next ->
    step w (set_server w (log w) (with_output (rt w) (push_data_notify (output (rt w)) next)) Reading)
| step_reader_stops w :
    reader w = Reading -> step w (set_server w (log w) (rt w) Stopped)
| step_wait w status now pc' rt' :
    wait_for_persistent_console_exit status now (waiter w) (rt w) = (pc', rt') ->
    step w (mkWorld (log w) rt' (reader w) pc' (attaching w) (stream w) (takeover w) (wire w) (client w))
| step_stream w branch st' wire' :
    attaching w = None ->
    stream_step branch (rt w) (Some (takeover w)) true "finish stream" (stream w) (wire w)
      = Some (st', wire') ->
    step w (set_session w st' wire' (client w))
| step_takeover w :
    step w (mkWorld (log w) (rt w) (reader w) (waiter w) (attaching w) (stream w) true (wire w) (client w))
| step_drop w r :
    pc (stream w) = Returned r -> attaching w = None -> lost (wire w) = false ->
    step w (set_session w (stream w) (mkWire (in_flight (wire w)) true false) (client w))
| step_lose w :
    step w (set_session w (stream w) (mkWire (in_flight (wire w)) (fin (wire w)) true) (client w))
| step_deliver w f rest rets :
    ended (client w) = None -> lost (wire w) = false ->
    ConsoleFrame_read_from (in_flight (wire w)) = (Ok f, rest) -> answered f rets ->
    step w (set_session w (stream w) (mkWire rest (fin (wire w)) false) (client_frame (client w) (Ok f) rets))
| step_closed w e rest :
    ended (client w) = None -> lost (wire w) = false -> fin (wire w) = true ->
    ConsoleFrame_read_from (in_flight (wire w)) = (Err e, rest) ->
    step w (set_session w (stream w) (wire w) (client_frame (client w) (Err e) []))
| step_lost w :
    ended (client w) = None -> lost (wire w) = true ->
    step w (set_session w (stream w) (wire w) (client_frame (client w) (Err [Io OtherIo]) []))
| step_reconnect w :
    ended (client w) = Some (Ok Disconnected) -> attaching w = None ->
    step w (mkWorld (log w) (rt w) (reader w) (waiter w) (Some (output (rt w))) (stream w) false
              (mkWire [] false false) (mkClient (count (client w)) (counted (client w)) None (terminal (client w)) (torn (client w))))
| step_attached w subscribed sub :
    attaching w = Some subscribed ->
    subscribe_from subscribed (output (rt w)) (count (client w)) = Ok sub ->
    step w (mkWorld (log w) (rt w) (reader w) (waiter w) None (stream_start sub) (takeover w)
              (wire w) (client w)).

Inductive reachable (limit : Z) : World -> Prop :=
| reach_init : reachable limit (initial limit)
| reach_step w w' : reachable limit w -> step w w' -> reachable limit w'.

(** ** What a stream has sent, is sending and will send next *)

Definition fbytes (f : ConsoleFrame) : list byte := frame_bytes (cs_ty f) (cs_payload f).

Definition is_data (f : ConsoleFrame) : Prop := cs_ty f = CONSOLE_DATA /\ field_ok (cs_payload f).

Definition data_of (fs : list ConsoleFrame) : list byte := session_data (map Ok fs).

Definition pending (st : Stream) : list byte :=
  match pc st with SendReplay d => d | SendData d _ => d | _ => [] end.

(** The offset up to which everything is sent or pending. *)
Definition target (st : Stream) : Z :=
  match pc st with SendData _ n => n | _ => stream_next_offset st end.

(** The stream can still send data. *)
Definition live (st : Stream) : Prop :=
  match pc st with
  | SendReplay _ | CheckFirst | Await | Fetch | SendData _ _ | CheckExit | SendExit _ => True
  | _ => False
  end.

Definition draining (st : Stream) : Prop :=
  match pc st with Drain | SendDrained _ | CheckDrained => True | _ => False end.

(** ** Lemmas on the connection *)

Lemma wire_write_frame f (w : Wire) :
  ConsoleFrame_write_to f w =
  if lost w || fin w then (Err [Msg "write console type"; Io OtherIo], w)
  else (Ok tt, mkWire (in_flight w ++ fbytes f) (fin w) (lost w)).
Proof.
  unfold ConsoleFrame_write_to, fbytes, frame_bytes, lp.
  unfold mbind, M_bind, mbind_st, mcontext. cbn. unfold wire_write.
  destruct w as [b [] []]; cbn; try done.
  rewrite app_nil_r, <- !app_assoc. done.
Qed.

Lemma read_fbytes f rest :
  0 <= cs_ty f < 256 -> field_ok (cs_payload f) ->
  ConsoleFrame_read_from (fbytes f ++ rest) = (Ok f, rest).
Proof.
  intros Ht Hp. destruct (read_console_frame (fbytes f ++ rest) (cs_ty f) (cs_payload f) rest)
    as (r' & -> & Hr); [done|done|done|]. cbn in Hr. subst. by destruct f.
Qed.

Lemma read_nothing : exists e, ConsoleFrame_read_from (R := list byte) [] = (Err e, []).
Proof. eexists. reflexivity. Qed.

Lemma data_of_app fs gs : data_of (fs ++ gs) = data_of fs ++ data_of gs.
Proof. unfold data_of, session_data. rewrite !map_app, concat_app. done. Qed.

Lemma data_of_cons f fs : is_data f -> data_of (f :: fs) = cs_payload f ++ data_of fs.
Proof. intros [E _]. unfold data_of, session_data. cbn. rewrite E. done. Qed.

(** Either the send failed and the connection did not change, or the bytes are
    in flight as data frames. *)
Lemma send_console_bytes_spec bs (w : Wire) :
  field_ok bs ->
  (exists e, send_console_bytes bs w = (Err e, w)) \/
  exists fs, send_console_bytes bs w =
      (Ok tt, mkWire (in_flight w ++ concat (map fbytes fs)) (fin w) (lost w)) /\
    Forall is_data fs /\ data_of fs = bs.
Proof.
  intros Hok. unfold send_console_bytes. destruct (Z.eqb_spec (len bs) 0) as [E|E].
  - right. exists []. cbn. rewrite app_nil_r. destruct w. unfold len in E.
    destruct bs; [split_and!; done|cbn in E; lia].
  - rewrite wire_write_frame. destruct (lost w || fin w); [left; eauto|right].
    exists [mkConsoleFrame CONSOLE_DATA bs]. cbn. rewrite app_nil_r. split; [done|].
    split; [repeat constructor; done|]. unfold data_of, session_data. cbn. by rewrite app_nil_r.
Qed.

Definition exit_frame (code : Z) : ConsoleFrame := mkConsoleFrame CONSOLE_EXIT (be_bytes 4 code).

Lemma replay_from_repr limit log (o : BufferedConsoleOutput) offset :
  0 <= limit -> Repr limit log (out_state o) -> 0 <= offset <= len log ->
  exists data, replay_from o offset = Ok (data, len log) /\ len data <= limit /\
    (len log <= limit -> data = drop (Z.to_nat offset) log).
Proof.
  intros Hl HR Ho. unfold replay_from. rewrite (replay_repr limit log) by done.
  eexists. split; [done|]. unfold replay_start. split.
  - unfold len in *. rewrite length_drop. lia.
  - intros Hle. f_equal. unfold len in *. lia.
Qed.

(** What one step of a stream does to the connection. *)
Lemma stream_step_cases limit log rt tk ctx br st (w : Wire) st' w' :
  0 <= limit < U32 -> Repr limit log (out_state (output rt)) ->
  field_ok (pending st) -> ~ draining st -> (live st -> 0 <= stream_next_offset st <= len log) ->
  stream_step br rt tk true ctx st w = Some (st', w') ->
  (* returned *)
  (exists r, pc st' = Returned r /\ in_flight w' = in_flight w /\ lost w' = lost w /\ seen st' = seen st) \/
  (* the exit frame *)
  (exists code, pc st = SendExit code /\ pc st' = Finish /\ seen st' = seen st /\
     w' = mkWire (in_flight w ++ fbytes (exit_frame code)) (fin w) (lost w)) \/
  (* the buffer was read *)
  (exists data, pc st = Fetch /\ w' = w /\ replay_from (output rt) (stream_next_offset st) = Ok (data, len log) /\
     len data <= limit /\ st' = mkStream (SendData data (len log)) (stream_next_offset st) (seen st)) \/
  (* pending data was sent, or nothing happened on the connection *)
  (live st /\ live st' /\ (pc st = Fetch -> False) /\ target st' = target st /\ stream_next_offset st' = target st /\ pending st' = [] /\
   (pc st' = Fetch -> seen st' = mark_seen (notify (output rt)) (seen st)) /\
   (pc st' <> Fetch -> seen st' = seen st) /\
   (pc st' = Await -> exit_code rt = None) /\
   (forall code, pc st' = SendExit code -> exit_code rt = Some code) /\
   exists fs, Forall is_data fs /\ data_of fs = pending st /\
     w' = mkWire (in_flight w ++ concat (map fbytes fs)) (fin w) (lost w)).
Proof.
  intros Hl HR Hok Hnd Hoff. destruct st as [p n sn]. unfold stream_step, live, draining, pending in *.
  cbn in *. assert (Hnil : w = mkWire (in_flight w ++ concat (map fbytes [])) (fin w) (lost w))
    by (destruct w; cbn; by rewrite app_nil_r).
  destruct p as [d| | | |d n'| |code| | | | |r]; try done; cbn in *.
  - destruct (send_console_bytes_spec d w Hok) as [[e ->]|(fs & -> & Hfs & Hd)]; intros [= <- <-]; cbn.
    + left. eauto.
    + right; right; right. split_and!; try done. eauto.
  - intros [= <- <-]. destruct (exit_code rt) eqn:E; cbn; right; right; right; split_and!; try done; eauto; congruence.
  - destruct br.
    + destruct (default false tk); [|done]. intros [= <- <-]. left. eauto.
    + destruct (has_changed _ _); [|done]. intros [= <- <-]. cbn. right; right; right.
      split_and!; try done. exists []. split_and!; done.
  - destruct (replay_from_repr limit log (output rt) n) as (data & E & Hlen & Hd); [lia|done|auto|].
    rewrite E. intros [= <- <-]. right; right; left. exists data. split_and!; done.
  - destruct (send_console_bytes_spec d w Hok) as [[e ->]|(fs & -> & Hfs & Hd)]; intros [= <- <-]; cbn.
    + left. eauto.
    + right; right; right. split_and!; try done. eauto.
  - intros [= <- <-]. destruct (exit_code rt) eqn:E; cbn; right; right; right; split_and!; try done; eauto; congruence.
  - unfold write_exit_frame. rewrite wire_write_frame.
    destruct (lost w || fin w); intros [= <- <-]; cbn; [left; eauto|]. right; left. eauto.
  - unfold mcontext. destruct (lost w || fin w); intros [= <- <-]; cbn; left; eauto.
Qed.

(** The terminal took the payload, or the write failed with an error of the system. *)
Lemma write_console_output_cases rets p r out :
  write_console_output rets p = (Some r, out) ->
  (r = Ok tt /\ out = p) \/ (exists e, r = Err e /\ is_reconnectable_transport e = true).
Proof.
  revert p r out. induction rets as [|ret rets IH]; intros p r out; (destruct p as [|b p]; [intros [= <- <-]; auto|]).
  - done.
  - cbn [write_console_output]. destruct (ret <? 0); [intros [= <- <-]; right; eauto|].
    destruct (ret =? 0); [intros [= <- <-]; right; eauto|].
    destruct (write_console_output rets (drop (Z.to_nat ret) (b :: p))) as [r' out'] eqn:E. intros [= -> <-].
    apply IH in E as [[-> ->]|E]; [left; by rewrite take_drop|auto].
Qed.

(** The frame is shown, or the session ends with part of it shown and nothing counted. *)
Lemma client_frame_data c f rets :
  is_data f -> 0 <= count c -> count c + len (cs_payload f) < U64 -> answered f rets ->
  (taken (Ok f) rets = true /\ client_frame c (Ok f) rets = grown c (cs_payload f)) \/
  exists out, client_frame c (Ok f) rets =
    mkClient (count c) (counted c) (Some (Ok Disconnected)) (terminal c ++ out) true.
Proof.
  intros [Ht _] H0 Hlt Ha. pose proof (len_nonneg (cs_payload f)). specialize (Ha Ht).
  unfold client_frame, taken. cbn [session_loop]. rewrite Ht. cbn [Z.eqb CONSOLE_DATA].
  destruct (write_console_output rets (cs_payload f)) as [[r|] out] eqn:E; [|done].
  apply write_console_output_cases in E as [[-> ->]|(e & -> & He)].
  - left. split; [done|]. rewrite saturating_add_id by lia. cbn. by rewrite app_nil_r, orb_false_r.
  - right. exists out. cbn. rewrite He. cbn. by rewrite orb_true_r.
Qed.

(** A terminal that takes everything. *)
Lemma taken_whole f : taken (Ok f) [len (cs_payload f)] = true /\ answered f [len (cs_payload f)].
Proof.
  assert (Hw : write_console_output [len (cs_payload f)] (cs_payload f) = (Some (Ok tt), cs_payload f)).
  { destruct (cs_payload f) as [|b p]; [done|]. cbn [write_console_output]. rewrite len_cons.
    pose proof (len_nonneg p). replace (1 + len p <? 0) with false by lia.
    replace (1 + len p =? 0) with false by lia.
    rewrite drop_ge, take_ge by (unfold len; cbn; lia). cbn. by rewrite app_nil_r. }
  unfold taken, answered. rewrite Hw. by destruct (cs_ty f =? CONSOLE_DATA).
Qed.

Lemma client_frame_whole c f :
  is_data f -> 0 <= count c -> count c + len (cs_payload f) < U64 ->
  client_frame c (Ok f) [len (cs_payload f)] = grown c (cs_payload f).
Proof.
  intros Hf H0 Hlt. destruct (taken_whole f) as [Ht Ha].
  destruct (client_frame_data c f _ Hf H0 Hlt Ha) as [[_ ->]|(out & E)]; [done|].
  apply (f_equal ended) in E. revert E. unfold client_frame. revert Ht. unfold taken.
  cbn [session_loop]. rewrite (proj1 Hf). cbn [Z.eqb CONSOLE_DATA].
  by destruct (write_console_output _ _) as [[[]|] ?].
Qed.

Lemma client_frame_exit c code rets :
  0 <= code < U32 -> client_frame c (Ok (exit_frame code)) rets = over c (Ok (Exited code)).
Proof.
  intros Hc. unfold client_frame, taken, over. cbn [session_loop]. unfold exit_frame at 2 3 4 5. cbn [cs_ty cs_payload].
  unfold decode_exit.
  assert (E : len (be_bytes 4 code) = 4) by (unfold len; rewrite be_bytes_length; done).
  replace (CONSOLE_EXIT =? CONSOLE_DATA) with false by done. rewrite Z.eqb_refl, E. cbn.
  rewrite !app_nil_r, orb_false_r, be_value_bytes, Z.mod_small; [done|]. unfold U32 in *. lia.
Qed.

Lemma client_frame_err c e : exists o, client_frame c (Err e) [] = over c o.
Proof.
  unfold client_frame, over. cbn. case_test; cbn; rewrite !app_nil_r, orb_false_r; eauto.
Qed.

(** ** The invariant that needs no bound on the output *)

Definition awaited (w : World) : Prop :=
  has_changed (notify (output (rt w))) (seen (stream w)) = true.

Definition exiting (pc : WaitPc) : Prop :=
  match pc with CodeStored _ | TimeStored _ => True | _ => False end.

Record Inv (limit : Z) (w : World) : Prop := {
  inv_repr : Repr limit (log w) (out_state (output (rt w)));
  inv_limit : limit_bytes (output (rt w)) = limit;
  inv_log : len (log w) < U64;
  inv_waiting : waiter w = Waiting <-> exit_code (rt w) = None;
  inv_code : forall code, exit_code (rt w) = Some code -> 0 <= code < U32;
  inv_draining : ~ draining (stream w);
  inv_pending : field_ok (pending (stream w));
  inv_offset : live (stream w) ->
    0 <= stream_next_offset (stream w) <= len (log w) /\ 0 <= target (stream w) <= len (log w);
  inv_sendexit : forall code, pc (stream w) = SendExit code -> exit_code (rt w) = Some code;
  inv_rx : rx_of (notify (output (rt w))) (seen (stream w));
  inv_attaching : forall o, attaching w = Some o ->
    rx_of (notify (output (rt w))) (watch_subscribe (notify o));
  inv_wake_data : live (stream w) -> pc (stream w) <> Fetch -> target (stream w) < len (log w) ->
    awaited w \/ exists n, reader w = Notifying n;
  inv_wake_exit : pc (stream w) = Await -> exit_code (rt w) <> None -> awaited w \/ exiting (waiter w);
}.

Lemma inv_initial limit : 0 <= limit -> Inv limit (initial limit).
Proof.
  intros Hl. split; cbn; try done; try (intros; done).
  - unfold draining. cbn. tauto.
  - apply rx_of_subscribe.
Qed.

Lemma send_repr limit log (o : BufferedConsoleOutput) data o' next :
  0 <= limit -> limit_bytes o = limit -> Repr limit log (out_state o) -> len (log ++ data) < U64 ->
  push_data_state o data = (o', next) ->
  Repr limit (log ++ data) (out_state o') /\ limit_bytes o' = limit /\ notify o' = notify o /\
  next = len (log ++ data).
Proof.
  intros Hl Hlim HR Hb. unfold push_data_state.
  pose proof (push_repr limit log (out_state o) data Hl HR Hb) as [Hp _]. rewrite Hlim.
  destruct (push (out_state o) data limit) as [off st] eqn:E. intros [= <- <-]. cbn in *.
  split_and!; try done. apply Hp.
Qed.

Lemma inv_step_server limit w w' :
  0 <= limit < U32 -> Inv limit w ->
  (exists data o next, reader w = Reading /\ 0 < len data <= 8192 /\ len (log w ++ data) < U64 /\
     push_data_state (output (rt w)) data = (o, next) /\
     w' = set_server w (log w ++ data) (with_output (rt w) o) (Notifying next)) \/
  (exists next, reader w = Notifying next /\
     w' = set_server w (log w) (with_output (rt w) (push_data_notify (output (rt w)) next)) Reading) \/
  (reader w = Reading /\ w' = set_server w (log w) (rt w) Stopped) ->
  Inv limit w'.
Proof.
  intros Hl [] [(data & o & next & Hr & Hd & Hlen & Hp & ->)|[(next & Hr & ->)|[Hr ->]]].
  - apply (send_repr limit (log w)) in Hp as (HR & Hlim & Hn & ->); [|lia|done|done|done].
    rewrite len_app in Hlen.
    split; unfold awaited in *; cbn; try rewrite Hn; try rewrite len_app; try done.
    + intros Hlive. specialize (inv_offset0 Hlive). lia.
    + intros _ _ _. eauto.
  - split; unfold awaited in *; cbn; try done.
    + by apply rx_of_send.
    + intros o Ho. by apply rx_of_send, inv_attaching0.
    + intros _ _ _. left. by apply changed_send.
    + intros _ _. left. by apply changed_send.
  - split; unfold awaited in *; cbn; try done.
    intros Hlive Hpc Ht. destruct (inv_wake_data0 Hlive Hpc Ht) as [?|[n Hn]]; [auto|congruence].
Qed.

Lemma inv_step_wait limit w status now pc' rt' :
  Inv limit w -> wait_for_persistent_console_exit status now (waiter w) (rt w) = (pc', rt') ->
  Inv limit (mkWorld (log w) rt' (reader w) pc' (attaching w) (stream w) (takeover w) (wire w) (client w)).
Proof.
  intros [] Hw. unfold wait_for_persistent_console_exit in Hw. unfold awaited in *.
  assert (Hcode : 0 <= exit_status_code status < U32).
  { unfold exit_status_code, as_u32, U32. destruct status; [apply Z.mod_pos_bound|..]; lia. }
  destruct (waiter w) eqn:Ew; injection Hw as <- <-; split; unfold awaited; cbn; try done.
  all: try (intros ? [= <-]; exact Hcode).
  all: try (intros; by apply rx_of_send).
  all: try (intros; left; by apply changed_send).
  all: try (intros o Ho; by apply rx_of_send, inv_attaching0).
  all: try (rewrite <- inv_waiting0; done).
  - intros code Hc. apply inv_sendexit0 in Hc. rewrite (proj1 inv_waiting0 eq_refl) in Hc. done.
  - auto.
Qed.

Lemma inv_step_stream limit w br st' wire' cl :
  0 <= limit < U32 -> Inv limit w ->
  stream_step br (rt w) (Some (takeover w)) true "finish stream" (stream w) (wire w) = Some (st', wire') ->
  Inv limit (set_session w st' wire' cl).
Proof.
  intros Hl [] Hs.
  apply (stream_step_cases limit (log w)) in Hs;
    [|done|done|done|done|intros Hlv; by apply inv_offset0 in Hlv as [? _]].
  destruct Hs as [(r & Hpc & _ & _ & Hsn)|[(code & Hpc & Hpc' & Hsn & _)|
    [(data & Hpc & _ & E & Hlen & ->)|
    (Hlive & Hlive' & Hnf & Ht & Hn' & Hpend & Hsf & Hsn & Haw & Hse & _)]]].
  - split; unfold awaited, live, draining, pending, target; cbn; rewrite ?Hpc, ?Hsn; try done; tauto.
  - split; unfold awaited, live, draining, pending, target; cbn; rewrite ?Hpc', ?Hsn; try done; tauto.
  - assert (Hlv : live (stream w)) by (unfold live; by rewrite Hpc). specialize (inv_offset0 Hlv).
    pose proof (len_nonneg (log w)).
    split; unfold awaited, live, draining, pending, target; cbn; try done; try tauto; try lia.
    unfold field_ok, U32 in *. lia.
  - specialize (inv_offset0 Hlive).
    split; unfold awaited; cbn; try done.
    + intros Hd. unfold live, draining in *. destruct (pc st'); done.
    + rewrite Hpend. unfold field_ok, len. cbn. done.
    + intros _. rewrite Hn', Ht. lia.
    + assert (pc st' = Fetch \/ pc st' <> Fetch) as [Hf|Hf] by (destruct (pc st'); auto).
      * rewrite (Hsf Hf). by apply rx_of_seen.
      * by rewrite (Hsn Hf).
    + intros _ Hf. rewrite (Hsn Hf), Ht. auto.
    + intros Ha He. by specialize (Haw Ha).
Qed.

Lemma subscribe_repr limit log (sd o : BufferedConsoleOutput) offset :
  0 <= limit -> Repr limit log (out_state o) ->
  exists data, subscribe_from sd o offset = Ok (mkSub data (len log) (watch_subscribe (notify sd))) /\
    data = drop (Z.to_nat (replay_start limit log offset)) log /\ len data <= limit.
Proof.
  intros Hl HR. pose proof (replay_repr limit log (out_state o) offset Hl HR) as E.
  unfold state_replay_from, subscribe_from in *. apply bind_Ok in E as (from & -> & E).
  destruct HR as (_ & Hn & _). cbn. injection E as E _.
  eexists. rewrite Hn. split; [done|]. split; [exact E|].
  cbv zeta. rewrite E. unfold replay_start, len. rewrite length_drop. lia.
Qed.

Lemma inv_step limit w w' : 0 <= limit < U32 -> Inv limit w -> step w w' -> Inv limit w'.
Proof.
  intros Hl HI Hs. destruct Hs.
  - eapply inv_step_server; eauto 10.
  - eapply inv_step_server; eauto 10.
  - eapply inv_step_server; eauto 10.
  - eapply inv_step_wait; eauto.
  - eapply inv_step_stream; eauto.
  - destruct HI. by split.
  - destruct HI. by split.
  - destruct HI. by split.
  - destruct HI. by split.
  - destruct HI. by split.
  - destruct HI. by split.
  - destruct HI. split; cbn; try done. intros o [= <-]. apply rx_of_subscribe.
  - destruct HI. pose proof (len_nonneg (log w)).
    destruct (subscribe_repr limit (log w) subscribed (output (rt w)) (count (client w)))
      as (data & E & _ & Hlen); [lia|done|].
    rewrite E in *. match goal with H : Ok _ = Ok _ |- _ => injection H as <- end.
    split; cbn; try done; try tauto; try lia; auto.
    unfold field_ok. unfold pending. cbn. lia.
Qed.

Lemma reachable_inv limit w : 0 <= limit < U32 -> reachable limit w -> Inv limit w.
Proof. intros Hl. induction 1; [apply inv_initial; lia|by eapply inv_step]. Qed.

(** ** The invariant while nothing was evicted *)

Definition shown (w : World) (fs : list ConsoleFrame) : list byte :=
  counted (client w) ++ data_of fs ++ pending (stream w).

(** The connection carries data frames [fs], then perhaps an exit frame. *)
Record Carries (w : World) (fs es : list ConsoleFrame) : Prop := {
  carries_bytes : in_flight (wire w) = concat (map fbytes (fs ++ es));
  carries_data : Forall is_data fs;
  carries_exit : es = [] \/
    exists code, es = [exit_frame code] /\ exit_code (rt w) = Some code;
  carries_prefix : shown w fs `prefix_of` log w;
  carries_live : live (stream w) -> es = [] /\ len (shown w fs) = target (stream w);
}.

Definition Delivered (w : World) : Prop :=
  count (client w) = len (counted (client w)) /\
  match attaching w with
  | None => (exists fs es, Carries w fs es) \/ (ended (client w) <> None /\ counted (client w) `prefix_of` log w)
  | Some _ => in_flight (wire w) = [] /\ counted (client w) `prefix_of` log w
  end.

Lemma len_prefix {A} (l k : list A) : l `prefix_of` k -> len l <= len k.
Proof. intros [r ->]. rewrite len_app. pose proof (len_nonneg r). lia. Qed.

Lemma prefix_full {A} (l k : list A) : l `prefix_of` k -> len k <= len l -> l = k.
Proof.
  intros [r ->]. rewrite len_app. intros H'. destruct r; [by rewrite app_nil_r|].
  rewrite len_cons in H'. pose proof (len_nonneg r). lia.
Qed.

Lemma prefix_drop {A} (l k : list A) n :
  l `prefix_of` k -> len l = n -> l ++ drop (Z.to_nat n) k = k.
Proof.
  intros [r ->] <-. unfold len. rewrite Nat2Z.id. by rewrite drop_app_length.
Qed.

Lemma carries_counted w fs es : Carries w fs es -> counted (client w) `prefix_of` log w.
Proof. intros [_ _ _ Hp _]. unfold shown in Hp. by eapply prefix_app_l. Qed.

Lemma delivered_initial limit : Delivered (initial limit).
Proof.
  split; [done|]. left. exists [], []. split; cbn; auto; done.
Qed.

(** Steps that leave the client, the connection and the stream alone. *)
Lemma carries_server w w' fs es :
  Carries w fs es -> wire w' = wire w -> stream w' = stream w -> client w' = client w ->
  log w `prefix_of` log w' ->
  (forall code, exit_code (rt w) = Some code -> exit_code (rt w') = Some code) ->
  Carries w' fs es.
Proof.
  intros [] Ew Es Ec Hl Hx. unfold shown in *.
  split; unfold shown; rewrite ?Ew, ?Es, ?Ec; try done.
  - destruct carries_exit0 as [?|(code & -> & ?)]; eauto.
  - by etrans.
Qed.

Lemma delivered_server w w' :
  Delivered w -> wire w' = wire w -> stream w' = stream w -> client w' = client w ->
  attaching w' = attaching w -> log w `prefix_of` log w' ->
  (forall code, exit_code (rt w) = Some code -> exit_code (rt w') = Some code) ->
  Delivered w'.
Proof.
  intros [Hc Hd] Ew Es Ec Ea Hl Hx. split; [by rewrite Ec|]. rewrite Ea.
  destruct (attaching w).
  - rewrite Ew, Ec. destruct Hd. split; [done|]. by etrans.
  - destruct Hd as [(fs & es & Hd)|[He Hp]]; [left; exists fs, es; by eapply carries_server|right].
    rewrite Ec. split; [done|]. by etrans.
Qed.

Lemma carries_stream limit w br st' wire' fs es :
  0 <= limit < U32 -> Inv limit w -> len (log w) <= limit -> Carries w fs es ->
  stream_step br (rt w) (Some (takeover w)) true "finish stream" (stream w) (wire w) = Some (st', wire') ->
  exists fs' es', Carries (set_session w st' wire' (client w)) fs' es'.
Proof.
  intros Hl [] Hle [] Hs. unfold shown in *.
  apply (stream_step_cases limit (log w)) in Hs;
    [|done|done|done|done|intros Hlv; by apply inv_offset0 in Hlv as [? _]].
  destruct Hs as [(r & Hpc & Hin & _ & _)|[(code & Hpc & Hpc' & _ & ->)|
    [(data & Hpc & -> & E & Hlen & ->)|
    (Hlive & Hlive' & Hnf & Ht & Hn' & Hpend & _ & _ & _ & _ & gs & Hgs & Hg & ->)]]].
  - exists fs, es. split; unfold shown, live, pending; cbn; rewrite ?Hin, ?Hpc, ?app_nil_r; try done.
    rewrite app_assoc in carries_prefix0. by eapply prefix_app_l.
  - assert (Hlv : live (stream w)) by (unfold live; by rewrite Hpc).
    destruct (carries_live0 Hlv) as [-> _]. rewrite app_nil_r in *.
    exists fs, [exit_frame code]. split; unfold shown, live; cbn; rewrite ?Hpc'; try done.
    + rewrite map_app, concat_app, carries_bytes0. cbn. by rewrite app_nil_r.
    + right. eauto.
    + unfold pending in *. by rewrite Hpc, Hpc' in *.
  - assert (Hlv : live (stream w)) by (unfold live; by rewrite Hpc).
    destruct (carries_live0 Hlv) as [-> Hsh]. destruct (inv_offset0 Hlv) as [Ho _].
    destruct (replay_from_repr limit (log w) (output (rt w)) (stream_next_offset (stream w)))
      as (data' & E' & _ & Hd); [lia|done|done|].
    rewrite E in E'. injection E' as <-. specialize (Hd Hle).
    assert (Hall : counted (client w) ++ data_of fs ++ data = log w).
    { unfold pending, target in *. rewrite Hpc, app_nil_r in *. rewrite app_assoc, Hd.
      by apply prefix_drop. }
    exists fs, []. split; unfold shown, live, pending; cbn; try done; rewrite Hall; [done|].
    intros _. split; [done|]. by unfold target.
  - destruct (carries_live0 Hlive) as [-> Hsh].
    exists (fs ++ gs), []. split; unfold shown; cbn; rewrite ?Hpend, ?app_nil_r in *; try done.
    + rewrite map_app, concat_app, carries_bytes0. done.
    + by apply Forall_app.
    + rewrite data_of_app, Hg. done.
    + rewrite data_of_app, Hg, Ht. auto.
Qed.

Lemma data_ty f : is_data f -> 0 <= cs_ty f < 256.
Proof. intros [-> _]. done. Qed.

Lemma exit_ty code : 0 <= cs_ty (exit_frame code) < 256 /\ field_ok (cs_payload (exit_frame code)).
Proof.
  split; [done|]. unfold exit_frame, field_ok, len. cbn [cs_payload]. rewrite be_bytes_length. done.
Qed.

(** The next frame is delivered. *)
Lemma carries_deliver limit w fs es f rest rets :
  Inv limit w -> count (client w) = len (counted (client w)) -> Carries w fs es ->
  ConsoleFrame_read_from (in_flight (wire w)) = (Ok f, rest) -> answered f rets ->
  let w' := set_session w (stream w) (mkWire rest (fin (wire w)) false)
              (client_frame (client w) (Ok f) rets) in
  (exists fs', fs = f :: fs' /\ taken (Ok f) rets = true /\ Carries w' fs' es /\
     client w' = grown (client w) (cs_payload f)) \/
  (exists out, client w' = mkClient (count (client w)) (counted (client w)) (Some (Ok Disconnected))
     (terminal (client w) ++ out) true) \/
  (exists code, fs = [] /\ f = exit_frame code /\ es = [f] /\ exit_code (rt w) = Some code /\
     Carries w' [] [] /\ client w' = over (client w) (Ok (Exited code))).
Proof.
  intros HI Hc HC Hr Hans w'. pose proof (inv_log _ _ HI). pose proof (inv_code _ _ HI) as Hcode.
  pose proof (carries_counted _ _ _ HC) as Ht.
  destruct HC as [Hb Hd He Hp Hlv]. unfold shown in *. rewrite Hb in Hr. destruct fs as [|g fs].
  - destruct He as [->|(code & -> & Hx)]; [done|]. right. right. exists code.
    cbn [app map concat] in Hr. destruct (exit_ty code).
    rewrite read_fbytes in Hr by done. injection Hr as <- <-.
    assert (E : client w' = over (client w) (Ok (Exited code))) by (apply client_frame_exit; auto).
    split_and!; try done. split; unfold shown; rewrite ?E; cbn; try done; [auto|].
    intros Hl. destruct (Hlv Hl). done.
  - apply Forall_cons in Hd as [Hg Hd]. cbn [app map concat] in Hr.
    rewrite read_fbytes in Hr; [|by apply data_ty|apply Hg]. injection Hr as <- <-.
    rewrite data_of_cons in * by done.
    pose proof (len_prefix _ _ Hp) as Hlen. rewrite !len_app in Hlen.
    pose proof (len_nonneg (counted (client w))). pose proof (len_nonneg (data_of fs)).
    pose proof (len_nonneg (pending (stream w))).
    destruct (client_frame_data (client w) g rets Hg) as [[Htk E]|[out E]]; [lia|lia|done| |right; left; by exists out].
    left. exists fs. split_and!; [done|done| |exact E].
    split; unfold shown, w'; cbn [client set_session stream]; rewrite ?E; cbn; try done; rewrite <- !app_assoc in *; done.
Qed.

Lemma carries_client w fs es wire' cl :
  Carries w fs es -> in_flight wire' = in_flight (wire w) ->
  counted cl = counted (client w) -> Carries (set_session w (stream w) wire' cl) fs es.
Proof. intros [] Ei Et. unfold shown in *. split; unfold shown; cbn; rewrite ?Ei, ?Et; done. Qed.

Lemma delivered_err w wire' e :
  Delivered w -> in_flight wire' = in_flight (wire w) ->
  Delivered (set_session w (stream w) wire' (client_frame (client w) (Err e) [])).
Proof.
  intros [Hc Hd] Ei. destruct (client_frame_err (client w) e) as [o ->]. split; [done|]. cbn.
  destruct (attaching w); [by rewrite Ei|].
  destruct Hd as [(fs & es & Hd)|[_ Hd]]; [left; exists fs, es; by apply carries_client|by right].
Qed.

Lemma delivered_wire w wire' :
  Delivered w -> in_flight wire' = in_flight (wire w) ->
  Delivered (set_session w (stream w) wire' (client w)).
Proof.
  intros [Hc Hd] Ei. split; [done|]. cbn. destruct (attaching w); [by rewrite Ei|].
  destruct Hd as [(fs & es & Hd)|Hd]; [left; exists fs, es; by apply carries_client|by right].
Qed.

Lemma delivered_attached limit w subscribed sub :
  0 <= limit < U32 -> Inv limit w -> len (log w) <= limit -> Delivered w ->
  attaching w = Some subscribed ->
  subscribe_from subscribed (output (rt w)) (count (client w)) = Ok sub ->
  Delivered (mkWorld (log w) (rt w) (reader w) (waiter w) None (stream_start sub) (takeover w)
    (wire w) (client w)).
Proof.
  intros Hl HI Hle [Hc Hd] Ha Hs. rewrite Ha in Hd. destruct Hd as [Hin Hp].
  destruct (subscribe_repr limit (log w) subscribed (output (rt w)) (count (client w)))
    as (data & E & Hdata & _); [lia|apply HI|].
  rewrite E in Hs. injection Hs as <-. split; [done|]. left. exists [], [].
  assert (Hall : counted (client w) ++ data = log w).
  { rewrite Hdata. apply prefix_drop; [done|]. pose proof (len_prefix _ _ Hp).
    pose proof (len_nonneg (counted (client w))). unfold replay_start. lia. }
  split; unfold shown; cbn; try done; [auto|by rewrite Hall|].
  intros _. unfold target. cbn. by rewrite Hall.
Qed.

Lemma delivered_step limit w w' :
  0 <= limit < U32 -> Inv limit w -> len (log w) <= limit -> Delivered w -> step w w' -> Delivered w'.
Proof.
  intros Hl HI Hle HD Hs. destruct Hs.
  - eapply delivered_server; eauto; cbn. by apply prefix_app_r.
  - eapply delivered_server; eauto.
  - eapply delivered_server; eauto.
  - eapply delivered_server; eauto; cbn. intros code Hc.
    unfold wait_for_persistent_console_exit in *. pose proof (inv_waiting _ _ HI) as Hw.
    destruct (waiter w); simplify_eq; cbn; try done. rewrite (proj1 Hw) in Hc; done.
  - destruct HD as [Hc Hd]. split; [done|]. cbn. rewrite H0 in *.
    destruct Hd as [(fs & es & Hd)|Hd]; [left; by eapply carries_stream|by right].
  - eapply delivered_server; eauto.
  - by apply delivered_wire.
  - by apply delivered_wire.
  - destruct HD as [Hc Hd]. destruct (attaching w) eqn:Ea.
    { destruct Hd as [Hi _]. rewrite Hi in *. destruct read_nothing as [e He]. congruence. }
    destruct Hd as [(fs & es & Hd)|[Hn _]]; [|congruence].
    match goal with Hr : ConsoleFrame_read_from _ = _, Hans : answered _ _ |- _ =>
      destruct (carries_deliver limit w fs es f rest rets HI Hc Hd Hr Hans)
        as [(fs' & _ & _ & HC & E)|[(out & E)|(code & _ & -> & _ & _ & HC & E)]] end;
      (split; [rewrite E; cbn; rewrite ?len_app; lia|]); cbn [attaching set_session]; rewrite Ea.
    + eauto.
    + right. rewrite E. split; [done|]. exact (carries_counted _ _ _ Hd).
    + eauto.
  - by apply delivered_err.
  - by apply delivered_err.
  - destruct HD as [Hc Hd]. split; [done|]. cbn. split; [done|].
    match goal with Hat : attaching w = None |- _ => rewrite Hat in Hd end.
    destruct Hd as [(fs & es & Hd)|[_ Hd]]; [by eapply carries_counted|done].
  - by eapply delivered_attached.
Qed.

Lemma step_log w w' : step w w' -> log w `prefix_of` log w'.
Proof. intros Hs. destruct Hs; cbn; try done. by apply prefix_app_r. Qed.

Lemma reachable_delivered limit w :
  0 <= limit < U32 -> reachable limit w -> len (log w) <= limit -> Delivered w.
Proof using WL.
  intros Hl. induction 1 as [|w w' Hr IH Hs]; intros Hle; [apply delivered_initial|].
  pose proof (len_prefix _ _ (step_log _ _ Hs)).
  eapply (delivered_step limit w); [done|by apply reachable_inv|lia|apply IH; lia|done].
Qed.

(** ** Progress once the process has exited *)

Definition rank (st : Stream) : nat :=
  match pc st with
  | Await => 5 | Fetch => 4 | SendReplay _ | SendData _ _ => 3 | CheckFirst | CheckExit => 2
  | SendExit _ => 1 | _ => 0
  end.

(** The stream will still read the buffer, or has read all of it. *)
Definition complete (w : World) : Prop :=
  pc (stream w) = Await \/ pc (stream w) = Fetch \/ target (stream w) = len (log w).

(** The server side is quiet and the connection is up. *)
Record Quiet (w : World) (code : Z) : Prop := {
  quiet_code : exit_code (rt w) = Some code;
  quiet_waiter : ~ exiting (waiter w);
  quiet_reader : reader w = Stopped;
  quiet_attaching : attaching w = None;
  quiet_lost : lost (wire w) = false;
  quiet_fin : fin (wire w) = false;
}.

Lemma send_console_bytes_up bs (w : Wire) :
  lost w = false -> fin w = false ->
  exists w', send_console_bytes bs w = (Ok tt, w') /\ lost w' = false /\ fin w' = false.
Proof.
  intros Hl Hf. unfold send_console_bytes. case_test; [eexists; split; [reflexivity|done]|].
  rewrite wire_write_frame, Hl, Hf. cbn. eauto.
Qed.

(** From any point but the last, the stream can step, and comes closer to the end. *)
Lemma stream_progress limit w code :
  0 <= limit < U32 -> Inv limit w -> Quiet w code -> complete w -> live (stream w) ->
  exists st' wire',
    stream_step OnChanged (rt w) (Some (takeover w)) true "finish stream" (stream w) (wire w)
      = Some (st', wire') /\
    let w' := set_session w st' wire' (client w) in
    Quiet w' code /\ (live st' -> complete w' /\ (rank st' < rank (stream w))%nat) /\
    (live st' \/ pc (stream w) = SendExit code /\ pc st' = Finish /\ target st' = len (log w) /\
       in_flight wire' = in_flight (wire w) ++ fbytes (exit_frame code)).
Proof.
  intros Hl HI [Hc Hw Hr Ha Hlost Hfin] Hcomp Hlive.
  pose proof (inv_wake_exit _ _ HI) as Hwake. pose proof (inv_sendexit _ _ HI) as Hse.
  pose proof (inv_repr _ _ HI) as HR. pose proof (inv_offset _ _ HI Hlive) as [Ho _].
  unfold stream_step, live, complete, target, rank, awaited in *.
  destruct (stream w) as [p n sn]; cbn in *.
  assert (HQ : forall st' (b : list byte), Quiet (set_session w st' (mkWire b false false) (client w)) code)
    by (intros; by split).
  assert (HQ' : forall st' (v : Wire), lost v = false -> fin v = false ->
    Quiet (set_session w st' v (client w)) code) by (intros; by split).
  destruct p as [d| | | |d n'| |c| | | | |r]; try done; rewrite ?Hc; cbn in *.
  - destruct (send_console_bytes_up d (wire w)) as (v & -> & ? & ?); [done|done|].
    eexists _, _. split; [reflexivity|]. cbn. split; [auto|]. split; [|auto]. split; [intuition congruence|lia].
  - eexists _, _. split; [reflexivity|]. cbn. split; [auto|]. split; [|auto]. split; [intuition congruence|lia].
  - assert (Hwk : has_changed (notify (output (rt w))) sn = true)
      by (destruct Hwake as [?|?]; [done|by rewrite Hc|done|by destruct Hw]).
    rewrite Hwk.
    eexists _, _. split; [reflexivity|]. cbn. split; [auto|]. split; [|auto]. split; [auto|lia].
  - destruct (replay_from_repr limit (log w) (output (rt w)) n) as (data & -> & _); [lia|done|lia|].
    eexists _, _. split; [reflexivity|]. cbn. split; [auto|]. split; [|auto]. split; [auto|lia].
  - destruct (send_console_bytes_up d (wire w)) as (v & -> & ? & ?); [done|done|].
    eexists _, _. split; [reflexivity|]. cbn. split; [auto|]. split; [|auto]. split; [intuition congruence|lia].
  - eexists _, _. split; [reflexivity|]. cbn. split; [auto|]. split; [|auto]. split; [intuition congruence|lia].
  - specialize (Hse _ eq_refl). assert (c = code) as -> by congruence.
    unfold write_exit_frame. rewrite wire_write_frame, Hlost, Hfin.
    eexists _, _. split; [reflexivity|]. cbn. split; [auto|]. split; [done|]. right. intuition congruence.
Qed.

Lemma stream_finishes limit w code :
  0 <= limit < U32 -> Inv limit w -> Delivered w -> len (log w) <= limit -> Quiet w code ->
  complete w -> live (stream w) -> ended (client w) = None ->
  exists w' fs, rtc step w w' /\ Inv limit w' /\ Quiet w' code /\ log w' = log w /\
    client w' = client w /\ count (client w') = len (counted (client w')) /\
    Carries w' fs [exit_frame code] /\ counted (client w') ++ data_of fs = log w.
Proof.
  intros Hl. remember (rank (stream w)) as n eqn:En. revert w En.
  induction n as [n IH] using lt_wf_ind. intros w -> HI HD Hle HQ Hcomp Hlive Hgo.
  destruct (stream_progress limit w code) as (st' & wire' & Hs & HQ' & Hnext & Hcase);
    [done|done|done|done|done|].
  pose proof (quiet_attaching _ _ HQ) as Ha.
  set (w' := set_session w st' wire' (client w)) in *.
  assert (Hstep : step w w') by (by eapply step_stream).
  assert (HI' : Inv limit w') by (by eapply inv_step).
  assert (HD' : Delivered w') by (by apply (delivered_step limit w)).

  destruct Hcase as [Hlive'|(Hpc & Hpc' & Ht & Hin)].
  - destruct (Hnext Hlive') as [Hcomp' Hrank].
    destruct (IH _ Hrank w') as (w2 & fs & Hrtc & Hw2); try done.
    exists w2, fs. split; [by eapply rtc_l|]. exact Hw2.
  - destruct HD as [Hc Hd]. rewrite Ha in Hd. destruct Hd as [(fs & es & HC)|[Hn _]]; [|congruence].
    assert (HC0 := HC). destruct HC0 as [Hb Hdata _ Hp Hlv]. destruct (Hlv Hlive) as [-> Hsh].
    rewrite app_nil_r in Hb. unfold shown, pending, target in *.
    rewrite Hpc, Hpc', ?app_nil_r in *.
    assert (Hall : counted (client w) ++ data_of fs = log w).
    { apply prefix_full; [done|]. unfold complete, target in Hcomp. rewrite Hpc in Hcomp.
      destruct Hcomp as [E|[E|E]]; [done|done|].
      lia. }
    exists w', fs. split_and!; try done; [by apply rtc_once|].
    split; unfold shown, pending, live; cbn; rewrite ?Hpc', ?app_nil_r; try done.
    + rewrite Hin, Hb, map_app, concat_app. cbn. by rewrite app_nil_r.
    + right. exists code. split; [done|]. apply HQ.
Qed.

(** On a terminal that takes what it is given. *)
Lemma client_drains limit fs w code :
  0 <= limit < U32 -> Inv limit w -> Quiet w code -> count (client w) = len (counted (client w)) ->
  Carries w fs [exit_frame code] -> ended (client w) = None ->
  exists w', rtc step w w' /\ log w' = log w /\
    terminal (client w') = terminal (client w) ++ data_of fs /\
    ended (client w') = Some (Ok (Exited code)).
Proof.
  intros Hl. revert w. induction fs as [|f fs IH]; intros w HI HQ Hc HC He.
  - assert (Hr : ConsoleFrame_read_from (in_flight (wire w)) = (Ok (exit_frame code), [])).
    { rewrite (carries_bytes _ _ _ HC). cbn [app map concat]. destruct (exit_ty code).
      by rewrite read_fbytes. }
    destruct (carries_deliver limit w [] [exit_frame code] _ _ [] HI Hc HC Hr)
      as [(? & ? & _)|[(out & E)|(c & _ & Hf & _ & Hx & _ & E)]]; [done|done|..].
    { rewrite (client_frame_exit _ code) in E by (eapply inv_code; [done|apply HQ]). done. }
    rewrite (quiet_code _ _ HQ) in Hx. injection Hx as <-.
    eexists. split; [eapply rtc_once, (step_deliver _ _ _ []); [done|apply HQ|done|done]|].
    rewrite E. split_and!; [done| |done]. unfold data_of, session_data. cbn. by rewrite app_nil_r.
  - assert (Hr : ConsoleFrame_read_from (in_flight (wire w)) =
      (Ok f, concat (map fbytes (fs ++ [exit_frame code])))).
    { rewrite (carries_bytes _ _ _ HC). cbn [app map concat].
      pose proof (carries_data _ _ _ HC) as Hd%Forall_inv. apply read_fbytes; [by apply data_ty|apply Hd]. }
    destruct (taken_whole f) as [Htk Hans]. pose proof (carries_data _ _ _ HC) as Hd%Forall_inv.
    destruct (carries_deliver limit w _ _ _ _ [len (cs_payload f)] HI Hc HC Hr Hans)
      as [(fs' & [= <-] & _ & HC' & E)|[(out & E)|(c & ? & _)]]; [| |done].
    2: { apply (f_equal ended) in E. revert E. cbn [client set_session]. unfold client_frame. revert Htk. unfold taken.
         cbn [session_loop]. rewrite (proj1 Hd). cbn [Z.eqb CONSOLE_DATA].
         by destruct (write_console_output _ _) as [[[]|] ?]. }
    set (w' := set_session w _ _ _) in *.
    assert (Hs : step w w') by (apply step_deliver; [done|apply HQ|done|done]).
    destruct (IH w') as (w2 & Hrtc & Hlog & Ht & Hend); [by eapply inv_step| | |done| |].
    + destruct HQ. by split.
    + rewrite E. cbn. rewrite len_app. lia.
    + by rewrite E.
    + exists w2. split; [by eapply rtc_l|]. split; [done|]. split; [|done].
      rewrite Ht, E. cbn [terminal grown]. rewrite data_of_cons by done. by rewrite app_assoc.
Qed.

(** ** A reconnection after output was evicted *)

Lemma reachable_rtc limit w w' : reachable limit w -> rtc step w w' -> reachable limit w'.
Proof. intros Hr Hs. revert Hr. induction Hs; eauto using reach_step. Qed.

Lemma client_frame_lost c : client_frame c (Err [Io OtherIo]) [] = over c (Ok Disconnected).
Proof. unfold client_frame, over. cbn. by rewrite !app_nil_r, orb_false_r. Qed.

(** A client attaches, is sent everything retained, and loses the connection. *)
Lemma attach_and_lose limit w :
  0 < limit < U32 -> Inv limit w -> attaching w = None -> ended (client w) = Some (Ok Disconnected) ->
  let data := drop (Z.to_nat (replay_start limit (log w) (count (client w)))) (log w) in
  0 <= count (client w) -> count (client w) + len data < U64 ->
  0 < len data ->
  exists w', rtc step w w' /\ log w' = log w /\ attaching w' = None /\
    client w' = over (grown (client w) data) (Ok Disconnected).
Proof.
  intros Hl HI Ha He data H0 Hlt Hpos.
  destruct (subscribe_repr limit (log w) (output (rt w)) (output (rt w)) (count (client w)))
    as (data' & E & Hd & Hlen); [lia|apply HI|]. assert (Hdd : data' = data) by exact Hd.
  rewrite Hdd in *.
  assert (Hfok : field_ok data) by (unfold field_ok; lia).
  eexists. split.
  { eapply rtc_l; [by apply step_reconnect|].
    eapply rtc_l; [eapply step_attached; [reflexivity|exact E]|].
    eapply rtc_l; [eapply (step_stream _ OnChanged); [reflexivity|]|].
    { cbn [stream_step stream_start pc stream sub_replay wire]. unfold send_console_bytes.
      replace (len data =? 0) with false by lia. rewrite wire_write_frame. cbn. reflexivity. }
    eapply rtc_l; [eapply (step_deliver _ (mkConsoleFrame CONSOLE_DATA data) _ [len data]); [reflexivity|reflexivity| |]|].
    { cbn. rewrite <- (app_nil_r (fbytes _)). apply read_fbytes; [done|]. exact Hfok. }
    { apply (taken_whole (mkConsoleFrame CONSOLE_DATA data)). }
    eapply rtc_l; [apply step_lose|].
    eapply rtc_l; [apply step_lost; [|reflexivity]|].
    { cbn [client set_session].
      rewrite (client_frame_whole _ (mkConsoleFrame CONSOLE_DATA data)); [done|done|done|exact Hlt]. }
    apply rtc_refl. }
  cbn [client set_session log attaching]. split_and!; [done|done|].
  rewrite client_frame_lost, (client_frame_whole _ (mkConsoleFrame CONSOLE_DATA data)); [done|done|done|exact Hlt].
Qed.

(** The console writes before anyone attaches. *)
Lemma fill limit data :
  0 <= limit < U32 -> len data < U64 ->
  exists w, rtc step (initial limit) w /\ log w = data /\ reader w = Reading /\
    attaching w = None /\ client w = client (initial limit).
Proof.
  intros Hl. induction data as [|b data IH] using rev_ind; intros Hlen.
  { exists (initial limit). split_and!; try done. }
  rewrite len_app in Hlen. change (len [b]) with 1 in Hlen.
  destruct IH as (w & Hrtc & Hlog & Hr & Ha & Hc); [lia|].
  destruct (push_data_state (output (rt w)) [b]) as [o next] eqn:E.
  eexists. split.
  { etrans; [exact Hrtc|].
    eapply rtc_l; [eapply (step_read w [b]); [done|done| |exact E]|].
    { rewrite Hlog, len_app. change (len [b]) with 1. lia. }
    eapply rtc_l; [eapply step_notify; reflexivity|]. apply rtc_refl. }
  cbn. rewrite Hlog. done.
Qed.

Lemma step_exited w w' code :
  step w w' -> ended (client w) = Some (Ok (Exited code)) -> client w' = client w.
Proof. intros Hs He. destruct Hs; cbn; congruence. Qed.

Lemma rtc_exited w w' code :
  rtc step w w' -> ended (client w) = Some (Ok (Exited code)) -> client w' = client w.
Proof.
  induction 1 as [|w w1 w2 Hs _ IH]; [done|]. intros He.
  pose proof (step_exited _ _ _ Hs He) as E. rewrite IH; [done|by rewrite E].
Qed.

(** ** Properties *)

(** What the terminal shows was counted, unless a write failed. *)
Lemma reachable_whole limit w : reachable limit w -> torn (client w) = false -> terminal (client w) = counted (client w).
Proof.
  assert (Hf : forall c r rets, (torn c = false -> terminal c = counted c) ->
    torn (client_frame c r rets) = false -> terminal (client_frame c r rets) = counted (client_frame c r rets)).
  { intros c r rets IH. unfold client_frame. destruct (session_loop [(r, rets)] (count c)) as [[o n] out]. cbn.
    destruct (taken r rets); [|by rewrite orb_true_r]. rewrite orb_false_r. intros Ht. by rewrite IH. }
  induction 1 as [|w w' _ IH Hs]; [done|]. destruct Hs; first [exact IH|apply Hf, IH].
Qed.

(** C4: Exactly-once rendering across reconnections.  As long as the console has written
    no more than the buffer holds and no write to the terminal has failed, in every
    reachable state - whatever the interleaving of output, exit, streaming, delivery,
    lost connections, takeovers and new attachments - the terminal shows a prefix of
    what the console wrote, with nothing repeated, skipped or reordered, and the count
    the client reports on reconnecting is the length of that prefix.  After a failed
    write, of which the terminal may show a part, the count still is the length of the
    prefix that was shown in whole frames. *)
Theorem reconnection_renders_exactly_once limit w :
  0 <= limit < U32 -> reachable limit w -> len (log w) <= limit ->
  counted (client w) `prefix_of` log w /\ count (client w) = len (counted (client w)) /\
  (torn (client w) = false ->
     terminal (client w) `prefix_of` log w /\ count (client w) = len (terminal (client w))).
Proof using WL.
  intros Hl Hr Hle. destruct (reachable_delivered limit w Hl Hr Hle) as [Hc Hd].
  assert (Hp : counted (client w) `prefix_of` log w).
  { destruct (attaching w); [by destruct Hd|]. destruct Hd as [(fs & es & HC)|[_ Hp]]; [|done].
    by eapply carries_counted. }
  split; [done|]. split; [done|]. intros Ht. by rewrite (reachable_whole limit w Hr Ht).
Qed.

(** No lost wake-up.  In every reachable state in which the stream waits for
    a change while the console has output it did not send, or has exited, the
    change is already signalled, or the task that made it is about to signal it.
    It rests on subscribing before the state is locked. *)
Theorem stream_never_misses_a_change limit w :
  0 <= limit < U32 -> reachable limit w -> pc (stream w) = Await ->
  target (stream w) < len (log w) \/ exit_code (rt w) <> None ->
  has_changed (notify (output (rt w))) (seen (stream w)) = true \/
  (exists next, reader w = Notifying next) \/ exiting (waiter w).
Proof using WL.
  intros Hl Hr Hpc Hc. destruct (reachable_inv limit w Hl Hr). unfold awaited in *.
  destruct Hc as [Ht|Hx].
  - destruct inv_wake_data0 as [?|?]; [unfold live; by rewrite Hpc|by rewrite Hpc|done|auto|auto].
  - destruct (inv_wake_exit0 Hpc Hx); auto.
Qed.

(** C29: Everything arrives that fits the buffer.  When the console has written no more
    than its buffer holds, no write to the terminal has failed, the process has exited,
    its output tasks have finished and the connection is up, a stream that has not
    passed its last read of the buffer can always run to the end, on a terminal that
    takes what it is given: the client shows the whole output and then reports the
    exit code. *)
Theorem exit_reaches_client limit w code :
  0 <= limit < U32 -> reachable limit w -> len (log w) <= limit -> torn (client w) = false ->
  Quiet w code -> live (stream w) -> complete w -> ended (client w) = None ->
  exists w', rtc step w w' /\ log w' = log w /\ terminal (client w') = log w /\
    ended (client w') = Some (Ok (Exited code)).
Proof using WL.
  intros Hl Hr Hle Htorn HQ Hlive Hcomp He.
  destruct (stream_finishes limit w code) as (w1 & fs & Hrtc & HI & HQ1 & Hlog & Hcl & Hc & HC & Hall);
    [done|by apply reachable_inv|by apply (reachable_delivered limit)|done..|].
  destruct (client_drains limit fs w1 code) as (w2 & Hrtc2 & Hlog2 & Ht & Hend);
    [done|done|done|done|done|by rewrite Hcl|].
  exists w2. split; [by etrans|]. split; [congruence|]. split; [|done].
  rewrite Ht, Hcl, (reachable_whole limit w Hr Htorn), <- Hcl. congruence.
Qed.

(** Once output was evicted, the count the client reports (the bytes it
    rendered) is no longer the console's offset, and a reconnection repeats: a
    client that attaches after the console wrote twice the buffer's size, is sent
    the retained half, and reconnects, is sent the same half again. *)
Theorem reconnection_after_eviction_repeats limit data :
  0 < limit < U32 -> len data = 2 * limit ->
  exists w, reachable limit w /\ log w = data /\
    terminal (client w) = drop (Z.to_nat limit) data ++ drop (Z.to_nat limit) data.
Proof using WL.
  intros Hl Hlen. assert (HU : 4 * U32 < U64) by done.
  destruct (fill limit data) as (w & Hrtc & Hlog & _ & Ha & Hc); [lia|lia|].
  assert (Hr : reachable limit w) by (eapply reachable_rtc; [apply reach_init|done]).
  assert (Hhalf : len (drop (Z.to_nat limit) data) = limit)
    by (unfold len in *; rewrite length_drop; lia).
  assert (Hs : forall c, c = 0 \/ c = limit -> replay_start limit (log w) c = limit)
    by (intros c Hcc; rewrite Hlog; unfold replay_start; lia).
  assert (Hl0 : 0 <= limit < U32) by lia.
  pose proof (attach_and_lose limit w Hl (reachable_inv _ _ Hl0 Hr) Ha) as HA.
  cbv zeta in HA. rewrite Hc in HA. cbn [initial client over grown count counted terminal ended] in HA.
  rewrite Hs, Hlog, Hhalf in HA by auto.
  destruct HA as (w1 & Hrtc1 & Hlog1 & Ha1 & Hc1); [done|lia|lia|lia|].
  assert (Hr1 : reachable limit w1) by (by eapply reachable_rtc).
  pose proof (attach_and_lose limit w1 Hl (reachable_inv _ _ Hl0 Hr1) Ha1) as HA.
  cbv zeta in HA. rewrite Hc1 in HA. cbn [client over grown count counted terminal ended] in HA.
  rewrite Hhalf, Hlog1, <- Hlog, Hs, Hlog, Hhalf in HA by lia.
  destruct HA as (w2 & Hrtc2 & Hlog2 & Ha2 & Hc2); [done|lia|lia|lia|].
  exists w2. split; [by eapply reachable_rtc|]. split; [congruence|]. rewrite Hc2. done.
Qed.
End world.

(** One step of a concrete run, the next state computed. *)
Ltac run_step c :=
  eapply rtc_l;
  [ eapply c; vm_compute; first [reflexivity | done]
  | match goal with |- rtc _ ?w _ => let w' := eval vm_compute in w in change w with w' end ].

(** The exit frame can overtake output: the stream reads the exit code after
    it read the buffer, so what the console wrote in between is never sent to
    this client, whose session is then over. *)
Theorem exit_frame_can_overtake_output :
  exists w : World, reachable DETACHED_OUTPUT_BUFFER_LIMIT_BYTES w /\
    log w = as_bytes "ab" /\ terminal (client w) = as_bytes "a" /\
    ended (client w) = Some (Ok (Exited 0)) /\
    forall w', rtc step w w' -> terminal (client w') = as_bytes "a".
Proof.
  eexists. split.
  { eapply reachable_rtc; [apply reach_init|].
    run_step step_reconnect. run_step step_attached.
    do 2 run_step (fun w => step_stream w OnChanged).
    run_step (fun w => step_read w (as_bytes "a")). run_step step_notify.
    do 3 run_step (fun w => step_stream w OnChanged).
    run_step (fun w => step_read w (as_bytes "b")).
    run_step (fun w => step_wait w (Ok (Some 0)) 0).
    do 3 run_step (fun w => step_stream w OnChanged).
    do 2 run_step (fun w f rest => step_deliver w f rest [1]). apply rtc_refl. }
  split; [vm_compute; reflexivity|]. split; [vm_compute; reflexivity|].
  split; [vm_compute; reflexivity|].
  intros w' Hrtc. erewrite rtc_exited; [|exact Hrtc|vm_compute; reflexivity]. vm_compute. reflexivity.
Qed.

(** A write to the terminal that fails after it showed a part, with an error of the
    system (out of space, or a non-blocking terminal that is full), counts nothing and is
    taken for a lost connection: after the reconnection the part is shown again. *)
Theorem a_failed_write_repeats :
  exists w : World, reachable DETACHED_OUTPUT_BUFFER_LIMIT_BYTES w /\
    log w = as_bytes "ab" /\ terminal (client w) = as_bytes "aab".
Proof.
  eexists. split.
  { eapply reachable_rtc; [apply reach_init|].
    run_step (fun w => step_read w (as_bytes "ab")).
    run_step step_reconnect. run_step step_attached.
    run_step (fun w => step_stream w OnChanged). run_step (fun w f rest => step_deliver w f rest [1; -1]).
    run_step step_reconnect. run_step step_attached.
    run_step (fun w => step_stream w OnChanged). run_step (fun w f rest => step_deliver w f rest [2]).
    apply rtc_refl. }
  split; vm_compute; reflexivity.
Qed.

(** ** Witnesses *)

(** A stream waits while two bytes it did not send are in the buffer. *)
Lemma demo_awaiting :
  exists w : World, reachable 16 w /\ log w = as_bytes "hi" /\ pc (stream w) = Await /\
    target (stream w) < len (log w).
Proof.
  eexists. split.
  { eapply reachable_rtc; [apply reach_init|].
    run_step step_reconnect. run_step step_attached.
    do 2 run_step (fun w => step_stream w OnChanged).
    run_step (fun w => step_read w (as_bytes "hi")). run_step step_notify. apply rtc_refl. }
  vm_compute. done.
Qed.

(** The same console after its process exited with code 0. *)
Lemma demo_exited :
  exists w : World, reachable 16 w /\ log w = as_bytes "hi" /\ Quiet w 0 /\
    live (stream w) /\ complete w /\ ended (client w) = None /\ torn (client w) = false.
Proof.
  eexists. split.
  { eapply reachable_rtc; [apply reach_init|].
    run_step step_reconnect. run_step step_attached.
    do 2 run_step (fun w => step_stream w OnChanged).
    run_step (fun w => step_read w (as_bytes "hi")). run_step step_notify.
    run_step step_reader_stops.
    do 4 run_step (fun w => step_wait w (Ok (Some 0)) 0). apply rtc_refl. }
  split; [vm_compute; done|]. split; [split; vm_compute; tauto|].
  split; [vm_compute; done|]. split; [left; vm_compute; done|]. split; vm_compute; done.
Qed.

(** A client that showed the first bytes, lost its connection and shows the rest. *)
Lemma demo_reconnected :
  exists w : World, reachable 16 w /\ log w = as_bytes "hi" /\ terminal (client w) = as_bytes "hi" /\
    torn (client w) = false.
Proof.
  eexists. split.
  { eapply reachable_rtc; [apply reach_init|].
    run_step (fun w => step_read w (as_bytes "h")). run_step step_notify.
    run_step step_reconnect. run_step step_attached.
    run_step (fun w => step_stream w OnChanged). run_step (fun w f rest => step_deliver w f rest [1]).
    run_step (fun w => step_read w (as_bytes "i")). run_step step_notify.
    run_step step_lose. run_step step_lost.
    run_step step_reconnect. run_step step_attached.
    run_step (fun w => step_stream w OnChanged). run_step (fun w f rest => step_deliver w f rest [1]).
    apply rtc_refl. }
  split_and!; vm_compute; reflexivity.
Qed.

Lemma reconnection_renders_exactly_once_witness :
  exists w : World, log w = as_bytes "hi" /\ terminal (client w) = as_bytes "hi" /\ count (client w) = 2.
Proof.
  destruct demo_reconnected as (w & Hr & Hlog & Hterm & Ht). exists w. split; [done|]. split; [done|].
  destruct (reconnection_renders_exactly_once 16 w) as (_ & _ & H); [done|done|rewrite Hlog; vm_compute; done|].
  destruct (H Ht) as [_ ->]. by rewrite Hterm.
Defined.

Lemma stream_never_misses_a_change_witness :
  exists w : World, log w = as_bytes "hi" /\ pc (stream w) = Await /\
    (has_changed (notify (output (rt w))) (seen (stream w)) = true \/
     (exists next, reader w = Notifying next) \/ exiting (waiter w)).
Proof.
  destruct demo_awaiting as (w & Hr & Hlog & Hpc & Ht). exists w. split; [done|]. split; [done|].
  apply (stream_never_misses_a_change 16); [done|done|done|by left].
Defined.

Lemma exit_reaches_client_witness :
  exists w w' : World, reachable 16 w /\ rtc step w w' /\ terminal (client w') = as_bytes "hi" /\
    ended (client w') = Some (Ok (Exited 0)).
Proof.
  destruct demo_exited as (w & Hr & Hlog & HQ & Hlive & Hcomp & He & Ht).
  destruct (exit_reaches_client 16 w 0) as (w' & Hrtc & _ & Hshow & Hend);
    [done|done|rewrite Hlog; vm_compute; done|done..|].
  exists w, w'. split_and!; [done|done|by rewrite Hshow|done].
Defined.

Lemma reconnection_after_eviction_repeats_witness :
  exists w : World, reachable 2 w /\ log w = as_bytes "abcd" /\ terminal (client w) = as_bytes "cdcd".
Proof.
  destruct (reconnection_after_eviction_repeats 2 (as_bytes "abcd")) as (w & Hr & Hlog & Ht);
    [done|done|]. exists w. done.
Defined.
