(* ===== verification/ExecSessions.v ===== *)
(** * Console and exec sessions and their managers ([crates/init/src/forward.rs])

    The objects the server shares between connections: exec sessions in the
    manager's map, the shared shell, their attachments and takeover tokens.  An
    [Arc] is a key of a heap, so that two holders of one session see the same
    object; a [CancellationToken] is a key of the set of cancelled tokens.  Each
    operation is the part of a method that runs under one lock, and the methods
    compose them. *)

From Stdlib Require Import Sorting.Sorted.
From S2P Require Import Prelude Protocol ConsoleBuffer ConsoleStream.

(** ** The command of a console *)

Inductive ConsoleLaunch :=
| Shell
| Exec (argv : list string).

Record Command := mkCommand {
  program : string;
  args : list string;
  current_dir : option string;
  env : list (string * string);
}.

(** [Path::join]: an absolute argument replaces the path. *)
Definition path_join (base path : string) : string :=
  if String.prefix "/" path then path
  else if bool_decide (base = "") then path
  else match String.get (String.length base - 1) base with
       | Some c =>
           if bool_decide (c = Ascii.ascii_of_nat 47) then base +:+ path else base +:+ "/" +:+ path
       | None => path
       end.

Section command.
(** [Path::exists] and [{:?}] of a list of strings. *)
Context (path_exists : string -> bool) (debug : list string -> string).

Definition shell_path (root_dir : string) : string :=
  if path_exists (path_join root_dir "bin/bash") then "/bin/bash" else "/bin/sh".

Definition spawn_context (self : ConsoleLaunch) (inner_pid : Z) (test_mode : bool) : string :=
  if test_mode then
    match self with
    | Shell => "spawn shared console shell in test mode"
    | Exec argv => "spawn test-mode exec " +:+ debug argv
    end
  else
    match self with
    | Shell => "spawn nsenter console via pid " +:+ pretty inner_pid
    | Exec argv => "spawn nsenter exec " +:+ debug argv +:+ " via pid " +:+ pretty inner_pid
    end.

(** [Panic]: [argv[0]] of an empty argv. *)
Definition build_console_command (launch : ConsoleLaunch) (root_dir : string) (inner_pid : Z)
    (test_mode : bool) : Res Command :=
  if test_mode then
    match launch with
    | Shell =>
        Ok (mkCommand (shell_path root_dir) [] (Some root_dir)
              [("HOME", path_join root_dir "root"); ("PWD", root_dir)])
    | Exec (arg0 :: argv) => Ok (mkCommand arg0 argv (Some root_dir) [])
    | Exec [] => Panic
    end
  else
    let nsenter := ["-m"; "-p"; "-t"; pretty inner_pid; "--wd=" +:+ root_dir; "--"] in
    Ok (mkCommand "nsenter"
          (nsenter ++ match launch with
                      | Shell => [shell_path root_dir; "-l"]
                      | Exec argv => argv
                      end) None []).
End command.

Section managers.
Context `{WA : WatchApi}.

(** ** Exec sessions *)

Record ExecSession := mkExecSession {
  session_id : string;
  argv : list string;
  exec_context : option string;
  runtime : Runtime;
  next_generation : Z;
  current : option (Z * nat);
}.

Record ExecSessionAttachment := mkAttachment {
  att_session : nat;
  output_subscription : BufferedConsoleSubscription;
  att_takeover : nat;
  generation : Z;
}.

(** The manager's map and the objects it shares with the streams. *)
Record Managers := mkManagers {
  mgr_sessions : gmap string nat;
  heap : gmap nat ExecSession;
  cancelled : gset nat;
  next_arc : nat;
  next_token : nat;
}.

Definition COMPLETED_SESSION_TTL : Z := 60.

Definition new_arced : Managers := mkManagers ∅ ∅ ∅ 0 0.

Definition set_heap (m : Managers) (h : gmap nat ExecSession) : Managers :=
  mkManagers (mgr_sessions m) h (cancelled m) (next_arc m) (next_token m).

Definition set_sessions (m : Managers) (s : gmap string nat) : Managers :=
  mkManagers s (heap m) (cancelled m) (next_arc m) (next_token m).

(** One pass of [reap_completed_sessions] at time [now], in seconds. *)
Definition reap_retain (m : Managers) (now : Z) (session : nat) : bool :=
  match heap m !! session with
  | Some s =>
      match exited_at (runtime s) with
      | Some t => now - t <? COMPLETED_SESSION_TTL
      | None => true
      end
  | None => true
  end.

Definition reap_completed_sessions (now : Z) (m : Managers) : Managers :=
  set_sessions m (filter (fun '(_, session) => reap_retain m now session = true) (mgr_sessions m)).

(** The locked part of [attach_or_create].  [spawn] is what
    [spawn_persistent_console] gives for the argv. *)
Definition find_or_spawn (spawn : list string -> Res Runtime) (request : ExecSessionRequest) :
    M Managers nat :=
  m ← mget;
  match mgr_sessions m !! req_session_id request with
  | Some existing => mret existing
  | None =>
      argv ← mlift (ok_or ("exec session " +:+ req_session_id request +:+ " not found")
                      (req_argv request));
      match argv with
      | [] => mlift (anyhow "exec request must include at least one argv element")
      | _ =>
          runtime ← mlift (spawn argv);
          let session := next_arc m in
          let s := mkExecSession (req_session_id request) argv (req_context request) runtime 0 None in
          _ ← mput (mkManagers (<[req_session_id request := session]> (mgr_sessions m))
                      (<[session := s]> (heap m)) (cancelled m) (S session) (next_token m));
          mret session
      end
  end.

(** [ExecSession::attach].  [subscribed]: the output when it was subscribed to. *)
Definition attach (subscribed : option BufferedConsoleOutput) (session : nat) (rendered_bytes : Z) :
    M Managers ExecSessionAttachment :=
  m ← mget;
  match heap m !! session with
  | None => mlift Panic
  | Some s =>
      let cancelled := match current s with
                       | Some (_, token) => {[token]} ∪ cancelled m
                       | None => cancelled m
                       end in
      let generation := (next_generation s + 1) mod U64 in
      let takeover := next_token m in
      let s := mkExecSession (session_id s) (argv s) (exec_context s) (runtime s) generation
                 (Some (generation, takeover)) in
      _ ← mput (mkManagers (mgr_sessions m) (<[session := s]> (heap m)) cancelled (next_arc m)
                  (S takeover));
      let output := output (runtime s) in
      subscription ← mlift (subscribe_from (default output subscribed) output rendered_bytes);
      mret (mkAttachment session subscription takeover generation)
  end.

Definition attach_or_create (spawn : list string -> Res Runtime) (request : ExecSessionRequest) :
    M Managers ExecSessionAttachment :=
  session ← find_or_spawn spawn request;
  attach None session (req_rendered_bytes request).

(** The locked part of [detach]; the result is whether the session is removed. *)
Definition detach_locked (session : nat) (generation : Z) : M Managers bool :=
  m ← mget;
  match heap m !! session with
  | None => mlift Panic
  | Some s =>
      let current := match current s with
                     | Some (current_generation, token) =>
                         if current_generation =? generation then None
                         else Some (current_generation, token)
                     | None => None
                     end in
      let s := mkExecSession (session_id s) (argv s) (exec_context s) (runtime s) (next_generation s)
                 current in
      _ ← mput (set_heap m (<[session := s]> (heap m)));
      mret (match exit_code (runtime s) with Some _ => true | None => false end)
  end.

Definition remove_if_same (session_id : string) (session : nat) (m : Managers) : Managers :=
  if bool_decide (mgr_sessions m !! session_id = Some session)
  then set_sessions m (delete session_id (mgr_sessions m)) else m.

(** [detach]; the manager outlives its sessions' streams. *)
Definition detach (session : nat) (generation : Z) : M Managers unit :=
  should_remove ← detach_locked session generation;
  match should_remove with
  | true =>
      m ← mget;
      match heap m !! session with
      | Some s => mmodify (remove_if_same (session_id s) session)
      | None => mret tt
      end
  | false => mret tt
  end.

Definition snapshot (self : ExecSession) : ExecSessionInfo :=
  let finished := match exit_code (runtime self) with Some _ => true | None => false end in
  mkExecInfo (session_id self) (argv self) (exec_context self)
    (match current self with Some _ => negb finished | None => false end)
    (exit_code (runtime self)).

(** [list], all sessions read in the state the map was read in. *)
Definition list_sessions (m : Managers) : list ExecSessionInfo :=
  let sessions := omap (fun session => heap m !! session) (map snd (map_to_list (mgr_sessions m))) in
  map snapshot (sort_by (fun a b => str_leb (session_id a) (session_id b)) sessions).

(** ** The shared shell *)

Record SharedConsoleManager := mkShared {
  shared_session : option nat;
  shells : gmap nat Runtime;
}.

Record SharedConsoleAttachment := mkSharedAttachment {
  shell : nat;
  shell_subscription : BufferedConsoleSubscription;
}.

Definition SharedConsoleManager_new : SharedConsoleManager := mkShared None ∅.

Definition is_finished (rt : Runtime) : bool :=
  match exit_code rt with Some _ => true | None => false end.

(** The first locked part of the loop: the running session or a new one. *)
Definition running_or_spawn (spawned : Res Runtime) : M SharedConsoleManager nat :=
  self ← mget;
  let spawn : M SharedConsoleManager nat :=
    runtime ← mlift spawned;
    let session := fresh (dom (shells self)) in
    _ ← mput (mkShared (Some session) (<[session := runtime]> (shells self)));
    mret session in
  match shared_session self with
  | Some existing =>
      match shells self !! existing with
      | Some rt => if is_finished rt then spawn else mret existing
      | None => mlift Panic
      end
  | None => spawn
  end.

(** The last locked part: forget the session that finished. *)
Definition forget_session (session : nat) (self : SharedConsoleManager) : SharedConsoleManager :=
  if bool_decide (shared_session self = Some session)
  then mkShared None (shells self) else self.

(** What happens around one turn of the loop: what a spawn would give, and what
    the console's tasks do to the shells before the second [is_finished]. *)
Record Turn := mkTurn {
  spawned : Res Runtime;
  meanwhile : gmap nat Runtime -> gmap nat Runtime;
}.

(** [SharedConsoleManager::attach]; [None] when the turns run out. *)
Fixpoint shared_attach (turns : list Turn) (rendered_bytes : Z) (self : SharedConsoleManager) :
    option (Res SharedConsoleAttachment) * SharedConsoleManager :=
  match turns with
  | [] => (None, self)
  | t :: turns =>
      match running_or_spawn (spawned t) self with
      | (Ok session, self) =>
          match shells self !! session with
          | None => (Some Panic, self)
          | Some rt =>
              match subscribe_from (output rt) (output rt) rendered_bytes with
              | Ok sub =>
                  let self := mkShared (shared_session self) (meanwhile t (shells self)) in
                  match shells self !! session with
                  | None => (Some Panic, self)
                  | Some rt =>
                      if is_finished rt then
                        shared_attach turns rendered_bytes (forget_session session self)
                      else (Some (Ok (mkSharedAttachment session sub)), self)
                  end
              | Err e => (Some (Err e), self)
              | Panic => (Some Panic, self)
              end
          end
      | (Err e, self) => (Some (Err e), self)
      | (Panic, self) => (Some Panic, self)
      end
  end.

(** ** The managers and their streams as a transition system *)

Record Attached := mkAttached { at_session : nat; at_generation : Z; at_token : nat }.

(** [streams]: the attachments whose stream has not detached yet; [removals]:
    the sessions a [detach] is about to remove. *)
Record Sys := mkSys {
  mgr : Managers;
  streams : list Attached;
  removals : list nat;
}.

(** What the tasks of a console may do to it: an exit code stays, and the exit
    time is set after the exit code. *)
Definition runs_to (rt rt' : Runtime) : Prop :=
  (forall code, exit_code rt = Some code -> exit_code rt' = Some code) /\
  (exited_at rt' <> None -> exit_code rt' <> None).

Definition with_runtime (s : ExecSession) (rt : Runtime) : ExecSession :=
  mkExecSession (session_id s) (argv s) (exec_context s) rt (next_generation s) (current s).

Inductive op_step : Sys -> Sys -> Prop :=
| op_find y spawn request r m' :
    (forall argv rt, spawn argv = Ok rt -> exit_code rt = None /\ exited_at rt = None) ->
    find_or_spawn spawn request (mgr y) = (r, m') ->
    op_step y (mkSys m' (streams y) (removals y))
| op_attach y subscribed session rendered_bytes att m' :
    attach subscribed session rendered_bytes (mgr y) = (Ok att, m') ->
    op_step y (mkSys m' (mkAttached session (generation att) (att_takeover att) :: streams y)
                 (removals y))
| op_detach y a should_remove m' :
    a ∈ streams y ->
    detach_locked (at_session a) (at_generation a) (mgr y) = (Ok should_remove, m') ->
    op_step y (mkSys m' (filter (fun b => at_token b <> at_token a) (streams y))
                 (if should_remove then at_session a :: removals y else removals y))
| op_remove y session s :
    session ∈ removals y -> heap (mgr y) !! session = Some s ->
    op_step y (mkSys (remove_if_same (session_id s) session (mgr y)) (streams y) (removals y))
| op_reap y now :
    op_step y (mkSys (reap_completed_sessions now (mgr y)) (streams y) (removals y))
| op_run y session s rt' :
    heap (mgr y) !! session = Some s -> runs_to (runtime s) rt' ->
    op_step y (mkSys (set_heap (mgr y) (<[session := with_runtime s rt']> (heap (mgr y))))
                 (streams y) (removals y)).

Inductive op_reachable : Sys -> Prop :=
| op_init : op_reachable (mkSys new_arced [] [])
| op_more y y' : op_reachable y -> op_step y y' ->
    (forall session s, heap (mgr y') !! session = Some s -> next_generation s < U64 - 1) ->
    op_reachable y'.

(** ** Invariant *)

(** The attachments of one session object. *)
Record SessionOk (y : Sys) (session : nat) (s : ExecSession) : Prop := {
  so_gen : 0 <= next_generation s < U64 - 1;
  so_run : exited_at (runtime s) <> None -> exit_code (runtime s) <> None;
  so_argv : argv s <> [];
  so_current : forall g t, current s = Some (g, t) ->
    mkAttached session g t ∈ streams y /\ (t ∉ cancelled (mgr y)) /\ g = next_generation s;
  so_stream : forall a, a ∈ streams y -> at_session a = session ->
    at_generation a <= next_generation s /\
    (current s = Some (at_generation a, at_token a) \/ at_token a ∈ cancelled (mgr y));
}.

Record SysOk (y : Sys) : Prop := {
  sys_keys : forall id session, mgr_sessions (mgr y) !! id = Some session ->
    exists s, heap (mgr y) !! session = Some s /\ session_id s = id;
  sys_fresh : forall session, (next_arc (mgr y) <= session)%nat -> heap (mgr y) !! session = None;
  sys_tokens : forall a, a ∈ streams y -> (at_token a < next_token (mgr y))%nat;
  sys_cancelled : forall t, t ∈ cancelled (mgr y) -> (t < next_token (mgr y))%nat;
  sys_streams : forall a, a ∈ streams y -> is_Some (heap (mgr y) !! at_session a);
  sys_unique : forall a b, a ∈ streams y -> b ∈ streams y -> at_token a = at_token b -> a = b;
  sys_generations : forall a b, a ∈ streams y -> b ∈ streams y ->
    at_session a = at_session b -> at_generation a = at_generation b -> a = b;
  sys_removals : forall session, session ∈ removals y ->
    exists s, heap (mgr y) !! session = Some s /\ exit_code (runtime s) <> None;
  sys_sessions : forall session s, heap (mgr y) !! session = Some s -> SessionOk y session s;
}.

Lemma sys_ok_init : SysOk (mkSys new_arced [] []).
Proof. split; cbn; intros; try set_solver; rewrite ?lookup_empty in *; done. Qed.

(** What [find_or_spawn] did. *)
Lemma find_or_spawn_inv spawn request m r m' :
  find_or_spawn spawn request m = (r, m') ->
  (m' = m /\ forall session, r = Ok session -> mgr_sessions m !! req_session_id request = Some session) \/
  (exists argv rt, (mgr_sessions m !! req_session_id request = None) /\
    req_argv request = Some argv /\ argv <> [] /\ spawn argv = Ok rt /\ r = Ok (next_arc m) /\
    m' = mkManagers (<[req_session_id request := next_arc m]> (mgr_sessions m))
           (<[next_arc m := mkExecSession (req_session_id request) argv (req_context request) rt 0 None]>
              (heap m)) (cancelled m) (S (next_arc m)) (next_token m)).
Proof.
  unfold find_or_spawn, mbind, M_bind, mbind_st, mget, mlift, mput, mret, M_ret, mret_st.
  destruct (mgr_sessions m !! req_session_id request) as [session|] eqn:E.
  { intros [= <- <-]. left. naive_solver. }
  destruct (req_argv request) as [[|a argv]|] eqn:Ea; cbn.
  - intros [= <- <-]. left. done.
  - destruct (spawn (a :: argv)) as [rt|e|] eqn:Es; cbn; intros [= <- <-];
      [right|left; done|left; done]. exists (a :: argv), rt. done.
  - intros [= <- <-]. left. done.
Qed.

Lemma attach_inv subscribed session n m att m' :
  attach subscribed session n m = (Ok att, m') ->
  exists s, heap m !! session = Some s /\
    att_session att = session /\ generation att = (next_generation s + 1) mod U64 /\
    att_takeover att = next_token m /\
    subscribe_from (default (output (runtime s)) subscribed) (output (runtime s)) n
      = Ok (output_subscription att) /\
    m' = mkManagers (mgr_sessions m)
      (<[session := mkExecSession (session_id s) (argv s) (exec_context s) (runtime s)
           (generation att) (Some (generation att, att_takeover att))]> (heap m))
      (match current s with Some (_, t) => {[t]} ∪ cancelled m | None => cancelled m end)
      (next_arc m) (S (next_token m)).
Proof.
  unfold attach, mbind, M_bind, mbind_st, mget, mlift, mput, mret, M_ret, mret_st.
  destruct (heap m !! session) as [s|]; [|done]. cbn [runtime].
  destruct (subscribe_from _ _ _) as [sub|e|] eqn:E; [|done|done].
  intros [= <- <-]. exists s. done.
Qed.

Lemma detach_locked_inv session g m b m' :
  detach_locked session g m = (Ok b, m') ->
  exists s, heap m !! session = Some s /\
    b = is_finished (runtime s) /\
    m' = set_heap m (<[session := mkExecSession (session_id s) (argv s) (exec_context s) (runtime s)
      (next_generation s) (match current s with
                           | Some (g', t) => if g' =? g then None else Some (g', t)
                           | None => None end)]> (heap m)).
Proof.
  unfold detach_locked, mbind, M_bind, mbind_st, mget, mlift, mput, mret, M_ret, mret_st.
  destruct (heap m !! session) as [s|]; [|done]. intros [= <- <-]. exists s. done.
Qed.

Lemma sys_ok_find y spawn request r m' :
  (forall argv rt, spawn argv = Ok rt -> exit_code rt = None /\ exited_at rt = None) ->
  SysOk y -> find_or_spawn spawn request (mgr y) = (r, m') ->
  SysOk (mkSys m' (streams y) (removals y)).
Proof.
  intros Hsp HS Hf. apply find_or_spawn_inv in Hf as [[-> _]|(argv & rt & Hn & _ & Ha & Hs & _ & ->)];
    [by destruct y|].
  apply Hsp in Hs as [Hx Hat]. destruct HS. set (new := next_arc (mgr y)) in *.
  assert (Hfresh : heap (mgr y) !! new = None) by (apply sys_fresh0; lia).
  assert (Hne : forall session s, heap (mgr y) !! session = Some s -> session <> new) by congruence.
  split; cbn; try done.
  - intros id session Hid. apply lookup_insert_Some in Hid as [[<- <-]|[_ Hid]].
    + eexists. split; [apply lookup_insert_eq|done].
    + apply sys_keys0 in Hid as (s & Hs & <-). exists s. split; [|done].
      rewrite lookup_insert_ne; [done|]. apply Hne in Hs. done.
  - intros session Hle. rewrite lookup_insert_ne by lia. apply sys_fresh0. lia.
  - intros a Hin. apply lookup_insert_is_Some'. auto.
  - intros session Hin. apply sys_removals0 in Hin as (s & Hs & Hex). exists s. split; [|done].
    rewrite lookup_insert_ne; [done|]. apply Hne in Hs. done.
  - intros session s Hs. apply lookup_insert_Some in Hs as [[<- <-]|[Hn' Hs]].
    + split; cbn; try done.
      intros a Hin Hat'. apply sys_streams0 in Hin as [s Hs]. rewrite Hat' in Hs. congruence.
    + apply sys_sessions0 in Hs as []. by split.
Qed.

Lemma cancel_current (cur : option (Z * nat)) (c : gset nat) t :
  t ∈ match cur with Some (_, t) => {[t]} ∪ c | None => c end <->
  t ∈ c \/ exists g, cur = Some (g, t).
Proof.
  destruct cur as [[g t']|].
  - rewrite elem_of_union, elem_of_singleton. split; [intros [->|?]; eauto|].
    intros [?|[g' [= _ ->]]]; auto.
  - split; [auto|]. by intros [?|[]].
Qed.

Lemma sys_ok_attach y subscribed session n att m' :
  SysOk y -> attach subscribed session n (mgr y) = (Ok att, m') ->
  (forall session s, heap m' !! session = Some s -> next_generation s < U64 - 1) ->
  SysOk (mkSys m' (mkAttached session (generation att) (att_takeover att) :: streams y) (removals y)).
Proof.
  intros HS Ha Hgen. apply attach_inv in Ha as (s & Hs & _ & Hg & Ht & _ & ->).
  destruct HS. pose proof (sys_sessions0 _ _ Hs) as [Hg0 Hrun Hargv Hcur Hstr].
  rewrite Z.mod_small in Hg by lia. cbn in Hgen.
  set (s' := mkExecSession _ _ _ _ _ _) in *.
  pose proof (cancel_current (current s) (cancelled (mgr y))) as Hcanc.
  set (c' := match current s with Some _ => _ | None => _ end) in *.
  assert (Hkeep : forall k x, heap (mgr y) !! k = Some x -> exists x',
      <[session := s']> (heap (mgr y)) !! k = Some x' /\
      session_id x' = session_id x /\ runtime x' = runtime x).
  { intros k x Hk. destruct (decide (k = session)) as [->|Hn].
    - rewrite lookup_insert_eq. exists s'. rewrite Hs in Hk. by injection Hk as <-.
    - rewrite lookup_insert_ne by done. eauto. }
  assert (Hold : forall t, t ∈ c' -> (t < next_token (mgr y))%nat).
  { intros t Hc'. apply Hcanc in Hc' as [Hin|[g Hc]]; [auto|].
    apply Hcur in Hc as [Hin _]. by apply sys_tokens0 in Hin. }
  split; cbn.
  - intros id k Hid. apply sys_keys0 in Hid as (x & Hk & <-).
    apply Hkeep in Hk as (x' & ? & ? & ?). eauto.
  - intros k Hle. apply sys_fresh0 in Hle. rewrite lookup_insert_ne; [done|]. congruence.
  - intros a [->|Hin]%elem_of_cons; cbn; [lia|]. apply sys_tokens0 in Hin. lia.
  - intros t Hc'. apply Hold in Hc'. lia.
  - intros a [->|Hin]%elem_of_cons; cbn; apply lookup_insert_is_Some'; [by left|]. auto.
  - intros a b [->|Ha]%elem_of_cons [->|Hb]%elem_of_cons Heq; cbn in *; auto.
    + apply sys_tokens0 in Hb. lia.
    + apply sys_tokens0 in Ha. lia.
  - intros a b [->|Ha]%elem_of_cons [->|Hb]%elem_of_cons Heq Heqg; cbn in *; auto.
    + destruct (Hstr b Hb (eq_sym Heq)) as [? _]. lia.
    + destruct (Hstr a Ha Heq) as [? _]. lia.
  - intros k Hin. apply sys_removals0 in Hin as (x & Hk & Hex).
    apply Hkeep in Hk as (x' & ? & ? & ?). exists x'. split; congruence.
  - intros k x Hk. apply lookup_insert_Some in Hk as [[<- <-]|[Hn Hk]].
    + split; cbn; try done; [split; [lia|]|..].
      * apply (Hgen session s'). apply lookup_insert_eq.
      * intros g t [= <- <-]. split; [apply list_elem_of_here|]. split; [|lia].
        intros Hin. apply Hold in Hin. lia.
      * intros a [->|Hin]%elem_of_cons Heq; cbn in *; [split; [lia|by left]|].
        destruct (Hstr a Hin Heq) as [Hle Hc]. split; [lia|]. right. apply Hcanc.
        destruct Hc; eauto.
    + pose proof (sys_sessions0 _ _ Hk) as []. split; cbn; try done.
      * intros g t Hc. apply so_current0 in Hc as (Hin & Hnc & Hle).
        split; [by apply list_elem_of_further|].
        split; [|done]. intros Hin'. apply Hcanc in Hin' as [?|[g' Hc']]; [done|].
        apply Hcur in Hc' as (Hin' & _). specialize (sys_unique0 _ _ Hin Hin' eq_refl) as E.
        injection E as E _. congruence.
      * intros a [->|Hin]%elem_of_cons Heq; cbn in *; [congruence|].
        destruct (so_stream0 a Hin Heq) as [? Hc]. split; [done|]. rewrite Hcanc.
        destruct Hc; eauto.
Qed.

(** Changing one session object in place. *)
Lemma sys_ok_update y session s s' ss rs :
  SysOk y -> heap (mgr y) !! session = Some s -> session_id s' = session_id s ->
  (exit_code (runtime s) <> None -> exit_code (runtime s') <> None) ->
  (forall a, a ∈ ss -> a ∈ streams y) ->
  (forall k, k ∈ rs -> k ∈ removals y \/ (k = session /\ exit_code (runtime s') <> None)) ->
  let y' := mkSys (set_heap (mgr y) (<[session := s']> (heap (mgr y)))) ss rs in
  SessionOk y' session s' ->
  (forall k x, k <> session -> heap (mgr y) !! k = Some x -> SessionOk y k x -> SessionOk y' k x) ->
  SysOk y'.
Proof.
  intros [] Hs Hid Hex Hss Hrs y' Hok Hother. split; cbn; auto.
  - intros id k Hk. apply sys_keys0 in Hk as (x & Hk & <-).
    destruct (decide (k = session)) as [->|Hn].
    + exists s'. split; [apply lookup_insert_eq|]. rewrite Hs in Hk. by injection Hk as <-.
    + exists x. by rewrite lookup_insert_ne.
  - intros k Hle. apply sys_fresh0 in Hle. rewrite lookup_insert_ne; [done|congruence].
  - intros a Ha. apply lookup_insert_is_Some'. auto.
  - intros k Hk. apply Hrs in Hk as [Hk|[-> Hx]].
    + apply sys_removals0 in Hk as (x & Hk & Hx). destruct (decide (k = session)) as [->|Hn].
      * exists s'. split; [apply lookup_insert_eq|]. rewrite Hs in Hk. injection Hk as <-. auto.
      * exists x. by rewrite lookup_insert_ne.
    + exists s'. split; [apply lookup_insert_eq|done].
  - intros k x Hk. apply lookup_insert_Some in Hk as [[<- <-]|[Hn Hk]]; [done|].
    apply Hother; [done|done|]. by apply sys_sessions0.
Qed.

Lemma sys_ok_detach y a b m' :
  SysOk y -> a ∈ streams y ->
  detach_locked (at_session a) (at_generation a) (mgr y) = (Ok b, m') ->
  SysOk (mkSys m' (filter (fun b => at_token b <> at_token a) (streams y))
           (if b then at_session a :: removals y else removals y)).
Proof.
  intros HS Ha Hd. apply detach_locked_inv in Hd as (s & Hs & -> & ->).
  pose proof (sys_sessions _ HS _ _ Hs) as [Hg0 Hrun Hargv Hcur Hstr].
  eapply sys_ok_update; [done|exact Hs|done|done| | | |].
  - intros x Hx. by apply list_elem_of_filter in Hx as [_ Hx].
  - intros k Hk. unfold is_finished in Hk.
    destruct (exit_code (runtime s)) eqn:Ex; [|by left].
    apply elem_of_cons in Hk as [->|Hk]; [right; cbn; by rewrite Ex|by left].
  - split; cbn; try done.
    + intros g t Hc. destruct (current s) as [[g' t']|] eqn:Ec; [|done].
      case_in Hc. injection Hc as -> ->. destruct (Hcur _ _ eq_refl) as (Hin & Hnc & Hle).
      split_and!; [|done|done]. apply list_elem_of_filter. split; [|done]. intros Heq.
      specialize (sys_unique _ HS _ _ Hin Ha Heq) as E.
      apply (f_equal at_generation) in E. cbn in E. lia.
    + intros x Hx Hxs. apply list_elem_of_filter in Hx as [Hne Hx].
      destruct (Hstr x Hx Hxs) as [Hle Hc]. split; [done|].
      destruct Hc as [Hc|Hc]; [|by right]. left. rewrite Hc.
      case_test; [|done]. exfalso. apply Hne. f_equal.
      apply (sys_generations _ HS); [done|done|done|lia].
  - intros k x Hn Hk []. split; cbn; try done.
    + intros g t Hc. apply so_current0 in Hc as (Hin & Hnc & Hle). split_and!; [|done|done].
      apply list_elem_of_filter. split; [|done]. intros Heq.
      specialize (sys_unique _ HS _ _ Hin Ha Heq) as E.
      apply (f_equal at_session) in E. cbn in E. congruence.
    + intros z Hz Hzs. apply list_elem_of_filter in Hz as [_ Hz]. auto.
Qed.

Lemma sys_ok_sessions y f :
  SysOk y -> (forall id k, f !! id = Some k -> mgr_sessions (mgr y) !! id = Some k) ->
  SysOk (mkSys (set_sessions (mgr y) f) (streams y) (removals y)).
Proof.
  intros [] Hf. split; cbn; try done.
  - intros id k Hk. by apply sys_keys0, Hf.
  - intros k x Hk. apply sys_sessions0 in Hk as []. by split.
Qed.

Lemma sys_ok_step y y' :
  SysOk y -> op_step y y' ->
  (forall session s, heap (mgr y') !! session = Some s -> next_generation s < U64 - 1) -> SysOk y'.
Proof.
  intros HS Hstep Hgen. destruct Hstep.
  - by eapply sys_ok_find.
  - by eapply sys_ok_attach.
  - by eapply sys_ok_detach.
  - unfold remove_if_same. case_bool_decide; [|by destruct y].
    apply sys_ok_sessions; [done|]. intros id k Hk. by apply lookup_delete_Some in Hk as [_ ?].
  - apply sys_ok_sessions; [done|]. intros id k Hk. by apply map_lookup_filter_Some in Hk as [? _].
  - destruct H0 as [Hx Hat]. pose proof (sys_sessions _ HS _ _ H) as [].
    eapply sys_ok_update; [done|done|done| |done|by left| |].
    + cbn. destruct (exit_code (runtime s)) as [c|]; [|done]. by rewrite (Hx c).
    + by split.
    + intros k x Hn Hk []. by split.
Qed.

Lemma op_reachable_ok y : op_reachable y -> SysOk y.
Proof. induction 1; [apply sys_ok_init|by eapply sys_ok_step]. Qed.

Lemma omap_ids (h : gmap nat ExecSession) (l : list (string * nat)) :
  (forall id k, (id, k) ∈ l -> exists s, h !! k = Some s /\ session_id s = id) ->
  map session_id (omap (fun k => h !! k) (map snd l)) = map fst l.
Proof.
  induction l as [|[id k] l IH]; intros Hl; [done|]. cbn.
  destruct (Hl id k) as (s & Hs & Hid); [apply list_elem_of_here|]. rewrite Hs. cbn. rewrite Hid.
  f_equal. apply IH. intros id' k' Hin. apply Hl. by apply list_elem_of_further.
Qed.

Lemma in_list_sessions m info :
  info ∈ list_sessions m <->
  exists id k s, mgr_sessions m !! id = Some k /\ heap m !! k = Some s /\ info = snapshot s.
Proof.
  unfold list_sessions. change (map snapshot) with (fmap (M := list) snapshot).
  rewrite list_elem_of_fmap. split.
  - intros (s & -> & Hs). rewrite sort_by_perm in Hs. apply list_elem_of_omap in Hs as (k & Hk & Hs).
    change (map snd) with (fmap (M := list) (@snd string nat)) in Hk.
    apply list_elem_of_fmap in Hk as ([id k'] & -> & Hk).
    apply elem_of_map_to_list in Hk. eauto 10.
  - intros (id & k & s & Hid & Hs & ->). exists s. split; [done|]. rewrite sort_by_perm.
    apply list_elem_of_omap. exists k. split; [|done].
    change (map snd) with (fmap (M := list) (@snd string nat)).
    apply list_elem_of_fmap. exists (id, k). split; [done|]. by apply elem_of_map_to_list.
Qed.

Lemma running_or_spawn_inv sp self r self' :
  running_or_spawn sp self = (r, self') ->
  match r with
  | Ok session =>
      shared_session self' = Some session /\
      (self' = self /\ (exists rt, shells self !! session = Some rt /\ is_finished rt = false) \/
       exists rt, sp = Ok rt /\ (shells self !! session = None) /\
         (forall k rt0, shared_session self = Some k -> shells self !! k = Some rt0 ->
            is_finished rt0 = true) /\
         self' = mkShared (Some session) (<[session := rt]> (shells self)))
  | _ => self' = self
  end.
Proof.
  unfold running_or_spawn, mbind, M_bind, mbind_st, mget, mlift, mput, mret, M_ret, mret_st.
  set (new := fresh (dom (shells self))).
  assert (Hnew : shells self !! new = None) by (apply not_elem_of_dom, is_fresh).
  destruct (shared_session self) as [ex|] eqn:E.
  - destruct (shells self !! ex) as [rt|] eqn:Er; [|by intros [= <- <-]].
    destruct (is_finished rt) eqn:Ef; [|intros [= <- <-]; eauto 10].
    destruct sp as [rt'|e|] eqn:Es; cbn; intros [= <- <-]; try done.
    split; [done|]. right. exists rt'. split_and!; try done. congruence.
  - destruct sp as [rt'|e|] eqn:Es; cbn; intros [= <- <-]; try done.
    split; [done|]. right. exists rt'. split_and!; done.
Qed.

(** ** Properties *)

(** C13: Takeover is exclusive.  Whatever the order in which clients attach, detach
    and reconnect, and sessions run, exit, are removed and reaped, at most one
    attached stream of a session is not cancelled, and it is the one attached
    last: a stream cancelled by a takeover that detaches late does not detach its
    successor. *)
Theorem takeover_is_exclusive y a b :
  op_reachable y -> a ∈ streams y -> b ∈ streams y -> at_session a = at_session b ->
  at_token a ∉ cancelled (mgr y) ->
  at_generation b <= at_generation a /\ (b = a \/ at_token b ∈ cancelled (mgr y)).
Proof.
  intros Hr%op_reachable_ok Ha Hb Hab Hna.
  destruct (sys_streams _ Hr a Ha) as [s Hs].
  pose proof (sys_sessions _ Hr _ _ Hs) as [_ _ _ Hcur Hstr].
  destruct (Hstr a Ha eq_refl) as [_ [Hc|?]]; [|done].
  destruct (Hstr b Hb (eq_sym Hab)) as [Hle Hcb].
  destruct (Hcur _ _ Hc) as (_ & _ & Hg). split; [lia|].
  destruct Hcb as [Hcb|Hcb]; [left|by right].
  rewrite Hc in Hcb. injection Hcb as _ Ht. symmetry. by apply (sys_unique _ Hr).
Qed.

(** A running session is never dropped.  No operation - a detach, its delayed
    removal, a reaper pass, a new request - takes a session whose process has not
    exited out of the manager, so it can be attached again by its identifier. *)
Theorem running_session_is_kept y y' id k s :
  op_reachable y -> op_step y y' -> mgr_sessions (mgr y) !! id = Some k ->
  heap (mgr y') !! k = Some s -> exit_code (runtime s) = None ->
  mgr_sessions (mgr y') !! id = Some k.
Proof.
  intros Hr%op_reachable_ok Hstep Hid Hs Hx. destruct Hstep; cbn in *.
  - match goal with H : find_or_spawn _ _ _ = _ |- _ =>
      apply find_or_spawn_inv in H as [[-> _]|(argv & rt & Hn & _ & _ & _ & _ & ->)] end; [done|].
    cbn. rewrite lookup_insert_ne; [done|]. congruence.
  - match goal with H : attach _ _ _ _ = _ |- _ =>
      apply attach_inv in H as (s0 & _ & _ & _ & _ & _ & ->) end. done.
  - match goal with H : detach_locked _ _ _ = _ |- _ =>
      apply detach_locked_inv in H as (s0 & _ & _ & ->) end. done.
  - unfold remove_if_same in *. case_bool_decide as Heq; [|done]. cbn in *.
    rewrite lookup_delete_ne; [done|]. intros E. rewrite E, Hid in Heq. injection Heq as ->.
    destruct (sys_removals _ Hr session) as (s' & Hs' & Hx'); [done|]. congruence.
  - apply map_lookup_filter_Some. split; [done|]. unfold reap_retain. rewrite Hs.
    destruct (exited_at (runtime s)) eqn:Ea; [|done].
    pose proof (sys_sessions _ Hr _ _ Hs) as [_ Hrun _ _ _]. rewrite Ea, Hx in Hrun.
    by destruct Hrun.
  - done.
Qed.

(** The list a client is shown is sorted by identifier, has exactly one entry
    per session of the manager, and each entry is that session's identifier,
    argv, context and exit code; it is marked attached exactly when the process
    runs and an attached stream of it is not cancelled. *)
Theorem list_is_exact y :
  op_reachable y ->
  let l := list_sessions (mgr y) in
  StronglySorted (fun a b => str_leb (info_session_id a) (info_session_id b) = true) l /\
  map info_session_id l ≡ₚ map fst (map_to_list (mgr_sessions (mgr y))) /\
  forall info, info ∈ l ->
    exists k s, mgr_sessions (mgr y) !! info_session_id info = Some k /\
      heap (mgr y) !! k = Some s /\ info_argv info = argv s /\ info_argv info <> [] /\
      info_context info = exec_context s /\ info_exit_code info = exit_code (runtime s) /\
      (info_attached info = true <->
       exit_code (runtime s) = None /\
       exists a, a ∈ streams y /\ at_session a = k /\ at_token a ∉ cancelled (mgr y)).
Proof.
  intros Hr%op_reachable_ok l. split; [|split].
  - unfold l, list_sessions.
    pose proof (sort_by_sorted (fun a b => str_leb (session_id a) (session_id b))
      ltac:(intros; apply str_leb_total) ltac:(intros ? ? ?; apply str_leb_trans)) as Hsort.
    specialize (Hsort (omap (fun k => heap (mgr y) !! k)
      (map snd (map_to_list (mgr_sessions (mgr y)))))).
    induction Hsort as [|x xs _ IH Hx]; cbn; constructor; [done|].
    apply List.Forall_map. exact Hx.
  - unfold l, list_sessions. rewrite map_map. cbn [info_session_id snapshot].
    rewrite (Permutation_map _ (sort_by_perm _ _)).
    rewrite (omap_ids (heap (mgr y))); [done|].
    intros id k Hin. apply elem_of_map_to_list in Hin. by apply (sys_keys _ Hr).
  - intros info Hin. apply in_list_sessions in Hin as (id & k & s & Hid & Hs & ->).
    destruct (sys_keys _ Hr _ _ Hid) as (s' & Hs' & Heq). rewrite Hs in Hs'. injection Hs' as <-.
    exists k, s. cbn. rewrite Heq. pose proof (sys_sessions _ Hr _ _ Hs) as [_ _ Hargv Hcur Hstr].
    split_and!; try done. destruct (exit_code (runtime s)); cbn.
    { destruct (current s); split; [done|by intros [? _]|done|by intros [? _]]. }
    split.
    + intros Hc. split; [done|]. destruct (current s) as [[g t]|]; [|done].
      destruct (Hcur _ _ eq_refl) as (Hi & Hn & _). by exists (mkAttached k g t).
    + intros [_ (a & Ha & Hak & Hn)]. destruct (Hstr a Ha Hak) as [_ [->|?]]; done.
Qed.

(** The reaper goes by the exit time alone: a session that exited sixty
    seconds ago is removed even while a client is attached to it. *)
Theorem reaper_removes_attached_sessions m id k s t now :
  mgr_sessions m !! id = Some k -> heap m !! k = Some s -> exited_at (runtime s) = Some t ->
  (mgr_sessions (reap_completed_sessions now m) !! id = None <-> COMPLETED_SESSION_TTL <= now - t) /\
  heap (reap_completed_sessions now m) = heap m.
Proof.
  intros Hid Hs Ht. split; [|done]. cbn. rewrite map_lookup_filter_None, Hid. unfold reap_retain.
  split.
  - intros [?|Hf]; [done|]. specialize (Hf k eq_refl). rewrite Hs, Ht in Hf. lia.
  - intros Hle. right. intros k' [= <-]. rewrite Hs, Ht. lia.
Qed.

(** One shell for everyone.  When [attach] of the shared console returns, the
    shell it attached to is the one the manager holds and has not exited; if the
    manager's shell was running throughout, that same shell is returned and
    nothing is spawned. *)
Theorem shared_shell_is_alive turns rendered_bytes self att self' :
  shared_attach turns rendered_bytes self = (Some (Ok att), self') ->
  shared_session self' = Some (shell att) /\
  (exists rt, shells self' !! shell att = Some rt /\ exit_code rt = None) /\
  forall k rt, shared_session self = Some k -> shells self !! k = Some rt -> exit_code rt = None ->
    (forall t h rt', t ∈ turns -> meanwhile t h !! k = Some rt' -> exit_code rt' = None) ->
    shell att = k.
Proof.
  revert self. induction turns as [|t turns IH]; intros self; cbn [shared_attach]; [done|].
  destruct (running_or_spawn (spawned t) self) as [[session|e|] self1] eqn:Er; [|done|done].
  apply running_or_spawn_inv in Er as [Hss Hcase].
  destruct (shells self1 !! session) as [rt|] eqn:Es; [|done].
  destruct (subscribe_from (output rt) (output rt) rendered_bytes) as [sub|e|]; [|done|done].
  cbn [shells]. destruct (meanwhile t (shells self1) !! session) as [rt'|] eqn:Em; [|done].
  assert (Hsame : forall k rt, shared_session self = Some k -> shells self !! k = Some rt ->
    exit_code rt = None -> session = k).
  { intros k rt0 Hk Hrt Hx. destruct Hcase as [(-> & _)|(rt1 & _ & _ & Hf & ->)]; [congruence|].
    specialize (Hf k rt0 Hk Hrt). unfold is_finished in Hf. by rewrite Hx in Hf. }
  unfold is_finished at 1. destruct (exit_code rt') eqn:Ex.
  - intros Hrec. apply IH in Hrec as (H1 & H2 & H3). split; [done|]. split; [done|].
    intros k rt0 Hk Hrt Hx Hall. pose proof (Hsame _ _ Hk Hrt Hx) as <-.
    specialize (Hall t (shells self1) rt' ltac:(apply list_elem_of_here) Em). congruence.
  - intros [= <- <-]. split; [done|]. split; [eauto|]. cbn. intros k rt0 Hk Hrt Hx _. eauto.
Qed.
End managers.

(** ** Witnesses *)

Definition demo_runtime (code : option Z) : Runtime :=
  mkRuntime (BufferedConsoleOutput_new 16) code ((fun _ => 0) <$> code) false.

Definition demo_request : ExecSessionRequest := mkExecRequest "s" (Some ["sh"]) None 0.

(** The side condition of [op_more] on a concrete state. *)
Ltac heap_bound :=
  match goal with |- forall _ _, heap (mgr ?y) !! _ = _ -> _ =>
    change (map_Forall (fun _ s => next_generation s < U64 - 1) (heap (mgr y))) end;
  apply (bool_decide_unpack _); vm_compute; exact I.

(** A session two clients attached to, one after the other. *)
Lemma demo_attached :
  exists y, op_reachable y /\ streams y = [mkAttached 0 2 1; mkAttached 0 1 0] /\
    cancelled (mgr y) = {[0%nat]} /\ mgr_sessions (mgr y) !! "s" = Some 0%nat /\
    heap (mgr y) !! 0%nat =
      Some (mkExecSession "s" ["sh"] None (demo_runtime None) 2 (Some (2, 1%nat))).
Proof.
  eexists. split.
  { eapply op_more; [eapply op_more; [eapply op_more; [apply op_init| |]| |]| |].
    - eapply (op_find _ (fun _ => Ok (demo_runtime None)) demo_request);
        [by intros ? ? [= <-]|vm_compute; reflexivity].
    - heap_bound.
    - eapply (op_attach _ None 0 0). vm_compute. reflexivity.
    - heap_bound.
    - eapply (op_attach _ None 0 0). vm_compute. reflexivity.
    - heap_bound. }
  vm_compute. done.
Qed.

Lemma takeover_is_exclusive_witness :
  exists y, streams y = [mkAttached 0 2 1; mkAttached 0 1 0] /\
    1 <= 2 /\ (mkAttached 0 1 0 = mkAttached 0 2 1 \/ 0%nat ∈ cancelled (mgr y)).
Proof.
  destruct demo_attached as (y & Hr & Hst & Hc & _). exists y. split; [done|].
  apply (takeover_is_exclusive y (mkAttached 0 2 1) (mkAttached 0 1 0));
    [done|rewrite Hst; left|rewrite Hst; right; left|done|rewrite Hc; by apply not_elem_of_singleton].
Defined.

Lemma running_session_is_kept_witness :
  exists y, mgr_sessions (mgr y) !! "s" = Some 0%nat.
Proof.
  destruct demo_attached as (y & Hr & Hst & Hc & Hid & Hs).
  exists (mkSys (reap_completed_sessions 1000 (mgr y)) (streams y) (removals y)).
  eapply (running_session_is_kept y); [done|apply op_reap|done|exact Hs|reflexivity].
Defined.

Lemma list_is_exact_witness :
  exists y, op_reachable y /\ map info_session_id (list_sessions (mgr y)) ≡ₚ
    map fst (map_to_list (mgr_sessions (mgr y))) /\ mgr_sessions (mgr y) !! "s" = Some 0%nat.
Proof.
  destruct demo_attached as (y & Hr & Hst & Hc & Hid & Hs). exists y. split; [done|].
  split; [apply (list_is_exact y Hr)|done].
Defined.

Lemma reaper_removes_attached_sessions_witness :
  let s := mkExecSession "s" ["sh"] None (demo_runtime (Some 0)) 1 (Some (1, 0%nat)) in
  let m := mkManagers {["s" := 0%nat]} {[0%nat := s]} ∅ 1 1 in
  mgr_sessions (reap_completed_sessions 60 m) !! "s" = None.
Proof.
  intros s m. apply (reaper_removes_attached_sessions m "s" 0 s 0 60); [reflexivity..|done].
Defined.

Lemma shared_shell_is_alive_witness :
  let t := mkTurn (Ok (demo_runtime None)) (fun h => h) in
  exists att self', shared_attach [t] 0 SharedConsoleManager_new = (Some (Ok att), self') /\
    shared_session self' = Some (shell att).
Proof.
  eexists _, _. split; [vm_compute; reflexivity|].
  eapply (shared_shell_is_alive [mkTurn (Ok (demo_runtime None)) (fun h => h)] 0 SharedConsoleManager_new).
  vm_compute. reflexivity.
Defined.
