(* ===== verification/ConsoleHandlers.v ===== *)
(** * The console streams of the server ([crates/init/src/forward.rs])

    What the server runs for each console stream: [handle_console_stream] reads
    the startup frame, attaches to the exec session or to the shared shell, and
    runs the two directions under one [select!] until either ends.  A handler is
    a program counter, [handler_step] runs it from one access of shared state to
    the next, and a [Server] is any number of them over the managers.  The exec
    part refines the transition system of [ExecSessions]: a handler that waits,
    reads or writes is a step that changes nothing there. *)

From S2P Require Import Prelude Protocol ConsoleBuffer ConsoleStream ExecSessions.

(** Where the inputs of a client go. *)
Inductive Channel := ExecChannel (session : nat) | ShellChannel (session : nat).

(** The branch of the outer [select!] that runs. *)
Inductive Side :=
| SessionToClient (branch : Branch) (sender_alive : bool)
| ClientTakeover
| ClientFrame.

Section handlers.
Context `{BC : BytesCrate} `{WA : WatchApi} {R : Type} `{AsyncRead R} {W : Type} `{QS : QuicSend W}.

Inductive Handler :=
| Starting (recv : R) (send : W)
| ExecFinding (request : ExecSessionRequest) (recv : R) (send : W)
| ExecAttaching (session : nat) (rendered_bytes : Z) (recv : R) (send : W)
| ExecStreaming (att : ExecSessionAttachment) (st : Stream) (recv : R) (send : W)
| Detaching (att : ExecSessionAttachment) (result : Res unit)
| Removing (session : nat) (result : Res unit)
| ShellFinding (rendered_bytes : Z) (recv : R) (send : W)
| ShellSubscribing (session : nat) (rendered_bytes : Z) (recv : R) (send : W)
| ShellChecking (att : SharedConsoleAttachment) (rendered_bytes : Z) (recv : R) (send : W)
| ShellForgetting (session : nat) (rendered_bytes : Z) (recv : R) (send : W)
| ShellStreaming (att : SharedConsoleAttachment) (st : Stream) (recv : R) (send : W)
| Finished (result : Res unit).

(** What the handlers share.  [inputs]: what was sent on the consoles' channels. *)
Record Objects := mkObjects {
  managers : Managers;
  shared : SharedConsoleManager;
  inputs : list (Channel * ConsoleInput);
}.

Definition with_managers (o : Objects) (m : Managers) : Objects := mkObjects m (shared o) (inputs o).
Definition with_shared (o : Objects) (s : SharedConsoleManager) : Objects :=
  mkObjects (managers o) s (inputs o).
Definition with_inputs (o : Objects) (c : Channel) (sent : list ConsoleInput) : Objects :=
  mkObjects (managers o) (shared o) (inputs o ++ map (pair c) sent).

(** What is decided outside: the results of spawning, the branch of the [select!]
    and the output at the moment the watch channel was subscribed to. *)
Record Env := mkEnv {
  env_spawn : list string -> Res Runtime;
  env_shell : Res Runtime;
  env_side : Side;
  env_subscribed : option BufferedConsoleOutput;
}.

(** [?]: the handler goes on or returns the error. *)
Definition go_on {A} (r : Res A) (k : A -> Handler) : Handler :=
  match r with Ok a => k a | Err e => Finished (Err e) | Panic => Finished Panic end.

(** The [match] of [handle_console_stream]. *)
Definition handle_console_stream (startup : ConsoleFrame) (recv : R) (send : W) : Handler :=
  if cs_ty startup =? CONSOLE_SHELL then
    go_on (SharedConsoleRequest_from_bytes (cs_payload startup)) (fun request =>
      ShellFinding (scr_rendered_bytes request) recv send)
  else if cs_ty startup =? CONSOLE_EXEC then
    go_on (ExecSessionRequest_from_bytes (cs_payload startup)) (fun request =>
      ExecFinding request recv send)
  else Finished (anyhow ("unexpected initial console frame type: " +:+ pretty (cs_ty startup))).

(** One turn of the [select!] of the two directions: the console [rt], the
    takeover token as whether it is cancelled, the context of [finish]. *)
Definition select_turn (side : Side) (rt : Runtime) (takeover : option bool) (finish_context : string)
    (st : Stream) (recv : R) (send : W) : option (Stream * R * W * list ConsoleInput * option (Res unit)) :=
  match side with
  | SessionToClient branch sender_alive =>
      match stream_step branch rt takeover sender_alive finish_context st send with
      | Some (st, send) =>
          Some (st, recv, send, [], match pc st with Returned r => Some r | _ => None end)
      | None => None
      end
  | ClientTakeover =>
      if default false takeover then
        let '(sent, r) := relay_client_input true [TakeoverCancelled] in Some (st, recv, send, sent, r)
      else None
  | ClientFrame =>
      let '(frame, recv) := ConsoleFrame_read_from recv in
      let '(sent, r) := relay_client_input (match takeover with Some _ => true | None => false end) [FrameRead frame] in
      Some (st, recv, send, sent, r)
  end.

(** [handle_exec_session_stream] and [handle_shared_console_stream], from one
    access of shared state to the next; [None]: the handler waits or is over. *)
Definition handler_step (e : Env) (h : Handler) (o : Objects) : option (Handler * Objects) :=
  match h with
  | Starting recv send =>
      let '(startup, recv) := ConsoleFrame_read_from recv in
      Some (go_on startup (fun frame => handle_console_stream frame recv send), o)
  | ExecFinding request recv send =>
      let '(r, m) := find_or_spawn (env_spawn e) request (managers o) in
      Some (go_on r (fun session => ExecAttaching session (req_rendered_bytes request) recv send),
            with_managers o m)
  | ExecAttaching session rendered_bytes recv send =>
      let '(r, m) := attach (env_subscribed e) session rendered_bytes (managers o) in
      Some (go_on r (fun att => ExecStreaming att (stream_start (output_subscription att)) recv send),
            with_managers o m)
  | ExecStreaming att st recv send =>
      match heap (managers o) !! att_session att with
      | None => Some (Finished Panic, o)
      | Some s =>
          let takeover := bool_decide (att_takeover att ∈ cancelled (managers o)) in
          match select_turn (env_side e) (runtime s) (Some takeover) "finish exec session stream"
                  st recv send with
          | Some (st, recv, send, sent, r) =>
              let o := with_inputs o (ExecChannel (att_session att)) sent in
              Some (match r with
                    | Some result => Detaching att result
                    | None => ExecStreaming att st recv send
                    end, o)
          | None => None
          end
      end
  | Detaching att result =>
      let '(r, m) := detach_locked (att_session att) (generation att) (managers o) in
      Some (go_on r (fun should_remove : bool =>
              if should_remove then Removing (att_session att) result else Finished result),
            with_managers o m)
  | Removing session result =>
      match heap (managers o) !! session with
      | Some s =>
          Some (Finished result,
                with_managers o (remove_if_same (session_id s) session (managers o)))
      | None => Some (Finished Panic, o)
      end
  | ShellFinding rendered_bytes recv send =>
      let '(r, s) := running_or_spawn (env_shell e) (shared o) in
      Some (go_on r (fun session => ShellSubscribing session rendered_bytes recv send), with_shared o s)
  | ShellSubscribing session rendered_bytes recv send =>
      Some (match shells (shared o) !! session with
            | Some rt =>
                go_on (subscribe_from (default (output rt) (env_subscribed e)) (output rt) rendered_bytes)
                  (fun sub => ShellChecking (mkSharedAttachment session sub) rendered_bytes recv send)
            | None => Finished Panic
            end, o)
  | ShellChecking att rendered_bytes recv send =>
      Some (match shells (shared o) !! shell att with
            | Some rt =>
                if is_finished rt then ShellForgetting (shell att) rendered_bytes recv send
                else ShellStreaming att (stream_start (shell_subscription att)) recv send
            | None => Finished Panic
            end, o)
  | ShellForgetting session rendered_bytes recv send =>
      Some (ShellFinding rendered_bytes recv send, with_shared o (forget_session session (shared o)))
  | ShellStreaming att st recv send =>
      match shells (shared o) !! shell att with
      | None => Some (Finished Panic, o)
      | Some rt =>
          match select_turn (env_side e) rt None "finish shared console stream" st recv send with
          | Some (st, recv, send, sent, r) =>
              let o := with_inputs o (ShellChannel (shell att)) sent in
              Some (match r with
                    | Some result => Finished result
                    | None => ShellStreaming att st recv send
                    end, o)
          | None => None
          end
      end
  | Finished _ => None
  end.

(** [handle_exec_list_stream]. *)
Definition handle_exec_list_stream (m : Managers) : M W unit :=
  let list := mkExecList (list_sessions m) in
  _ ← ExecSessionList_write_to list;
  mcontext "finish exec-list stream" finish.

(** ** The server: any number of handlers, the consoles' tasks and the reaper *)

Record Server := mkServer { objects : Objects; handlers : gmap nat Handler }.

(** The output of a console is the end of all it wrote. *)
Definition output_ok (o : BufferedConsoleOutput) : Prop :=
  exists log, 0 <= limit_bytes o /\ Repr (limit_bytes o) log (out_state o).

(** A console that was just spawned. *)
Definition fresh_console (r : Res Runtime) : Prop :=
  forall rt, r = Ok rt -> exit_code rt = None /\ exited_at rt = None /\ output_ok (output rt).

(** What the tasks of a console may do to it. *)
Definition console_runs (rt rt' : Runtime) : Prop := runs_to rt rt' /\ output_ok (output rt').

Inductive server_step : Server -> Server -> Prop :=
| ss_accept v i recv send :
    handlers v !! i = None ->
    server_step v (mkServer (objects v) (<[i := Starting recv send]> (handlers v)))
| ss_handler v i e h h' o' :
    handlers v !! i = Some h ->
    (forall argv, fresh_console (env_spawn e argv)) -> fresh_console (env_shell e) ->
    handler_step e h (objects v) = Some (h', o') ->
    server_step v (mkServer o' (<[i := h']> (handlers v)))
| ss_reap v now :
    server_step v (mkServer (with_managers (objects v)
      (reap_completed_sessions now (managers (objects v)))) (handlers v))
| ss_exec v k s rt' :
    heap (managers (objects v)) !! k = Some s -> console_runs (runtime s) rt' ->
    server_step v (mkServer (with_managers (objects v) (set_heap (managers (objects v))
      (<[k := with_runtime s rt']> (heap (managers (objects v)))))) (handlers v))
| ss_shell v k rt rt' :
    shells (shared (objects v)) !! k = Some rt -> console_runs rt rt' ->
    server_step v (mkServer (with_shared (objects v)
      (mkShared (shared_session (shared (objects v))) (<[k := rt']> (shells (shared (objects v))))))
      (handlers v)).

Definition bounded (v : Server) : Prop :=
  forall k s, heap (managers (objects v)) !! k = Some s -> next_generation s < U64 - 1.

Inductive server_reachable : Server -> Prop :=
| sr_init : server_reachable (mkServer (mkObjects new_arced SharedConsoleManager_new []) ∅)
| sr_more v v' : server_reachable v -> server_step v v' -> bounded v' -> server_reachable v'.

(** The attachment a handler is responsible for. *)
Definition holds (h : Handler) : option Attached :=
  match h with
  | ExecStreaming att _ _ _ | Detaching att _ =>
      Some (mkAttached (att_session att) (generation att) (att_takeover att))
  | _ => None
  end.

Definition held (hs : gmap nat Handler) (i : nat) : option Attached := hs !! i ≫= holds.

(** ** The simulation *)

Definition HandlerOk (y : Sys) (h : Handler) : Prop :=
  match h with
  | ExecAttaching session _ _ _ => is_Some (heap (mgr y) !! session)
  | Removing session _ => session ∈ removals y
  | _ => True
  end.

(** [y] is the state of the exec sessions in the server [v]. *)
Record Sim (v : Server) (y : Sys) : Prop := {
  sim_mgr : mgr y = managers (objects v);
  sim_streams : forall a, a ∈ streams y <-> exists i, held (handlers v) i = Some a;
  sim_owner : forall i j a b, held (handlers v) i = Some a -> held (handlers v) j = Some b ->
    at_token a = at_token b -> i = j;
  sim_handlers : forall i h, handlers v !! i = Some h -> HandlerOk y h;
  sim_output : forall k s, heap (mgr y) !! k = Some s -> output_ok (output (runtime s));
}.

Lemma held_insert hs i h j :
  held (<[i := h]> hs) j = if decide (j = i) then holds h else held hs j.
Proof.
  unfold held. case_decide as E; [subst; by rewrite lookup_insert_eq|].
  by rewrite lookup_insert_ne.
Qed.

Definition grows (y y' : Sys) : Prop :=
  (forall k, is_Some (heap (mgr y) !! k) -> is_Some (heap (mgr y') !! k)) /\
  (forall k, k ∈ removals y -> k ∈ removals y').

Lemma HandlerOk_grows y y' h : grows y y' -> HandlerOk y h -> HandlerOk y' h.
Proof. intros [Hh Hr]. destruct h; cbn; auto. Qed.

(** One handler moves and the exec sessions move with it. *)
Lemma sim_update o hs y i h' o' y' :
  Sim (mkServer o hs) y -> grows y y' -> mgr y' = managers o' ->
  (forall k s, heap (mgr y') !! k = Some s -> output_ok (output (runtime s))) ->
  HandlerOk y' h' ->
  (forall a, a ∈ streams y' <-> holds h' = Some a \/ exists j, j <> i /\ held hs j = Some a) ->
  (forall a j b, holds h' = Some a -> j <> i -> held hs j = Some b -> at_token a <> at_token b) ->
  Sim (mkServer o' (<[i := h']> hs)) y'.
Proof.
  intros [_ _ Hown Hok _] Hg Hm Hout Hh' Hst Htok. split; cbn in *; try done.
  - intros a. rewrite Hst. split.
    + intros [Ha|(j & Hj & Ha)]; [exists i|exists j]; rewrite held_insert; by case_decide.
    + intros [j Ha]. rewrite held_insert in Ha. case_decide; [by left|right; eauto].
  - intros j k a b. rewrite !held_insert. repeat case_decide; subst; [done|..]; intros Ha Hb E.
    + destruct (Htok a k b); done.
    + destruct (Htok b j a); done.
    + by eapply Hown.
  - intros j h. rewrite lookup_insert_Some. intros [[_ <-]|[_ Hj]]; [done|].
    eapply HandlerOk_grows; [done|]. by eapply Hok.
Qed.

Lemma grows_refl y : grows y y.
Proof. by split. Qed.

(** One handler moves, the exec sessions keep their attachments. *)
Lemma sim_keep o hs y i h' o' y' :
  Sim (mkServer o hs) y -> grows y y' -> mgr y' = managers o' ->
  (forall k s, heap (mgr y') !! k = Some s -> output_ok (output (runtime s))) ->
  HandlerOk y' h' -> streams y' = streams y -> holds h' = held hs i ->
  Sim (mkServer o' (<[i := h']> hs)) y'.
Proof.
  intros HS Hg Hm Hout Hok Hss Hh. pose proof HS as [Hmgr Hst Hown _ _]. cbn in *.
  eapply sim_update; [exact HS|done..| |].
  - intros a. rewrite Hss, Hst, Hh. split; [|intros [?|(j & _ & ?)]; eauto].
    intros [j Hj]. destruct (decide (j = i)) as [->|]; eauto.
  - intros a j b Ha Hj Hb E. rewrite Hh in Ha. by apply Hj, eq_sym, (Hown i j a b).
Qed.

(** One handler moves alone. *)
Lemma sim_local o hs y i h' o' :
  Sim (mkServer o hs) y -> managers o' = managers o -> holds h' = held hs i -> HandlerOk y h' ->
  Sim (mkServer o' (<[i := h']> hs)) y.
Proof.
  intros HS Hm Hh Hok. pose proof HS as [Hmgr _ _ _ Hout]. cbn in *.
  eapply sim_keep; [exact HS|apply grows_refl|congruence|done..].
Qed.

(** The exec sessions move alone. *)
Lemma sim_objects o hs y o' y' :
  Sim (mkServer o hs) y -> grows y y' -> streams y' = streams y -> mgr y' = managers o' ->
  (forall k s, heap (mgr y') !! k = Some s -> output_ok (output (runtime s))) ->
  Sim (mkServer o' hs) y'.
Proof.
  intros [Hmgr Hst Hown Hok _] Hg Hs Hm Hout. split; cbn in *; try done.
  - by rewrite Hs.
  - intros i h Hi. eapply HandlerOk_grows; [done|]. by eapply Hok.
Qed.

Lemma subscribe_ok (sd o : BufferedConsoleOutput) n :
  output_ok o -> exists sub, subscribe_from sd o n = Ok sub.
Proof.
  intros (log & Hl & HR). unfold subscribe_from, clamp_u64.
  rewrite (Repr_retained _ _ _ Hl HR). destruct HR as (_ & -> & _). pose proof (len_nonneg log).
  replace (_ <=? _) with true by lia. cbn. eauto.
Qed.

Lemma attach_runs subscribed k n m s :
  heap m !! k = Some s -> output_ok (output (runtime s)) ->
  exists att m', attach subscribed k n m = (Ok att, m').
Proof.
  intros Hs Ho. destruct (subscribe_ok (default (output (runtime s)) subscribed) _ n Ho) as [sub E].
  unfold attach, mbind, M_bind, mbind_st, mget, mlift, mput, mret, M_ret, mret_st.
  rewrite Hs. cbn. rewrite E. eauto.
Qed.

Lemma detach_runs k g m : is_Some (heap m !! k) -> exists b m', detach_locked k g m = (Ok b, m').
Proof.
  intros [s Hs]. unfold detach_locked, mbind, M_bind, mbind_st, mget, mlift, mput, mret, M_ret, mret_st.
  rewrite Hs. eauto.
Qed.

Lemma sim_find o hs y i request recv send spawn r m' :
  Sim (mkServer o hs) y -> SysOk y -> hs !! i = Some (ExecFinding request recv send) ->
  (forall argv, fresh_console (spawn argv)) ->
  find_or_spawn spawn request (managers o) = (r, m') ->
  Sim (mkServer (with_managers o m')
    (<[i := go_on r (fun k => ExecAttaching k (req_rendered_bytes request) recv send)]> hs))
    (mkSys m' (streams y) (removals y)).
Proof.
  intros HS HY Hi Hfresh Hf. pose proof HS as [Hm _ _ _ Hout]. cbn in Hm. rewrite <- Hm in Hf.
  apply find_or_spawn_inv in Hf as [[-> Hr]|(argv & rt & Hn & _ & Ha & Hs & -> & ->)].
  - eapply sim_keep; [exact HS| |done..| |done|unfold held; rewrite Hi; by destruct r].
    + by split.
    + destruct r as [k| |]; cbn; try done. specialize (Hr k eq_refl).
      apply (sys_keys _ HY) in Hr as (s & Hs & _). eauto.
  - eapply sim_keep; [exact HS| |done| |eexists; apply lookup_insert_eq|done|unfold held; by rewrite Hi].
    + split; [|done]. intros k Hk. apply lookup_insert_is_Some'. by right.
    + cbn. intros k s Hk. apply lookup_insert_Some in Hk as [[_ <-]|[_ Hk]]; [|by eapply Hout].
      by apply Hfresh in Hs as (_ & _ & ?).
Qed.

Lemma sim_attach o hs y i k n recv send subscribed att m' :
  Sim (mkServer o hs) y -> SysOk y -> hs !! i = Some (ExecAttaching k n recv send) ->
  attach subscribed k n (managers o) = (Ok att, m') ->
  Sim (mkServer (with_managers o m')
    (<[i := ExecStreaming att (stream_start (output_subscription att)) recv send]> hs))
    (mkSys m' (mkAttached k (generation att) (att_takeover att) :: streams y) (removals y)).
Proof.
  intros HS HY Hi Ha. pose proof HS as [Hm Hst _ _ Hout]. cbn in Hm, Hst. rewrite <- Hm in Ha.
  apply attach_inv in Ha as (s & Hs & Hk & _ & Ht & _ & ->).
  assert (Hno : forall j a, held hs j = Some a -> j <> i).
  { intros j a Hj ->. unfold held in Hj. by rewrite Hi in Hj. }
  eapply sim_update; [exact HS| |done| |done|..].
  - split; [|done]. intros k' Hk'. apply lookup_insert_is_Some'. by right.
  - cbn. intros k' s' Hk'. apply lookup_insert_Some in Hk' as [[_ <-]|[_ Hk']]; cbn; by eapply Hout.
  - intros a. cbn [streams holds]. rewrite elem_of_cons, Hst, Hk. split.
    + intros [->|[j Hj]]; [by left|]. right. exists j. split; [|done]. by eapply Hno.
    + intros [[= <-]|(j & _ & Hj)]; [by left|right; eauto].
  - intros a j b [= <-] _ Hb E. cbn in E.
    assert (Hin : b ∈ streams y) by (apply Hst; eauto). apply (sys_tokens _ HY) in Hin. lia.
Qed.

Lemma sim_detach o hs y i att result b m' :
  Sim (mkServer o hs) y -> hs !! i = Some (Detaching att result) ->
  detach_locked (att_session att) (generation att) (managers o) = (Ok b, m') ->
  Sim (mkServer (with_managers o m')
    (<[i := if b then Removing (att_session att) result else Finished result]> hs))
    (mkSys m' (filter (fun x => at_token x <> att_takeover att) (streams y))
       (if b then att_session att :: removals y else removals y)).
Proof.
  intros HS Hi Hd. pose proof HS as [Hm Hst Hown _ Hout]. cbn in Hm, Hst, Hown. rewrite <- Hm in Hd.
  apply detach_locked_inv in Hd as (s & Hs & -> & ->).
  assert (Hself : held hs i = Some (mkAttached (att_session att) (generation att) (att_takeover att)))
    by (unfold held; by rewrite Hi).
  eapply sim_update; [exact HS| |done|..].
  - split; cbn.
    + intros k Hk. apply lookup_insert_is_Some'. by right.
    + intros k Hk. case_test; [by apply list_elem_of_further|done].
  - cbn. intros k x Hk. apply lookup_insert_Some in Hk as [[_ <-]|[_ Hk]]; cbn; by eapply Hout.
  - case_test; cbn; [apply list_elem_of_here|done].
  - intros a. cbn [streams]. rewrite list_elem_of_filter, Hst. split.
    + intros [Hne [j Hj]]. right. exists j. split; [|done]. intros ->. rewrite Hself in Hj.
      by injection Hj as <-.
    + intros [Ha|(j & Hne & Hj)]; [by destruct (is_finished _)|]. split; [|eauto].
      intros E. apply Hne, (Hown j i a _ Hj Hself E).
  - intros a j x Ha. by destruct (is_finished _).
Qed.

(** The steps the exec sessions do not see. *)
Definition unseen (h : Handler) : bool :=
  match h with
  | ExecFinding _ _ _ | ExecAttaching _ _ _ _ | Detaching _ _ | Removing _ _ => false
  | _ => true
  end.

Lemma dispatch_unseen (y : Sys) (r : Res ConsoleFrame) recv send :
  let h := go_on r (fun frame => handle_console_stream frame recv send) in
  holds h = None /\ HandlerOk y h.
Proof.
  destruct r as [f| |]; cbn; unfold handle_console_stream, go_on; repeat case_match; done.
Qed.

Lemma unseen_step y e h o h' o' :
  unseen h = true -> (forall a, holds h = Some a -> is_Some (heap (managers o) !! at_session a)) ->
  handler_step e h o = Some (h', o') ->
  managers o' = managers o /\ holds h' = holds h /\ HandlerOk y h'.
Proof.
  intros Hu Hh. destruct h; cbn in *; try done.
  - destruct (ConsoleFrame_read_from recv) as [startup recv']. intros [= <- <-].
    split; [done|]. apply dispatch_unseen.
  - destruct (Hh _ eq_refl) as [s Hs]. cbn in Hs. rewrite Hs.
    destruct (select_turn _ _ _ _ _ _ _) as [[[[[st' recv'] send'] sent] r]|]; [|done].
    intros [= <- <-]. by destruct r.
  - destruct (running_or_spawn (env_shell e) (shared o)) as [r sh]. intros [= <- <-]. by destruct r.
  - intros [= <- <-]. unfold go_on. repeat case_match; done.
  - intros [= <- <-]. repeat case_match; done.
  - by intros [= <- <-].
  - destruct (shells (shared o) !! shell att) as [rt|]; [|by intros [= <- <-]].
    destruct (select_turn _ _ _ _ _ _ _) as [[[[[st' recv'] send'] sent] r]|]; [|done].
    intros [= <- <-]. by destruct r.
Qed.

Lemma sim_handler_step o hs y i e h h' o' :
  Sim (mkServer o hs) y -> op_reachable y -> hs !! i = Some h ->
  (forall argv, fresh_console (env_spawn e argv)) ->
  handler_step e h o = Some (h', o') ->
  bounded (mkServer o' (<[i := h']> hs)) ->
  exists y', op_reachable y' /\ Sim (mkServer o' (<[i := h']> hs)) y'.
Proof.
  intros HS Hy Hi Hfresh Hstep Hb.
  pose proof (op_reachable_ok _ Hy) as HY. pose proof HS as [Hm Hst _ Hok Hout]. cbn in Hm, Hst, Hok.
  assert (Hh : held hs i = holds h) by (unfold held; by rewrite Hi).
  assert (Hin : forall a, holds h = Some a -> a ∈ streams y)
    by (intros a Ha; apply Hst; exists i; congruence).
  assert (Hlive : forall a, holds h = Some a -> is_Some (heap (managers o) !! at_session a))
    by (intros a Ha; rewrite <- Hm; by apply (sys_streams _ HY), Hin).
  destruct (unseen h) eqn:Hu.
  { destruct (unseen_step y e h o h' o') as (? & ? & ?); [done..|].
    exists y. split; [done|]. eapply sim_local; [exact HS|done|congruence|done]. }
  destruct h; cbn in Hu, Hstep; try discriminate Hu.
  - destruct (find_or_spawn (env_spawn e) request (managers o)) as [r m'] eqn:Ef.
    injection Hstep as <- <-. eexists. split; [|by eapply sim_find].
    eapply op_more; [exact Hy| |exact Hb]. eapply op_find; [|by rewrite Hm].
    intros argv rt Hs. by apply Hfresh in Hs as (? & ? & _).
  - destruct (attach (env_subscribed e) session rendered_bytes (managers o)) as [r m'] eqn:Ea.
    injection Hstep as <- <-. destruct (Hok i _ Hi) as [s Hs].
    destruct (attach_runs (env_subscribed e) session rendered_bytes (mgr y) s Hs) as (att & m1 & E);
      [by eapply Hout|]. rewrite Hm, Ea in E. injection E as -> ->.
    eexists. split; [|by eapply sim_attach].
    eapply op_more; [exact Hy| |exact Hb]. eapply op_attach. by rewrite Hm.
  - destruct (detach_runs (att_session att) (generation att) (managers o)) as (b & m1 & E);
      [by apply (Hlive _ eq_refl)|]. rewrite E in Hstep. injection Hstep as <- <-.
    eexists. split; [|by eapply sim_detach].
    eapply op_more; [exact Hy| |exact Hb]. eapply (op_detach y _ _ _ (Hin _ eq_refl)). by rewrite Hm.
  - destruct (sys_removals _ HY session) as (s & Hs & _); [exact (Hok i _ Hi)|].
    rewrite <- Hm, Hs in Hstep. injection Hstep as <- <-.
    exists (mkSys (remove_if_same (session_id s) session (mgr y)) (streams y) (removals y)). split.
    + eapply op_more; [exact Hy| |exact Hb]. apply op_remove; [exact (Hok i _ Hi)|done].
    + assert (E : heap (remove_if_same (session_id s) session (mgr y)) = heap (mgr y))
        by (unfold remove_if_same; by case_bool_decide).
      eapply sim_keep; [exact HS|split; cbn; rewrite ?E; done|done|cbn; by rewrite E|done..].
Qed.

Lemma sim_server_step v v' y :
  Sim v y -> op_reachable y -> server_step v v' -> bounded v' ->
  exists y', op_reachable y' /\ Sim v' y'.
Proof.
  intros HS Hy Hstep Hb. pose proof HS as [Hm Hst _ _ Hout].
  destruct Hstep as [v i recv send Hi|v i e h h' o' Hi Hf _ Hh|v now|v k s rt' Hs [Hr Ho]|v k rt rt' Hk _];
    destruct v as [o hs]; cbn in *.
  - exists y. split; [done|]. eapply sim_local; [exact HS|done|unfold held; by rewrite Hi|done].
  - by eapply sim_handler_step.
  - exists (mkSys (reap_completed_sessions now (mgr y)) (streams y) (removals y)). split.
    + eapply op_more; [exact Hy|apply op_reap|]. cbn. rewrite Hm. exact Hb.
    + eapply sim_objects; [exact HS|by split|done|cbn; congruence|done].
  - rewrite <- Hm in *.
    exists (mkSys (set_heap (mgr y) (<[k := with_runtime s rt']> (heap (mgr y)))) (streams y) (removals y)).
    split.
    + eapply op_more; [exact Hy|by apply op_run|exact Hb].
    + eapply sim_objects; [exact HS| |done|done|].
      * split; [|done]. intros k' Hk'. apply lookup_insert_is_Some'. by right.
      * cbn. intros k' s' Hk'. apply lookup_insert_Some in Hk' as [[_ <-]|[_ Hk']]; [done|by eapply Hout].
  - exists y. split; [done|]. eapply sim_objects; [exact HS|apply grows_refl|done..].
Qed.

Lemma server_sim v : server_reachable v -> exists y, op_reachable y /\ Sim v y.
Proof.
  induction 1 as [|v v' _ (y & Hy & HS) Hstep Hb]; [|by eapply sim_server_step].
  exists (mkSys new_arced [] []). split; [apply op_init|].
  split; cbn; try done. intros a. split; [by intros ?%elem_of_nil|by intros []].
Qed.

(** A token that is not cancelled is the session's current one. *)
Lemma uncancelled_is_current y a s :
  SysOk y -> a ∈ streams y -> heap (mgr y) !! at_session a = Some s ->
  at_token a ∉ cancelled (mgr y) -> current s = Some (at_generation a, at_token a).
Proof.
  intros HY Ha Hs Hn. pose proof (sys_sessions _ HY _ _ Hs) as [_ _ _ _ Hstr].
  by destruct (Hstr a Ha eq_refl) as [_ [?|?]].
Qed.

Lemma older_is_cancelled y a b :
  SysOk y -> a ∈ streams y -> b ∈ streams y -> at_session a = at_session b ->
  at_generation a < at_generation b -> at_token a ∈ cancelled (mgr y).
Proof.
  intros HY Ha Hb E Hlt. destruct (sys_streams _ HY a Ha) as [s Hs].
  pose proof (sys_sessions _ HY _ _ Hs) as [_ _ _ Hcur Hstr].
  destruct (Hstr a Ha eq_refl) as [_ [Hc|?]]; [|done]. exfalso.
  apply Hcur in Hc as (_ & _ & Hg). destruct (Hstr b Hb (eq_sym E)) as [Hle _]. lia.
Qed.

(** What is left of an attachment once its handler is over. *)
Record Released (v v' : Server) (att : ExecSessionAttachment) (s : ExecSession) : Prop := {
  rel_session : heap (managers (objects v')) !! att_session att = Some s;
  rel_current : forall g t, current s = Some (g, t) -> g <> generation att;
  rel_removed : exit_code (runtime s) <> None ->
    mgr_sessions (managers (objects v')) !! session_id s <> Some (att_session att);
  rel_running : exit_code (runtime s) = None ->
    mgr_sessions (managers (objects v')) = mgr_sessions (managers (objects v));
  rel_heap : forall k, k <> att_session att ->
    heap (managers (objects v')) !! k = heap (managers (objects v)) !! k;
  rel_cancelled : cancelled (managers (objects v')) = cancelled (managers (objects v));
  rel_inputs : inputs (objects v') = inputs (objects v);
}.

(** A step of one handler that needs nothing from outside. *)
Definition idle (side : Side) : Env := mkEnv (fun _ => anyhow "") (anyhow "") side None.

Lemma idle_step o hs i side h h' o' :
  hs !! i = Some h -> handler_step (idle side) h o = Some (h', o') ->
  server_step (mkServer o hs) (mkServer o' (<[i := h']> hs)).
Proof. intros Hi Hs. by apply (ss_handler (mkServer o hs) i (idle side) h h' o'). Qed.

Lemma detach_finishes v i att r s :
  handlers v !! i = Some (Detaching att r) -> heap (managers (objects v)) !! att_session att = Some s ->
  exists v' s', rtc server_step v v' /\ handlers v' = <[i := Finished r]> (handlers v) /\
    Released v v' att s' /\ runtime s' = runtime s.
Proof.
  destruct v as [o hs]. cbn. intros Hi Hs.
  destruct (detach_runs (att_session att) (generation att) (managers o)) as (b & m1 & Hd); [eauto|].
  pose proof Hd as Hd'. apply detach_locked_inv in Hd' as (s0 & Hs0 & Hb & Hm1).
  rewrite Hs in Hs0. injection Hs0 as <-.
  set (s1 := mkExecSession _ _ _ _ _ _) in Hm1.
  assert (Hcur : forall g t, current s1 = Some (g, t) -> g <> generation att).
  { intros g t. unfold s1. cbn. destruct (current s) as [[g' t']|]; [|done].
    case_test; [done|]. intros [= <- <-]. lia. }
  set (h1 := if b then Removing (att_session att) r else Finished r).
  assert (Hstep : server_step (mkServer o hs) (mkServer (with_managers o m1) (<[i := h1]> hs))).
  { eapply (idle_step _ _ _ ClientFrame); [exact Hi|]. cbn. rewrite Hd. by subst h1; destruct b. }
  assert (Hs1 : heap m1 !! att_session att = Some s1)
    by (rewrite Hm1; cbn; apply lookup_insert_eq).
  assert (Hheap : forall k, k <> att_session att -> heap m1 !! k = heap (managers o) !! k)
    by (intros k Hk; rewrite Hm1; cbn; by rewrite lookup_insert_ne).
  unfold is_finished in Hb. destruct (exit_code (runtime s)) as [code|] eqn:Ex; subst b h1.
  - set (m2 := remove_if_same (session_id s1) (att_session att) m1).
    assert (E : heap m2 = heap m1 /\ cancelled m2 = cancelled m1)
      by (unfold m2, remove_if_same; by case_bool_decide).
    destruct E as [Eh Ec].
    exists (mkServer (with_managers o m2) (<[i := Finished r]> hs)), s1. split_and!.
    + eapply rtc_l; [exact Hstep|]. apply rtc_once.
      rewrite <- (insert_insert_eq hs i (Finished r) (Removing (att_session att) r)).
      eapply (idle_step _ _ _ ClientFrame); [apply lookup_insert_eq|].
      cbn. by rewrite Hs1.
    + done.
    + split; cbn; rewrite ?Eh, ?Ec; try done.
      * intros _. unfold m2, remove_if_same. case_bool_decide; cbn; [|done]. by rewrite lookup_delete_eq.
      * by rewrite Ex.
      * by rewrite Hm1.
    + done.
  - exists (mkServer (with_managers o m1) (<[i := Finished r]> hs)), s1. split_and!.
    + by apply rtc_once.
    + done.
    + split; cbn; try done; rewrite ?Hm1; done.
    + done.
Qed.

(** ** Properties of the exec streams *)

(** C34: The handlers implement the session protocol.  Whatever clients connect,
    whatever they send and however the handlers, the consoles and the reaper
    interleave, the server's exec sessions are in a state that [ExecSessions]
    reaches: its attached streams are exactly the attachments of the handlers that
    have not detached, and a handler that removes a session was told to. *)
Theorem handlers_refine_the_sessions v :
  server_reachable v ->
  exists y, op_reachable y /\ mgr y = managers (objects v) /\
    (forall a, a ∈ streams y <-> exists i, held (handlers v) i = Some a) /\
    (forall i k r, handlers v !! i = Some (Removing k r) -> k ∈ removals y).
Proof.
  intros Hv. destruct (server_sim v Hv) as (y & Hy & [Hm Hst _ Hok _]).
  exists y. split_and!; [done..|]. intros i k r Hi. by apply Hok in Hi.
Qed.

(** A session is attached exactly when a stream serves it: its attachment is
    always that of one handler, the only one attached to it whose token is not
    cancelled.  A stream that ended leaves nothing behind. *)
Theorem attached_sessions_have_a_stream v k s g t :
  server_reachable v -> heap (managers (objects v)) !! k = Some s ->
  (current s = Some (g, t) <->
   exists i, held (handlers v) i = Some (mkAttached k g t) /\
     (t ∉ cancelled (managers (objects v))) /\
     forall j b, held (handlers v) j = Some b -> at_session b = k ->
       (at_token b ∉ cancelled (managers (objects v))) -> j = i).
Proof.
  intros Hv Hs. destruct (server_sim v Hv) as (y & Hy & [Hm Hst Hown _ _]).
  apply op_reachable_ok in Hy. rewrite <- Hm in *. split.
  - intros Hc. pose proof (sys_sessions _ Hy _ _ Hs) as [_ _ _ Hcur _].
    apply Hcur in Hc as Hc'. destruct Hc' as (Hin & Hn & _). apply Hst in Hin as [i Hi].
    exists i. split_and!; [done..|]. intros j b Hj Hbk Hbn.
    assert (Hb : b ∈ streams y) by (apply Hst; eauto). rewrite <- Hbk in Hs.
    pose proof (uncancelled_is_current y b s Hy Hb Hs Hbn) as E. rewrite Hc in E.
    injection E as _ Et. eapply Hown; [exact Hj|exact Hi|]. cbn. congruence.
  - intros (i & Hi & Hn & _). assert (Ha : mkAttached k g t ∈ streams y) by (apply Hst; eauto).
    exact (uncancelled_is_current y _ s Hy Ha Hs Hn).
Qed.

(** A later attachment takes the session over: the token of every stream that
    attached to it earlier is cancelled, whatever that stream is doing. *)
Theorem newer_stream_takes_over v i j a b :
  server_reachable v -> held (handlers v) i = Some a -> held (handlers v) j = Some b ->
  at_session a = at_session b -> at_generation a < at_generation b ->
  at_token a ∈ cancelled (managers (objects v)).
Proof.
  intros Hv Ha Hb. destruct (server_sim v Hv) as (y & Hy & [Hm Hst _ _ _]).
  apply op_reachable_ok in Hy. rewrite <- Hm.
  apply older_is_cancelled; [done|apply Hst; eauto..].
Qed.

(** A stream whose client is gone, or that was taken over, ends by its own steps. *)
Lemma ended_stream_detaches `{!AsyncReadOk R} v i att st recv send s :
  handlers v !! i = Some (ExecStreaming att st recv send) ->
  heap (managers (objects v)) !! att_session att = Some s ->
  (att_takeover att ∈ cancelled (managers (objects v)) \/ ahead recv []) ->
  exists v' s', rtc server_step v v' /\ handlers v' = <[i := Finished (Ok tt)]> (handlers v) /\
    Released v v' att s' /\ runtime s' = runtime s.
Proof.
  destruct v as [o hs]. cbn. intros Hi Hs Hend.
  assert (Hone : exists o', managers o' = managers o /\ inputs o' = inputs o /\
    server_step (mkServer o hs) (mkServer o' (<[i := Detaching att (Ok tt)]> hs))).
  { destruct Hend as [Hc|Heof].
    - eexists. split_and!; [| |eapply (idle_step _ _ _ ClientTakeover); [exact Hi|]; cbn; rewrite Hs, (bool_decide_true _ Hc);
        reflexivity]; [done|apply app_nil_r].
    - destruct (ConsoleFrame_read_from recv) as [f recv'] eqn:Ef.
      assert (Hf : exists e, f = Err e /\ is_unexpected_eof e = true).
      { unfold ConsoleFrame_read_from, mbind, M_bind, mbind_st, mcontext in Ef.
        pose proof (read_u8_eof recv [] Heof ltac:(cbn; lia)) as E.
        destruct (read_u8 recv) as [r0 w0]. cbn in E. subst r0. injection Ef as <- _. eauto. }
      destruct Hf as (e & -> & He).
      eexists. split_and!; [| |eapply (idle_step _ _ _ ClientFrame); [exact Hi|]; cbn; rewrite Hs, Ef; cbn; rewrite He;
        reflexivity]; [done|apply app_nil_r]. }
  destruct Hone as (o' & Ho & Hin & Hstep).
  destruct (detach_finishes (mkServer o' (<[i := Detaching att (Ok tt)]> hs)) i att (Ok tt) s)
    as (v' & s' & Hr & Hh & Hrel & Hrt); [apply lookup_insert_eq|cbn; congruence|].
  exists v', s'. split_and!; [by eapply rtc_l|by rewrite Hh; cbn; rewrite insert_insert_eq| |done].
  destruct Hrel. split; cbn in *; rewrite <- ?Ho, <- ?Hin; done.
Qed.

Lemma streaming_session v i att st recv send :
  server_reachable v -> handlers v !! i = Some (ExecStreaming att st recv send) ->
  exists s, heap (managers (objects v)) !! att_session att = Some s.
Proof.
  intros Hv Hi. destruct (server_sim v Hv) as (y & Hy & [Hm Hst _ _ _]).
  apply op_reachable_ok in Hy. rewrite <- Hm.
  assert (Hin : mkAttached (att_session att) (generation att) (att_takeover att) ∈ streams y)
    by (apply Hst; exists i; unfold held; by rewrite Hi).
  apply (sys_streams _ Hy) in Hin as [s Hs]. by exists s.
Qed.

(** A stream that was taken over, or whose client is gone, ends by its own
    steps, returns success and detaches: its generation is not the session's
    attachment any more, the session is out of the manager if its process has
    exited and stays if it has not, and no other session is touched. *)
Theorem closed_streams_are_detached `{!AsyncReadOk R} v i att st recv send :
  server_reachable v -> handlers v !! i = Some (ExecStreaming att st recv send) ->
  (att_takeover att ∈ cancelled (managers (objects v)) \/ ahead recv []) ->
  exists v' s, rtc server_step v v' /\ handlers v' = <[i := Finished (Ok tt)]> (handlers v) /\
    Released v v' att s.
Proof.
  intros Hv Hi Hend. destruct (streaming_session _ _ _ _ _ _ Hv Hi) as [s Hs].
  destruct (ended_stream_detaches v i att st recv send s Hi Hs Hend) as (v' & s' & Hr & Hh & Hrel & _). eauto.
Qed.

(** ** The shared shell *)

Definition ShellHandlerOk (sh : SharedConsoleManager) (h : Handler) : Prop :=
  match h with
  | ShellSubscribing k _ _ _ => is_Some (shells sh !! k)
  | ShellChecking att _ _ _ | ShellStreaming att _ _ _ => is_Some (shells sh !! shell att)
  | _ => True
  end.

(** No shell is forgotten, and one that exited stays so. *)
Definition shells_grow (sh sh' : SharedConsoleManager) : Prop :=
  forall k rt, shells sh !! k = Some rt ->
    exists rt', shells sh' !! k = Some rt' /\ (exit_code rt <> None -> exit_code rt' <> None).

Definition ForgetOk (sh : SharedConsoleManager) (h : Handler) : Prop :=
  match h with
  | ShellForgetting k _ _ _ => exists rt, shells sh !! k = Some rt /\ exit_code rt <> None
  | _ => True
  end.

Record ShellsOk (sh : SharedConsoleManager) : Prop := {
  sh_current : forall k, shared_session sh = Some k -> is_Some (shells sh !! k);
  sh_one : forall k rt, shells sh !! k = Some rt -> exit_code rt = None -> shared_session sh = Some k;
}.

Lemma shell_handler_grow sh sh' h :
  shells_grow sh sh' -> ShellHandlerOk sh h /\ ForgetOk sh h -> ShellHandlerOk sh' h /\ ForgetOk sh' h.
Proof.
  intros Hg [Hs Hf]. assert (Hk : forall k, is_Some (shells sh !! k) -> is_Some (shells sh' !! k))
    by (intros k [rt Hrt]; destruct (Hg _ _ Hrt) as (? & ? & _); eauto).
  destruct h; cbn in *; auto. destruct Hf as (rt & Hrt & Hx).
  destruct (Hg _ _ Hrt) as (rt' & Hrt' & Hx'). eauto 10.
Qed.

Lemma shells_grow_refl sh : shells_grow sh sh.
Proof. intros k rt Hk. eauto. Qed.

Lemma running_or_spawn_ok sp sh r sh' :
  running_or_spawn sp sh = (r, sh') -> ShellsOk sh ->
  ShellsOk sh' /\ shells_grow sh sh' /\ forall k, r = Ok k -> is_Some (shells sh' !! k).
Proof.
  intros Hr HS. apply running_or_spawn_inv in Hr. destruct r as [k|e|]; [|subst sh'..].
  2,3: split; [done|]; split; [apply shells_grow_refl|done].
  destruct Hr as [Hss [[-> (rt & Hrt & _)]|(rt & _ & Hn & Hdone & ->)]].
  - split; [done|]. split; [apply shells_grow_refl|]. intros k' [= <-]. eauto.
  - split; [|split; [|intros k' [= <-]; cbn; rewrite lookup_insert_eq; eauto]].
    + split; cbn.
      * intros k' [= <-]. rewrite lookup_insert_eq. eauto.
      * intros k' rt' Hk Hx. apply lookup_insert_Some in Hk as [[<- _]|[_ Hk]]; [done|].
        pose proof (sh_one _ HS _ _ Hk Hx) as Hcur. specialize (Hdone _ _ Hcur Hk).
        unfold is_finished in Hdone. by rewrite Hx in Hdone.
    + intros k' rt' Hk. exists rt'. split; [|done]. cbn. rewrite lookup_insert_ne; [done|congruence].
Qed.

Lemma dispatch_shell (sh : SharedConsoleManager) (r : Res ConsoleFrame) recv send :
  let h := go_on r (fun frame => handle_console_stream frame recv send) in
  ShellHandlerOk sh h /\ ForgetOk sh h.
Proof.
  destruct r as [f| |]; cbn; unfold handle_console_stream, go_on; repeat case_match; done.
Qed.

Lemma shells_handler_step e h o h' o' :
  handler_step e h o = Some (h', o') -> ShellsOk (shared o) ->
  ShellHandlerOk (shared o) h /\ ForgetOk (shared o) h ->
  ShellsOk (shared o') /\ shells_grow (shared o) (shared o') /\
  ShellHandlerOk (shared o') h' /\ ForgetOk (shared o') h'.
Proof.
  intros Hstep HS [Hh Hf]. pose proof (shells_grow_refl (shared o)) as Hrefl.
  destruct h; cbn in *.
  - destruct (ConsoleFrame_read_from recv) as [startup recv']. injection Hstep as <- <-.
    split_and!; [done..|apply dispatch_shell|apply dispatch_shell].
  - destruct (find_or_spawn _ _ _) as [r m]. injection Hstep as <- <-. by destruct r.
  - destruct (attach _ _ _ _) as [r m]. injection Hstep as <- <-. by destruct r.
  - destruct (heap (managers o) !! att_session att); [|by injection Hstep as <- <-].
    destruct (select_turn _ _ _ _ _ _ _) as [[[[[st' recv'] send'] sent] r]|]; [|done].
    injection Hstep as <- <-. by destruct r.
  - destruct (detach_locked _ _ _) as [r m]. injection Hstep as <- <-. destruct r as [[]| |]; done.
  - destruct (heap (managers o) !! session); by injection Hstep as <- <-.
  - destruct (running_or_spawn (env_shell e) (shared o)) as [r sh] eqn:Er. injection Hstep as <- <-.
    destruct (running_or_spawn_ok _ _ _ _ Er HS) as (? & ? & Hk).
    destruct r; cbn; split_and!; auto.
  - injection Hstep as <- <-. destruct Hh as [rt Hrt]. rewrite Hrt.
    destruct (subscribe_from _ _ _); cbn; split_and!; done.
  - injection Hstep as <- <-. destruct (shells (shared o) !! shell att) as [rt|] eqn:Ert; [|done].
    unfold is_finished. destruct (exit_code rt) eqn:Ex; cbn; rewrite ?Ert; split_and!; try done.
    exists rt. by rewrite Ex.
  - injection Hstep as <- <-. cbn. unfold forget_session. case_bool_decide as Hc; cbn; [|done].
    split_and!; [|done..]. split; cbn; [done|]. intros k rt Hk Hx. exfalso.
    pose proof (sh_one _ HS _ _ Hk Hx) as Hcur. destruct Hf as (rt' & Hrt' & Hx').
    congruence.
  - destruct Hh as [rt Hrt]. rewrite Hrt in Hstep.
    destruct (select_turn _ _ _ _ _ _ _) as [[[[[st' recv'] send'] sent] r]|]; [|done].
    injection Hstep as <- <-. destruct r; cbn; split_and!; done.
  - done.
Qed.

Lemma server_shells v :
  server_reachable v -> ShellsOk (shared (objects v)) /\
  forall i h, handlers v !! i = Some h ->
    ShellHandlerOk (shared (objects v)) h /\ ForgetOk (shared (objects v)) h.
Proof.
  induction 1 as [|v v' _ [HS Hh] Hstep _]; [split; [split|]; by cbn; intros|].
  destruct Hstep as [v i recv send Hi|v i e h h' o' Hi _ _ Hs|v now|v k s rt' _ _|v k rt rt' Hk [[Hx _] _]];
    cbn in *; try done.
  - split; [done|]. intros j h [[_ <-]|[_ Hj]]%lookup_insert_Some; [done|by eapply Hh].
  - destruct (shells_handler_step _ _ _ _ _ Hs HS (Hh _ _ Hi)) as (? & Hg & ?). split; [done|].
    intros j x [[_ <-]|[_ Hj]]%lookup_insert_Some; [done|].
    eapply shell_handler_grow; [done|]. by eapply Hh.
  - assert (Hg : shells_grow (shared (objects v))
      (mkShared (shared_session (shared (objects v))) (<[k := rt']> (shells (shared (objects v)))))).
    { intros k' x Hk'. cbn. destruct (decide (k' = k)) as [->|Hn].
      - rewrite lookup_insert_eq. exists rt'. split; [done|]. assert (x = rt) as -> by congruence.
        destruct (exit_code rt) as [c|] eqn:Ex; [|done]. by rewrite (Hx c).
      - rewrite lookup_insert_ne by done. eauto. }
    split; [|intros j h Hj; eapply shell_handler_grow; [exact Hg|by eapply Hh]].
    destruct HS as [Hc H1]. split; cbn.
    + intros j Hj. destruct (Hc j Hj) as [x Hx']. destruct (Hg _ _ Hx') as (? & ? & _). eauto.
    + intros j x Hj Hxn. apply lookup_insert_Some in Hj as [[<- <-]|[_ Hj]]; [|by eapply H1].
      eapply H1; [exact Hk|]. destruct (exit_code rt) as [c|] eqn:Ex; [|done].
      by rewrite (Hx c) in Hxn.
Qed.

(** C35: Everyone shares one shell.  Whatever the interleaving of the clients'
    handlers - two of them finding the old shell dead at once, one forgetting it
    after another has already replaced it - at most one shell runs, it is the one
    the manager holds, and a stream is always of a shell that exists. *)
Theorem at_most_one_shell_runs v :
  server_reachable v ->
  (forall k k' rt rt', shells (shared (objects v)) !! k = Some rt ->
     shells (shared (objects v)) !! k' = Some rt' -> exit_code rt = None -> exit_code rt' = None ->
     k = k' /\ shared_session (shared (objects v)) = Some k) /\
  (forall i att st recv send, handlers v !! i = Some (ShellStreaming att st recv send) ->
     exists rt, shells (shared (objects v)) !! shell att = Some rt /\
       (exit_code rt = None -> shared_session (shared (objects v)) = Some (shell att))).
Proof.
  intros Hv. destruct (server_shells v Hv) as [[Hc H1] Hh]. split.
  - intros k k' rt rt' Hk Hk' Hx Hx'. pose proof (H1 _ _ Hk Hx). pose proof (H1 _ _ Hk' Hx').
    split; congruence.
  - intros i att st recv send Hi. apply Hh in Hi as [[rt Hrt] _]. exists rt. split; [done|].
    intros Hx. by eapply H1.
Qed.

(** ** Requests and lists *)

(** What [find_or_spawn] does with a request, on each branch. *)
Definition request_outcome (e : Env) (o : Objects) (request : ExecSessionRequest) (recv : R) (send : W) :
    Handler * Objects :=
  let m := managers o in
  let attaching k := ExecAttaching k (req_rendered_bytes request) recv send in
  match mgr_sessions m !! req_session_id request, req_argv request with
  | Some k, _ => (attaching k, o)
  | None, None => (Finished (anyhow ("exec session " +:+ req_session_id request +:+ " not found")), o)
  | None, Some [] => (Finished (anyhow "exec request must include at least one argv element"), o)
  | None, Some argv =>
      match env_spawn e argv with
      | Ok rt =>
          let s := mkExecSession (req_session_id request) argv (req_context request) rt 0 None in
          (attaching (next_arc m),
           with_managers o (mkManagers (<[req_session_id request := next_arc m]> (mgr_sessions m))
             (<[next_arc m := s]> (heap m)) (cancelled m) (S (next_arc m)) (next_token m)))
      | Err x => (Finished (Err x), o)
      | Panic => (Finished Panic, o)
      end
  end.

Lemma with_managers_same o : with_managers o (managers o) = o.
Proof. by destruct o. Qed.

(** A request reaches its session.  From the startup frame a client writes,
    the handler recovers the request and looks its session up: a session that
    exists is attached to, whatever argv the request carries, and nothing is
    spawned; one that does not is spawned from the request's argv, recorded under
    its identifier and attached to; without argv, or when the spawn fails, the
    stream ends with that error and the sessions are untouched. *)
Theorem exec_request_reaches_its_session `{!AsyncReadOk R} e request o recv send rest :
  ExecSessionRequest_ok request -> field_ok (ExecSessionRequest_to_bytes request) ->
  ahead recv (frame_bytes CONSOLE_EXEC (ExecSessionRequest_to_bytes request) ++ rest) ->
  exists recv', ahead recv' rest /\
    handler_step e (Starting recv send) o = Some (ExecFinding request recv' send, o) /\
    handler_step e (ExecFinding request recv' send) o = Some (request_outcome e o request recv' send).
Proof.
  intros Hok Hf Ha. apply read_console_frame in Ha as (recv' & E & Ha); [|done|done].
  exists recv'. split; [done|]. split.
  - cbn. rewrite E. cbn. unfold handle_console_stream. cbn [cs_ty cs_payload].
    rewrite exec_request_codec by done. done.
  - cbn. unfold request_outcome, find_or_spawn, mbind, M_bind, mbind_st, mget, mlift, mput, mret,
      M_ret, mret_st.
    destruct (mgr_sessions (managers o) !! req_session_id request) as [k|]; cbn;
      [by rewrite with_managers_same|].
    destruct (req_argv request) as [[|a argv]|]; cbn; [by rewrite with_managers_same| |by rewrite with_managers_same].
    destruct (env_spawn e (a :: argv)) as [rt|x|]; cbn; rewrite ?with_managers_same; done.
Qed.

(** The list a client reads is the server's.  What [handle_exec_list_stream]
    writes decodes, at the client, to the sessions of the server at that moment,
    sorted by identifier, each with its argv, context and exit code, and marked
    attached exactly when its process runs and some stream serves it. *)
Theorem clients_read_the_servers_sessions `{!AsyncReadOk R} `{!AsyncWriteOk W}
    v (w w' : W) (r : R) rest :
  (forall w w', finish w = (Ok tt, w') -> written w' = written w) ->
  server_reachable v ->
  let m := managers (objects v) in
  ExecSessionList_ok (mkExecList (list_sessions m)) ->
  field_ok (ExecSessionList_to_bytes (mkExecList (list_sessions m))) ->
  handle_exec_list_stream m w = (Ok tt, w') ->
  ahead r (drop (length (written w)) (written w') ++ rest) ->
  exists l r', ExecSessionList_read_from r = (Ok (mkExecList l), r') /\ ahead r' rest /\
    Sorted.StronglySorted (fun a b => str_leb (info_session_id a) (info_session_id b) = true) l /\
    map info_session_id l ≡ₚ map fst (map_to_list (mgr_sessions m)) /\
    forall info, info ∈ l ->
      exists k s, mgr_sessions m !! info_session_id info = Some k /\ heap m !! k = Some s /\
        info_argv info = argv s /\ info_context info = exec_context s /\
        info_exit_code info = exit_code (runtime s) /\
        (info_attached info = true <->
         exit_code (runtime s) = None /\
         exists i a, held (handlers v) i = Some a /\ at_session a = k /\ at_token a ∉ cancelled m).
Proof.
  intros Hfin Hv m Hok Hf Hw Hr. unfold handle_exec_list_stream in Hw.
  apply M_bind_inv in Hw as ([] & w1 & Hw & Hw1%mcontext_Ok). rewrite (Hfin _ _ Hw1) in Hr.
  destruct (ExecSessionList_stream_roundtrip _ _ _ _ _ Hok Hf Hw Hr) as (r' & E & Hr').
  destruct (server_sim v Hv) as (y & Hy & [Hm Hst _ _ _]). fold m in Hm.
  destruct (list_is_exact y Hy) as (Hsort & Hperm & Hin). rewrite Hm in *.
  exists (list_sessions m), r'. split_and!; [done..|]. intros info Hinfo.
  destruct (Hin info Hinfo) as (k & s & Hk & Hs & Hargv & _ & Hctx & Hcode & Hatt).
  exists k, s. split_and!; [done..|]. rewrite Hatt. split.
  - intros [Hx (a & Ha & Hak & Hn)]. split; [done|]. apply Hst in Ha as [i Hi]. eauto.
  - intros [Hx (i & a & Hi & Hak & Hn)]. split; [done|]. exists a. split_and!; [|done..].
    apply Hst. eauto.
Qed.

End handlers.

(** ** Witnesses *)

#[local] Existing Instance bytes_crate.

#[local] Instance list_QuicSend : QuicSend (list byte) := {| finish := fun w => (Ok tt, w) |}.

Definition DemoServer : Type := Server (R := list byte) (W := list byte).

Definition demo_env (side : Side) : Env :=
  mkEnv (fun _ => Ok (demo_runtime None)) (Ok (demo_runtime None)) side None.

Lemma demo_fresh : fresh_console (Ok (demo_runtime None)).
Proof. intros rt [= <-]. split_and!; [done..|]. exists []. split; [done|]. by apply Repr_default. Qed.

(** A client of handler [i] connects with the bytes [recv], or its handler moves. *)
Inductive Move := Connect (i : nat) (recv : list byte) | Go (i : nat) (side : Side).

Definition make (m : Move) (v : DemoServer) : option DemoServer :=
  match m with
  | Connect i recv =>
      match handlers v !! i with
      | None => Some (mkServer (objects v) (<[i := Starting recv []]> (handlers v)))
      | Some _ => None
      end
  | Go i side =>
      h ← handlers v !! i;
      '(h', o') ← handler_step (demo_env side) h (objects v);
      Some (mkServer o' (<[i := h']> (handlers v)))
  end.

Definition bounded_b (v : DemoServer) : bool :=
  bool_decide (map_Forall (fun _ s => next_generation s < U64 - 1) (heap (managers (objects v)))).

Fixpoint run (ms : list Move) (v : DemoServer) : option DemoServer :=
  match ms with
  | [] => Some v
  | m :: ms => v ← make m v; if bounded_b v then run ms v else None
  end.

Lemma run_reachable ms v v' : server_reachable v -> run ms v = Some v' -> server_reachable v'.
Proof.
  revert v. induction ms as [|m ms IH]; intros v Hv; cbn; [by intros [= <-]|].
  destruct (make m v) as [v1|] eqn:Em; cbn; [|done].
  destruct (bounded_b v1) eqn:Eb; [|done]. apply IH.
  apply (sr_more v); [done| |by apply bool_decide_eq_true in Eb].
  destruct m as [i recv|i side]; cbn in Em.
  - destruct (handlers v !! i) eqn:Ei; [done|]. injection Em as <-. by apply ss_accept.
  - destruct (handlers v !! i) as [h|] eqn:Ei; cbn in Em; [|done].
    destruct (handler_step (demo_env side) h (objects v)) as [[h' o']|] eqn:Eh; cbn in Em; [|done].
    injection Em as <-.
    eapply (ss_handler v i (demo_env side));
      [exact Ei|intros argv; apply demo_fresh|apply demo_fresh|exact Eh].
Qed.

Definition empty_server : DemoServer := mkServer (mkObjects new_arced SharedConsoleManager_new []) ∅.

Definition exec_startup : list byte := frame_bytes CONSOLE_EXEC (ExecSessionRequest_to_bytes demo_request).
Definition shell_startup : list byte :=
  frame_bytes CONSOLE_SHELL (SharedConsoleRequest_to_bytes (mkSharedConsoleRequest 0)).

(** Two clients attach to one session, a third to the shell. *)
Definition demo_moves : list Move :=
  let go i := Go i ClientFrame in
  [Connect 0 exec_startup; go 0; go 0; go 0; Connect 1 exec_startup; go 1; go 1; go 1;
   Connect 2 shell_startup; go 2; go 2; go 2; go 2]%nat.

Definition demo_server : DemoServer := default empty_server (run demo_moves empty_server).

Lemma demo_server_reachable : server_reachable demo_server.
Proof. eapply (run_reachable demo_moves empty_server); [apply sr_init|vm_compute; reflexivity]. Qed.

Lemma handlers_refine_the_sessions_witness :
  exists y, op_reachable y /\ mgr y = managers (objects demo_server) /\
    mkAttached 0 2 1 ∈ streams y.
Proof.
  destruct (handlers_refine_the_sessions demo_server demo_server_reachable) as (y & Hy & Hm & Hs & _).
  exists y. split; [done|]. split; [done|]. apply Hs. exists 1%nat. vm_compute. reflexivity.
Defined.

Lemma attached_sessions_have_a_stream_witness :
  exists s, heap (managers (objects demo_server)) !! 0%nat = Some s /\ current s = Some (2, 1%nat) /\
    exists i, held (handlers demo_server) i = Some (mkAttached 0 2 1).
Proof.
  assert (Hs : exists s, heap (managers (objects demo_server)) !! 0%nat = Some s /\
    current s = Some (2, 1%nat)) by (eexists; split; [vm_compute; reflexivity|reflexivity]).
  destruct Hs as (s & Hs & Hc). exists s. split; [done|]. split; [done|].
  destruct (attached_sessions_have_a_stream demo_server 0 s 2 1 demo_server_reachable Hs) as [H _].
  destruct (H Hc) as (i & Hi & _). eauto.
Defined.

Lemma newer_stream_takes_over_witness : 0%nat ∈ cancelled (managers (objects demo_server)).
Proof.
  apply (newer_stream_takes_over demo_server 0 1 (mkAttached 0 1 0) (mkAttached 0 2 1)
    demo_server_reachable); [vm_compute; reflexivity|vm_compute; reflexivity|done|done].
Defined.

Lemma closed_streams_are_detached_witness :
  exists att st recv send v',
    handlers demo_server !! 0%nat = Some (ExecStreaming att st recv send) /\
    handlers v' = <[0%nat := Finished (Ok tt)]> (handlers demo_server).
Proof.
  eexists _, _, _, _.
  edestruct (closed_streams_are_detached demo_server 0) as (v' & s & _ & Hh & _);
    [exact demo_server_reachable|vm_compute; reflexivity|left; apply (bool_decide_unpack _); vm_compute; exact I|].
  exists v'. split; [vm_compute; reflexivity|exact Hh].
Defined.

Lemma at_most_one_shell_runs_witness :
  exists k, shared_session (shared (objects demo_server)) = Some k.
Proof.
  destruct (at_most_one_shell_runs demo_server demo_server_reachable) as [_ H].
  edestruct (H 2%nat) as (rt & Hrt & Hs); [vm_compute; reflexivity|].
  eexists. apply Hs. vm_compute in Hrt. by injection Hrt as <-.
Defined.

Lemma demo_request_ok : ExecSessionRequest_ok demo_request.
Proof.
  split; [done|]. split; [vm_compute; done|]. split; [|vm_compute; done].
  split; [vm_compute; done|]. split; [|vm_compute; done].
  apply Forall_cons. split; [vm_compute; done|]. by apply Forall_nil.
Qed.

Lemma exec_request_reaches_its_session_witness :
  exists recv', handler_step (demo_env ClientFrame) (Starting exec_startup []) (objects empty_server) =
    Some (ExecFinding demo_request recv' [], objects empty_server).
Proof.
  destruct (exec_request_reaches_its_session (demo_env ClientFrame) demo_request
    (objects empty_server) exec_startup [] []) as (recv' & _ & E & _);
    [apply demo_request_ok|vm_compute; done|vm_compute; reflexivity|]. eauto.
Defined.

Lemma clients_read_the_servers_sessions_witness :
  exists l r', ExecSessionList_read_from
      (snd (handle_exec_list_stream (managers (objects demo_server)) ([] : list byte))) =
    (Ok (mkExecList l), r') /\ map info_session_id l ≡ₚ ["s"].
Proof.
  destruct (clients_read_the_servers_sessions (R := list byte) (W := list byte) demo_server []
    (snd (handle_exec_list_stream (managers (objects demo_server)) ([] : list byte)))
    (snd (handle_exec_list_stream (managers (objects demo_server)) ([] : list byte))) [])
    as (l & r' & E & _ & _ & Hp & _).
  - by intros w w' [= <-].
  - exact demo_server_reachable.
  - split; [vm_compute; done|]. vm_compute list_sessions. repeat (apply Forall_cons; split); [|by apply Forall_nil].
    split; [done|]. split; [vm_compute; done|]. split; [|done].
    split; [vm_compute; done|]. split; [|vm_compute; done].
    apply Forall_cons. split; [vm_compute; done|]. by apply Forall_nil.
  - vm_compute. done.
  - vm_compute. reflexivity.
  - vm_compute. reflexivity.
  - exists l, r'. split; [exact E|]. rewrite Hp. vm_compute. done.
Defined.
