(* ===== verification/PtySpawn.v ===== *)
(** * Spawning a console on a PTY ([crates/init/src/forward.rs])

    [spawn_persistent_console] and the system calls under it.  The kernel is an
    interface: the calls with their results, and laws that say which descriptors
    they open and close.  An [OwnedFd] or [Stdio] is closed where its owner goes
    out of scope, on every path: [scope] and [unless_ok] write that out. *)

From S2P Require Import Prelude Protocol ConsoleBuffer ConsoleStream ExecSessions ConsoleHandlers.

(** The calls of [libc], [Command::spawn] with its three descriptors and
    [AsyncFd::new]; the [M] result is the return value or [last_os_error]. *)
Class Kernel (K : Type) := {
  sys_openpty : M K (Z * Z);
  sys_dup : Z -> M K Z;
  sys_getfl : Z -> M K Z;
  sys_setfl : Z -> Z -> M K unit;
  sys_spawn : Command -> list Z -> M K Z;
  sys_async_fd : Z -> M K unit;
  sys_close : Z -> K -> K;
}.

(** [m] opens no descriptor and closes none.  A descriptor counts when the code holds its
    number: the pidfd by which tokio waits for a child belongs to its [Child] handle,
    which closes it when it is dropped. *)
Definition opens_nothing {K A} (opened : K -> gset Z) (m : M K A) : Prop :=
  forall k, opened (snd (m k)) = opened k.

(** What the manual pages say of descriptors. *)
Class KernelOk (K : Type) `{Kernel K} := {
  opened : K -> gset Z;
  openpty_ok k master slave k' : sys_openpty k = (Ok (master, slave), k') ->
    opened k' = {[master; slave]} ∪ opened k /\ master <> slave /\
    (master ∉ opened k) /\ slave ∉ opened k;
  openpty_failed k k' : is_ok (fst (sys_openpty k)) = false -> snd (sys_openpty k) = k' ->
    opened k' = opened k;
  dup_ok fd k fd' k' : sys_dup fd k = (Ok fd', k') ->
    opened k' = {[fd']} ∪ opened k /\ fd' ∉ opened k;
  dup_failed fd k k' : is_ok (fst (sys_dup fd k)) = false -> snd (sys_dup fd k) = k' ->
    opened k' = opened k;
  getfl_ok fd : opens_nothing opened (sys_getfl fd);
  setfl_ok fd flags : opens_nothing opened (sys_setfl fd flags);
  spawn_ok cmd fds : opens_nothing opened (sys_spawn cmd fds);
  async_fd_ok fd : opens_nothing opened (sys_async_fd fd);
  close_ok fd k : opened (sys_close fd k) = opened k ∖ {[fd]};
}.

Section spawn.
Context `{WA : WatchApi} {K : Type} `{KE : Kernel K}.
Context (path_exists : string -> bool) (debug : list string -> string).

Definition close_all (fds : list Z) (k : K) : K := fold_right sys_close k fds.

(** The descriptors are dropped when [m] is done, whatever its result. *)
Definition scope {A} (fds : list Z) (m : M K A) : M K A := fun k =>
  let '(r, k) := m k in (r, close_all fds k).

(** The descriptors move into the result of [m], or are dropped with its error. *)
Definition unless_ok {A} (fds : list Z) (m : M K A) : M K A := fun k =>
  match m k with
  | (Ok a, k) => (Ok a, k)
  | (r, k) => (r, close_all fds k)
  end.

Definition open_pty : M K (Z * Z) := mcontext "openpty" sys_openpty.

Definition dup_fd (fd : Z) : M K Z := mcontext "dup" (sys_dup fd).

Definition O_NONBLOCK : Z := 2048.

Definition set_nonblocking (fd : Z) : M K unit :=
  flags ← mcontext "fcntl F_GETFL" (sys_getfl fd);
  mcontext "fcntl F_SETFL O_NONBLOCK" (sys_setfl fd (Z.lor flags O_NONBLOCK)).

(** [stdin], [stdout] and [stderr] of the command; it owns the descriptors of the
    calls that were made, also when a later [dup] fails. *)
Fixpoint dup_stdio (n : nat) (slave_raw : Z) (stdio : list Z) (k : K) : Res unit * list Z * K :=
  match n with
  | O => (Ok tt, stdio, k)
  | S n =>
      match dup_fd slave_raw k with
      | (Ok fd, k) => dup_stdio n slave_raw (stdio ++ [fd]) k
      | (Err e, k) => (Err e, stdio, k)
      | (Panic, k) => (Panic, stdio, k)
      end
  end.

Definition configure_console_stdio (slave_raw : Z) (k : K) : Res unit * list Z * K :=
  dup_stdio 3 slave_raw [] k.

(** From the result of [configure_console_stdio] on: [slave_fd] is dropped after
    the spawn, [cmd] and its descriptors at the end of the function. *)
Definition spawn_child (cmd : Command) (context : string) (master_fd slave_fd : Z)
    (configured : Res unit) (stdio : list Z) : M K (Z * Runtime) :=
  scope stdio (
    _ ← scope [slave_fd] (_ ← mlift configured; mcontext context (sys_spawn cmd stdio));
    _ ← set_nonblocking master_fd;
    _ ← mcontext "wrap pty master in AsyncFd" (sys_async_fd master_fd);
    mret (master_fd,
      mkRuntime (BufferedConsoleOutput_new DETACHED_OUTPUT_BUFFER_LIMIT_BYTES) None None false)).

(** The result holds [master_fd]. *)
Definition spawn_persistent_console (launch : ConsoleLaunch) (root_dir : string) (inner_pid : Z)
    (test_mode : bool) : M K (Z * Runtime) :=
  fds ← mcontext "allocate pty pair" open_pty;
  let '(master_fd, slave_fd) := fds in
  unless_ok [master_fd] (fun k =>
    match build_console_command path_exists launch root_dir inner_pid test_mode with
    | Ok cmd =>
        let '(configured, stdio, k) := configure_console_stdio slave_fd k in
        spawn_child cmd (spawn_context debug launch inner_pid test_mode) master_fd slave_fd
          configured stdio k
    | Err e => (Err e, sys_close slave_fd k)
    | Panic => (Panic, sys_close slave_fd k)
    end).

(** ** Reading the PTY *)

(** One turn of the loop of [pty_read]: the read before the wait, the wait, and
    the read in [try_io]; a read is its result and [errno]. *)
Record ReadTurn := mkReadTurn {
  before_wait : Z * Errno;
  waited : Res unit;
  after_wait : Z * Errno;
}.

Definition try_read_fd (read : Z * Errno) : Res (option Z) := classify_pty_read (fst read) (snd read).

(** [None]: the loop still waits. *)
Fixpoint pty_read (turns : list ReadTurn) : option (Res Z) :=
  match turns with
  | [] => None
  | t :: turns =>
      match try_read_fd (before_wait t) with
      | Ok (Some n) => Some (Ok n)
      | Err e => Some (Err e)
      | Panic => Some Panic
      | Ok None =>
          match with_context "wait pty readable" (waited t) with
          | Ok _ =>
              match try_read_fd (after_wait t) with
              | Ok (Some n) => Some (Ok n)
              | Ok None => pty_read turns
              | Err e => Some (with_context "read pty master" (Err e))
              | Panic => Some Panic
              end
          | Err e => Some (Err e)
          | Panic => Some Panic
          end
      end
  end.

(** ** Lemmas *)

Context `{KO : !KernelOk K}.

Lemma close_all_opened fds k : opened (close_all fds k) = opened k ∖ list_to_set fds.
Proof using KO.
  unfold close_all. induction fds as [|fd fds IH]; cbn.
  - by rewrite difference_empty_L.
  - rewrite close_ok, IH. apply set_eq. intros x. rewrite !elem_of_difference, elem_of_union. tauto.
Qed.

Lemma opens_nothing_bind {A B} (m : M K A) (f : A -> M K B) :
  opens_nothing opened m -> (forall a, opens_nothing opened (f a)) -> opens_nothing opened (m ≫= f).
Proof.
  intros Hm Hf k. unfold mbind, M_bind, mbind_st. specialize (Hm k).
  destruct (m k) as [[a|e|] k1]; cbn in *; [|done|done]. by rewrite Hf.
Qed.

Lemma opens_nothing_context {A} msg (m : M K A) :
  opens_nothing opened m -> opens_nothing opened (mcontext msg m).
Proof. intros Hm k. unfold mcontext. specialize (Hm k). by destruct (m k). Qed.

Lemma set_nonblocking_opens fd : opens_nothing opened (set_nonblocking fd).
Proof using KO.
  apply opens_nothing_bind; [|intros flags]; apply opens_nothing_context; [apply getfl_ok|apply setfl_ok].
Qed.

Definition opens_new (stdio stdio' : list Z) (k k' : K) : Prop :=
  exists new, stdio' = stdio ++ new /\ opened k' = list_to_set new ∪ opened k /\
    forall fd, fd ∈ new -> fd ∉ opened k.

Lemma nothing_new stdio k k' : opened k' = opened k -> opens_new stdio stdio k k'.
Proof.
  intros E. exists []. rewrite app_nil_r. split_and!; [done| |by intros fd ?%elem_of_nil].
  cbn. by rewrite E, (left_id_L ∅ (∪)).
Qed.

Lemma dup_stdio_opens n slave stdio k r stdio' k' :
  dup_stdio n slave stdio k = (r, stdio', k') ->
  opens_new stdio stdio' k k'.
Proof using KO.
  revert stdio k. induction n as [|n IH]; intros stdio k; cbn; [intros [= _ <- <-]; by apply nothing_new|].
  destruct (dup_fd slave k) as [x k1] eqn:E. unfold dup_fd, mcontext in E.
  pose proof (dup_ok slave k) as Hok. pose proof (dup_failed slave k) as Hf.
  destruct (sys_dup slave k) as [[fd|e|] k2]; cbn in *; injection E as <- <-.
  - destruct (Hok fd k2 eq_refl) as [Ho Hn]. intros (new & -> & Ho' & Hnew)%IH.
    exists (fd :: new). rewrite <- app_assoc. split_and!; [done| |].
    + rewrite Ho', Ho. cbn. apply set_eq. intros x. rewrite !elem_of_union. tauto.
    + intros x [->|Hx]%elem_of_cons; [done|]. specialize (Hnew x Hx). rewrite Ho in Hnew.
      intros Hin. apply Hnew, elem_of_union. by right.
  - intros [= _ <- <-]. by apply nothing_new, Hf.
  - intros [= _ <- <-]. by apply nothing_new, Hf.
Qed.

Lemma scope_opened {A} fds (m : M K A) k :
  opened (snd (scope fds m k)) = opened (snd (m k)) ∖ list_to_set fds.
Proof using KO. unfold scope. destruct (m k) as [r k1]. cbn. apply close_all_opened. Qed.

Definition spawned_runtime : Runtime :=
  mkRuntime (BufferedConsoleOutput_new DETACHED_OUTPUT_BUFFER_LIMIT_BYTES) None None false.

Lemma spawned_fresh : fresh_console (Ok spawned_runtime).
Proof. intros rt [= <-]. split_and!; [done..|]. exists []. split; [done|]. by apply Repr_default. Qed.

Lemma bind_result {A B} (m : M K A) (f : A -> M K B) (P : B -> Prop) k b :
  (forall a k, (forall b, fst (f a k) = Ok b -> P b)) -> fst ((m ≫= f) k) = Ok b -> P b.
Proof.
  intros Hf. unfold mbind, M_bind, mbind_st. destruct (m k) as [[a|e|] k1]; cbn; [|done|done].
  apply Hf.
Qed.

(** The part of the function that runs with the command's descriptors. *)
Lemma spawn_child_spec cmd context master slave configured stdio k :
  opened (snd (spawn_child cmd context master slave configured stdio k)) =
    opened k ∖ {[slave]} ∖ list_to_set stdio /\
  forall p, fst (spawn_child cmd context master slave configured stdio k) = Ok p ->
    p = (master, spawned_runtime).
Proof using KO.
  unfold spawn_child. split.
  - rewrite scope_opened. f_equal. set (spawn := scope [slave] _).
    assert (Hs : opened (snd (spawn k)) = opened k ∖ {[slave]}).
    { unfold spawn. rewrite scope_opened. cbn [list_to_set]. f_equal; [|by rewrite (right_id_L ∅ (∪))].
      apply opens_nothing_bind; [by intros k0|intros []]. apply opens_nothing_context, spawn_ok. }
    unfold mbind at 1, M_bind at 1, mbind_st at 1.
    destruct (spawn k) as [[child|e|] k1]; cbn in Hs; [|done|done]. rewrite <- Hs.
    apply opens_nothing_bind; [apply set_nonblocking_opens|intros []].
    apply opens_nothing_bind; [apply opens_nothing_context, async_fd_ok|by intros [] k0].
  - intros p. unfold scope at 1.
    match goal with |- context [let '(_, _) := ?x in _] => destruct x as [r k1] eqn:E end. cbn. intros ->.
    apply (f_equal fst) in E. cbn in E. revert E.
    do 3 (apply (bind_result _ _ (fun q => q = (master, spawned_runtime))); intros ? ? ?).
    by intros [= <-].
Qed.

(** C36: Spawning a console leaks no descriptor.  Whichever call fails - the PTY, a
    [dup], the spawn, [fcntl], the registration of the master - every descriptor
    the function opened is closed when it returns; when it succeeds exactly the
    PTY's master stays open, and the console it returns is fresh: empty output,
    no exit code, no exit time.  What the library opens for its handle on the child
    belongs to that handle and is not counted. *)
Theorem spawning_leaks_no_descriptor launch root_dir inner_pid test_mode k r k' :
  spawn_persistent_console launch root_dir inner_pid test_mode k = (r, k') ->
  match r with
  | Ok (master, rt) =>
      opened k' = {[master]} ∪ opened k /\ (master ∉ opened k) /\ fresh_console (Ok rt)
  | _ => opened k' = opened k
  end.
Proof using KO.
  unfold spawn_persistent_console. unfold mbind at 1, M_bind at 1, mbind_st at 1, open_pty, mcontext at 1 2.
  pose proof (openpty_ok k) as Hok. pose proof (openpty_failed k) as Hf.
  destruct (sys_openpty k) as [[[master slave]|e|] k1]; cbn [fst snd with_context] in *;
    [|intros [= <- <-]; by apply Hf..].
  destruct (Hok master slave k1 eq_refl) as (Ho & Hne & Hm & Hs). clear Hok Hf.
  unfold unless_ok.
  destruct (build_console_command path_exists launch root_dir inner_pid test_mode) as [cmd|e|].
  2,3: intros [= <- <-]; cbn; rewrite !close_ok, Ho; apply set_eq; intros x;
    rewrite !elem_of_difference, !elem_of_union, !elem_of_singleton;
    destruct (decide (x = master)), (decide (x = slave)); subst; tauto.
  unfold configure_console_stdio. destruct (dup_stdio 3 slave [] k1) as [[configured stdio] k2] eqn:Ed.
  apply dup_stdio_opens in Ed as (new & -> & Hn & Hnew). cbn [app].
  destruct (spawn_child_spec cmd (spawn_context debug launch inner_pid test_mode) master slave
    configured new k2) as [Hopen Hres].
  destruct (spawn_child _ _ _ _ _ _ k2) as [r' k3]. cbn [fst snd] in *.
  assert (Hk3 : opened k3 = {[master]} ∪ opened k).
  { rewrite Hopen, Hn, Ho. apply set_eq. intros x. specialize (Hnew x). rewrite Ho in Hnew.
    rewrite !elem_of_difference, !elem_of_union, !elem_of_singleton, elem_of_list_to_set in *.
    destruct (decide (x = master)), (decide (x = slave)); subst; try done; tauto. }
  destruct r' as [p|e|]; intros [= <- <-].
  - rewrite (Hres p eq_refl). split_and!; [done..|apply spawned_fresh].
  - cbn. rewrite close_ok, Hk3. apply set_eq. intros x.
    rewrite elem_of_difference, elem_of_union, elem_of_singleton. destruct (decide (x = master)); subst; tauto.
  - cbn. rewrite close_ok, Hk3. apply set_eq. intros x.
    rewrite elem_of_difference, elem_of_union, elem_of_singleton. destruct (decide (x = master)); subst; tauto.
Qed.

End spawn.

(** ** Witness: a kernel that fails at a chosen call *)

(** The open descriptors, and how many calls succeed before one fails. *)
Definition DemoKernel : Type := gset Z * nat.

Definition demo_call {A} (f : gset Z -> A * gset Z) : M DemoKernel A := fun k =>
  match snd k with
  | O => (Err [Io OtherIo], (fst k, 100%nat))
  | S n => let '(a, o) := f (fst k) in (Ok a, (o, n))
  end.

#[local] Instance demo_kernel : Kernel DemoKernel := {|
  sys_openpty := demo_call (fun o =>
    let master := fresh o in
    let slave := fresh ({[master]} ∪ o) in ((master, slave), {[master; slave]} ∪ o));
  sys_dup _ := demo_call (fun o => let fd := fresh o in (fd, {[fd]} ∪ o));
  sys_getfl _ := demo_call (fun o => (2, o));
  sys_setfl _ _ := demo_call (fun o => (tt, o));
  sys_spawn _ _ := demo_call (fun o => (100, o));
  sys_async_fd _ := demo_call (fun o => (tt, o));
  sys_close fd k := (fst k ∖ {[fd]}, snd k);
|}.

#[local] Instance demo_kernel_ok : KernelOk DemoKernel.
Proof.
  refine {| opened := fst |}; unfold opens_nothing; cbn; unfold demo_call.
  - intros [o [|n]] master slave k'; cbn; [done|]. intros [= <- <- <-]. cbn.
    pose proof (is_fresh o) as Hm. pose proof (is_fresh ({[fresh o]} ∪ o)) as Hs.
    rewrite elem_of_union, elem_of_singleton in Hs. split_and!; [done|..]; intuition congruence.
  - intros [o [|n]] k'; cbn; [by intros _ <-|done].
  - intros fd [o [|n]] fd' k'; cbn; [done|]. intros [= <- <-]. split; [done|apply is_fresh].
  - intros fd [o [|n]] k'; cbn; [by intros _ <-|done].
  - by intros fd [o [|n]].
  - by intros fd flags [o [|n]].
  - by intros cmd fds [o [|n]].
  - by intros fd [o [|n]].
  - by intros fd [o n].
Defined.

(** The spawn after the third [dup] fails; without a failure the master stays. *)
Lemma spawning_leaks_no_descriptor_witness :
  let spawn := spawn_persistent_console (K := DemoKernel) (fun _ => false) (fun _ => "[]") Shell "/r" 7 false in
  is_ok (fst (spawn ({[9]}, 4%nat))) = false /\ opened (snd (spawn ({[9]}, 4%nat))) = {[9]} /\
  exists master, opened (snd (spawn ({[9]}, 50%nat))) = {[master]} ∪ {[9]}.
Proof.
  intros spawn. split; [vm_compute; reflexivity|]. split.
  - assert (H := spawning_leaks_no_descriptor (K := DemoKernel) (fun _ => false) (fun _ => "[]") Shell "/r" 7
      false ({[9]}, 4%nat) _ _ (surjective_pairing _)).
    fold spawn in H. assert (E : is_ok (fst (spawn ({[9]}, 4%nat))) = false) by (vm_compute; reflexivity).
    destruct (fst (spawn ({[9]}, 4%nat))); [discriminate E|exact H|exact H].
  - assert (H := spawning_leaks_no_descriptor (K := DemoKernel) (fun _ => false) (fun _ => "[]") Shell "/r" 7
      false ({[9]}, 50%nat) _ _ (surjective_pairing _)).
    fold spawn in H. assert (E : is_ok (fst (spawn ({[9]}, 50%nat))) = true) by (vm_compute; reflexivity).
    destruct (fst (spawn ({[9]}, 50%nat))) as [[master rt]|e|]; [|discriminate E|discriminate E].
    exists master. apply H.
Defined.
