(* ===== verification/Setup.v ===== *)
(** * Provisioning the root filesystem ([crates/init/src/setup.rs])

    [SetupManager]: staging an uploaded root, activating it with the previous one
    kept for a rollback, the provisioned marker that decides between [Cold] and
    [Ready], the persistent directories, and starting and polling the inner init.

    The file system is a map from absolute paths (lists of components) to nodes,
    with the calls of [std::fs] the source makes.  What the operating system may
    answer freely - whether a call fails, what [waitpid] and [clone] return - is
    a script in the state, consumed in order; a stat that fails makes
    [Path::exists] false.  The archive reader is an
    interface.  Only the last component of a path is resolved when it is a
    symbolic link. *)

From S2P Require Import Prelude Protocol.

Abbreviation path := (list string) (only parsing).

Inductive Node :=
| NFile (data : list byte)
| NDir
| NSymlink (target : path).

#[export] Instance Node_eq_dec : EqDecision Node.
Proof. solve_decision. Defined.

Abbreviation Fs := (gmap (list string) Node) (only parsing).

(** ** Paths and the file tree *)

Definition display (p : path) : string := fold_left (fun acc c => acc +:+ "/" +:+ c) p "".

Definition parent (p : path) : path := removelast p.

(** [Path::file_name]. *)
Definition file_name (p : path) : option string := List.hd_error (rev p).

(** What is left of [p] below [base]. *)
Fixpoint strip (base p : path) : option path :=
  match base, p with
  | [], _ => Some p
  | b :: base, c :: p => if bool_decide (b = c) then strip base p else None
  | _ :: _, [] => None
  end.

Definition under (base p : path) : bool :=
  match strip base p with Some _ => true | None => false end.

Definition remove_tree (base : path) (fs : Fs) : Fs :=
  filter (fun '(p, _) => under base p = false) fs.

(** The tree at [from] moved to [to]. *)
Definition move_tree (from to : path) (fs : Fs) : Fs :=
  list_to_map (omap (fun '(p, n) => (fun rest => (to ++ rest, n)) <$> strip from p) (map_to_list fs))
  ∪ remove_tree to (remove_tree from fs).

Definition has_children (base : path) (fs : Fs) : bool :=
  existsb (fun '(p, _) => match strip base p with Some (_ :: _) => true | _ => false end)
    (map_to_list fs).

(** Resolution of a final symbolic link, forty deep as the kernel does. *)
Fixpoint follow (depth : nat) (fs : Fs) (p : path) : option Node :=
  match fs !! p with
  | Some (NSymlink target) =>
      match depth with O => None | S depth => follow depth fs target end
  | other => other
  end.

Definition resolve (fs : Fs) (p : path) : option Node :=
  match p with [] => Some NDir | _ => follow 40 fs p end.

(** ** The state the manager works on *)

(** What [waitpid] returned for the inner init. *)
Inductive WaitAnswer :=
| StillAlive
| WExited (status : Z)
| WSignaled (signal : Z)
| WOther
| WEchild
| WErr.

Record Os := mkOs {
  fs : Fs;
  (** does the next file-system call fail? no more entries: none does *)
  io_faults : list bool;
  (** what [waitpid] answers; no more entries: still alive *)
  waits : list WaitAnswer;
  (** what [clone] answers, with the pid; no more entries: pid 2 *)
  clones : list (Z + Error);
  killed : list Z;
}.

Record PersistentMount := mkMount {
  source : path;
  target_relative : path;
}.

Record SetupManager := mkSetup {
  root_mount_dir : path;
  staging_root_mount_dir : path;
  previous_root_mount_dir : path;
  init_binary : path;
  provisioned_marker_file : path;
  fallback_marker_file : path;
  persistent_mounts : list PersistentMount;
  test_mode : bool;
  inner_init_pid : option Z;
}.

Definition SetupManager_new (data_dir root_mount_dir init_binary : path) (test_mode : bool) :
    SetupManager :=
  let persistent_state_dir := data_dir ++ ["persist"] in
  mkSetup root_mount_dir (data_dir ++ ["rootfs.staging"]) (data_dir ++ ["rootfs.previous"])
    init_binary (data_dir ++ [".provisioned"]) (root_mount_dir ++ [".fly-vault-fallback-init"])
    [mkMount (persistent_state_dir ++ ["root"]) ["root"];
     mkMount (persistent_state_dir ++ ["home"]) ["home"]] test_mode None.

(** The manager and the system below it. *)
Record St := mkSt { mgr : SetupManager; os : Os }.

Definition set_runtime (s : SetupManager) (runtime : option Z) : SetupManager :=
  mkSetup (root_mount_dir s) (staging_root_mount_dir s) (previous_root_mount_dir s) (init_binary s)
    (provisioned_marker_file s) (fallback_marker_file s) (persistent_mounts s) (test_mode s) runtime.

Definition set_fs (f : Fs) (o : Os) : Os := mkOs f (io_faults o) (waits o) (clones o) (killed o).

Definition get_mgr : M St SetupManager := fun s => (Ok (mgr s), s).
Definition get_fs : M St Fs := fun s => (Ok (fs (os s)), s).
Definition put_fs (f : Fs) : M St unit := fun s => (Ok tt, mkSt (mgr s) (set_fs f (os s))).
Definition put_runtime (r : option Z) : M St unit :=
  fun s => (Ok tt, mkSt (set_runtime (mgr s) r) (os s)).

(** ** [std::fs] *)

(** Every call may fail before it does anything. *)
Definition io : M St unit := fun s =>
  let o := os s in
  match io_faults o with
  | true :: faults => (Err [Io OtherIo], mkSt (mgr s) (mkOs (fs o) faults (waits o) (clones o) (killed o)))
  | false :: faults => (Ok tt, mkSt (mgr s) (mkOs (fs o) faults (waits o) (clones o) (killed o)))
  | [] => (Ok tt, s)
  end.

Definition fail {A} (k : IoErrorKind) : M St A := mlift (Err [Io k]).

(** [Path::exists]: false also when the path cannot be examined. *)
Definition path_exists (p : path) : M St bool :=
  r ← mtry io;
  f ← get_fs;
  mret (match (r : Res unit) with
        | Ok _ => match resolve f p with Some _ => true | None => false end
        | _ => false
        end).

Definition symlink_metadata (p : path) : M St Node :=
  _ ← io;
  f ← get_fs;
  match f !! p with Some n => mret n | None => fail NotFound end.

Definition remove_file (p : path) : M St unit :=
  _ ← io;
  f ← get_fs;
  match f !! p with
  | Some NDir => fail OtherIo
  | Some _ => put_fs (delete p f)
  | None => fail NotFound
  end.

Definition remove_dir_all (p : path) : M St unit :=
  _ ← io;
  f ← get_fs;
  match f !! p with
  | Some NDir => put_fs (remove_tree p f)
  | Some (NSymlink _) => put_fs (delete p f)
  | Some _ => fail OtherIo
  | None => fail NotFound
  end.

Definition is_dir (n : option Node) : bool := match n with Some NDir => true | _ => false end.

(** [create_dir_all]: every missing ancestor, from the top. *)
Fixpoint create_dirs (done todo : path) (f : Fs) : Res Fs :=
  match todo with
  | [] => Ok f
  | c :: todo =>
      let p := done ++ [c] in
      match resolve f p with
      | None => match f !! p with
                | Some _ => Err [Io AlreadyExists]
                | None => create_dirs p todo (<[p := NDir]> f)
                end
      | Some NDir => create_dirs p todo f
      | Some _ => Err [Io AlreadyExists]
      end
  end.

Definition create_dir_all (p : path) : M St unit :=
  _ ← io;
  f ← get_fs;
  match create_dirs [] p f with
  | Ok f => put_fs f
  | Err e => mlift (Err e)
  | Panic => mlift Panic
  end.

Definition write (p : path) (data : list byte) : M St unit :=
  _ ← io;
  f ← get_fs;
  if negb (is_dir (resolve f (parent p))) then fail NotFound
  else match f !! p with
       | Some NDir => fail OtherIo
       | Some (NSymlink target) =>
           if negb (is_dir (resolve f (parent target))) then fail NotFound
           else put_fs (<[target := NFile data]> f)
       | _ => put_fs (<[p := NFile data]> f)
       end.

Definition rename (from to : path) : M St unit :=
  _ ← io;
  f ← get_fs;
  match f !! from with
  | None => fail NotFound
  | Some n =>
      if negb (is_dir (resolve f (parent to))) then fail NotFound
      else match f !! to with
           | None => put_fs (move_tree from to f)
           | Some NDir =>
               if is_dir (Some n) && negb (has_children to f) then put_fs (move_tree from to f)
               else fail OtherIo
           | Some _ => if is_dir (Some n) then fail OtherIo else put_fs (move_tree from to f)
           end
  end.

Definition symlink (original link : path) : M St unit :=
  _ ← io;
  f ← get_fs;
  if negb (is_dir (resolve f (parent link))) then fail NotFound
  else match f !! link with
       | Some _ => fail AlreadyExists
       | None => put_fs (<[link := NSymlink original]> f)
       end.

(** [match r { Err(err) if err.kind() == NotFound => .. }]: the root cause. *)
Definition is_not_found (e : Error) : bool :=
  match e with [Io NotFound] => true | _ => false end.

(** ** The helpers at the end of the file *)

Definition ensure_directory (p : path) : M St unit :=
  exists_ ← path_exists p;
  match (exists_ : bool) with
  | true =>
      metadata ← mcontext ("stat " +:+ display p) (symlink_metadata p);
      match metadata with
      | NDir => mret tt
      | _ => mlift (anyhow (display p +:+ " must be a directory"))
      end
  | false => mcontext ("create " +:+ display p) (create_dir_all p)
  end.

Definition remove_path_if_exists (p : path) : M St unit :=
  r ← mtry (symlink_metadata p);
  match (r : Res Node) with
  | Ok NDir => mcontext ("remove " +:+ display p) (remove_dir_all p)
  | Ok _ => mcontext ("remove " +:+ display p) (remove_file p)
  | Err err =>
      if is_not_found err then mret tt else mlift (Err (Msg ("stat " +:+ display p) :: err))
  | Panic => mlift Panic
  end.

Definition reset_dir (p : path) : M St unit :=
  _ ← remove_path_if_exists p;
  mcontext ("create " +:+ display p) (create_dir_all p).

Definition replace_with_symlink (source target : path) : M St unit :=
  r ← mtry (symlink_metadata target);
  _ ← match (r : Res Node) with
      | Ok NDir => mcontext ("remove " +:+ display target) (remove_dir_all target)
      | Ok _ => mcontext ("remove " +:+ display target) (remove_file target)
      | _ => mret tt
      end;
  mcontext ("symlink " +:+ display target +:+ " -> " +:+ display source) (symlink source target).

(** ** Processes *)

Inductive RuntimePoll :=
| Alive
| RtExited (reason : string).

Definition poll_runtime (pid : Z) : M St RuntimePoll := fun s =>
  let o := os s in
  let '(answer, rest) := match waits o with a :: rest => (a, rest) | [] => (StillAlive, []) end in
  let s := mkSt (mgr s) (mkOs (fs o) (io_faults o) rest (clones o) (killed o)) in
  (match answer with
   | StillAlive | WOther => Ok Alive
   | WExited status => Ok (RtExited ("exit status " +:+ pretty status))
   | WSignaled signal => Ok (RtExited ("signal " +:+ pretty signal))
   | WEchild => Ok (RtExited "already reaped")
   | WErr => Err [Msg ("poll inner pid " +:+ pretty pid); Io OtherIo]
   end, s).

Definition launch_namespaced_init (root init_binary fallback_marker_file : path) : M St Z := fun s =>
  match file_name fallback_marker_file with
  | None => (anyhow "fallback marker file must have file name", s)
  | Some _ =>
      let o := os s in
      let '(answer, rest) := match clones o with a :: rest => (a, rest) | [] => (inl 2, []) end in
      (with_context "clone pid+mount namespace"
         (match answer with inl pid => Ok pid | inr e => Err e end),
       mkSt (mgr s) (mkOs (fs o) (io_faults o) (waits o) rest (killed o)))
  end.

Definition kill (pid : Z) : M St unit := fun s =>
  let o := os s in
  (Ok tt, mkSt (mgr s) (mkOs (fs o) (io_faults o) (waits o) (clones o) (killed o ++ [pid]))).

(** ** The archive reader *)

(** [tar::Archive::unpack] of a gzip stream: whether it succeeded and the tree it
    left.  It never writes outside the directory it unpacks into. *)
Class TarGz := {
  unpack : path -> list byte -> Fs -> Res unit * Fs;
}.

Class TarGzLaws `{TarGz} := {
  unpack_inside target data f p : under target p = false -> snd (unpack target data f) !! p = f !! p;
  unpack_keeps_dir target data f : f !! target = Some NDir ->
    snd (unpack target data f) !! target = Some NDir;
}.

Section setup.
Context `{TG : TarGz}.
(** The pid of this process, which stands for the runtime in test mode. *)
Context (own_pid : Z).
(** [{:#}] of an error. *)
Context (alternate : Error -> string).

Definition extract_rootfs (target_root : path) (data : list byte) : M St unit :=
  _ ← io;
  f ← get_fs;
  let '(r, f) := unpack target_root data f in
  _ ← put_fs f;
  mcontext ("extract rootfs into " +:+ display target_root) (mlift r).

(** ** [SetupManager] *)

Definition clear_marker (p : path) : M St unit :=
  r ← mtry (remove_file p);
  match (r : Res unit) with
  | Ok _ => mret tt
  | Err err =>
      if is_not_found err then mret tt else mlift (Err (Msg ("remove " +:+ display p) :: err))
  | Panic => mlift Panic
  end.

Definition store_provision_marker : M St unit :=
  self ← get_mgr;
  mcontext ("write " +:+ display (provisioned_marker_file self))
    (write (provisioned_marker_file self) (as_bytes "1")).

Definition clear_provision_marker : M St unit :=
  self ← get_mgr; clear_marker (provisioned_marker_file self).

Definition clear_fallback_marker : M St unit :=
  self ← get_mgr; clear_marker (fallback_marker_file self).

Definition ensure_persistent_source_dir (persistent_mount : PersistentMount) (target : path) :
    M St unit :=
  exists_ ← path_exists (source persistent_mount);
  _ ← match (exists_ : bool) with
      | true => mret tt
      | false =>
          r ← mtry (symlink_metadata target);
          match (r : Res Node) with
          | Ok NDir =>
              let parent := parent (source persistent_mount) in
              _ ← mcontext ("create " +:+ display parent) (create_dir_all parent);
              mcontext ("move " +:+ display target +:+ " to " +:+ display (source persistent_mount))
                (rename target (source persistent_mount))
          | Ok _ =>
              mlift (anyhow ("persistent target " +:+ display target +:+ " must be a directory"))
          | _ => mret tt
          end
      end;
  ensure_directory (source persistent_mount).

Fixpoint for_each (l : list PersistentMount) (f : PersistentMount -> M St unit) : M St unit :=
  match l with
  | [] => mret tt
  | x :: l => _ ← f x; for_each l f
  end.

Definition prepare_persistent_layout (root : path) : M St unit :=
  self ← get_mgr;
  for_each (persistent_mounts self) (fun persistent_mount =>
    let target := root ++ target_relative persistent_mount in
    _ ← ensure_persistent_source_dir persistent_mount target;
    if test_mode self then replace_with_symlink (source persistent_mount) target
    else ensure_directory target).

Definition materialize_test_mode_persistent_links (root : path) : M St unit :=
  self ← get_mgr;
  for_each (persistent_mounts self) (fun persistent_mount =>
    let target := root ++ target_relative persistent_mount in
    _ ← ensure_persistent_source_dir persistent_mount target;
    replace_with_symlink (source persistent_mount) target).

Definition stage_rootfs (data : list byte) : M St unit :=
  self ← get_mgr;
  _ ← reset_dir (staging_root_mount_dir self);
  _ ← extract_rootfs (staging_root_mount_dir self) data;
  prepare_persistent_layout (staging_root_mount_dir self).

(** The relaunch at the end of [ensure_runtime_started]. *)
Definition launch_runtime : M St unit :=
  self ← get_mgr;
  _ ← clear_fallback_marker;
  inner_init_pid ← mcontext "launch namespaced runtime"
    (launch_namespaced_init (root_mount_dir self) (init_binary self) (fallback_marker_file self));
  put_runtime (Some inner_init_pid).

Definition ensure_runtime_started : M St unit :=
  self ← get_mgr;
  if test_mode self then
    _ ← materialize_test_mode_persistent_links (root_mount_dir self);
    put_runtime (Some own_pid)
  else
    match inner_init_pid self with
    | Some pid =>
        poll ← poll_runtime pid;
        match poll with
        | Alive => mret tt
        | RtExited _ => _ ← put_runtime None; launch_runtime
        end
    | None => launch_runtime
    end.

Definition runtime_status : M St RuntimeStatus :=
  self ← get_mgr;
  if test_mode self then
    mret (match inner_init_pid self with Some _ => SystemInit | None => NotStarted end)
  else
    match inner_init_pid self with
    | None => mret NotStarted
    | Some pid =>
        poll ← poll_runtime pid;
        match poll with
        | Alive =>
            fallback ← path_exists (fallback_marker_file self);
            mret (if (fallback : bool) then FallbackInit else SystemInit)
        | RtExited _ => _ ← put_runtime None; _ ← clear_fallback_marker; mret NotStarted
        end
    end.

Definition ensure_live_inner_init_pid : M St Z :=
  _ ← ensure_runtime_started;
  self ← get_mgr;
  mlift (ok_or "runtime missing after startup" (inner_init_pid self)).

Definition runtime_started (self : SetupManager) : bool :=
  match inner_init_pid self with Some _ => true | None => false end.

Definition detect_state : M St VmState :=
  self ← get_mgr;
  marker ← path_exists (provisioned_marker_file self);
  mret (if (marker : bool) then Ready else Cold).

Definition start_ready_runtime : M St unit :=
  state ← detect_state;
  if bool_decide (state <> Ready) then mret tt else ensure_runtime_started.

Definition stop_runtime : M St unit :=
  self ← get_mgr;
  match inner_init_pid self with
  | None => mret tt
  | Some pid =>
      _ ← put_runtime None;
      if test_mode self then mret tt
      else _ ← kill pid; clear_fallback_marker
  end.

Definition restore_previous_root (had_existing_root : bool) : M St unit :=
  self ← get_mgr;
  _ ← remove_path_if_exists (root_mount_dir self);
  previous ← path_exists (previous_root_mount_dir self);
  _ ← (if had_existing_root && (previous : bool) then
         _ ← mcontext ("restore " +:+ display (previous_root_mount_dir self) +:+ " -> "
                         +:+ display (root_mount_dir self))
               (rename (previous_root_mount_dir self) (root_mount_dir self));
         store_provision_marker
       else clear_provision_marker);
  remove_path_if_exists (staging_root_mount_dir self).

(** The [match self.ensure_runtime_started()] that ends [activate_staged_root]. *)
Definition start_or_roll_back (had_existing_root : bool) : M St unit :=
  self ← get_mgr;
  started ← mtry ensure_runtime_started;
  match (started : Res unit) with
  | Ok _ => remove_path_if_exists (previous_root_mount_dir self)
  | Err err =>
      restore_err ← mtry (restore_previous_root had_existing_root);
      _ ← (if had_existing_root then _ ← mtry ensure_runtime_started; mret tt else mret tt);
      match (restore_err : Res unit) with
      | Err restore_err =>
          mlift (Err (Msg ("restore previous rootfs failed: " +:+ alternate restore_err) ::
                      Msg "start new runtime after rootfs activation" :: err))
      | _ => mlift (Err (Msg "start new runtime after rootfs activation" :: err))
      end
  | Panic => mlift Panic
  end.

Definition activate_staged_root : M St unit :=
  self ← get_mgr;
  marker ← path_exists (provisioned_marker_file self);
  root ← path_exists (root_mount_dir self);
  let had_existing_root := (marker : bool) || (root : bool) in
  _ ← stop_runtime;
  _ ← remove_path_if_exists (previous_root_mount_dir self);
  root ← path_exists (root_mount_dir self);
  _ ← (if had_existing_root && (root : bool) then
         mcontext ("rename " +:+ display (root_mount_dir self) +:+ " -> "
                     +:+ display (previous_root_mount_dir self))
           (rename (root_mount_dir self) (previous_root_mount_dir self))
       else mret tt);
  renamed ← mtry (mcontext ("rename " +:+ display (staging_root_mount_dir self) +:+ " -> "
                              +:+ display (root_mount_dir self))
                    (rename (staging_root_mount_dir self) (root_mount_dir self)));
  match (renamed : Res unit) with
  | Err err => _ ← restore_previous_root had_existing_root; mlift (Err err)
  | Panic => mlift Panic
  | Ok _ => _ ← store_provision_marker; start_or_roll_back had_existing_root
  end.

Definition setup_and_prepare (rootfs_tarball : option (list byte)) : M St unit :=
  state ← detect_state;
  let was_cold := bool_decide (state = Cold) in
  let is_provisioning := match rootfs_tarball with Some _ => true | None => false end in
  if was_cold && negb is_provisioning then
    mlift (anyhow "cold boot requires a rootfs payload")
  else
    match rootfs_tarball with
    | Some data => _ ← stage_rootfs data; activate_staged_root
    | None => ensure_runtime_started
    end.

(** [shutdown]: the result of [stop_runtime] is ignored. *)
Definition shutdown : M St unit :=
  self ← get_mgr;
  if negb (runtime_started self) then mret tt
  else _ ← mtry stop_runtime; mret tt.
End setup.

(** ** Lemmas on paths and trees *)

Lemma strip_Some base p rest : strip base p = Some rest <-> p = base ++ rest.
Proof.
  revert p. induction base as [|b base IH]; intros p; cbn; [split; congruence|].
  destruct p as [|c p]; [split; [done|]; cbn; congruence|].
  case_bool_decide as Hb; [subst|]; [rewrite IH|]; split; cbn; congruence.
Qed.

Lemma under_true base p : under base p = true <-> exists rest, p = base ++ rest.
Proof.
  unfold under. destruct (strip base p) as [rest|] eqn:E.
  - apply strip_Some in E. split; [eauto|done].
  - split; [done|]. intros [rest Hr]. apply strip_Some in Hr. congruence.
Qed.

Lemma under_refl base : under base base = true.
Proof. apply under_true. exists []. by rewrite app_nil_r. Qed.

Lemma under_app base rest : under base (base ++ rest) = true.
Proof. apply under_true. eauto. Qed.

Lemma under_trans a b c : under a b = true -> under b c = true -> under a c = true.
Proof. rewrite !under_true. intros [r ->] [r' ->]. rewrite <- app_assoc. eauto. Qed.

(** Two ancestors of one path are comparable. *)
Lemma under_comparable a b q :
  under a q = true -> under b q = true -> under a b = true \/ under b a = true.
Proof.
  rewrite !under_true. intros [r ->] [r' E].
  apply app_eq_inv in E as [(l & -> & ->)|(l & -> & ->)]; eauto.
Qed.

Definition apart (a b : path) : Prop := under a b = false /\ under b a = false.

Lemma apart_sym a b : apart a b -> apart b a.
Proof. unfold apart. tauto. Qed.

Lemma apart_under a b q : apart a b -> under a q = true -> under b q = false.
Proof.
  intros [H1 H2] Ha. destruct (under b q) eqn:Hb; [|done].
  destruct (under_comparable a b q Ha Hb); congruence.
Qed.

Lemma lookup_remove_tree (base : path) (f : Fs) (p : path) :
  remove_tree base f !! p = if under base p then None else f !! p.
Proof.
  unfold remove_tree. destruct (under base p) eqn:E.
  - apply map_lookup_filter_None. right. intros n _. congruence.
  - destruct (f !! p) as [n|] eqn:Ef.
    + by apply map_lookup_filter_Some.
    + apply map_lookup_filter_None. by left.
Qed.

Lemma moved_lookup (from to : path) (f : Fs) (p : path) :
  (list_to_map (omap (fun '(p, n) => (fun rest => (to ++ rest, n)) <$> strip from p)
     (map_to_list f)) : Fs) !! p
  = match strip to p with Some rest => f !! (from ++ rest) | None => None end.
Proof.
  set (l := omap _ _).
  assert (Hl : forall q n, (q, n) ∈ l <-> exists rest, q = to ++ rest /\ f !! (from ++ rest) = Some n).
  { intros q n. unfold l. rewrite list_elem_of_omap. split.
    - intros ([q' n'] & Hin & E). apply elem_of_map_to_list in Hin.
      apply fmap_Some in E as (rest & Hs & [= -> ->]). apply strip_Some in Hs as ->. eauto.
    - intros (rest & -> & Hf). exists (from ++ rest, n). split; [by apply elem_of_map_to_list|].
      assert (strip from (from ++ rest) = Some rest) as -> by (by apply strip_Some). done. }
  assert (Hnd : NoDup l.*1).
  { unfold l. pose proof (NoDup_map_to_list f) as Hn. pose proof (NoDup_fst_map_to_list f) as Hfst.
    clear Hl l. induction (map_to_list f) as [|[q n] l IH]; cbn; [constructor|].
    apply NoDup_cons in Hn as [_ Hn]. apply NoDup_cons in Hfst as [Hq Hfst].
    destruct (strip from q) as [rest|] eqn:E; cbn; [|auto]. constructor; [|auto].
    intros Hin. apply list_elem_of_fmap in Hin as ([q' n'] & Heq & Hin). cbn in Heq. subst q'.
    apply list_elem_of_omap in Hin as ([q2 n2] & Hin2 & E2).
    apply fmap_Some in E2 as (rest2 & Hs2 & [= Heq _]). apply app_inv_head in Heq as <-.
    apply strip_Some in E as ->. apply strip_Some in Hs2 as ->. apply Hq.
    apply list_elem_of_fmap. by exists (from ++ rest, n2). }
  destruct (strip to p) as [rest|] eqn:E.
  - apply strip_Some in E as ->. destruct (f !! (from ++ rest)) as [n|] eqn:Ef.
    + apply elem_of_list_to_map; [done|]. apply Hl. eauto.
    + apply not_elem_of_list_to_map. intros Hin.
      apply list_elem_of_fmap in Hin as ([q n] & Heq & Hin). cbn in Heq. subst q.
      apply Hl in Hin as (rest' & Heq & Hf). apply app_inv_head in Heq as ->. congruence.
  - apply not_elem_of_list_to_map. intros Hin.
    apply list_elem_of_fmap in Hin as ([q n] & Heq & Hin). cbn in Heq. subst q.
    apply Hl in Hin as (rest & -> & _).
    assert (strip to (to ++ rest) = Some rest) by (by apply strip_Some). congruence.
Qed.

Lemma lookup_move_tree (from to : path) (f : Fs) (p : path) :
  move_tree from to f !! p =
  match strip to p with
  | Some rest => f !! (from ++ rest)
  | None => if under from p then None else f !! p
  end.
Proof.
  unfold move_tree. rewrite lookup_union, moved_lookup, !lookup_remove_tree. unfold under.
  destruct (strip to p) as [rest|]; [by destruct (f !! (from ++ rest))|].
  destruct (strip from p); [done|]. by destruct (f !! p).
Qed.

Lemma move_tree_other a b f q :
  under a q = false -> under b q = false -> move_tree a b f !! q = f !! q.
Proof. intros Ha Hb. rewrite lookup_move_tree, Ha. unfold under in Hb. by destruct (strip b q). Qed.

(** ** Single calls *)

Lemma strip_below a r : strip a (a ++ r) = Some r.
Proof. by apply strip_Some. Qed.

Lemma parent_under p : p <> [] -> under (parent p) p = true /\ under p (parent p) = false.
Proof.
  intros Hp. unfold parent. destruct (exists_last Hp) as (l & x & ->). rewrite removelast_last.
  split; [apply under_app|]. destruct (under (l ++ [x]) l) eqn:E; [|done].
  apply under_true in E as [r E]. apply (f_equal length) in E. rewrite !length_app in E. cbn in E. lia.
Qed.

Lemma io_inv s r s' : io s = (r, s') -> mgr s' = mgr s /\ fs (os s') = fs (os s) /\
  (r = Ok tt \/ r = Err [Io OtherIo]).
Proof. unfold io. destruct (io_faults (os s)) as [|[] l]; intros [= <- <-]; auto. Qed.

Lemma metadata_inv p s r s' :
  symlink_metadata p s = (r, s') -> fs (os s') = fs (os s) /\ mgr s' = mgr s /\
  match r with
  | Ok n => fs (os s) !! p = Some n
  | Err e => e = [Io OtherIo] \/ e = [Io NotFound] /\ fs (os s) !! p = None
  | Panic => False
  end.
Proof.
  unfold symlink_metadata, mbind, M_bind, mbind_st. destruct (io s) as [r1 s1] eqn:E.
  apply io_inv in E as (Hm & Hf & [->| ->]); [|intros [= <- <-]; auto].
  cbn. rewrite Hf. destruct (fs (os s) !! p); intros [= <- <-]; auto.
Qed.

Definition calm (s : St) : Prop := io_faults (os s) = [].

Lemma calm_io s : calm s -> io s = (Ok tt, s).
Proof. unfold calm, io. by intros ->. Qed.

Lemma path_exists_run p s : calm s ->
  path_exists p s = (Ok (match resolve (fs (os s)) p with Some _ => true | None => false end), s).
Proof. intros Hc. unfold path_exists, mbind, M_bind, mbind_st, mtry. by rewrite calm_io. Qed.

Lemma path_exists_dir p s : calm s -> fs (os s) !! p = Some NDir -> path_exists p s = (Ok true, s).
Proof. intros Hc H. rewrite path_exists_run by done. unfold resolve. destruct p; [done|]. cbn. by rewrite H. Qed.

Lemma path_exists_file p d s : calm s -> p <> [] -> fs (os s) !! p = Some (NFile d) ->
  path_exists p s = (Ok true, s).
Proof.
  intros Hc Hp H. rewrite path_exists_run by done. unfold resolve. destruct p; [done|]. cbn. by rewrite H.
Qed.

(** Whatever it says, it changes nothing. *)
Lemma path_exists_inv p s r s' : path_exists p s = (r, s') ->
  (exists b, r = Ok b) /\ mgr s' = mgr s /\ fs (os s') = fs (os s).
Proof.
  unfold path_exists, mbind, M_bind, mbind_st, mtry, get_fs. destruct (io s) as [r1 s1] eqn:E.
  apply io_inv in E as (Hm & Hf & [->| ->]); intros [= <- <-]; eauto.
Qed.

(** ** What every operation leaves alone *)

Lemma keeps_fail {A} I k : keeps I (@fail A k).
Proof. by intros s Hs. Qed.

Lemma keeps_get_mgr {A} (I : St -> Prop) (f : SetupManager -> M St A) :
  (forall s, I s -> keeps I (f (mgr s))) -> keeps I (get_mgr ≫= f).
Proof. intros Hf s Hs. by apply Hf. Qed.

#[export] Hint Resolve keeps_fail : keeps.

(** The manager's configuration, which no operation changes. *)
Definition same_layout (c self : SetupManager) : Prop := set_runtime self None = set_runtime c None.

Definition protected (c : SetupManager) (q : path) : Prop :=
  exists m, m ∈ persistent_mounts c /\ under (source m) q = true.

(** The trees the manager moves around do not contain one another, the marker
    or the persistent directories; the fallback marker is in the root. *)
Record LayoutOk (c : SetupManager) : Prop := {
  lo_root : forall m, m ∈ persistent_mounts c -> apart (source m) (root_mount_dir c);
  lo_staging : forall m, m ∈ persistent_mounts c -> apart (source m) (staging_root_mount_dir c);
  lo_previous : forall m, m ∈ persistent_mounts c -> apart (source m) (previous_root_mount_dir c);
  lo_source : forall m, m ∈ persistent_mounts c -> apart (source m) (provisioned_marker_file c);
  lo_marker_root : apart (provisioned_marker_file c) (root_mount_dir c);
  lo_marker_staging : apart (provisioned_marker_file c) (staging_root_mount_dir c);
  lo_marker_previous : apart (provisioned_marker_file c) (previous_root_mount_dir c);
  lo_root_staging : apart (root_mount_dir c) (staging_root_mount_dir c);
  lo_root_previous : apart (root_mount_dir c) (previous_root_mount_dir c);
  lo_staging_previous : apart (staging_root_mount_dir c) (previous_root_mount_dir c);
  lo_fallback : under (root_mount_dir c) (fallback_marker_file c) = true;
}.

(** What the persistent directories held in [f0] is there; [strict]: no call fails,
    and they hold nothing else. *)
Record Kept (c : SetupManager) (strict : bool) (f0 : Fs) (s : St) : Prop := {
  kept_layout : same_layout c (mgr s);
  kept_sources : forall q, protected c q ->
    fs (os s) !! q = f0 !! q \/ strict = false /\ f0 !! q = None;
  kept_marker : forall t, fs (os s) !! provisioned_marker_file c <> Some (NSymlink t);
  kept_calm : strict = true -> io_faults (os s) = [];
}.

(** A tree with nothing protected in it. *)
Definition loose (c : SetupManager) (p : path) : Prop :=
  (forall m, m ∈ persistent_mounts c -> apart (source m) p) /\ apart (provisioned_marker_file c) p.

Lemma loose_protected c p q : loose c p -> protected c q -> under p q = false.
Proof. intros [H _] (m & Hm & Hq). by apply (apart_under (source m)); [apply H|]. Qed.

Lemma loose_marker c p : loose c p -> under p (provisioned_marker_file c) = false.
Proof. intros [_ [_ H]]. done. Qed.

Lemma loose_under c p q : loose c p -> under p q = true -> loose c q.
Proof.
  intros [H1 H2] Hq. assert (Happ : forall a, apart a p -> apart a q).
  { intros a [Ha Hp]. split.
    - destruct (under a q) eqn:E; [|done].
      destruct (under_comparable a p q E Hq); congruence.
    - destruct (under q a) eqn:E; [|done]. pose proof (under_trans _ _ _ Hq E). congruence. }
  split; [intros m Hm|]; apply Happ; auto.
Qed.

Section kept.
Context (c : SetupManager) (strict : bool) (f0 : Fs).

Lemma kept_same s s' : Kept c strict f0 s -> fs (os s') = fs (os s) ->
  set_runtime (mgr s') None = set_runtime (mgr s) None ->
  (io_faults (os s) = [] -> io_faults (os s') = []) -> Kept c strict f0 s'.
Proof. intros [] Hf Hm Hc. split; unfold same_layout in *; rewrite ?Hf, ?Hm; auto. Qed.

Lemma kept_put s f :
  Kept c strict f0 s ->
  (forall q, protected c q \/ q = provisioned_marker_file c -> f !! q = fs (os s) !! q) ->
  Kept c strict f0 (mkSt (mgr s) (set_fs f (os s))).
Proof.
  intros [] Hf. split; cbn; [done| | |done].
  - intros q Hq. rewrite Hf by auto. auto.
  - intros t. rewrite Hf by auto. auto.
Qed.

(** The marker may change. *)
Lemma kept_put_marker s f :
  Kept c strict f0 s -> (forall q, protected c q -> f !! q = fs (os s) !! q) ->
  (forall t, f !! provisioned_marker_file c <> Some (NSymlink t)) ->
  Kept c strict f0 (mkSt (mgr s) (set_fs f (os s))).
Proof. intros [] Hf Ht. split; cbn; [done| |done|done]. intros q Hq. rewrite Hf by auto. auto. Qed.

(** So may the persistent directories, where they held nothing. *)
Lemma kept_grow s f :
  strict = false -> Kept c strict f0 s ->
  (forall q n, protected c q -> f0 !! q = Some n -> fs (os s) !! q = Some n -> f !! q = Some n) ->
  f !! provisioned_marker_file c = fs (os s) !! provisioned_marker_file c ->
  Kept c strict f0 (mkSt (mgr s) (set_fs f (os s))).
Proof.
  intros Hst [Hl Hs Ht _] Hf Hm. split; cbn; [done| |intros t; by rewrite Hm|congruence].
  intros q Hq. destruct (f0 !! q) as [n|] eqn:E; [left|by right]. apply Hf; [done..|].
  destruct (Hs q Hq) as [->|[_ ?]]; congruence.
Qed.

Lemma kept_io : keeps (Kept c strict f0) io.
Proof.
  intros s Hs. unfold io. destruct (io_faults (os s)) as [|[] l] eqn:E; [done|..];
    by apply (kept_same s); rewrite ?E.
Qed.

Lemma kept_exists p : keeps (Kept c strict f0) (path_exists p).
Proof. unfold path_exists. apply keeps_bind; [apply keeps_try, kept_io|]. by intros r s Hs. Qed.

(** A call that may fail, then changes the tree. *)
Lemma kept_call {A} (k : Fs -> M St A) :
  (forall s, Kept c strict f0 s -> Kept c strict f0 (snd (k (fs (os s)) s))) ->
  keeps (Kept c strict f0) (_ ← io; f ← get_fs; k f).
Proof.
  intros Hk. apply keeps_bind; [apply kept_io|]. intros _ s Hs. by apply Hk.
Qed.

Lemma kept_symlink_metadata p : keeps (Kept c strict f0) (symlink_metadata p).
Proof. apply kept_call. intros s Hs. by destruct (fs (os s) !! p). Qed.

Lemma kept_remove_file p : loose c p \/ p = provisioned_marker_file c ->
  LayoutOk c -> keeps (Kept c strict f0) (remove_file p).
Proof.
  intros Hp HL. apply kept_call. intros s Hs.
  assert (Hdel : Kept c strict f0 (mkSt (mgr s) (set_fs (delete p (fs (os s))) (os s)))).
  { destruct Hp as [Hp|Hp].
    - apply kept_put; [done|]. intros q Hq. rewrite lookup_delete_ne; [done|]. intros <-.
      destruct Hq as [Hq|Hq].
      + pose proof (loose_protected _ _ _ Hp Hq). pose proof (under_refl p). congruence.
      + pose proof (loose_marker _ _ Hp). rewrite <- Hq in *. pose proof (under_refl p). congruence.
    - subst p. apply kept_put_marker; [done| |].
      + intros q Hq. rewrite lookup_delete_ne; [auto|]. intros <-.
        destruct Hq as (m & Hm & Hq). destruct (lo_source _ HL m Hm). congruence.
      + intros t. by rewrite lookup_delete_eq. }
  destruct (fs (os s) !! p) as [[]|]; done.
Qed.

Lemma kept_tree s f p :
  Kept c strict f0 s -> loose c p ->
  (forall q, under p q = false -> f !! q = fs (os s) !! q) ->
  Kept c strict f0 (mkSt (mgr s) (set_fs f (os s))).
Proof.
  intros Hs Hp Hf. apply kept_put; [done|]. intros q [Hq| ->]; apply Hf.
  - by apply (loose_protected c).
  - by apply loose_marker.
Qed.

Lemma kept_remove_dir_all p : loose c p -> keeps (Kept c strict f0) (remove_dir_all p).
Proof.
  intros Hp. apply kept_call. intros s Hs. destruct (fs (os s) !! p) as [[]|]; try done.
  - apply (kept_tree _ _ p); [done|done|]. intros q Hq. by rewrite lookup_remove_tree, Hq.
  - apply (kept_tree _ _ p); [done|done|]. intros q Hq. rewrite lookup_delete_ne; [done|].
    intros <-. rewrite under_refl in Hq. done.
Qed.

Lemma kept_rename a b : loose c a -> loose c b -> keeps (Kept c strict f0) (rename a b).
Proof.
  intros Ha Hb. apply kept_call. intros s Hs.
  assert (Hmove : Kept c strict f0 (mkSt (mgr s) (set_fs (move_tree a b (fs (os s))) (os s)))).
  { apply kept_put; [done|]. intros q Hq. rewrite lookup_move_tree.
    assert (Hn : under a q = false /\ under b q = false).
    { destruct Hq as [Hq| ->]; split; eauto using loose_protected, loose_marker. }
    destruct Hn as [-> Hn]. unfold under in Hn. by destruct (strip b q). }
  destruct (fs (os s) !! a) as [n|]; [|done].
  destruct (negb _); [done|]. destruct (fs (os s) !! b) as [[]|].
  - by destruct (is_dir _).
  - by destruct (_ && _).
  - by destruct (is_dir _).
  - done.
Qed.

Lemma kept_symlink a b : loose c b -> keeps (Kept c strict f0) (symlink a b).
Proof.
  intros Hb. apply kept_call. intros s Hs. destruct (negb _); [done|].
  destruct (fs (os s) !! b) eqn:E; [done|].
  apply (kept_tree _ _ b); [done|done|]. intros q Hq. rewrite lookup_insert_ne; [done|].
  intros <-. rewrite under_refl in Hq. done.
Qed.

Lemma kept_create_dirs done_ todo f f' q :
  create_dirs done_ todo f = Ok f' -> under q (done_ ++ todo) = false -> f' !! q = f !! q.
Proof.
  revert done_ f. induction todo as [|x todo IH]; intros done_ f; cbn; [congruence|].
  intros Hc Hq. rewrite cons_middle, app_assoc in Hq.
  destruct (resolve f (done_ ++ [x])) as [[]|]; [done|by apply IH in Hc|done|].
  destruct (f !! (done_ ++ [x])) eqn:E; [done|]. apply IH in Hc; [|done]. rewrite Hc.
  rewrite lookup_insert_ne; [done|]. intros <-. by rewrite under_app in Hq.
Qed.

Lemma create_dirs_some done_ todo f f' q n :
  create_dirs done_ todo f = Ok f' -> f !! q = Some n -> f' !! q = Some n.
Proof.
  revert done_ f. induction todo as [|x todo IH]; intros done_ f; cbn; [congruence|].
  intros Hc Hq. destruct (resolve f (done_ ++ [x])) as [[]|]; [done|by eapply IH|done|].
  destruct (f !! (done_ ++ [x])) eqn:E; [done|]. eapply IH; [exact Hc|].
  rewrite lookup_insert_ne; [done|]. congruence.
Qed.

Lemma create_dir_all_some p s q n :
  fs (os s) !! q = Some n -> fs (os (snd (create_dir_all p s))) !! q = Some n.
Proof.
  intros Hq. unfold create_dir_all, mbind, M_bind, mbind_st, get_fs.
  destruct (io s) as [[u|e|] s1] eqn:E; apply io_inv in E as (_ & Hf & _); cbn; rewrite ?Hf; [|done..].
  destruct (create_dirs [] p (fs (os s))) as [f|e|] eqn:E; cbn; rewrite ?Hf; [|done..].
  by eapply create_dirs_some.
Qed.

Lemma has_children_none base f rest n :
  has_children base f = false -> rest <> [] -> f !! (base ++ rest) = Some n -> False.
Proof.
  unfold has_children. intros Hc Hr Hn. apply not_true_iff_false in Hc. apply Hc.
  apply existsb_exists. exists (base ++ rest, n). split; [by apply list_elem_of_In, elem_of_map_to_list|].
  rewrite strip_below. by destruct rest.
Qed.

Lemma source_nonempty c' m : LayoutOk c' -> m ∈ persistent_mounts c' -> source m <> [].
Proof. intros HL Hm E. destruct (lo_root _ HL m Hm) as [H _]. by rewrite E in H. Qed.

Lemma kept_create_dir_all p : loose c p -> keeps (Kept c strict f0) (create_dir_all p).
Proof.
  intros [Hp [Hm _]]. apply kept_call. intros s Hs.
  destruct (create_dirs [] p (fs (os s))) as [f|e|] eqn:E; [|done|done].
  apply kept_put; [done|]. intros q [(m & Hin & Hq)| ->]; eapply kept_create_dirs; try done.
  cbn. destruct (under q p) eqn:Eq; [|done]. destruct (Hp m Hin) as [Hn _].
  rewrite (under_trans _ _ _ Hq Eq) in Hn. done.
Qed.

Lemma kept_write data : LayoutOk c -> keeps (Kept c strict f0) (write (provisioned_marker_file c) data).
Proof.
  intros HL. apply kept_call. intros s Hs. destruct (negb _); [done|].
  assert (Hput : Kept c strict f0 (mkSt (mgr s)
    (set_fs (<[provisioned_marker_file c := NFile data]> (fs (os s))) (os s)))).
  { apply kept_put_marker; [done| |].
    - intros q Hq. rewrite lookup_insert_ne; [auto|]. intros <-.
      destruct Hq as (m & Hm & Hq). destruct (lo_source _ HL m Hm). congruence.
    - intros t. by rewrite lookup_insert_eq. }
  pose proof (kept_marker _ _ _ _ Hs) as Hns.
  destruct (fs (os s) !! provisioned_marker_file c) as [[]|] eqn:E; try done.
  by destruct (Hns target).
Qed.
End kept.

Lemma same_layout_eq c self : same_layout c self -> self = set_runtime c (inner_init_pid self).
Proof. destruct c, self. unfold same_layout, set_runtime. cbn. congruence. Qed.

Lemma loose_root c : LayoutOk c -> loose c (root_mount_dir c).
Proof. intros []. split; auto. Qed.

Lemma loose_staging c : LayoutOk c -> loose c (staging_root_mount_dir c).
Proof. intros []. split; auto. Qed.

Lemma loose_previous c : LayoutOk c -> loose c (previous_root_mount_dir c).
Proof. intros []. split; auto. Qed.

Lemma loose_fallback c : LayoutOk c -> loose c (fallback_marker_file c).
Proof. intros HL. eapply loose_under; [by apply loose_root|apply HL]. Qed.

Lemma loose_below c p rest : loose c p -> loose c (p ++ rest).
Proof. intros Hp. eapply loose_under; [exact Hp|apply under_app]. Qed.

#[export] Hint Resolve loose_root loose_staging loose_previous loose_fallback loose_below : keeps.
#[export] Hint Resolve kept_symlink_metadata kept_remove_file kept_remove_dir_all kept_rename
  kept_symlink kept_create_dir_all kept_write kept_io kept_exists : keeps.

Section setup_kept.
Context `{TL : TarGzLaws} (own_pid : Z) (alternate : Error -> string).
Context (c : SetupManager) (strict : bool) (f0 : Fs) (HL : LayoutOk c).
Context (Hin : forall m q, m ∈ persistent_mounts c -> under (source m) q = true ->
  is_Some (f0 !! q) -> is_Some (f0 !! source m)).
Context (Hdirs : strict = true -> forall m, m ∈ persistent_mounts c -> f0 !! source m = Some NDir).

(** After [get_mgr] the configuration is [c]'s. *)
Lemma kept_get_mgr {A} (f : SetupManager -> M St A) :
  (forall r, keeps (Kept c strict f0) (f (set_runtime c r))) -> keeps (Kept c strict f0) (get_mgr ≫= f).
Proof.
  intros Hf. apply keeps_get_mgr. intros s [Hs _ _ _]. rewrite (same_layout_eq _ _ Hs). apply Hf.
Qed.

Lemma kept_put_runtime r : keeps (Kept c strict f0) (put_runtime r).
Proof. intros s Hs. by apply (kept_same c strict f0 s). Qed.

Lemma kept_poll pid : keeps (Kept c strict f0) (poll_runtime pid).
Proof. intros s Hs. unfold poll_runtime. by destruct (waits (os s)); apply (kept_same c strict f0 s). Qed.

Lemma kept_launch a b p : keeps (Kept c strict f0) (launch_namespaced_init a b p).
Proof.
  intros s Hs. unfold launch_namespaced_init. destruct (file_name p); [|done].
  by destruct (clones (os s)); apply (kept_same c strict f0 s).
Qed.

Lemma kept_kill pid : keeps (Kept c strict f0) (kill pid).
Proof. intros s Hs. by apply (kept_same c strict f0 s). Qed.

Hint Resolve kept_put_runtime kept_poll kept_launch kept_kill : keeps.

(** Close a [keeps] goal by the structure of the code. *)
Ltac keeps_step :=
  match goal with
  | |- keeps _ (get_mgr ≫= _) => apply kept_get_mgr; intros ?; cbn [set_runtime test_mode
      persistent_mounts root_mount_dir staging_root_mount_dir previous_root_mount_dir init_binary
      provisioned_marker_file fallback_marker_file inner_init_pid]
  | |- keeps _ (_ ≫= _) => apply keeps_bind; [|intros ?]
  | |- keeps _ (if ?b then _ else _) => destruct b
  | |- keeps _ (match ?x with _ => _ end) => destruct x
  | |- keeps _ _ => by auto with keeps
  end.
Ltac keeps_all := repeat keeps_step.

Lemma kept_extract target data : loose c target -> keeps (Kept c strict f0) (extract_rootfs target data).
Proof using HL TL.
  intros Ht. unfold extract_rootfs. apply keeps_bind; [apply kept_io|]. intros _ s Hs.
  pose proof (unpack_inside target data (fs (os s))) as Hins.
  unfold mbind, M_bind, mbind_st, get_fs, put_fs, mcontext, mlift.
  destruct (unpack target data (fs (os s))) as [r f]. apply (kept_tree c strict f0 s _ target); auto.
Qed.

Lemma kept_remove_path p : loose c p -> keeps (Kept c strict f0) (remove_path_if_exists p).
Proof using HL. intros Hp. unfold remove_path_if_exists. keeps_all. Qed.

Lemma kept_clear_marker p :
  loose c p \/ p = provisioned_marker_file c -> keeps (Kept c strict f0) (clear_marker p).
Proof using HL. intros Hp. unfold clear_marker. keeps_all. Qed.

Lemma kept_replace src p : loose c p -> keeps (Kept c strict f0) (replace_with_symlink src p).
Proof using HL. intros Hp. unfold replace_with_symlink. keeps_all. Qed.

Lemma kept_ensure_directory p : loose c p -> keeps (Kept c strict f0) (ensure_directory p).
Proof using HL. intros Hp. unfold ensure_directory. keeps_all. Qed.

(** A persistent directory that exists is used as it is when nothing fails. *)
Lemma kept_source_strict m target :
  m ∈ persistent_mounts c -> strict = true -> keeps (Kept c strict f0) (ensure_persistent_source_dir m target).
Proof using HL Hdirs.
  intros Hm Hst. pose proof (source_nonempty c m HL Hm) as Hne.
  assert (Hex : forall s, Kept c strict f0 s -> path_exists (source m) s = (Ok true, s)).
  { intros s [_ Hs _ Hc]. apply path_exists_dir; [by apply Hc|].
    destruct (Hs (source m)) as [->|[? _]]; [by exists m; split; [|apply under_refl]|auto|congruence]. }
  intros s Hs. unfold ensure_persistent_source_dir, ensure_directory.
  rewrite (M_bind_Ok _ _ s true s) by auto. cbn beta iota.
  rewrite (M_bind_Ok _ _ s tt s) by done.
  rewrite (M_bind_Ok _ _ s true s) by auto. cbn beta iota.
  revert s Hs. change (keeps (Kept c strict f0) (metadata ← mcontext ("stat " +:+ display (source m))
    (symlink_metadata (source m)); match metadata with
      | NDir => mret tt | _ => mlift (anyhow (display (source m) +:+ " must be a directory")) end)).
  keeps_all.
Qed.

(** Creating it, or its parent, changes nothing that is there. *)
Lemma kept_create_source m p :
  m ∈ persistent_mounts c -> strict = false -> under p (source m) = true ->
  keeps (Kept c strict f0) (create_dir_all p).
Proof using HL.
  intros Hm Hst Hp. apply kept_call. intros s Hs.
  destruct (create_dirs [] p (fs (os s))) as [f|e|] eqn:E; [|done|done].
  apply kept_grow; [done|done| |].
  - intros q n _ _ Hq. by eapply create_dirs_some.
  - eapply kept_create_dirs; [exact E|]. cbn. destruct (lo_source _ HL m Hm) as [_ Hn].
    destruct (under (provisioned_marker_file c) p) eqn:Eq; [|done].
    by rewrite (under_trans _ _ _ Eq Hp) in Hn.
Qed.

(** A directory moved where a persistent one is to be finds nothing there, or an
    empty directory. *)
Lemma kept_move_source m target s :
  m ∈ persistent_mounts c -> strict = false -> loose c target -> fs (os s) !! target = Some NDir ->
  Kept c strict f0 s -> Kept c strict f0 (snd (rename target (source m) s)).
Proof using HL Hin.
  intros Hm Hst Ht Hd Hs. unfold rename, mbind at 1, M_bind, mbind_st.
  pose proof (kept_io c strict f0 s Hs) as Hs1.
  destruct (io s) as [[u|e|] s1] eqn:Eio; cbn in Hs1; [|done..].
  assert (Hf : fs (os s1) = fs (os s)) by (by apply io_inv in Eio as (_ & ? & _)).
  unfold mbind, M_bind, mbind_st, get_fs. rewrite Hf, Hd. rewrite <- Hf in Hd |- *.
  destruct (negb _); [done|].
  assert (Hmove : (forall rest n, rest <> [] -> fs (os s1) !! (source m ++ rest) = Some n ->
      is_Some (f0 !! source m) -> False) ->
    (fs (os s1) !! source m = None \/ fs (os s1) !! source m = Some NDir) ->
    Kept c strict f0 (mkSt (mgr s1) (set_fs (move_tree target (source m) (fs (os s1))) (os s1)))).
  { intros Hempty Hsrc. apply kept_grow; [done|done| |].
    - intros q n Hq Hq0 Hq1. rewrite lookup_move_tree.
      destruct (strip (source m) q) as [rest|] eqn:E.
      + apply strip_Some in E as ->.
        assert (Hi : is_Some (f0 !! source m)) by (eapply Hin; [exact Hm|apply under_app|eauto]).
        destruct rest as [|x rest]; [|by destruct (Hempty (x :: rest) n)].
        rewrite !app_nil_r in *. destruct Hsrc; congruence.
      + by rewrite (loose_protected c target q).
    - rewrite move_tree_other; [done|by apply loose_marker|apply (lo_source _ HL m Hm)]. }
  destruct (fs (os s1) !! source m) as [[d| |t]|] eqn:E; cbn [is_dir]; try done.
  - destruct (has_children (source m) (fs (os s1))) eqn:Ec; [done|]. cbn. apply Hmove; [|by right].
    intros rest n Hr Hn _. eapply (has_children_none (source m)); [exact Ec|exact Hr|exact Hn].
  - cbn. apply Hmove; [|by left]. intros rest n _ _ [x Hx].
    destruct (kept_sources _ _ _ _ Hs1 (source m)) as [Hk|[_ Hk]];
      [by exists m; split; [|apply under_refl]|congruence..].
Qed.

Lemma kept_source m target :
  m ∈ persistent_mounts c -> loose c target -> keeps (Kept c strict f0) (ensure_persistent_source_dir m target).
Proof using HL Hin Hdirs.
  intros Hm Ht. destruct (bool_dec strict true) as [Hst|Hst%not_true_is_false]; [by apply kept_source_strict|].
  pose proof (source_nonempty c m HL Hm) as Hne.
  unfold ensure_persistent_source_dir. apply keeps_bind; [apply kept_exists|]. intros ex.
  apply keeps_bind; [destruct ex|intros _].
  - auto with keeps.
  - intros s Hs. unfold mbind, M_bind, mbind_st, mtry.
    pose proof (kept_symlink_metadata c strict f0 target s Hs) as Hs1.
    destruct (symlink_metadata target s) as [r s1] eqn:E. apply metadata_inv in E as (Hf & _ & E).
    cbn in Hs1. destruct r as [[]|e|]; try done.
    assert (Hd : fs (os s1) !! target = Some NDir) by congruence.
    unfold mcontext.
    pose proof (kept_create_source m (parent (source m)) Hm Hst (proj1 (parent_under _ Hne)) s1 Hs1) as Hs2.
    pose proof (create_dir_all_some (parent (source m)) s1 target NDir Hd) as Hd2.
    destruct (create_dir_all _ s1) as [[[]|e|] s2]; cbn in Hs2, Hd2 |- *; [|done..].
    pose proof (kept_move_source m target s2 Hm Hst Ht Hd2 Hs2) as Hs3.
    by destruct (rename _ _ s2) as [[]].
  - unfold ensure_directory. apply keeps_bind; [apply kept_exists|]. intros [|]; [keeps_all|].
    apply keeps_context, (kept_create_source m); [done|done|apply under_refl].
Qed.

Lemma kept_for_each l (f : PersistentMount -> M St unit) :
  (forall m, m ∈ l -> keeps (Kept c strict f0) (f m)) -> keeps (Kept c strict f0) (for_each l f).
Proof.
  induction l as [|m l IH]; intros Hf; cbn; [apply keeps_ret|].
  apply keeps_bind; [apply Hf; left|]. intros _. apply IH. intros m' Hm'. apply Hf. by right.
Qed.

Hint Resolve kept_extract kept_remove_path kept_clear_marker kept_replace kept_ensure_directory
  kept_source : keeps.

Lemma kept_prepare root : loose c root -> keeps (Kept c strict f0) (prepare_persistent_layout root).
Proof using HL Hin Hdirs.
  intros Hr. unfold prepare_persistent_layout. keeps_step. apply kept_for_each. intros m Hm. keeps_all.
Qed.

Lemma kept_materialize root :
  loose c root -> keeps (Kept c strict f0) (materialize_test_mode_persistent_links root).
Proof using HL Hin Hdirs.
  intros Hr. unfold materialize_test_mode_persistent_links. keeps_step. apply kept_for_each.
  intros m Hm. keeps_all.
Qed.

Hint Resolve kept_prepare kept_materialize : keeps.

Lemma kept_store : keeps (Kept c strict f0) store_provision_marker.
Proof using HL. unfold store_provision_marker. keeps_all. Qed.

Lemma kept_clear_fallback : keeps (Kept c strict f0) clear_fallback_marker.
Proof using HL. unfold clear_fallback_marker. keeps_all. Qed.

Lemma kept_clear_provision : keeps (Kept c strict f0) clear_provision_marker.
Proof using HL. unfold clear_provision_marker. keeps_all. Qed.

Hint Resolve kept_store kept_clear_fallback kept_clear_provision : keeps.

Lemma kept_launch_runtime : keeps (Kept c strict f0) launch_runtime.
Proof using HL. unfold launch_runtime. keeps_all. Qed.

Hint Resolve kept_launch_runtime : keeps.

Lemma kept_ensure_runtime : keeps (Kept c strict f0) (ensure_runtime_started own_pid).
Proof using HL Hin Hdirs. unfold ensure_runtime_started. keeps_all. Qed.

Lemma kept_reset p : loose c p -> keeps (Kept c strict f0) (reset_dir p).
Proof using HL. intros Hp. unfold reset_dir. keeps_all. Qed.

Lemma kept_stop : keeps (Kept c strict f0) stop_runtime.
Proof using HL. unfold stop_runtime. keeps_all. Qed.

Hint Resolve kept_ensure_runtime kept_reset kept_stop : keeps.

Lemma kept_restore b : keeps (Kept c strict f0) (restore_previous_root b).
Proof using HL. unfold restore_previous_root. keeps_all. Qed.

Lemma kept_stage data : keeps (Kept c strict f0) (stage_rootfs data).
Proof using HL Hin Hdirs TL. unfold stage_rootfs. keeps_all. Qed.

Hint Resolve kept_restore kept_stage : keeps.

Lemma kept_start_or_roll_back b : keeps (Kept c strict f0) (start_or_roll_back own_pid alternate b).
Proof using HL Hin Hdirs. unfold start_or_roll_back. keeps_all. Qed.

Hint Resolve kept_start_or_roll_back : keeps.

Lemma kept_activate : keeps (Kept c strict f0) (activate_staged_root own_pid alternate).
Proof using HL Hin Hdirs. unfold activate_staged_root. keeps_all. Qed.

Hint Resolve kept_activate : keeps.

Lemma kept_setup tarball : keeps (Kept c strict f0) (setup_and_prepare own_pid alternate tarball).
Proof using HL Hin Hdirs TL. unfold setup_and_prepare, detect_state. keeps_all. Qed.
End setup_kept.

(** ** Operations when no call fails *)

Definition upd (s : St) (f : Fs) : St := mkSt (mgr s) (set_fs f (os s)).

Lemma upd_id s : upd s (fs (os s)) = s.
Proof. by destruct s as [m []]. Qed.

(** A call reads the tree it is given. *)
Lemma call_run {A} (k : Fs -> M St A) s :
  calm s -> (_ ← io; f ← get_fs; k f) s = k (fs (os s)) s.
Proof. intros Hc. rewrite (M_bind_Ok _ _ s tt s) by (by apply calm_io). done. Qed.

Lemma symlink_metadata_run p s : calm s ->
  symlink_metadata p s =
    (match fs (os s) !! p with Some n => Ok n | None => Err [Io NotFound] end, s).
Proof. intros Hc. unfold symlink_metadata. rewrite call_run by done. by destruct (fs (os s) !! p). Qed.

Lemma remove_path_run p s : calm s ->
  exists f, remove_path_if_exists p s = (Ok tt, upd s f) /\ f !! p = None /\
    forall q, under p q = false -> f !! q = fs (os s) !! q.
Proof.
  intros Hc. unfold remove_path_if_exists.
  unfold mbind at 1, M_bind, mbind_st, mtry. rewrite symlink_metadata_run by done.
  destruct (fs (os s) !! p) as [n|] eqn:E.
  - assert (Hdel : (delete p (fs (os s))) !! p = None /\
      forall q, under p q = false -> delete p (fs (os s)) !! q = fs (os s) !! q).
    { split; [apply lookup_delete_eq|]. intros q Hq. rewrite lookup_delete_ne; [done|].
      intros <-. by rewrite under_refl in Hq. }
    unfold mcontext. destruct n as [d| |t].
    + unfold remove_file. rewrite call_run, E by done. eauto.
    + unfold remove_dir_all. rewrite call_run, E by done.
      exists (remove_tree p (fs (os s))). split; [done|]. split.
      * by rewrite lookup_remove_tree, under_refl.
      * intros q Hq. by rewrite lookup_remove_tree, Hq.
    + unfold remove_file. rewrite call_run, E by done. eauto.
  - exists (fs (os s)). rewrite upd_id. done.
Qed.

Lemma clear_marker_run p s : calm s -> fs (os s) !! p <> Some NDir ->
  exists f, clear_marker p s = (Ok tt, upd s f) /\ f !! p = None /\
    forall q, q <> p -> f !! q = fs (os s) !! q.
Proof.
  intros Hc Hn. unfold clear_marker, remove_file. unfold mbind at 1, M_bind, mbind_st, mtry.
  rewrite call_run by done. destruct (fs (os s) !! p) as [[]|] eqn:E; try done.
  - exists (delete p (fs (os s))). split; [done|]. split; [apply lookup_delete_eq|].
    intros q Hq. by rewrite lookup_delete_ne.
  - exists (delete p (fs (os s))). split; [done|]. split; [apply lookup_delete_eq|].
    intros q Hq. by rewrite lookup_delete_ne.
  - exists (fs (os s)). rewrite upd_id. done.
Qed.

Definition dir_at (f : Fs) (p : path) : Prop := p = [] \/ f !! p = Some NDir.

Lemma dir_at_resolve f p : dir_at f p -> is_dir (resolve f p) = true.
Proof.
  intros [->|H]; [done|]. unfold resolve. destruct p; [done|]. cbn. by rewrite H.
Qed.

Lemma rename_run a b s n :
  calm s -> fs (os s) !! a = Some n -> fs (os s) !! b = None -> dir_at (fs (os s)) (parent b) ->
  rename a b s = (Ok tt, upd s (move_tree a b (fs (os s)))).
Proof.
  intros Hc Ha Hb Hd. unfold rename. rewrite call_run, Ha, Hb by done.
  rewrite (dir_at_resolve _ _ Hd). done.
Qed.

Lemma write_run p data s :
  calm s -> dir_at (fs (os s)) (parent p) ->
  fs (os s) !! p = None \/ (exists d, fs (os s) !! p = Some (NFile d)) ->
  write p data s = (Ok tt, upd s (<[p := NFile data]> (fs (os s)))).
Proof.
  intros Hc Hd Hp. unfold write. rewrite call_run, (dir_at_resolve _ _ Hd) by done. cbn.
  by destruct Hp as [->|[d ->]].
Qed.

(** The parent of a tree is outside every tree apart from it. *)
Lemma parent_apart a p : p <> [] -> apart a p -> under a (parent p) = false /\ a <> parent p.
Proof.
  intros Hp [Ha Hpa]. destruct (parent_under p Hp) as [Hpp _]. split.
  - destruct (under a (parent p)) eqn:E; [|done]. rewrite (under_trans _ _ _ E Hpp) in Ha. done.
  - intros ->. congruence.
Qed.

Lemma apart_below a b r : apart a b -> under a (b ++ r) = false.
Proof. intros H. apply (apart_under b a); [by apply apart_sym|apply under_app]. Qed.

Lemma apart_neq a b r : apart a b -> a <> b ++ r.
Proof. intros H ->. destruct H as [_ H]. by rewrite under_app in H. Qed.

Lemma strip_apart a b r : apart a b -> strip a (b ++ r) = None.
Proof. intros H. pose proof (apart_below a b r H) as E. unfold under in E. by destruct (strip a (b ++ r)). Qed.

(** What is below one tree is not below, nor the parent of, a tree apart from it. *)
Lemma below_apart_neq a b r t : apart a b -> a ++ r <> b ++ t.
Proof.
  intros Hab E. pose proof (apart_below b a r (apart_sym _ _ Hab)) as H.
  rewrite E, under_app in H. done.
Qed.

Lemma parent_neq_below root p t : p <> [] -> apart p root \/ p = root -> parent p <> root ++ t.
Proof.
  intros Hp Hcase E. assert (Hu : under root (parent p) = true) by (rewrite E; apply under_app).
  destruct Hcase as [Ha| ->].
  - destruct (parent_apart root p Hp (apart_sym _ _ Ha)). congruence.
  - destruct (parent_under root Hp). congruence.
Qed.

(** Reading a tree after it was moved, and after another one was. *)
Lemma move_tree_to a b f r : move_tree a b f !! (b ++ r) = f !! (a ++ r).
Proof. by rewrite lookup_move_tree, strip_below. Qed.

Lemma move_tree_from a b f r : apart a b -> move_tree a b f !! (a ++ r) = None.
Proof.
  intros H. rewrite lookup_move_tree, (strip_apart b a) by (by apply apart_sym). by rewrite under_app.
Qed.

(** ** Starting the runtime touches only the fallback marker *)

Definition OnlyFallback (c : SetupManager) (f0 : Fs) (s : St) : Prop :=
  same_layout c (mgr s) /\ forall q, q <> fallback_marker_file c -> fs (os s) !! q = f0 !! q.

Section only_fallback.
Context (own_pid : Z) (c : SetupManager) (f0 : Fs) (Hprod : test_mode c = false).

Lemma only_io : keeps (OnlyFallback c f0) io.
Proof. intros s Hs. unfold io. by destruct (io_faults (os s)) as [|[] l]. Qed.

Lemma only_remove : keeps (OnlyFallback c f0) (remove_file (fallback_marker_file c)).
Proof.
  unfold remove_file. apply keeps_bind; [apply only_io|]. intros _ s [Hm Hf].
  unfold mbind, M_bind, mbind_st, get_fs.
  destruct (fs (os s) !! fallback_marker_file c) as [[]|]; try done;
    (split; [done|]; intros q Hq; cbn; rewrite lookup_delete_ne; auto).
Qed.

Lemma only_clear : keeps (OnlyFallback c f0) clear_fallback_marker.
Proof.
  unfold clear_fallback_marker. apply keeps_get_mgr. intros s [Hs _].
  rewrite (same_layout_eq _ _ Hs). unfold clear_marker. cbn.
  apply keeps_bind; [apply keeps_try, only_remove|]. intros [|e|]; auto with keeps.
  destruct (is_not_found e); auto with keeps.
Qed.

Lemma only_launch : keeps (OnlyFallback c f0) launch_runtime.
Proof.
  unfold launch_runtime. apply keeps_get_mgr. intros s _. apply keeps_bind; [apply only_clear|].
  intros _. apply keeps_bind; [|by intros p s' Hs'].
  apply keeps_context. intros s' Hs'. unfold launch_namespaced_init.
  destruct (file_name _); [|done]. by destruct (clones (os s')).
Qed.

Lemma only_ensure : keeps (OnlyFallback c f0) (ensure_runtime_started own_pid).
Proof using Hprod.
  unfold ensure_runtime_started. apply keeps_get_mgr. intros s [Hs _].
  rewrite (same_layout_eq _ _ Hs). cbn. rewrite Hprod.
  destruct (inner_init_pid (mgr s)); [|apply only_launch].
  apply keeps_bind; [intros s' Hs'; unfold poll_runtime; by destruct (waits (os s'))|].
  intros []; [auto with keeps|]. apply keeps_bind; [by intros s' Hs'|]. intros _. apply only_launch.
Qed.
End only_fallback.

(** A launch when no file-system call fails: only [clone] decides. *)
Lemma launch_run s :
  calm s -> fs (os s) !! fallback_marker_file (mgr s) <> Some NDir ->
  file_name (fallback_marker_file (mgr s)) <> None ->
  exists f, (forall q, q <> fallback_marker_file (mgr s) -> f !! q = fs (os s) !! q) /\
    launch_runtime s =
      match clones (os s) with
      | [] => (Ok tt, mkSt (set_runtime (mgr s) (Some 2)) (set_fs f (os s)))
      | inl pid :: rest =>
          (Ok tt, mkSt (set_runtime (mgr s) (Some pid))
             (mkOs f (io_faults (os s)) (waits (os s)) rest (killed (os s))))
      | inr e :: rest =>
          (Err (Msg "launch namespaced runtime" :: Msg "clone pid+mount namespace" :: e),
           mkSt (mgr s) (mkOs f (io_faults (os s)) (waits (os s)) rest (killed (os s))))
      end.
Proof.
  intros Hc Hfb Hfn.
  destruct (clear_marker_run (fallback_marker_file (mgr s)) s Hc Hfb) as (f & Hrun & _ & Hf).
  exists f. split; [done|]. unfold launch_runtime.
  rewrite (M_bind_Ok get_mgr _ s (mgr s) s) by done.
  rewrite (M_bind_Ok clear_fallback_marker _ s tt (upd s f)).
  2:{ unfold clear_fallback_marker. by rewrite (M_bind_Ok get_mgr _ s (mgr s) s). }
  unfold mbind, M_bind, mbind_st, mcontext, launch_namespaced_init. cbn [os upd set_fs clones mgr].
  destruct (file_name (fallback_marker_file (mgr s))); [|done].
  destruct s as [m [? ? ? cl ?]]. cbn. by destruct cl as [|[pid|e] rest].
Qed.

(** The previous root moved back. *)
Lemma restore_run s d :
  LayoutOk (mgr s) -> calm s -> root_mount_dir (mgr s) <> [] -> provisioned_marker_file (mgr s) <> [] ->
  dir_at (fs (os s)) (parent (root_mount_dir (mgr s))) ->
  dir_at (fs (os s)) (parent (provisioned_marker_file (mgr s))) ->
  fs (os s) !! previous_root_mount_dir (mgr s) = Some NDir ->
  fs (os s) !! provisioned_marker_file (mgr s) = Some (NFile d) ->
  exists f, restore_previous_root true s = (Ok tt, upd s f) /\
    (forall r, f !! (root_mount_dir (mgr s) ++ r) = fs (os s) !! (previous_root_mount_dir (mgr s) ++ r)) /\
    f !! provisioned_marker_file (mgr s) = Some (NFile (as_bytes "1")) /\
    f !! previous_root_mount_dir (mgr s) = None /\ f !! staging_root_mount_dir (mgr s) = None.
Proof.
  intros HL Hc Hrne Hmne Hdr Hdm Hp Hm.
  set (root := root_mount_dir (mgr s)) in *. set (prev := previous_root_mount_dir (mgr s)) in *.
  set (marker := provisioned_marker_file (mgr s)) in *.
  destruct HL as [_ _ _ _ Hmr Hms Hmp Hrs Hrp Hsp _]. fold root prev marker in Hmr, Hms, Hmp, Hrs, Hrp, Hsp.
  set (staging := staging_root_mount_dir (mgr s)) in *.
  destruct (remove_path_run root s Hc) as (f1 & R1 & Hr1 & Hf1).
  assert (Hc1 : calm (upd s f1)) by done.
  assert (Hp1 : f1 !! prev = Some NDir) by (rewrite Hf1; [done|apply Hrp]).
  assert (Hdr1 : dir_at f1 (parent root)).
  { destruct Hdr as [?|Hd]; [by left|right]. rewrite Hf1; [done|]. by apply parent_under. }
  pose proof (rename_run prev root (upd s f1) NDir Hc1 Hp1 Hr1 Hdr1) as R2. cbn [os upd set_fs fs] in R2.
  set (f2 := move_tree prev root f1) in *.
  assert (Hm2 : f2 !! marker = Some (NFile d)).
  { unfold f2. rewrite move_tree_other; [|apply Hmp|apply Hmr]. rewrite Hf1; [done|apply Hmr]. }
  assert (Hdm2 : dir_at f2 (parent marker)).
  { destruct Hdm as [?|Hd]; [by left|right]. unfold f2.
    rewrite move_tree_other; [|by apply parent_apart, apart_sym|by apply parent_apart, apart_sym].
    rewrite Hf1; [done|by apply parent_apart, apart_sym]. }
  assert (R3 : store_provision_marker (upd s f2) =
    (Ok tt, upd s (<[marker := NFile (as_bytes "1")]> f2))).
  { unfold store_provision_marker. rewrite (M_bind_Ok get_mgr _ _ (mgr s) (upd s f2)) by done.
    apply mcontext_Ok. apply (write_run marker _ (upd s f2)); [done|done|]. right. eauto. }
  set (f3 := <[marker := NFile (as_bytes "1")]> f2) in *.
  destruct (remove_path_run staging (upd s f3) Hc) as (f4 & R4 & Hs4 & Hf4). cbn [os upd set_fs fs] in Hf4.
  assert (Hout : forall b r, apart marker b -> under staging (b ++ r) = false ->
    f4 !! (b ++ r) = f2 !! (b ++ r)).
  { intros b r Hb Hst. rewrite Hf4 by done. unfold f3. rewrite lookup_insert_ne; [done|].
    by apply apart_neq. }
  exists f4. split.
  - unfold restore_previous_root. rewrite (M_bind_Ok get_mgr _ s (mgr s) s) by done.
    rewrite (M_bind_Ok _ _ s tt (upd s f1)) by done.
    rewrite (M_bind_Ok (path_exists _) _ (upd s f1) true (upd s f1)) by (by apply path_exists_dir).
    cbn [andb]. rewrite (M_bind_Ok _ _ (upd s f1) tt (upd s f3)); [done|].
    rewrite (M_bind_Ok _ _ (upd s f1) tt (upd s f2)) by (apply mcontext_Ok; done). done.
  - split; [|split; [|split]].
    + intros r. rewrite Hout; [|done|by apply apart_below, apart_sym]. unfold f2.
      rewrite move_tree_to. rewrite Hf1; [done|]. by apply apart_below.
    + rewrite Hf4; [|apply Hms]. by apply lookup_insert_eq.
    + rewrite <- (app_nil_r prev). rewrite Hout; [|done|rewrite app_nil_r; apply Hsp].
      unfold f2. apply move_tree_from. by apply apart_sym.
    + done.
Qed.

(** A Ready manager in production with a new root staged, nothing failing. *)
Record Activatable (s : St) (fb : path) (d : list byte) : Prop := {
  ac_layout : LayoutOk (mgr s);
  ac_prod : test_mode (mgr s) = false;
  ac_calm : calm s;
  ac_names : root_mount_dir (mgr s) <> [] /\ previous_root_mount_dir (mgr s) <> [] /\
    provisioned_marker_file (mgr s) <> [];
  ac_root : fs (os s) !! root_mount_dir (mgr s) = Some NDir;
  ac_staging : fs (os s) !! staging_root_mount_dir (mgr s) = Some NDir;
  ac_parents : dir_at (fs (os s)) (parent (root_mount_dir (mgr s))) /\
    dir_at (fs (os s)) (parent (previous_root_mount_dir (mgr s))) /\
    dir_at (fs (os s)) (parent (provisioned_marker_file (mgr s)));
  ac_marker : fs (os s) !! provisioned_marker_file (mgr s) = Some (NFile d);
  ac_fallback : fallback_marker_file (mgr s) = root_mount_dir (mgr s) ++ fb /\ fb <> [];
  ac_fallback_old : fs (os s) !! (root_mount_dir (mgr s) ++ fb) <> Some NDir;
  ac_fallback_new : fs (os s) !! (staging_root_mount_dir (mgr s) ++ fb) <> Some NDir;
}.

Lemma stop_run s : calm s -> test_mode (mgr s) = false ->
  fs (os s) !! fallback_marker_file (mgr s) <> Some NDir ->
  exists f k, stop_runtime s = (Ok tt, mkSt (set_runtime (mgr s) None)
      (mkOs f (io_faults (os s)) (waits (os s)) (clones (os s)) k)) /\
    (forall q, q <> fallback_marker_file (mgr s) -> f !! q = fs (os s) !! q) /\
    f !! fallback_marker_file (mgr s) <> Some NDir.
Proof.
  intros Hc Ht Hfb. destruct s as [m o]. cbn in *. unfold stop_runtime.
  rewrite (M_bind_Ok get_mgr _ _ m (mkSt m o)) by done.
  destruct (inner_init_pid m) as [pid|] eqn:Ei.
  - rewrite (M_bind_Ok _ _ _ tt (mkSt (set_runtime m None) o)) by done. rewrite Ht.
    set (s2 := mkSt (set_runtime m None) (mkOs (fs o) (io_faults o) (waits o) (clones o) (killed o ++ [pid]))).
    rewrite (M_bind_Ok _ _ _ tt s2) by done.
    destruct (clear_marker_run (fallback_marker_file m) s2 Hc Hfb) as (f & R & Hn & Hf).
    exists f, (killed o ++ [pid]). split; [|split; [done|cbn in *; congruence]]. unfold clear_fallback_marker.
    by rewrite (M_bind_Ok get_mgr _ s2 (mgr s2) s2).
  - exists (fs o), (killed o). split; [|done]. destruct m, o. cbn in *. by subst.
Qed.

(** The root is replaced by the staged one and the marker is written. *)
Lemma swap_run s fb d :
  Activatable s fb d ->
  exists f k, (forall own_pid alternate, activate_staged_root own_pid alternate s =
      start_or_roll_back own_pid alternate true (mkSt (set_runtime (mgr s) None)
        (mkOs f (io_faults (os s)) (waits (os s)) (clones (os s)) k))) /\
    (forall r, r <> fb ->
       f !! (previous_root_mount_dir (mgr s) ++ r) = fs (os s) !! (root_mount_dir (mgr s) ++ r)) /\
    (forall r, f !! (root_mount_dir (mgr s) ++ r) = fs (os s) !! (staging_root_mount_dir (mgr s) ++ r)) /\
    f !! provisioned_marker_file (mgr s) = Some (NFile (as_bytes "1")) /\
    f !! (previous_root_mount_dir (mgr s) ++ fb) <> Some NDir /\
    dir_at f (parent (root_mount_dir (mgr s))) /\ dir_at f (parent (provisioned_marker_file (mgr s))).
Proof.
  intros [HL Ht Hc (Hrne & Hpne & Hmne) Hr Hst (Hdr & Hdp & Hdm) Hm [Hfb Hfbne] Hfo Hfn].
  destruct HL as [_ _ _ _ Hmr Hms Hmp Hrs Hrp Hsp _].
  destruct (stop_run s Hc Ht ltac:(by rewrite Hfb)) as (f0 & k & R0 & Hf0 & Hf0n).
  set (root := root_mount_dir (mgr s)) in *. set (prev := previous_root_mount_dir (mgr s)) in *.
  set (marker := provisioned_marker_file (mgr s)) in *.
  set (staging := staging_root_mount_dir (mgr s)) in *.
  set (st := fun f => mkSt (set_runtime (mgr s) None)
    (mkOs f (io_faults (os s)) (waits (os s)) (clones (os s)) k)).
  pose proof (fun b r => below_apart_neq b root r fb) as Hnfb.
  pose proof (fun p => parent_neq_below root p fb) as Hpfb.
  (* after stop_runtime *)
  assert (Hr0 : f0 !! root = Some NDir).
  { rewrite Hf0; [done|]. rewrite Hfb. intros E. rewrite <- (app_nil_r root) in E at 1.
    apply app_inv_head in E. by subst. }
  assert (Hst0 : forall r, f0 !! (staging ++ r) = fs (os s) !! (staging ++ r)).
  { intros r. apply Hf0. rewrite Hfb. apply Hnfb. by apply apart_sym. }
  (* previous removed *)
  destruct (remove_path_run prev (st f0) Hc) as (f1 & R1 & Hp1 & Hf1). cbn [os st fs] in Hf1.
  assert (Hr1 : forall r, f1 !! (root ++ r) = f0 !! (root ++ r))
    by (intros r; apply Hf1; apply apart_below, apart_sym; done).
  assert (Hr1d : f1 !! root = Some NDir) by (rewrite <- (app_nil_r root), Hr1, app_nil_r; done).
  assert (Hdp1 : dir_at f1 (parent prev)).
  { destruct Hdp as [?|Hd]; [by left|right]. rewrite Hf1 by (by apply parent_under).
    rewrite Hf0; [done|]. rewrite Hfb. apply Hpfb; [done|left; by apply apart_sym]. }
  (* root -> previous *)
  pose proof (rename_run root prev (st f1) NDir Hc Hr1d Hp1 Hdp1) as R2. cbn [os st fs] in R2.
  set (f2 := move_tree root prev f1) in *.
  assert (Hr2 : f2 !! root = None).
  { rewrite <- (app_nil_r root). by apply move_tree_from. }
  assert (Hst2 : forall r, f2 !! (staging ++ r) = fs (os s) !! (staging ++ r)).
  { intros r. unfold f2. rewrite move_tree_other by (apply apart_below; done || by apply apart_sym).
    rewrite Hf1 by (by apply apart_below, apart_sym). apply Hst0. }
  assert (Hst2d : f2 !! staging = Some NDir) by (rewrite <- (app_nil_r staging), Hst2, app_nil_r; done).
  assert (Hpar : forall p, p <> [] -> apart prev p -> (apart root p \/ p = root) ->
    dir_at (fs (os s)) (parent p) -> dir_at f2 (parent p)).
  { intros p Hp Hpp Hrp' [?|Hd]; [by left|right].
    assert (Hru : under root (parent p) = false)
      by (destruct Hrp' as [H| ->]; [by apply parent_apart|by apply parent_under]).
    destruct (parent_apart prev p Hp Hpp) as [Hpu _].
    unfold f2. rewrite move_tree_other, Hf1 by done. rewrite Hf0; [done|].
    rewrite Hfb. apply Hpfb; [done|]. destruct Hrp' as [H| ->]; [left; by apply apart_sym|by right]. }
  assert (Hdr2 : dir_at f2 (parent root)) by (apply Hpar; auto; by apply apart_sym).
  pose proof (rename_run staging root (st f2) NDir Hc Hst2d Hr2 Hdr2) as R3. cbn [os st fs] in R3.
  set (f3 := move_tree staging root f2) in *.
  assert (Hpar3 : forall p, p <> [] -> apart staging p -> apart root p \/ p = root ->
    dir_at f2 (parent p) -> dir_at f3 (parent p)).
  { intros p Hp Hsp' Hrp' [?|Hd]; [by left|right]. unfold f3.
    rewrite move_tree_other; [done|by apply parent_apart|].
    destruct Hrp' as [H| ->]; [by apply parent_apart|by apply parent_under]. }
  assert (Hdm3 : dir_at f3 (parent marker)).
  { apply Hpar3; [done|by apply apart_sym|left; by apply apart_sym|].
    apply Hpar; [done|by apply apart_sym|left; by apply apart_sym|done]. }
  assert (Hm3 : f3 !! marker = Some (NFile d)).
  { unfold f3. rewrite move_tree_other by (apply Hms || apply Hmr). unfold f2.
    rewrite move_tree_other by (apply Hmr || apply Hmp). rewrite Hf1 by apply Hmp.
    rewrite Hf0; [done|]. rewrite Hfb, <- (app_nil_r marker). by apply Hnfb. }
  assert (R4 : store_provision_marker (st f3) = (Ok tt, st (<[marker := NFile (as_bytes "1")]> f3))).
  { unfold store_provision_marker. rewrite (M_bind_Ok get_mgr _ _ (mgr (st f3)) (st f3)) by done.
    apply mcontext_Ok. apply (write_run marker _ (st f3)); [done|done|]. right. eauto. }
  exists (<[marker := NFile (as_bytes "1")]> f3), k.
  assert (Hnm : forall b r, apart marker b -> <[marker := NFile (as_bytes "1")]> f3 !! (b ++ r) = f3 !! (b ++ r))
    by (intros b r Hb; rewrite lookup_insert_ne; [done|by apply apart_neq]).
  split; [|split; [|split; [|split; [|split; [|split]]]]].
  - intros own_pid alternate. unfold activate_staged_root.
    rewrite (M_bind_Ok get_mgr _ s (mgr s) s) by done.
    rewrite (M_bind_Ok (path_exists _) _ s true s) by (by apply (path_exists_file marker d)).
    rewrite (M_bind_Ok (path_exists _) _ s true s) by (by apply path_exists_dir).
    cbn [orb]. rewrite (M_bind_Ok _ _ s tt (st f0)) by done.
    rewrite (M_bind_Ok _ _ (st f0) tt (st f1)) by done.
    rewrite (M_bind_Ok (path_exists _) _ (st f1) true (st f1)) by (by apply path_exists_dir).
    cbn [andb]. rewrite (M_bind_Ok _ _ (st f1) tt (st f2)) by (apply mcontext_Ok; done).
    rewrite (M_bind_Ok _ _ (st f2) (Ok tt) (st f3)).
    2:{ unfold mtry, mcontext. fold staging root. by rewrite R3. }
    by rewrite (M_bind_Ok _ _ (st f3) tt _ R4).
  - intros r Hrfb. rewrite Hnm by done. unfold f3.
    rewrite move_tree_other by (by apply apart_below || by apply apart_below, apart_sym).
    unfold f2. rewrite move_tree_to, Hr1, Hf0; [done|]. rewrite Hfb. intros E.
    by apply app_inv_head in E.
  - intros r. rewrite Hnm by done. unfold f3. by rewrite move_tree_to, Hst2.
  - by apply lookup_insert_eq.
  - rewrite Hnm by done. unfold f3.
    rewrite move_tree_other by (by apply apart_below || by apply apart_below, apart_sym).
    unfold f2. rewrite move_tree_to, Hr1, <- Hfb. done.
  - destruct (Hpar3 root Hrne) as [?|Hd]; [by apply apart_sym|by right|done|by left|right].
    rewrite lookup_insert_ne; [done|]. by apply (parent_apart marker root).
  - destruct Hdm3 as [?|Hd]; [by left|right]. rewrite lookup_insert_ne; [done|]. intros E.
    destruct (parent_under marker Hmne) as [_ Hn]. by rewrite <- E, under_refl in Hn.
Qed.

(** ** What a success says *)

(** A call that succeeded read the tree and did not change the manager. *)
Lemma call_inv {A} (k : Fs -> M St A) s a s' :
  (_ ← io; f ← get_fs; k f) s = (Ok a, s') ->
  exists s1, mgr s1 = mgr s /\ fs (os s1) = fs (os s) /\ k (fs (os s)) s1 = (Ok a, s').
Proof.
  intros H. apply M_bind_inv in H as ([] & s1 & Hio & H). apply io_inv in Hio as (Hm & Hf & _).
  exists s1. rewrite <- Hf. split_and!; [done|done|exact H].
Qed.

Lemma rename_inv a b s s' :
  rename a b s = (Ok tt, s') -> fs (os s') = move_tree a b (fs (os s)) /\ mgr s' = mgr s.
Proof.
  intros H. unfold rename in H. apply call_inv in H as (s1 & Hm & Hf & H).
  destruct (fs (os s) !! a) as [n|]; [|done]. destruct (negb _); [done|].
  assert (Hput : put_fs (move_tree a b (fs (os s))) s1 = (Ok tt, s') ->
    fs (os s') = move_tree a b (fs (os s)) /\ mgr s' = mgr s) by (intros [= <-]; done).
  destruct (fs (os s) !! b) as [[]|].
  - destruct (is_dir _); [done|auto].
  - destruct (_ && _); [auto|done].
  - destruct (is_dir _); [done|auto].
  - auto.
Qed.

Lemma write_inv p data s s' :
  (forall t, fs (os s) !! p <> Some (NSymlink t)) -> write p data s = (Ok tt, s') ->
  fs (os s') = <[p := NFile data]> (fs (os s)) /\ mgr s' = mgr s.
Proof.
  intros Hns H. unfold write in H. apply call_inv in H as (s1 & Hm & Hf & H).
  destruct (negb _); [done|].
  destruct (fs (os s) !! p) as [[]|] eqn:E; try done.
  - by injection H as <-.
  - by destruct (Hns target).
  - by injection H as <-.
Qed.

Lemma remove_inv p s s' :
  remove_path_if_exists p s = (Ok tt, s') ->
  fs (os s') !! p = None /\ mgr s' = mgr s /\
  forall q, under p q = false -> fs (os s') !! q = fs (os s) !! q.
Proof.
  intros H. unfold remove_path_if_exists in H. apply M_bind_inv in H as (r & s1 & Hr & H).
  apply mtry_inv, metadata_inv in Hr as (Hf1 & Hm1 & Hr).
  assert (Hdel : forall s2, mgr s2 = mgr s1 -> put_fs (delete p (fs (os s1))) s2 = (Ok tt, s') ->
    fs (os s') !! p = None /\ mgr s' = mgr s /\
    forall q, under p q = false -> fs (os s') !! q = fs (os s) !! q).
  { intros s2 Hm2 [= <-]. cbn. split; [apply lookup_delete_eq|]. split; [congruence|].
    intros q Hq. rewrite lookup_delete_ne; [by rewrite Hf1|]. intros <-. by rewrite under_refl in Hq. }
  destruct r as [n|e|]; [| |done].
  - assert (Hcase : remove_dir_all p s1 = (Ok tt, s') \/ remove_file p s1 = (Ok tt, s'))
      by (destruct n; apply mcontext_Ok in H; auto).
    destruct Hcase as [H'|H']; apply call_inv in H' as (s2 & Hm2 & Hf2 & H').
    + destruct (fs (os s1) !! p) as [[]|]; try done; [|by apply (Hdel s2)].
      injection H' as <-. cbn. split; [by rewrite lookup_remove_tree, under_refl|].
      split; [congruence|]. intros q Hq. by rewrite lookup_remove_tree, Hq, Hf1.
    + destruct (fs (os s1) !! p) as [[]|]; try done; by apply (Hdel s2).
  - destruct (is_not_found e) eqn:E; [|done]. injection H as <-.
    destruct Hr as [->|[_ Hn]]; [done|]. rewrite Hf1. done.
Qed.

Lemma launch_inv s s' : launch_runtime s = (Ok tt, s') -> inner_init_pid (mgr s') <> None.
Proof.
  intros H. apply M_bind_inv in H as (? & ? & _ & H). apply M_bind_inv in H as (? & ? & _ & H).
  apply M_bind_inv in H as (pid & s3 & _ & H). injection H as <-. done.
Qed.

Lemma ensure_inv own_pid s s' :
  ensure_runtime_started own_pid s = (Ok tt, s') -> inner_init_pid (mgr s') <> None.
Proof.
  intros H. apply M_bind_inv in H as (self & s1 & [= <- <-] & H). destruct (test_mode (mgr s)).
  { apply M_bind_inv in H as (? & ? & _ & H). by injection H as <-. }
  destruct (inner_init_pid (mgr s)) as [pid|] eqn:E; [|by apply launch_inv in H].
  apply M_bind_inv in H as (poll & s2 & Hp & H).
  assert (Hm : mgr s2 = mgr s).
  { unfold poll_runtime in Hp. destruct (waits (os s)); by injection Hp as _ <-. }
  destruct poll; [injection H as <-; congruence|].
  apply M_bind_inv in H as (? & ? & _ & H). by apply launch_inv in H.
Qed.

(** The trees outside the root and the previous root are not touched. *)
Definition Elsewhere (c : SetupManager) (f0 : Fs) (s : St) : Prop :=
  same_layout c (mgr s) /\
  forall q, under (root_mount_dir c) q = false -> under (previous_root_mount_dir c) q = false ->
    fs (os s) !! q = f0 !! q.

Lemma elsewhere_stop c f0 s : LayoutOk c -> Elsewhere c f0 s -> Elsewhere c f0 (snd (stop_runtime s)).
Proof.
  intros HL [Hs Hf]. unfold stop_runtime, mbind, M_bind, mbind_st, get_mgr, put_runtime.
  destruct (inner_init_pid (mgr s)); [|done]. cbn. destruct (test_mode (mgr s)); [done|]. cbn.
  set (s2 := mkSt _ _).
  assert (H2 : OnlyFallback c (fs (os s)) s2) by done.
  pose proof (only_clear c (fs (os s)) s2 H2) as [Hs' Hf']. split; [done|].
  intros q Hr Hp. rewrite Hf'; [auto|]. intros ->. rewrite (lo_fallback _ HL) in Hr. done.
Qed.

(** The staged tree is where the root was, once the second rename succeeded. *)
Lemma activate_inv own_pid alternate s s' :
  LayoutOk (mgr s) ->
  (forall t, fs (os s) !! provisioned_marker_file (mgr s) <> Some (NSymlink t)) ->
  activate_staged_root own_pid alternate s = (Ok tt, s') ->
  exists b s1, start_or_roll_back own_pid alternate b s1 = (Ok tt, s') /\
    same_layout (mgr s) (mgr s1) /\
    (forall r, fs (os s1) !! (root_mount_dir (mgr s) ++ r) =
               fs (os s) !! (staging_root_mount_dir (mgr s) ++ r)) /\
    fs (os s1) !! provisioned_marker_file (mgr s) = Some (NFile (as_bytes "1")).
Proof.
  intros HL Hns H. unfold activate_staged_root in H.
  apply M_bind_inv in H as (self & s0 & [= <- <-] & H).
  apply M_bind_inv in H as (marker & sa & Ha%path_exists_inv & H). destruct Ha as (_ & Hma & Hfa).
  apply M_bind_inv in H as (root & sb & Hb%path_exists_inv & H). destruct Hb as (_ & Hmb & Hfb).
  apply M_bind_inv in H as ([] & s1 & H1 & H).
  assert (E0 : Elsewhere (mgr s) (fs (os s)) sb).
  { split; [by rewrite Hmb, Hma|]. intros q _ _. by rewrite Hfb, Hfa. }
  pose proof (elsewhere_stop (mgr s) (fs (os s)) sb HL E0) as E1. rewrite H1 in E1. cbn in E1.
  apply M_bind_inv in H as ([] & s2 & H2%remove_inv & H). destruct H2 as (_ & Hm2 & Hf2).
  assert (E2 : Elsewhere (mgr s) (fs (os s)) s2).
  { destruct E1 as [Hs1 Hf1]. split; [by rewrite Hm2|]. intros q Hr Hp. rewrite Hf2 by done. auto. }
  apply M_bind_inv in H as (root' & sc & Hc%path_exists_inv & H). destruct Hc as (_ & Hmc & Hfc).
  apply M_bind_inv in H as ([] & s3 & H3 & H).
  assert (E2' : Elsewhere (mgr s) (fs (os s)) sc).
  { destruct E2 as [Hs2 Hf2']. split; [by rewrite Hmc|]. intros q Hr Hp. rewrite Hfc. auto. }
  assert (E3 : Elsewhere (mgr s) (fs (os s)) s3).
  { destruct ((marker || root) && root'); [|by injection H3 as <-].
    apply mcontext_Ok, rename_inv in H3 as [Hf3 Hm3]. destruct E2' as [Hs2 Hf2'].
    split; [by rewrite Hm3|]. intros q Hr Hp. rewrite Hf3, move_tree_other; auto. }
  apply M_bind_inv in H as (renamed & s4 & H4%mtry_inv & H).
  destruct renamed as [[]|e|]; [|by apply M_bind_inv in H as (? & ? & _ & H)|done].
  apply mcontext_Ok, rename_inv in H4 as [Hf4 Hm4].
  apply M_bind_inv in H as ([] & s5 & H5 & H).
  destruct E3 as [Hs3 Hf3]. pose proof HL as [_ _ _ _ Hmr Hms Hmp Hrs Hrp Hsp _].
  unfold store_provision_marker in H5. apply M_bind_inv in H5 as (self & s0 & [= <- <-] & H5).
  rewrite Hm4 in H5. rewrite (same_layout_eq _ _ Hs3) in H5. cbn in H5.
  apply mcontext_Ok, write_inv in H5 as [Hf5 Hm5].
  2:{ intros t. rewrite Hf4, move_tree_other, Hf3; [apply Hns|apply Hmr|apply Hmp|apply Hms|apply Hmr]. }
  exists ((marker || root) : bool), s5. split; [exact H|]. split; [by rewrite Hm5, Hm4|]. split.
  - intros r. rewrite Hf5, lookup_insert_ne by (by apply apart_neq). rewrite Hf4, move_tree_to.
    apply Hf3; [by apply apart_below|by apply apart_below, apart_sym].
  - rewrite Hf5. by apply lookup_insert_eq.
Qed.

(** ** Properties *)

Lemma kept_self s strict :
  (forall t, fs (os s) !! provisioned_marker_file (mgr s) <> Some (NSymlink t)) ->
  (strict = true -> io_faults (os s) = []) -> Kept (mgr s) strict (fs (os s)) s.
Proof. intros Ht Hc. by split; [|left| |]. Qed.

(** What is below a directory of a tree is there because the directory is. *)
Definition Tree (f : Fs) : Prop :=
  forall p x, p <> [] -> is_Some (f !! (p ++ [x])) -> f !! p = Some NDir.

Lemma tree_above f p rest : Tree f -> p <> [] -> is_Some (f !! (p ++ rest)) -> is_Some (f !! p).
Proof.
  intros Ht Hp. induction rest as [|x rest IH] using rev_ind; intros Hs; [by rewrite app_nil_r in Hs|].
  apply IH. rewrite app_assoc in Hs. apply Ht in Hs; [eauto|]. intros [E _]%app_nil. done.
Qed.

Lemma detect_state_inv s r s' : detect_state s = (r, s') ->
  (exists v, r = Ok v) /\ mgr s' = mgr s /\ fs (os s') = fs (os s).
Proof.
  unfold detect_state. rewrite (M_bind_Ok get_mgr _ s (mgr s) s) by done. unfold mbind, M_bind, mbind_st.
  destruct (path_exists _ s) as [r1 s1] eqn:E. apply path_exists_inv in E as ([b ->] & Hm & Hf).
  intros [= <- <-]. eauto.
Qed.

(** The system, with no more failures to come. *)
Definition mend (s : St) : St :=
  mkSt (mgr s) (mkOs (fs (os s)) [] (waits (os s)) (clones (os s)) (killed (os s))).

(** C5: The persistent directories survive.  Whatever [setup_and_prepare] is asked
    to do, whichever of its file-system calls fail (a failed stat that reads as a
    missing path too), whatever [waitpid] and [clone] answer and whether it succeeds
    or not, every file and directory in the persistent directories (the home
    directories of the machine) is there afterwards as it was; and nothing is added to
    them when they exist and no call fails.  This is for configured paths that do not
    contain one another, and a marker file that is not a symbolic link. *)
Theorem persistent_dirs_survive `{TarGzLaws} own_pid alternate tarball s q :
  LayoutOk (mgr s) -> Tree (fs (os s)) ->
  (forall t, fs (os s) !! provisioned_marker_file (mgr s) <> Some (NSymlink t)) ->
  protected (mgr s) q ->
  let s' := snd (setup_and_prepare own_pid alternate tarball s) in
  (forall n, fs (os s) !! q = Some n -> fs (os s') !! q = Some n) /\
  (io_faults (os s) = [] ->
   (forall m, m ∈ persistent_mounts (mgr s) -> fs (os s) !! source m = Some NDir) ->
   fs (os s') !! q = fs (os s) !! q).
Proof.
  intros HL Htree Hm Hq s'. subst s'.
  assert (Hin : forall m q, m ∈ persistent_mounts (mgr s) -> under (source m) q = true ->
    is_Some (fs (os s) !! q) -> is_Some (fs (os s) !! source m)).
  { intros m p Hmm [rest ->]%under_true Hp. eapply tree_above; [done| |exact Hp]. by eapply source_nonempty. }
  split.
  - intros n Hn.
    pose proof (kept_setup own_pid alternate (mgr s) false (fs (os s)) HL Hin ltac:(done) tarball s
      (kept_self s false Hm ltac:(done))) as HK.
    destruct (kept_sources _ _ _ _ HK q Hq) as [E|[_ E]]; [by rewrite E|congruence].
  - intros Hc Hd.
    pose proof (kept_setup own_pid alternate (mgr s) true (fs (os s)) HL Hin (fun _ => Hd) tarball s
      (kept_self s true Hm (fun _ => Hc))) as HK.
    by destruct (kept_sources _ _ _ _ HK q Hq) as [E|[? _]].
Qed.

(** C6: What a successful provisioning leaves.  If uploading a root succeeds in
    production, on a cold machine or a provisioned one and whatever failed and was
    tolerated on the way, then the staged tree is the root, file for file (but for
    the fallback marker), the previous root is gone, the runtime has a pid, and the
    marker is written, which is what makes the machine Ready.  The configured paths do
    not contain one another, and the marker file is not a symbolic link. *)
Theorem provisioning_activates_the_staged_root `{TarGzLaws} own_pid alternate data s s' :
  LayoutOk (mgr s) -> test_mode (mgr s) = false ->
  (forall t, fs (os s) !! provisioned_marker_file (mgr s) <> Some (NSymlink t)) ->
  setup_and_prepare own_pid alternate (Some data) s = (Ok tt, s') ->
  exists s0 staged, s0 = snd (detect_state s) /\ stage_rootfs data s0 = (Ok tt, staged) /\
    (forall r, root_mount_dir (mgr s) ++ r <> fallback_marker_file (mgr s) ->
       fs (os s') !! (root_mount_dir (mgr s) ++ r) =
       fs (os staged) !! (staging_root_mount_dir (mgr s) ++ r)) /\
    fs (os s') !! previous_root_mount_dir (mgr s) = None /\
    inner_init_pid (mgr s') <> None /\
    fs (os s') !! provisioned_marker_file (mgr s) = Some (NFile (as_bytes "1")) /\
    detect_state (mend s') = (Ok Ready, mend s').
Proof.
  intros HL Hprod Hns Hrun. unfold setup_and_prepare in Hrun.
  apply M_bind_inv in Hrun as (state & s0 & Hd & Hrun).
  pose proof (detect_state_inv s _ _ Hd) as (_ & Hm0 & Hf0).
  cbn [negb] in Hrun. rewrite andb_false_r in Hrun.
  apply M_bind_inv in Hrun as ([] & staged & Hst & Hrun). exists s0, staged. rewrite Hd. split; [done|]. split; [done|].
  assert (HK0 : Kept (mgr s) false ∅ s0)
    by (split; [by rewrite Hm0|intros q _; right; by rewrite lookup_empty|intros t; by rewrite Hf0|done]).
  pose proof (kept_stage (mgr s) false ∅ HL) as HK. specialize (HK ltac:(intros ? q _ _ [? Hq]; by rewrite lookup_empty in Hq)).
  specialize (HK ltac:(done) data s0 HK0). rewrite Hst in HK. destruct HK as [Hlay _ Hns1 _]. cbn in Hlay, Hns1.
  assert (Hm : mgr staged = set_runtime (mgr s) (inner_init_pid (mgr staged))) by (by apply same_layout_eq).
  assert (HL1 : LayoutOk (mgr staged)) by (rewrite Hm; by destruct HL).
  apply activate_inv in Hrun as (b & s1 & Hrun & Hlay1 & Hroot & Hmark); [|done|by rewrite Hm].
  rewrite Hm in Hroot, Hmark. cbn in Hroot, Hmark.
  assert (Hm1 : mgr s1 = set_runtime (mgr s) (inner_init_pid (mgr s1))).
  { apply same_layout_eq. unfold same_layout in *. by rewrite Hlay1, Hlay. }
  unfold start_or_roll_back in Hrun. apply M_bind_inv in Hrun as (self & s2 & [= <- <-] & Hrun).
  apply M_bind_inv in Hrun as (started & s2 & Hens%mtry_inv & Hrun).
  destruct started as [[]|e|]; [| |done].
  2:{ apply M_bind_inv in Hrun as (re & ? & _ & Hrun). apply M_bind_inv in Hrun as (? & ? & _ & Hrun).
      by destruct re. }
  pose proof (only_ensure own_pid (mgr s) (fs (os s1)) Hprod s1) as HO. rewrite Hens in HO.
  destruct HO as [Hlay2 Hf2]; [split; [|done]; rewrite Hm1; by destruct (mgr s)|]. cbn in Hlay2, Hf2.
  apply ensure_inv in Hens. rewrite Hm1 in Hrun. cbn in Hrun. apply remove_inv in Hrun as (Hp & Hm3 & Hf3).
  pose proof HL as [_ _ _ _ Hmr _ Hmp _ Hrp _ Hfb].
  assert (Hmark' : fs (os s') !! provisioned_marker_file (mgr s) = Some (NFile (as_bytes "1"))).
  { rewrite Hf3, Hf2; [done| |apply Hmp].
    intros E. rewrite E in Hmr. destruct Hmr as [_ Hmr]. congruence. }
  split; [|split; [done|split; [by rewrite Hm3|split; [done|]]]].
  - intros r Hr. rewrite Hf3 by (by apply apart_below, apart_sym). rewrite Hf2 by done. apply Hroot.
  - unfold detect_state. rewrite (M_bind_Ok get_mgr _ (mend s') (mgr s') (mend s')) by done.
    rewrite Hm3, (same_layout_eq _ _ Hlay2). cbn.
    rewrite (M_bind_Ok _ _ (mend s') true (mend s')); [done|].
    apply (path_exists_file _ (as_bytes "1")); [done| |done].
    intros E. destruct Hmr as [Hmr _]. by rewrite E in Hmr.
Qed.

(** C7: A failed activation is rolled back.  When a Ready machine's new root is in
    place but its init cannot be started, [activate_staged_root] returns that
    error and the old root is back, file for file (but for the fallback marker),
    the marker is there, and no staged or previous root is left. *)
Theorem failed_start_restores_the_previous_root own_pid alternate s fb d e rest :
  Activatable s fb d -> clones (os s) = inr e :: rest ->
  exists err s', activate_staged_root own_pid alternate s = (Err err, s') /\
    err = Msg "start new runtime after rootfs activation" :: Msg "launch namespaced runtime" ::
          Msg "clone pid+mount namespace" :: e /\
    (forall r, r <> fb -> fs (os s') !! (root_mount_dir (mgr s) ++ r) =
                          fs (os s) !! (root_mount_dir (mgr s) ++ r)) /\
    fs (os s') !! provisioned_marker_file (mgr s) = Some (NFile (as_bytes "1")) /\
    fs (os s') !! previous_root_mount_dir (mgr s) = None /\
    fs (os s') !! staging_root_mount_dir (mgr s) = None.
Proof.
  intros HA Hcl. destruct (swap_run s fb d HA) as (f & k & Hrun & Hprev & Hroot & Hmark & Hpfb & Hdr & Hdm).
  destruct HA as [HL Ht Hc (Hrne & Hpne & Hmne) Hr Hst _ Hm [Hfb Hfbne] Hfo Hfn].
  rewrite Hrun. clear Hrun. set (s1 := mkSt _ _).
  assert (Hname : file_name (fallback_marker_file (mgr s)) <> None).
  { rewrite Hfb. unfold file_name. rewrite rev_app_distr. destruct fb as [|x l] using rev_ind; [done|].
    rewrite rev_app_distr. done. }
  assert (Hneq : forall b r, apart b (root_mount_dir (mgr s)) -> b ++ r <> fallback_marker_file (mgr s))
    by (intros b r Hb; rewrite Hfb; by apply below_apart_neq).
  assert (Hpar : forall p, p <> [] -> apart p (root_mount_dir (mgr s)) \/ p = root_mount_dir (mgr s) ->
    parent p <> fallback_marker_file (mgr s)) by (intros p Hp Hcase; rewrite Hfb; by apply parent_neq_below).
  pose proof (lo_marker_root _ HL) as Hmr. pose proof (lo_root_previous _ HL) as Hrp.
  assert (Hfb1 : f !! fallback_marker_file (mgr s) <> Some NDir) by (rewrite Hfb, Hroot; done).
  destruct (launch_run s1) as (f2 & Hf2 & R2); [done|done|done|]. cbn [s1 os clones] in R2.
  rewrite Hcl in R2. cbn [s1 os fs mgr] in Hf2. set (s2 := mkSt _ _) in R2.
  destruct (restore_run s2 (as_bytes "1")) as (f3 & R3 & Hr3 & Hm3 & Hp3 & Hs3); try done.
  - by destruct HL.
  - destruct Hdr as [?|Hd]; [by left|right]. cbn. rewrite Hf2; [done|]. apply Hpar; [done|by right].
  - destruct Hdm as [?|Hd]; [by left|right]. cbn. rewrite Hf2; [done|]. apply Hpar; [done|by left].
  - cbn. rewrite Hf2 by (rewrite <- (app_nil_r (previous_root_mount_dir _)); apply Hneq; by apply apart_sym).
    rewrite <- (app_nil_r (previous_root_mount_dir _)), Hprev, app_nil_r; [done|congruence].
  - cbn. rewrite Hf2; [done|]. rewrite <- (app_nil_r (provisioned_marker_file _)). by apply Hneq.
  - cbn [s2 os fs mgr set_runtime root_mount_dir previous_root_mount_dir staging_root_mount_dir
      provisioned_marker_file] in Hr3, Hm3, Hp3, Hs3.
    assert (Hfb3 : f3 !! fallback_marker_file (mgr s) <> Some NDir).
    { rewrite Hfb, Hr3, Hf2; [done|]. apply Hneq. by apply apart_sym. }
    destruct (launch_run (upd s2 f3)) as (f4 & Hf4 & R4); [done|done|done|].
    change (forall q, q <> fallback_marker_file (mgr s) -> f4 !! q = f3 !! q) in Hf4.
    assert (Hens : forall t, mgr t = set_runtime (mgr s) None ->
      ensure_runtime_started own_pid t = launch_runtime t).
    { intros t Hm'. unfold ensure_runtime_started. rewrite (M_bind_Ok get_mgr _ t (mgr t) t) by done.
      by rewrite Hm'; cbn; rewrite Ht. }
    assert (Hlast : exists s4, mtry (ensure_runtime_started own_pid) (upd s2 f3) =
        (Ok (fst (ensure_runtime_started own_pid (upd s2 f3))), s4) /\ fs (os s4) = f4).
    { unfold mtry. rewrite Hens, R4 by done. cbn. destruct rest as [|[]]; eexists; done. }
    destruct Hlast as (s4 & R5 & Hs4). eexists _, s4. split; [|split; [reflexivity|]].
    + unfold start_or_roll_back. rewrite (M_bind_Ok get_mgr _ s1 (mgr s1) s1) by done.
      eapply eq_trans; [apply (M_bind_Ok (mtry _) _ s1 (Err (Msg "launch namespaced runtime" ::
        Msg "clone pid+mount namespace" :: e)) s2); unfold mtry; by rewrite Hens, R2|]. cbn beta iota.
      rewrite (M_bind_Ok (mtry _) _ s2 (Ok tt) (upd s2 f3)) by (unfold mtry; by rewrite R3).
      rewrite (M_bind_Ok _ _ (upd s2 f3) tt s4); [done|]. by rewrite (M_bind_Ok _ _ _ _ _ R5).
    + rewrite Hs4. split; [|split; [|split]].
      * intros r Hr'. rewrite Hf4 by (rewrite Hfb; intros E; by apply app_inv_head in E).
        rewrite Hr3, Hf2 by (apply Hneq; by apply apart_sym). by apply Hprev.
      * rewrite Hf4; [done|]. rewrite <- (app_nil_r (provisioned_marker_file _)). by apply Hneq.
      * rewrite Hf4; [done|]. rewrite <- (app_nil_r (previous_root_mount_dir _)). apply Hneq. by apply apart_sym.
      * rewrite Hf4; [done|]. rewrite <- (app_nil_r (staging_root_mount_dir _)). apply Hneq.
        apply apart_sym, HL.
Qed.

(** A reader that puts the archive's bytes into one file. *)
#[export] Instance one_file_targz : TarGz := {|
  unpack target data f := (Ok tt, <[target ++ ["bin"] := NFile data]> f);
|}.

#[export] Instance one_file_targz_laws : TarGzLaws.
Proof.
  split; intros target; intros; cbn.
  - rewrite lookup_insert_ne; [done|]. intros <-. by rewrite under_app in H.
  - rewrite lookup_insert_ne; [done|]. intros E. rewrite <- (app_nil_r target) in E at 2.
    by apply app_inv_head in E.
Qed.

Definition demo_setup : SetupManager :=
  SetupManager_new ["data"] ["data"; "rootfs"] ["sbin"; "init"] false.

Definition demo_fs (extra : list (path * Node)) : Fs :=
  list_to_map ([(["data"], NDir); (["data"; "rootfs"], NDir); (["data"; "rootfs"; "old"], NFile [])] ++ extra).

Definition demo_state (extra : list (path * Node)) (clones : list (Z + Error)) : St :=
  mkSt demo_setup (mkOs (demo_fs extra) [] [] clones []).

(** A failed first provisioning can leave the machine Ready: when it was Cold
    (no marker) but a root directory existed, and the new init cannot be started,
    [setup_and_prepare] returns an error, yet the rollback writes the marker, so
    the machine now reports Ready with a root that was never provisioned. *)
Theorem failed_provisioning_of_a_cold_machine_leaves_it_ready data (e : Error) :
  exists s s',
    detect_state s = (Ok Cold, s) /\
    (exists err, setup_and_prepare 1 (fun _ => "") (Some data) s = (Err err, s')) /\
    detect_state s' = (Ok Ready, s') /\
    fs (os s') !! ["data"; "rootfs"; "old"] = Some (NFile []) /\
    fs (os s') !! ["data"; "rootfs"; "bin"] = None.
Proof.
  exists (demo_state [] [inr e; inr e]).
  eexists. split; [vm_compute; reflexivity|]. split; [eexists; vm_compute; reflexivity|].
  split; [vm_compute; reflexivity|]. split; vm_compute; reflexivity.
Qed.

(** ** Witnesses *)

Lemma demo_layout : LayoutOk demo_setup.
Proof.
  split; try (vm_compute; done);
    intros m Hm; repeat (apply elem_of_cons in Hm as [->|Hm]; [vm_compute; done|]);
    by apply elem_of_nil in Hm.
Qed.

Definition demo_persist : list (path * Node) :=
  [(["data"; "persist"], NDir); (["data"; "persist"; "root"], NDir); (["data"; "persist"; "home"], NDir);
   (["data"; "persist"; "home"; "notes"], NFile (as_bytes "keep"))].

Lemma demo_sources m : m ∈ persistent_mounts demo_setup ->
  demo_fs demo_persist !! source m = Some NDir /\ source m <> [].
Proof.
  intros Hm. repeat (apply elem_of_cons in Hm as [->|Hm]; [vm_compute; done|]).
  by apply elem_of_nil in Hm.
Qed.

(** A tree is decided by its finitely many entries. *)
Definition treeb (f : Fs) : bool :=
  forallb (fun '(p, _) => match parent p with
                          | [] => true
                          | d => bool_decide (f !! d = Some NDir)
                          end) (map_to_list f).

Lemma treeb_tree f : treeb f = true -> Tree f.
Proof.
  intros Hf p x Hp [n Hn]. unfold treeb in Hf. rewrite forallb_forall in Hf.
  specialize (Hf (p ++ [x], n) ltac:(apply list_elem_of_In, elem_of_map_to_list; exact Hn)). cbn in Hf.
  unfold parent in Hf. rewrite removelast_last in Hf. destruct p; [done|]. by apply bool_decide_eq_true in Hf.
Qed.

(** A stat that fails once loses the root of a Ready machine: [activate_staged_root]
    takes the root for missing and does not move it away, the staged root cannot be
    renamed over it, and the rollback removes it and clears the marker. *)
Theorem a_failed_stat_loses_the_root data :
  exists s s',
    io_faults (os s) = repeat false 17 ++ [true] /\ detect_state (mend s) = (Ok Ready, mend s) /\
    fs (os s) !! ["data"; "rootfs"; "old"] = Some (NFile []) /\
    (exists err, setup_and_prepare 1 (fun _ => "") (Some data) s = (Err err, s')) /\
    detect_state (mend s') = (Ok Cold, mend s') /\ fs (os s') !! ["data"; "rootfs"] = None.
Proof.
  exists (mkSt demo_setup (mkOs (demo_fs (demo_persist ++ [(["data"; ".provisioned"], NFile [])]))
    (repeat false 17 ++ [true]) [] [] [])).
  eexists. split; [reflexivity|]. split; [vm_compute; reflexivity|]. split; [vm_compute; reflexivity|].
  split; [eexists; vm_compute; reflexivity|]. split; vm_compute; reflexivity.
Qed.

(** Stats fail, calls fail, and so does the launch; the second clause without. *)
Lemma persistent_dirs_survive_witness :
  let s := mkSt demo_setup (mkOs (demo_fs demo_persist) [true; false; true; false; false; true; false; true] [] [inr []] []) in
  let t := demo_state demo_persist [] in
  fs (os (snd (setup_and_prepare 1 (fun _ => "") (Some []) s))) !! ["data"; "persist"; "home"; "notes"]
  = Some (NFile (as_bytes "keep")) /\
  fs (os (snd (setup_and_prepare 1 (fun _ => "") (Some []) t))) !! ["data"; "persist"; "home"; "new"] = None.
Proof.
  intros s t. assert (Hp : forall q, under ["data"; "persist"; "home"] q = true -> protected demo_setup q)
    by (intros q Hq; exists (mkMount ["data"; "persist"; "home"] ["home"]); split; [right; left|exact Hq]).
  split.
  - destruct (persistent_dirs_survive 1 (fun _ => "") (Some []) s ["data"; "persist"; "home"; "notes"])
      as [H _]; [..|apply H; vm_compute; reflexivity].
    + exact demo_layout.
    + apply treeb_tree. vm_compute. reflexivity.
    + intros m. vm_compute. done.
    + apply Hp. vm_compute. reflexivity.
  - transitivity (fs (os t) !! ["data"; "persist"; "home"; "new"]); [|vm_compute; reflexivity].
    destruct (persistent_dirs_survive 1 (fun _ => "") (Some []) t ["data"; "persist"; "home"; "new"])
      as [_ H]; [..|apply H; [reflexivity|intros m Hm; apply demo_sources, Hm]].
    + exact demo_layout.
    + apply treeb_tree. vm_compute. reflexivity.
    + intros m. vm_compute. done.
    + apply Hp. vm_compute. reflexivity.
Defined.

(** The first provisioning of a cold machine: there is no root and no persistent
    directory. *)
Lemma provisioning_activates_the_staged_root_witness :
  let s := mkSt demo_setup (mkOs {[ ["data"] := NDir ]} [] [] [] []) in
  exists s', setup_and_prepare 1 (fun _ => "") (Some []) s = (Ok tt, s') /\
    fs (os s') !! ["data"; "rootfs"; "bin"] = Some (NFile []) /\
    detect_state (mend s') = (Ok Ready, mend s').
Proof.
  intros s. destruct (setup_and_prepare 1 (fun _ => "") (Some []) s) as [r s'] eqn:E.
  assert (r = Ok tt) as -> by (change r with (fst (r, s')); rewrite <- E; vm_compute; reflexivity).
  exists s'. split; [done|].
  destruct (provisioning_activates_the_staged_root 1 (fun _ => "") [] s s')
    as (s0 & staged & Hs0 & Hst & Hroot & _ & _ & _ & H);
    [exact demo_layout|reflexivity|intros t; vm_compute; done|exact E|].
  split; [|exact H]. change ["data"; "rootfs"; "bin"] with (root_mount_dir (mgr s) ++ ["bin"]).
  rewrite Hroot by (vm_compute; done). change staged with (snd (Ok tt, staged)). rewrite <- Hst, Hs0.
  vm_compute. reflexivity.
Defined.

Lemma failed_start_restores_the_previous_root_witness :
  let s := demo_state [(["data"; ".provisioned"], NFile []); (["data"; "rootfs.staging"], NDir)] [inr []] in
  exists err s', activate_staged_root 1 (fun _ => "") s = (Err err, s') /\
    fs (os s') !! ["data"; "rootfs"; "old"] = Some (NFile []).
Proof.
  intros s.
  destruct (failed_start_restores_the_previous_root 1 (fun _ => "") s [".fly-vault-fallback-init"] [] [] [])
    as (err & s' & Hrun & _ & Hold & _); [split; try done|reflexivity|].
  - exact demo_layout.
  - split_and!; right; vm_compute; reflexivity.
  - exists err, s'. split; [exact Hrun|]. etransitivity; [exact (Hold ["old"] ltac:(done))|vm_compute; reflexivity].
Defined.
