(* ===== verification/ChildInit.v ===== *)
(** * The child that becomes the machine's init ([crates/init/src/setup.rs])

    [child_bootstrap] runs in the new mount and pid namespaces: it binds the root
    and the persistent directories, pivots into the root, detaches the old one and
    executes the init, or stays as a fallback init that reaps.  A mount namespace
    is the directory its paths start from and its mounts; the files below are the
    file system of [Setup], which the parent sees too.  Any system call may fail. *)

From S2P Require Import Prelude Protocol Setup.

(** ** Mount namespaces *)

(** [private]: mounts made here are not propagated.  A mount is where it is
    attached, in the tree the namespace started with, and the directory below that
    it shows; the latest comes first. *)
Record Ns := mkNs {
  ns_root : path;
  mounts : list (path * path);
  private : bool;
}.

Fixpoint through (mounts : list (path * path)) (p : path) : path :=
  match mounts with
  | [] => p
  | (target, source) :: mounts =>
      match strip target p with
      | Some rest => source ++ rest
      | None => through mounts p
      end
  end.

(** The file an absolute path of the namespace names. *)
Definition physical (n : Ns) (p : path) : path := through (mounts n) (ns_root n ++ p).

Record Child := mkChild {
  below : St;
  ns : Ns;
  (** does the next of [mount], [pivot_root], [chdir], [umount2] fail? *)
  sys_faults : list bool;
}.

Definition set_ns (n : Ns) (w : Child) : Child := mkChild (below w) n (sys_faults w).

Definition sys : M Child unit := fun w =>
  match sys_faults w with
  | true :: faults => (Err [Io OtherIo], mkChild (below w) (ns w) faults)
  | false :: faults => (Ok tt, mkChild (below w) (ns w) faults)
  | [] => (Ok tt, w)
  end.

(** A file-system call of the child. *)
Definition on {A} (p : path) (op : path -> M St A) : M Child A := fun w =>
  let '(r, s) := op (physical (ns w) p) (below w) in (r, mkChild s (ns w) (sys_faults w)).

Definition child_fs (w : Child) : Fs := fs (os (below w)).

(** [mount] with [MS_REC | MS_PRIVATE]. *)
Definition mount_private : M Child unit :=
  _ ← sys;
  mmodify (fun w => set_ns (mkNs (ns_root (ns w)) (mounts (ns w)) true) w).

(** [mount] of a directory with [MS_BIND]. *)
Definition mount_bind (source target : path) : M Child unit :=
  _ ← sys;
  w ← mget;
  let n := ns w in
  if is_dir (resolve (child_fs w) (physical n source))
     && is_dir (resolve (child_fs w) (physical n target))
  then mput (set_ns (mkNs (ns_root n) ((ns_root n ++ target, physical n source) :: mounts n) (private n)) w)
  else mlift (Err [Io NotFound]).

(** [pivot_root]: the new root is a mount point, and the old one is put below it;
    mounts must not be shared. *)
Definition pivot_root (new put_old : path) : M Child unit :=
  _ ← sys;
  w ← mget;
  let n := ns w in
  if private n && existsb (fun '(target, _) => bool_decide (target = ns_root n ++ new)) (mounts n)
     && under new put_old && is_dir (resolve (child_fs w) (physical n put_old))
  then mput (set_ns (mkNs (ns_root n ++ new) ((ns_root n ++ put_old, ns_root n) :: mounts n) (private n)) w)
  else mlift (Err [Io InvalidInput]).

Definition chdir (p : path) : M Child unit :=
  _ ← sys;
  w ← mget;
  if is_dir (resolve (child_fs w) (physical (ns w) p)) then mret tt else mlift (Err [Io NotFound]).

Fixpoint unmount (target : path) (mounts : list (path * path)) : option (list (path * path)) :=
  match mounts with
  | [] => None
  | (t, s) :: mounts =>
      if bool_decide (t = target) then Some mounts else cons (t, s) <$> unmount target mounts
  end.

Definition umount2 (p : path) : M Child unit :=
  _ ← sys;
  w ← mget;
  let n := ns w in
  match unmount (ns_root n ++ p) (mounts n) with
  | Some mounts => mput (set_ns (mkNs (ns_root n) mounts (private n)) w)
  | None => mlift (Err [Io InvalidInput])
  end.

(** [std::fs::remove_dir]. *)
Definition remove_dir (p : path) : M St unit :=
  _ ← io;
  f ← get_fs;
  match f !! p with
  | Some NDir => if has_children p f then fail OtherIo else put_fs (delete p f)
  | Some _ => fail OtherIo
  | None => fail NotFound
  end.

(** ** The child *)

Definition bind_persistent_mount (root : path) (persistent_mount : PersistentMount) : M Child unit :=
  let source := source persistent_mount in
  let target := root ++ target_relative persistent_mount in
  _ ← on source ensure_directory;
  _ ← on target ensure_directory;
  mcontext ("bind-mount persistent " +:+ display source +:+ " onto " +:+ display target)
    (mount_bind source target).

Fixpoint bind_persistent_mounts (root : path) (persistent_mounts : list PersistentMount) : M Child unit :=
  match persistent_mounts with
  | [] => mret tt
  | m :: persistent_mounts =>
      _ ← bind_persistent_mount root m;
      bind_persistent_mounts root persistent_mounts
  end.

(** What [waitpid] of any child returns. *)
Inductive Reaped :=
| ChildExited (pid status : Z)
| ChildSignaled (pid signal : Z)
| ChildOther
| NoChild
| WaitFailed (e : Error).

(** The loop of [run_fallback_init]: the pids it reaped, and its error, if any. *)
Fixpoint reap (events : list Reaped) : list Z * option Error :=
  match events with
  | [] => ([], None)
  | ChildExited pid _ :: events | ChildSignaled pid _ :: events =>
      let '(pids, e) := reap events in (pid :: pids, e)
  | ChildOther :: events | NoChild :: events => reap events
  | WaitFailed e :: _ => ([], Some (Msg "fallback init waitpid" :: e))
  end.

(** What the process is once [child_bootstrap] has run: another program, or the
    fallback init, still looping, with the children it has reaped. *)
Inductive Run := Replaced (program : path) | FallbackInit (reaped : list Z).

Definition run_fallback_init (fallback_marker_file : path) (events : list Reaped) : M Child Run :=
  _ ← mcontext ("write " +:+ display fallback_marker_file)
        (on fallback_marker_file (fun p => write p (as_bytes "1")));
  let '(pids, e) := reap events in
  match e with
  | Some e => mlift (Err e)
  | None => mret (FallbackInit pids)
  end.

(** [CString::new]: no NUL inside. *)
Definition has_nul (p : path) : bool := existsb (fun c => bool_decide (x00 ∈ as_bytes c)) p.

(** [exec_error]: why [execv] returned. *)
Definition exec_system_init_or_run_fallback (init_binary fallback_marker_file : path)
    (exec_error : option Error) (events : list Reaped) : M Child Run :=
  if has_nul init_binary then mlift (Err [Msg "init cstring"; Msg "nul byte found in provided data"])
  else
    w ← mget;
    match exec_error with
    | None => mret (Replaced (physical (ns w) init_binary))
    | Some _ => run_fallback_init fallback_marker_file events
    end.

Definition child_bootstrap (root init_binary fallback_marker_file : path)
    (persistent_mounts : list PersistentMount) (exec_error : option Error) (events : list Reaped) :
    M Child Run :=
  _ ← mcontext "set mount propagation private" mount_private;
  _ ← mcontext ("bind-mount new root " +:+ display root) (mount_bind root root);
  _ ← bind_persistent_mounts root persistent_mounts;
  let old_root := root ++ [".old_root"] in
  exists_ ← on old_root path_exists;
  _ ← (if (exists_ : bool) then mret tt
       else mcontext ("create old root dir " +:+ display old_root) (on old_root create_dir_all));
  _ ← mcontext ("pivot_root to " +:+ display root) (pivot_root root old_root);
  _ ← mcontext "chdir /" (chdir []);
  _ ← mcontext "umount old root" (umount2 [".old_root"]);
  _ ← mtry (on [".old_root"] remove_dir);
  exec_system_init_or_run_fallback init_binary fallback_marker_file exec_error events.

(** ** Lemmas *)

Definition reaped_pid (event : Reaped) : option Z :=
  match event with ChildExited pid _ | ChildSignaled pid _ => Some pid | _ => None end.


Lemma strip_app a x y : strip (a ++ x) (a ++ y) = strip x y.
Proof. induction a as [|c a IH]; cbn; [done|]. by rewrite bool_decide_true. Qed.

Lemma under_app_app a x y : under (a ++ x) (a ++ y) = under x y.
Proof. unfold under. by rewrite strip_app. Qed.

(** Nothing below one of two separate directories is below the other. *)
Lemma strip_far a b x y : apart a b -> strip (a ++ x) (b ++ y) = None.
Proof.
  intros Hab. destruct (strip (a ++ x) (b ++ y)) as [r|] eqn:E; [|done].
  apply strip_Some in E. rewrite <- app_assoc in E.
  exfalso. eapply (below_apart_neq a b); [exact Hab|]. symmetry. exact E.
Qed.

Lemma under_far a b x y : apart a b -> under (a ++ x) (b ++ y) = false.
Proof. intros Hab. unfold under. by rewrite strip_far. Qed.

Section child.
Context (mark : path).

(** The namespace is [n] and there is no file [mark]. *)
Definition At (n : Ns) (w : Child) : Prop := ns w = n /\ child_fs w !! mark = None.

Definition unmarked (s : St) : Prop := fs (os s) !! mark = None.

Lemma unmarked_io : keeps unmarked io.
Proof. intros s Hs. unfold io. by destruct (io_faults (os s)) as [|[] ?]. Qed.

Lemma unmarked_exists p : keeps unmarked (path_exists p).
Proof. unfold path_exists. apply keeps_bind; [apply keeps_try, unmarked_io|]. by intros r s Hs. Qed.

Lemma unmarked_call {A} (k : Fs -> M St A) :
  (forall s, unmarked s -> unmarked (snd (k (fs (os s)) s))) ->
  keeps unmarked (_ ← io; f ← get_fs; k f).
Proof.
  intros Hk. apply keeps_bind; [apply unmarked_io|]. intros _ s Hs. by apply Hk.
Qed.

Lemma unmarked_create_dir_all p : under mark p = false -> keeps unmarked (create_dir_all p).
Proof.
  intros Hp. apply unmarked_call. intros s Hs.
  destruct (create_dirs [] p (fs (os s))) as [f|e|] eqn:E; [|done|done].
  unfold unmarked. cbn. by rewrite (kept_create_dirs _ _ _ _ mark E Hp).
Qed.

Lemma unmarked_ensure_directory p : under mark p = false -> keeps unmarked (ensure_directory p).
Proof.
  intros Hp. unfold ensure_directory. apply keeps_bind; [apply unmarked_exists|]. intros [].
  - apply keeps_bind; [apply keeps_context, unmarked_call; intros s Hs; by case_match|].
    intros []; auto with keeps.
  - apply keeps_context. by apply unmarked_create_dir_all.
Qed.

Lemma unmarked_remove_dir p : keeps unmarked (remove_dir p).
Proof.
  apply unmarked_call. intros s Hs. destruct (fs (os s) !! p) as [[]|]; try done.
  destruct (has_children p (fs (os s))); [done|]. unfold unmarked. cbn.
  destruct (decide (p = mark)) as [->|Hn]; [apply lookup_delete_eq|by rewrite lookup_delete_ne].
Qed.

Lemma spec_on {A} n p (op : path -> M St A) :
  keeps unmarked (op (physical n p)) -> spec (At n) (on p op) (fun _ => At n) (At n).
Proof.
  intros Hk w [Hn Hm]. unfold on. rewrite Hn. specialize (Hk (below w) Hm).
  by destruct (op (physical n p) (below w)) as [[a|e|] s].
Qed.

Lemma spec_call {A} n p (op : path -> M St A) :
  keeps unmarked (op (physical n p)) -> spec (At n) (on p op) (fun _ => At n) (fun _ => True).
Proof. intros Hk. by eapply spec_weaken; [apply (spec_on n p op Hk)|..]. Qed.

Lemma spec_sys n : spec (At n) sys (fun _ => At n) (fun _ => True).
Proof. intros w Hw. unfold sys. by destruct (sys_faults w) as [|[] ?]. Qed.

Lemma spec_mount_private n :
  spec (At n) mount_private (fun _ => At (mkNs (ns_root n) (mounts n) true)) (fun _ => True).
Proof.
  eapply spec_bind; [apply spec_sys|]. intros _ w [<- Hm]. by split.
Qed.

Lemma spec_mount_bind n source target :
  spec (At n) (mount_bind source target)
    (fun _ => At (mkNs (ns_root n) ((ns_root n ++ target, physical n source) :: mounts n) (private n)))
    (fun _ => True).
Proof.
  eapply spec_bind; [apply spec_sys|]. intros _ w [<- Hm].
  unfold mbind, M_bind, mbind_st, mget. by destruct (_ && _).
Qed.

Lemma spec_pivot_root n new put_old :
  spec (At n) (pivot_root new put_old)
    (fun _ => At (mkNs (ns_root n ++ new) ((ns_root n ++ put_old, ns_root n) :: mounts n) (private n)))
    (fun _ => True).
Proof.
  eapply spec_bind; [apply spec_sys|]. intros _ w [<- Hm].
  unfold mbind, M_bind, mbind_st, mget. by destruct (_ && _).
Qed.

Lemma spec_chdir n p : spec (At n) (chdir p) (fun _ => At n) (fun _ => True).
Proof.
  eapply spec_bind; [apply spec_sys|]. intros _ w [<- Hm].
  unfold mbind, M_bind, mbind_st, mget. by destruct (is_dir _).
Qed.

Lemma spec_umount2 n p ms :
  unmount (ns_root n ++ p) (mounts n) = Some ms ->
  spec (At n) (umount2 p) (fun _ => At (mkNs (ns_root n) ms (private n))) (fun _ => True).
Proof.
  intros E. eapply spec_bind; [apply spec_sys|]. intros _ w [<- Hm].
  unfold mbind, M_bind, mbind_st, mget. by rewrite E.
Qed.

Lemma spec_bind_mount n root m :
  let target := root ++ target_relative m in
  under mark (physical n (source m)) = false -> under mark (physical n target) = false ->
  spec (At n) (bind_persistent_mount root m)
    (fun _ => At (mkNs (ns_root n) ((ns_root n ++ target, physical n (source m)) :: mounts n) (private n)))
    (fun _ => True).
Proof.
  intros target Hs Ht. unfold bind_persistent_mount.
  eapply spec_bind; [apply spec_call, unmarked_ensure_directory, Hs|intros ?; cbn beta].
  eapply spec_bind; [apply spec_call, unmarked_ensure_directory, Ht|intros ?; cbn beta].
  apply spec_context, spec_mount_bind.
Qed.

End child.

Lemma reap_all events : snd (reap events) = None -> fst (reap events) = omap reaped_pid events.
Proof.
  induction events as [|[pid ?|pid ?| | |e] events IH]; cbn; try done.
  all: destruct (reap events) as [pids e]; cbn in *; intros ->; by rewrite IH.
Qed.

(** The last step, in the namespace [n]. *)
Lemma spec_exec mark n init_binary marker exec_error events :
  physical n marker = mark ->
  spec (At mark n) (exec_system_init_or_run_fallback init_binary marker exec_error events)
    (fun run w => ns w = n /\
       match run with
       | Replaced program =>
           exec_error = None /\ program = physical n init_binary /\ child_fs w !! mark = None
       | FallbackInit pids =>
           exec_error <> None /\ pids = omap reaped_pid events /\
           child_fs w !! mark = Some (NFile (as_bytes "1"))
       end)
    (fun _ => True).
Proof.
  intros Hm. unfold exec_system_init_or_run_fallback. destruct (has_nul init_binary); [by intros w Hw|].
  intros w [Hn Hf]. unfold mbind at 1, M_bind at 1, mbind_st at 1, mget.
  destruct exec_error as [err|]; [|cbn; rewrite Hn; by split_and!].
  unfold run_fallback_init, mbind at 1, M_bind at 1, mbind_st at 1, mcontext, on. rewrite Hn, Hm.
  pose proof (reap_all events) as Hreap.
  assert (Hw : match write mark (as_bytes "1") (below w) with
    | (Ok _, s) => fs (os s) !! mark = Some (NFile (as_bytes "1")) | _ => True end).
  { unfold write, mbind, M_bind, mbind_st, get_fs.
    destruct (io (below w)) as [[[]|e|] s] eqn:Ei; [|done|done].
    assert (Hs : fs (os s) !! mark = None)
      by (pose proof (unmarked_io mark (below w) Hf) as H; by rewrite Ei in H).
    destruct (negb _); [done|]. rewrite Hs. cbn. apply lookup_insert_eq. }
  destruct (write mark (as_bytes "1") (below w)) as [[[]|e|] s]; cbn; [|done|done].
  destruct (reap events) as [pids [e|]]; cbn in *; [done|]. split_and!; auto.
Qed.

(** ** Properties *)

Section bootstrap.
Context (data_dir root init_binary : path) (test_mode : bool).
(** The root may be inside the data directory, as it is by default. *)
Context (apart_dirs : apart root (data_dir ++ ["persist"])).

Let manager : SetupManager := SetupManager_new data_dir root init_binary test_mode.

Let initial : Ns := mkNs [] [] false.

Let persist (dir : string) : path := data_dir ++ ["persist"; dir].

(** With the persistent directories bound, and in the end. *)
Let bound (r : path) : Ns :=
  mkNs r [(root ++ ["home"], persist "home"); (root ++ ["root"], persist "root"); (root, root)] true.

Lemma strip_self p : strip p p = Some [].
Proof. apply strip_Some. by rewrite app_nil_r. Qed.

Lemma strip_root_data x : strip root (data_dir ++ "persist" :: x) = None.
Proof using apart_dirs. rewrite cons_middle, app_assoc. by apply strip_apart. Qed.

Lemma strip_below_root_data c x : strip (root ++ c) (data_dir ++ "persist" :: x) = None.
Proof using apart_dirs. rewrite cons_middle, app_assoc. by apply strip_far. Qed.

(** Compute where the paths of the bootstrap lead. *)
Ltac paths :=
  unfold physical, initial, bound, persist; cbn [ns_root mounts private through source target_relative app];
  repeat rewrite <- (app_assoc data_dir); cbn [app];
  repeat first [rewrite strip_self|rewrite strip_root_data|rewrite strip_below_root_data
               |rewrite strip_app|rewrite strip_below];
  cbn -[under];
  repeat match goal with |- context [bool_decide (?a = ?b)] => rewrite (bool_decide_false (a = b)) by done end;
  rewrite ?app_nil_r.

Lemma spec_bind_persistent_mounts mark :
  (forall x, under mark (data_dir ++ "persist" :: x) = false) ->
  under mark (root ++ ["root"]) = false -> under mark (root ++ ["home"]) = false ->
  spec (At mark (mkNs [] [(root, root)] true)) (bind_persistent_mounts root (persistent_mounts manager))
    (fun _ => At mark (bound [])) (fun _ => True).
Proof using apart_dirs.
  intros Hdata Hroot Hhome. unfold persistent_mounts, manager, SetupManager_new, bind_persistent_mounts.
  eapply spec_bind; [apply spec_bind_mount; paths; by auto|intros ?; paths].
  eapply spec_bind; [apply spec_bind_mount; paths; by auto|intros ?; paths].
  by apply spec_ret.
Qed.

Lemma bootstrap_namespace exec_error events :
  let mark := root ++ [".fly-vault-fallback-init"] in
  spec (At mark initial)
    (child_bootstrap root init_binary [".fly-vault-fallback-init"] (persistent_mounts manager)
       exec_error events)
    (fun run w => ns w = bound root /\
       match run with
       | Replaced program =>
           exec_error = None /\ program = physical (bound root) init_binary /\ child_fs w !! mark = None
       | FallbackInit pids =>
           exec_error <> None /\ pids = omap reaped_pid events /\
           child_fs w !! mark = Some (NFile (as_bytes "1"))
       end)
    (fun _ => True).
Proof using apart_dirs.
  intros mark. unfold child_bootstrap.
  match goal with |- spec _ _ ?Q _ => set (post := Q) end.
  assert (Hexec : spec (At mark (bound root))
    (exec_system_init_or_run_fallback init_binary [".fly-vault-fallback-init"] exec_error events)
    post (fun _ => True)) by (apply spec_exec; by paths).
  clearbody post.
  assert (Hroot : forall c x, bool_decide (".fly-vault-fallback-init" = c) = false ->
    under mark (root ++ c :: x) = false)
    by (intros c x Hc; unfold mark; rewrite under_app_app; unfold under; cbn; by rewrite Hc).
  pose proof (spec_bind_persistent_mounts mark ltac:(intros; unfold mark, under; by rewrite strip_below_root_data) ltac:(by apply Hroot)
    ltac:(by apply Hroot)) as Hbinds.
  generalize dependent (bind_persistent_mounts root (persistent_mounts manager)). intros binds Hbinds.
  eapply spec_bind; [apply spec_context, spec_mount_private|intros ?; paths].
  eapply spec_bind; [apply spec_context, spec_mount_bind|intros ?; paths].
  eapply spec_bind; [exact Hbinds|intros ?; cbn beta].
  eapply spec_bind; [apply spec_call, unmarked_exists|intros exists_; cbn beta].
  apply (spec_bind _ _ _ (fun _ => At mark (bound []))).
  { destruct exists_; [by apply spec_ret|].
    apply spec_context, spec_call, unmarked_create_dir_all. paths. by apply Hroot. }
  intros ?. cbn beta. eapply spec_bind; [apply spec_context, spec_pivot_root|intros ?; paths].
  eapply spec_bind; [apply spec_context, spec_chdir|intros ?; cbn beta].
  eapply spec_bind; [apply spec_context, spec_umount2; cbn; by rewrite bool_decide_true|intros ?; paths].
  eapply spec_bind; [apply spec_try, spec_on, unmarked_remove_dir|intros removed; cbn beta].
  change (mkNs root _ true) with (bound root).
  apply (spec_pre (At mark (bound root))); [|intros w; by destruct removed].
  exact Hexec.
Qed.

(** C38: What the machine's init sees.  When the bootstrap of the child succeeds,
    with the fallback marker cleared as the parent does before, in any layout that does not put the root inside the
    persistent directories or around them ([/data] with the root in [/data/rootfs]
    by default): [/root] and [/home] are the persistent directories
    of the data volume, every other path is in the provisioned root, nothing leads
    to the file system of the vault's own init, and no mount made inside reaches
    the parent.  The init runs from that root; if it could not be executed, the
    fallback runs instead, reaps every child in order, and the marker it leaves is
    the file the parent takes the runtime status from. *)
Theorem machine_sees_its_root exec_error events w run w' :
  ns w = mkNs [] [] false -> child_fs w !! fallback_marker_file manager = None ->
  child_bootstrap root init_binary [".fly-vault-fallback-init"] (persistent_mounts manager) exec_error events w
    = (Ok run, w') ->
  (forall rest, physical (ns w') ("root" :: rest) = data_dir ++ ["persist"; "root"] ++ rest) /\
  (forall rest, physical (ns w') ("home" :: rest) = data_dir ++ ["persist"; "home"] ++ rest) /\
  (forall p, hd_error p <> Some "root" -> hd_error p <> Some "home" -> physical (ns w') p = root ++ p) /\
  private (ns w') = true /\
  match run with
  | Replaced program =>
      exec_error = None /\ program = physical (ns w') init_binary /\
      child_fs w' !! fallback_marker_file manager = None
  | FallbackInit pids =>
      exec_error <> None /\ pids = omap reaped_pid events /\
      child_fs w' !! fallback_marker_file manager = Some (NFile (as_bytes "1"))
  end.
Proof using apart_dirs.
  intros Hn Hm E. pose proof (bootstrap_namespace exec_error events w (conj Hn Hm)) as H.
  rewrite E in H. destruct H as [-> Hrun]. split_and!; [| | |done|exact Hrun].
  - intros rest. unfold physical. cbn [ns_root mounts bound through]. rewrite !strip_app. cbn.
    rewrite bool_decide_false, bool_decide_true by done. unfold persist. by rewrite <- app_assoc.
  - intros rest. unfold physical. cbn [ns_root mounts bound through]. rewrite !strip_app. cbn.
    rewrite bool_decide_true by done. unfold persist. by rewrite <- app_assoc.
  - intros p Hr Hh. unfold physical. cbn [ns_root mounts bound through].
    rewrite !strip_app, strip_below. destruct p as [|c p]; cbn; [by rewrite app_nil_r|].
    rewrite !bool_decide_false; [done| |]; intros <-; by (apply Hr || apply Hh).
Qed.
End bootstrap.

(** ** Witness: a provisioned root whose init cannot be executed *)

Definition demo_child : Child :=
  mkChild (mkSt (SetupManager_new ["data"] ["data"; "rootfs"] ["sbin"; "init"] false)
    (mkOs {[ ["data"] := NDir; ["data"; "rootfs"] := NDir; ["data"; "rootfs"; "etc"] := NDir ]} [] [] [] [])) (mkNs [] [] false) [].

Lemma machine_sees_its_root_witness :
  exists pids w', child_bootstrap ["data"; "rootfs"] ["sbin"; "init"] [".fly-vault-fallback-init"]
      (persistent_mounts (SetupManager_new ["data"] ["data"; "rootfs"] ["sbin"; "init"] false))
      (Some [Io NotFound]) [ChildExited 7 0; NoChild; ChildSignaled 9 15] demo_child
    = (Ok (FallbackInit pids), w') /\
    pids = [7; 9] /\ physical (ns w') ["root"; "notes"] = ["data"; "persist"; "root"; "notes"] /\
    child_fs w' !! ["data"; "rootfs"; ".fly-vault-fallback-init"] = Some (NFile (as_bytes "1")).
Proof.
  match goal with |- exists pids w', ?run = _ /\ _ =>
    assert (E : run = (Ok (FallbackInit [7; 9]), snd run)) by (vm_compute; reflexivity);
    exists [7; 9], (snd run) end.
  split; [exact E|].
  destruct (machine_sees_its_root ["data"] ["data"; "rootfs"] ["sbin"; "init"] false (conj eq_refl eq_refl)
    (Some [Io NotFound]) [ChildExited 7 0; NoChild; ChildSignaled 9 15] demo_child _ _ eq_refl
    ltac:(vm_compute; reflexivity) E) as (Hr & _ & _ & _ & _ & Hp & Hm).
  split; [done|]. split; [apply Hr|exact Hm].
Defined.
