(* ===== verification/InitServer.v ===== *)
(** * The init server ([crates/init/src/quic.rs], [main.rs], [attest.rs])

    What the server in the machine does with a connection: the loop over its
    streams and the authentication that gates them, the control conversation in
    its two phases, the access token, the attestation payload, and the boot
    sequence.  TLS and the transport of HTTP requests are parameters. *)

From S2P Require Import Prelude Protocol Process.
From S2P Require Setup.

(** ** The access token *)

(** The loop over the expected bytes, [provided] from the same index on. *)
Fixpoint token_diff (expected provided : list byte) (diff : Z) : Z :=
  match expected with
  | [] => diff
  | expected_byte :: expected =>
      let provided_byte := match provided with b :: _ => b2z b | [] => 0 end in
      token_diff expected (tail provided)
        (Z.lor diff (Z.lxor (b2z expected_byte) provided_byte))
  end.

Definition token_matches_constant_time (expected provided : string) : bool :=
  let expected_bytes := as_bytes expected in
  let provided_bytes := as_bytes provided in
  let diff := Z.lxor (len expected_bytes) (len provided_bytes) in
  token_diff expected_bytes provided_bytes diff =? 0.

Definition verify_access_token (expected : option string) (provided : string) : Res unit :=
  match expected with
  | Some expected =>
      if token_matches_constant_time expected provided then Ok tt
      else anyhow "access token verification failed"
  | None => anyhow "no ACCESS_TOKEN configured on this machine"
  end.

Definition validate_rootfs_request (state : VmState) (rootfs_tarball : option (list byte)) : Res unit :=
  if bool_decide (state = Cold) && (match rootfs_tarball with None => true | Some _ => false end)
  then anyhow "cold boot requires a rootfs payload" else Ok tt.

(** ** The shared state and the connection *)

(** [SharedState] with what the connection's control streams sent.  A write
    fails when the script says so; no more entries: it succeeds. *)
Record Srv := mkSrv {
  vm_state : VmState;
  setup : Setup.St;
  access_token : option string;
  sent : list ControlMessage;
  write_errors : list (option Error);
}.

Definition set_vm_state (v : VmState) (s : Srv) : Srv :=
  mkSrv v (setup s) (access_token s) (sent s) (write_errors s).

(** [guard.setup.operation()]. *)
Definition with_setup {A} (m : M Setup.St A) : M Srv A := fun s =>
  let '(r, st) := m (setup s) in
  (r, mkSrv (vm_state s) st (access_token s) (sent s) (write_errors s)).

(** [message.write_to(send)]. *)
Definition write_message (m : ControlMessage) : M Srv unit := fun s =>
  match write_errors s with
  | Some e :: rest => (Err e, mkSrv (vm_state s) (setup s) (access_token s) (sent s) rest)
  | None :: rest => (Ok tt, mkSrv (vm_state s) (setup s) (access_token s) (sent s ++ [m]) rest)
  | [] => (Ok tt, mkSrv (vm_state s) (setup s) (access_token s) (sent s ++ [m]) [])
  end.

(** What the server's libraries and the machine's environment provide. *)
Class Host := {
  (** the TLS exporter of this connection, for a label *)
  export_keying_material : string -> option (list byte);
  hex_encode : list byte -> string;
  (** whether [reqwest] builds a client; a POST of JSON strings over a Unix socket *)
  http_client : Res unit;
  unix_post : string -> string -> list (string * string) -> Res (Reply string);
  (** the scheme of a URL and the URL as it prints, if it parses *)
  url_parse : string -> Res (string * string);
  http_get : string -> Res (Reply (list byte));
  status_error : Z -> Error;
  (** [{:#}] of an error and [{:?}] of a message *)
  alternate : Error -> string;
  debug : ControlMessage -> string;
  own_pid : Z;
}.

Section server.
Context `{HO : Host} `{TG : Setup.TarGz}.

(** [attest::fetch_oidc_token]. *)
Definition fetch_oidc_token (aud : string) : Res string :=
  _ ← with_context "build unix socket client for fly local api" http_client;
  resp ← with_context "request fly oidc token"
    (unix_post "/.fly/api" "http://localhost/v1/tokens/oidc" [("aud", aud)]);
  resp ← with_context "fly oidc token request failed" (success_reply status_error resp);
  with_context "read oidc token response body" (reply_body resp).

Definition download_rootfs_tarball (url_str : string) : Res (list byte) :=
  '(scheme, url) ← with_context ("parse rootfs URL " +:+ url_str) (url_parse url_str);
  if negb (bool_decide (scheme = "http") || bool_decide (scheme = "https")) then
    anyhow ("rootfs URL scheme must be http or https, got " +:+ scheme)
  else
    _ ← with_context "build reqwest client for rootfs download" http_client;
    response ← with_context ("download rootfs from " +:+ url) (http_get url);
    response ← with_context ("rootfs download returned non-success status from " +:+ url)
      (success_reply status_error response);
    with_context ("read rootfs download response body from " +:+ url) (reply_body response).

Definition resolve_rootfs_source (source : RootfsSource) : Res (option (list byte)) :=
  match source with
  | RootfsNone => Ok None
  | RootfsInline data => Ok (Some data)
  | RootfsUrl url => data ← download_rootfs_tarball url; Ok (Some data)
  end.

Definition send_error (msg : string) : M Srv unit := write_message (CMError msg).

Definition build_attestation (test_mode : bool) : M Srv AttestationPayload :=
  ekm ← mlift (ok_or "export tls keying material failed"
                 (export_keying_material CHANNEL_BINDING_LABEL));
  let aud := hex_encode ekm in
  jwt ← (if test_mode then mret ("test-mode-jwt:" +:+ aud) else mlift (fetch_oidc_token aud));
  state ← with_setup Setup.detect_state;
  _ ← mmodify (set_vm_state state);
  _ ← (if bool_decide (state = Ready) then
         _ ← mcontext "ensure live runtime before attestation"
               (with_setup (Setup.ensure_live_inner_init_pid own_pid));
         state ← with_setup Setup.detect_state;
         mmodify (set_vm_state state)
       else mret tt);
  s ← mget;
  runtime_status ← with_setup Setup.runtime_status;
  mret (mkAttestation PROTOCOL_VERSION (vm_state s) runtime_status jwt).

Definition apply_setup_request (state : VmState) (request : SetupRequest) : M Srv unit :=
  s ← mget;
  _ ← mlift (verify_access_token (access_token s) (Protocol.access_token request));
  rootfs_tarball ← mlift (resolve_rootfs_source (rootfs request));
  _ ← mlift (validate_rootfs_request state rootfs_tarball);
  _ ← with_setup (Setup.setup_and_prepare own_pid alternate rootfs_tarball);
  state ← with_setup Setup.detect_state;
  _ ← mmodify (set_vm_state state);
  _ ← with_setup Setup.runtime_status;
  mret tt.

(** ** The control conversation *)

Inductive ControlPhase :=
| AwaitAttestation
| AwaitSetupRequest (state : VmState).

(** What one turn of the loop decides: go on in a phase, or return. *)
Inductive Turn :=
| Continue (phase : ControlPhase)
| Return (authenticated : bool).

(** The body of the loop for what was read. *)
Definition control_turn (test_mode : bool) (phase : ControlPhase) (message : Res ControlMessage) :
    M Srv Turn :=
  match message with
  | Panic => mlift Panic
  | Err err =>
      _ ← mtry (send_error ("control stream read error: " +:+ alternate err));
      mret (Return false)
  | Ok message =>
      match phase, message with
      | AwaitAttestation, CMRequestAttestation =>
          payload ← build_attestation test_mode;
          _ ← write_message (CMAttestation payload);
          s ← mget;
          mret (Continue (AwaitSetupRequest (vm_state s)))
      | AwaitAttestation, other =>
          _ ← send_error ("expected attestation request, got " +:+ debug other);
          mret (Return false)
      | AwaitSetupRequest state, CMSetupRequest request =>
          r ← mtry (apply_setup_request state request);
          match (r : Res unit) with
          | Ok _ => _ ← write_message CMSetupComplete; mret (Return true)
          | Err err =>
              _ ← send_error ("setup failed: " +:+ alternate err);
              mret (Return false)
          | Panic => mlift Panic
          end
      | AwaitSetupRequest _, other =>
          _ ← send_error ("expected setup request, got " +:+ debug other);
          mret (Return false)
      end
  end.

(** The loop over what is read; [None] while the client sends nothing. *)
Fixpoint handle_control_stream (test_mode : bool) (phase : ControlPhase)
    (reads : list (Res ControlMessage)) (s : Srv) : option (Res bool) * Srv :=
  match reads with
  | [] => (None, s)
  | message :: reads =>
      match control_turn test_mode phase message s with
      | (Ok (Continue phase), s) => handle_control_stream test_mode phase reads s
      | (Ok (Return b), s) => (Some (Ok b), s)
      | (Err e, s) => (Some (Err e), s)
      | (Panic, s) => (Some Panic, s)
      end
  end.

(** ** The connection *)

(** A stream the client opened: its first byte, and for a control stream what is
    read from it. *)
Record Opened := mkOpened {
  stream_ty : Res Z;
  control_reads : list (Res ControlMessage);
}.

(** What the loop did with a stream.  [Served] hands it to the forwarder or the
    console, [Unavailable] is the console stream whose runtime is not alive. *)
Inductive Action :=
| Controlled (authenticated : bool)
| Served (ty : Z)
| Rejected (ty : Z)
| Unavailable.

(** [handle_connection] from [accept_bi] on; the list ends when [accept_bi]
    fails.  The result is [None] while a control stream waits. *)
Fixpoint handle_connection (test_mode : bool) (streams : list Opened) (authenticated : bool) (s : Srv) :
    option (Res unit) * list Action * Srv :=
  match streams with
  | [] => (Some (Ok tt), [], s)
  | o :: streams =>
      match with_context "read stream type" (stream_ty o) with
      | Err e => (Some (Err e), [], s)
      | Panic => (Some Panic, [], s)
      | Ok ty =>
          let continue act authenticated s :=
            let '(r, acts, s) := handle_connection test_mode streams authenticated s in
            (r, act :: acts, s) in
          if ty =? STREAM_CONTROL then
            match handle_control_stream test_mode AwaitAttestation (control_reads o) s with
            | (None, s) => (None, [], s)
            | (Some (Ok authenticated), s) => continue (Controlled authenticated) authenticated s
            | (Some (Err e), s) => (Some (Err e), [], s)
            | (Some Panic, s) => (Some Panic, [], s)
            end
          else if ty =? STREAM_PORT_FORWARD then
            if negb authenticated then continue (Rejected ty) authenticated s
            else continue (Served ty) authenticated s
          else if ty =? STREAM_CONSOLE then
            if negb authenticated then continue (Rejected ty) authenticated s
            else
              match with_setup (Setup.ensure_live_inner_init_pid own_pid) s with
              | (Ok _, s) => continue (Served ty) authenticated s
              | (Err _, s) => continue Unavailable authenticated s
              | (Panic, s) => (Some Panic, [], s)
              end
          else if ty =? STREAM_EXEC_LIST then
            if negb authenticated then continue (Rejected ty) authenticated s
            else continue (Served ty) authenticated s
          else (Some (Ok tt), [], s)
      end
  end.

(** ** Boot ([main]) *)

(** The manager has been made; the shared state is made from what this leaves. *)
Definition boot (manager : Setup.SetupManager) (access_token : option string) (os : Setup.Os) :
    Res unit * Srv :=
  let s := mkSrv Cold (Setup.mkSt manager os) access_token [] [] in
  (initial_state ← with_setup Setup.detect_state;
   _ ← (if bool_decide (initial_state = Ready) then
          mcontext "start namespaced init for ready state"
            (with_setup (Setup.start_ready_runtime own_pid))
        else mret tt);
   initial_state ← with_setup Setup.detect_state;
   mmodify (set_vm_state initial_state)) s.
End server.

(** ** Lemmas *)

Lemma token_diff_nonneg e p d : 0 <= d -> 0 <= token_diff e p d.
Proof.
  revert p d. induction e as [|b e IH]; intros p d Hd; cbn; [done|]. apply IH.
  apply Z.lor_nonneg. split; [done|]. apply Z.lxor_nonneg.
  pose proof (b2z_range b). destruct p as [|c p]; [|pose proof (b2z_range c)]; split; lia.
Qed.

(** A bit that was set stays set. *)
Lemma token_diff_pos e p d : 0 < d -> 0 < token_diff e p d.
Proof.
  revert p d. induction e as [|b e IH]; intros p d Hd; cbn; [done|]. apply IH.
  set (x := Z.lxor _ _). assert (Hx : 0 <= x).
  { apply Z.lxor_nonneg. pose proof (b2z_range b).
    destruct p as [|c p]; [|pose proof (b2z_range c)]; split; lia. }
  assert (0 <= Z.lor d x) by (apply Z.lor_nonneg; lia).
  assert (Z.lor d x <> 0) by (rewrite Z.lor_eq_0_iff; lia). lia.
Qed.

Lemma token_diff_eq e p :
  length e = length p -> (token_diff e p 0 = 0 <-> e = p).
Proof.
  revert p. induction e as [|b e IH]; intros [|c p] Hl; cbn in *; try done.
  rewrite Z.lor_0_l. injection Hl as Hl.
  destruct (decide (b = c)) as [->|Hne].
  - rewrite Z.lxor_nilpotent, IH by done. split; [by intros ->|by intros [= ->]].
  - assert (Hx : 0 < Z.lxor (b2z b) (b2z c)).
    { pose proof (b2z_range b). pose proof (b2z_range c).
      assert (0 <= Z.lxor (b2z b) (b2z c)) by (apply Z.lxor_nonneg; lia).
      assert (Z.lxor (b2z b) (b2z c) <> 0) by (intros E%Z.lxor_eq; by apply b2z_inj in E). lia. }
    pose proof (token_diff_pos e p _ Hx). split; [lia|congruence].
Qed.

Lemma token_matches_eq a b : token_matches_constant_time a b = true <-> a = b.
Proof.
  unfold token_matches_constant_time. rewrite Z.eqb_eq.
  destruct (decide (length (as_bytes a) = length (as_bytes b))) as [Hl|Hl].
  - assert (len (as_bytes a) = len (as_bytes b)) as -> by (unfold len; by rewrite Hl).
    rewrite Z.lxor_nilpotent, token_diff_eq by done. split; [apply as_bytes_inj|by intros ->].
  - assert (Hx : 0 < Z.lxor (len (as_bytes a)) (len (as_bytes b))).
    { pose proof (len_nonneg (as_bytes a)). pose proof (len_nonneg (as_bytes b)).
      assert (0 <= Z.lxor (len (as_bytes a)) (len (as_bytes b))) by (apply Z.lxor_nonneg; lia).
      assert (Z.lxor (len (as_bytes a)) (len (as_bytes b)) <> 0)
        by (intros E%Z.lxor_eq; unfold len in E; lia). lia. }
    pose proof (token_diff_pos (as_bytes a) (as_bytes b) _ Hx). split; [lia|]. by intros ->.
Qed.

Lemma verify_access_token_Ok expected provided :
  verify_access_token expected provided = Ok tt <-> expected = Some provided.
Proof.
  unfold verify_access_token. destruct expected as [e|]; [|done].
  destruct (token_matches_constant_time e provided) eqn:E.
  - apply token_matches_eq in E as ->. done.
  - split; [done|]. intros [= ->]. assert (token_matches_constant_time provided provided = true)
      by (by apply token_matches_eq). congruence.
Qed.

Section lemmas.
Context `{HO : Host} `{TG : Setup.TarGz}.

(** No operation changes the configured token. *)
Definition Token (t : option string) (s : Srv) : Prop := access_token s = t.

Lemma token_setup {A} t (m : M Setup.St A) : keeps (Token t) (with_setup m).
Proof. intros s Hs. unfold with_setup. by destruct (m (setup s)). Qed.

Lemma token_write t m : keeps (Token t) (write_message m).
Proof. intros s Hs. unfold write_message. by destruct (write_errors s) as [|[]]. Qed.

Lemma token_vm_state t v : keeps (Token t) (mmodify (set_vm_state v)).
Proof. by intros s Hs. Qed.

Hint Resolve token_setup token_write token_vm_state : keeps.

Lemma token_build t tm : keeps (Token t) (build_attestation tm).
Proof. unfold build_attestation. keeps_code. Qed.

Lemma token_apply t state request : keeps (Token t) (apply_setup_request state request).
Proof. unfold apply_setup_request. keeps_code. Qed.

Hint Resolve token_build token_apply : keeps.

Lemma token_turn t tm phase message : keeps (Token t) (control_turn tm phase message).
Proof. unfold control_turn, send_error. keeps_code. Qed.

Lemma token_control tm phase reads s : access_token (snd (handle_control_stream tm phase reads s)) = access_token s.
Proof.
  revert phase s. induction reads as [|m reads IH]; intros phase s; cbn; [done|].
  pose proof (token_turn (access_token s) tm phase m s eq_refl) as Ht. unfold Token in Ht.
  destruct (control_turn tm phase m s) as [[[ph|b]|e|] s1]; cbn in Ht; [|done..].
  rewrite IH. done.
Qed.

(** What a control stream that authenticated had said. *)
Definition proves (reads : list (Res ControlMessage)) (token : string) : Prop :=
  exists request rest, reads = Ok CMRequestAttestation :: Ok (CMSetupRequest request) :: rest /\
    Protocol.access_token request = token.

Lemma apply_token state request s s' :
  apply_setup_request state request s = (Ok tt, s') ->
  access_token s = Some (Protocol.access_token request).
Proof.
  intros H. apply M_bind_inv in H as (s0 & s1 & [= <- <-] & H).
  apply M_bind_inv in H as ([] & s1 & [= Hv <-] & _). by apply verify_access_token_Ok.
Qed.

Lemma turn_continue tm phase m s ph s' :
  control_turn tm phase m s = (Ok (Continue ph), s') ->
  phase = AwaitAttestation /\ m = Ok CMRequestAttestation /\ exists v, ph = AwaitSetupRequest v.
Proof.
  unfold control_turn. intros H. destruct m as [m|e|]; [|by apply M_bind_inv in H as (? & ? & _ & H)|done].
  destruct phase as [|v].
  - destruct m; try by apply M_bind_inv in H as (? & ? & _ & H).
    apply M_bind_inv in H as (? & ? & _ & H). apply M_bind_inv in H as (? & ? & _ & H).
    apply M_bind_inv in H as (? & ? & _ & H). injection H as <-. eauto.
  - destruct m; try by apply M_bind_inv in H as (? & ? & _ & H).
    apply M_bind_inv in H as (r & ? & _ & H). destruct r; [| |done];
      by apply M_bind_inv in H as (? & ? & _ & H).
Qed.

Lemma turn_true tm phase m s s' :
  control_turn tm phase m s = (Ok (Return true), s') ->
  exists v request, phase = AwaitSetupRequest v /\ m = Ok (CMSetupRequest request) /\
    access_token s = Some (Protocol.access_token request).
Proof.
  unfold control_turn. intros H. destruct m as [m|e|]; [|by apply M_bind_inv in H as (? & ? & _ & H)|done].
  destruct phase as [|v].
  - destruct m; try by apply M_bind_inv in H as (? & ? & _ & H).
    apply M_bind_inv in H as (? & ? & _ & H). apply M_bind_inv in H as (? & ? & _ & H).
    by apply M_bind_inv in H as (? & ? & _ & H).
  - destruct m; try by apply M_bind_inv in H as (? & ? & _ & H).
    apply M_bind_inv in H as (r & s1 & Ha%mtry_inv & H). destruct r as [[]|e|]; [|by apply M_bind_inv in H as (? & ? & _ & H)|done].
    apply apply_token in Ha. eauto.
Qed.

Lemma control_true tm reads s s' :
  handle_control_stream tm AwaitAttestation reads s = (Some (Ok true), s') ->
  exists token, proves reads token /\ access_token s = Some token.
Proof.
  destruct reads as [|m reads]; cbn; [done|].
  pose proof (token_turn (access_token s) tm AwaitAttestation m s eq_refl) as Ht.
  destruct (control_turn tm AwaitAttestation m s) as [[[ph|b]|e|] s1] eqn:E; [| |done|done].
  - intros H. apply turn_continue in E as (_ & -> & v & ->). unfold Token in Ht. cbn in Ht.
    destruct reads as [|m reads]; cbn in H; [done|].
    destruct (control_turn tm (AwaitSetupRequest v) m s1) as [[[ph|b]|e|] s2] eqn:E; [| |done|done].
    + by apply turn_continue in E as [? _].
    + injection H as -> _. apply turn_true in E as (v' & request & _ & -> & Htok).
      exists (Protocol.access_token request). split; [|congruence]. unfold proves. eauto.
  - intros [= -> _]. by apply turn_true in E as (v & request & ? & _).
Qed.

Lemma connection_cons act r acts s' tm streams b s :
  (let '(r, acts, s) := handle_connection tm streams b s in (r, act :: acts, s)) = (r, acts, s') ->
  exists acts', acts = act :: acts' /\ handle_connection tm streams b s = (r, acts', s').
Proof.
  destruct (handle_connection tm streams b s) as [[r1 acts1] s1]. intros [= <- <- <-]. eauto.
Qed.

(** The outcome of the last control stream of a history. *)
Definition last_control (authenticated : bool) (acts : list Action) : bool :=
  fold_left (fun b a => match a with Controlled b' => b' | _ => b end) acts authenticated.

(** One turn of the connection's loop. *)
Lemma connection_inv tm o streams b s r acts s' :
  handle_connection tm (o :: streams) b s = (r, acts, s') ->
  acts = [] \/
  exists act acts' b1 s1, acts = act :: acts' /\
    handle_connection tm streams b1 s1 = (r, acts', s') /\ access_token s1 = access_token s /\
    b1 = last_control b [act] /\
    match act with
    | Controlled b2 => stream_ty o = Ok STREAM_CONTROL /\
        handle_control_stream tm AwaitAttestation (control_reads o) s = (Some (Ok b2), s1)
    | Served ty => b = true
    | Rejected ty => b = false /\ s1 = s
    | Unavailable => b = true
    end.
Proof.
  cbn [handle_connection]. destruct (stream_ty o) as [ty|e|] eqn:Et; cbn [with_context];
    [|intros [= <- <- <-]; auto..].
  destruct (Z.eqb_spec ty STREAM_CONTROL) as [->|_].
  { pose proof (token_control tm AwaitAttestation (control_reads o) s) as Htok.
    destruct (handle_control_stream tm AwaitAttestation (control_reads o) s) as [[[b2|e|]|] s1] eqn:E;
      [|intros [= <- <- <-]; auto..].
    intros H. apply connection_cons in H as (acts' & -> & H). right.
    exists (Controlled b2), acts', b2, s1. split_and!; done. }
  destruct (ty =? STREAM_PORT_FORWARD).
  { destruct b; cbn [negb]; intros H; apply connection_cons in H as (acts' & -> & H); right;
      eexists _, acts', _, s; split_and!; try done. }
  destruct (ty =? STREAM_CONSOLE).
  { destruct b; cbn [negb]; [|intros H; apply connection_cons in H as (acts' & -> & H); right;
      eexists _, acts', _, s; split_and!; done].
    pose proof (token_setup (access_token s) (Setup.ensure_live_inner_init_pid own_pid) s eq_refl) as Ht.
    destruct (with_setup _ s) as [[pid|e|] s1]; [| |intros [= <- <- <-]; auto];
      intros H; apply connection_cons in H as (acts' & -> & H); right;
      eexists _, acts', _, s1; split_and!; done. }
  destruct (ty =? STREAM_EXEC_LIST).
  { destruct b; cbn [negb]; intros H; apply connection_cons in H as (acts' & -> & H); right;
      eexists _, acts', _, s; split_and!; try done. }
  intros [= <- <- <-]. auto.
Qed.

(** ** Properties *)

(** C2: The gate.  Whatever streams a client opens on a connection and whatever it
    sends, a port-forward, console or exec-list stream is served only if the last
    control stream before it ended in success, and then some control stream of
    this very connection began with an attestation request followed by a setup
    request carrying the configured access token, byte for byte.  Without a
    configured token nothing is ever served. *)
Theorem streams_are_served_only_after_the_token tm streams s r pre ty post s' :
  handle_connection tm streams false s = (r, pre ++ Served ty :: post, s') ->
  last_control false pre = true /\
  exists o token, o ∈ streams /\ stream_ty o = Ok STREAM_CONTROL /\
    proves (control_reads o) token /\ access_token s = Some token.
Proof.
  intros H.
  assert (Hgen : forall streams b s acts pre,
    acts = pre ++ Served ty :: post -> handle_connection tm streams b s = (r, acts, s') ->
    last_control b pre = true /\
    (b = true \/ exists o token, o ∈ streams /\ stream_ty o = Ok STREAM_CONTROL /\
       proves (control_reads o) token /\ access_token s = Some token)).
  { clear H streams s pre. induction streams as [|o streams IH]; intros b s acts pre Hacts H.
    { injection H as <- <- <-. by destruct pre. }
    apply connection_inv in H as [->|(act & acts' & b1 & s1 & -> & H & Htok & Hb & Hact)];
      [by destruct pre|].
    destruct pre as [|a pre]; injection Hacts as -> Hacts.
    { rewrite Hact. auto. }
    destruct (IH _ _ _ _ Hacts H) as [Hlast Hor]. rewrite Hb in Hlast. split; [exact Hlast|].
    destruct Hor as [Hb1|(o' & token & Hin & Hrest)].
    - destruct a as [b2|ty'|ty'|]; cbn in Hb; subst b1; [|auto..]. subst b2.
      destruct Hact as [Hty Hc]. apply control_true in Hc as (token & Hp & Ht).
      right. exists o, token. split; [left|done].
    - right. exists o', token. split; [by right|]. by rewrite <- Htok. }
  destruct (Hgen _ _ _ _ _ eq_refl H) as [Hlast [?|Hex]]; [done|]. done.
Qed.

(** The constant-time comparison decides equality: a token is accepted exactly
    when one is configured and the client sent the same bytes, of whatever
    lengths the two are. *)
Theorem access_token_is_compared_exactly expected provided :
  verify_access_token expected provided = Ok tt <-> expected = Some provided.
Proof. apply verify_access_token_Ok. Qed.

(** A refused setup request changes nothing.  With a wrong or missing token, a
    root that cannot be downloaded, a URL that is not http(s), or no root for a
    machine attested as Cold, the request fails before the machine is touched:
    the shared state and the file system are exactly as before. *)
Theorem refused_setup_changes_nothing state request s :
  access_token s <> Some (Protocol.access_token request) \/
  (forall tarball, resolve_rootfs_source (rootfs request) <> Ok tarball) \/
  (state = Cold /\ rootfs request = RootfsNone) ->
  resolve_rootfs_source (rootfs request) <> Panic ->
  exists e, apply_setup_request state request s = (Err e, s).
Proof.
  intros Hbad Hnp. unfold apply_setup_request. rewrite (M_bind_Ok mget _ s s s) by done.
  destruct (verify_access_token (access_token s) (Protocol.access_token request)) as [[]|e|] eqn:Ev.
  - rewrite (M_bind_Ok _ _ s tt s) by (by unfold mlift).
    apply verify_access_token_Ok in Ev. destruct Hbad as [?|Hbad]; [done|].
    destruct (resolve_rootfs_source (rootfs request)) as [tarball|e|] eqn:Er; [| |done].
    + rewrite (M_bind_Ok _ _ s tarball s) by done.
      destruct Hbad as [Hbad|[-> Hn]]; [by destruct (Hbad tarball)|].
      rewrite Hn in Er. injection Er as <-. eexists. by apply M_bind_Err.
    + eexists. by apply M_bind_Err.
  - eexists. by apply M_bind_Err.
  - unfold verify_access_token in Ev. destruct (access_token s); [|done]. by case_in Ev.
Qed.

(** What is attested.  The payload has the protocol version, and a token bound
    to this connection: the OIDC token (in test mode a marker) for the hex of the
    connection's exported keying material.  The state it reports is the one the
    server holds. *)
Theorem attestation_is_bound_to_the_connection tm s p s' :
  build_attestation tm s = (Ok p, s') ->
  protocol_version p = PROTOCOL_VERSION /\ Protocol.state p = vm_state s' /\
  exists ekm, export_keying_material CHANNEL_BINDING_LABEL = Some ekm /\
    if tm then jwt p = "test-mode-jwt:" +:+ hex_encode ekm
    else fetch_oidc_token (hex_encode ekm) = Ok (jwt p).
Proof.
  intros H. unfold build_attestation in H.
  apply M_bind_inv in H as (ekm & s1 & [= He <-] & H).
  apply M_bind_inv in H as (j & s1 & Hj & H).
  apply M_bind_inv in H as (st & s2 & _ & H). apply M_bind_inv in H as (? & s3 & _ & H).
  apply M_bind_inv in H as (? & s4 & _ & H). apply M_bind_inv in H as (s5 & ? & [= <- <-] & H).
  apply M_bind_inv in H as (rs & s6 & Hr & H). injection H as <- <-.
  assert (Hv : vm_state s6 = vm_state s4).
  { unfold with_setup in Hr. destruct (Setup.runtime_status (setup s4)). by injection Hr as _ <-. }
  split; [done|]. cbn. split; [done|].
  destruct (export_keying_material CHANNEL_BINDING_LABEL) as [ekm'|]; [|done].
  injection He as ->. exists ekm. split; [done|]. destruct tm; by injection Hj.
Qed.

(** Boot.  If the server comes up and no call fails, a machine that was Cold has been
    left alone and is served as Cold, and one that was Ready has its inner init
    running. *)
Theorem boot_starts_a_ready_machine manager token os s :
  Setup.io_faults os = [] -> boot manager token os = (Ok tt, s) ->
  match fst (Setup.detect_state (Setup.mkSt manager os)) with
  | Ok Ready => Setup.inner_init_pid (Setup.mgr (setup s)) <> None
  | _ => setup s = Setup.mkSt manager os /\ vm_state s = Cold
  end.
Proof.
  intros Hc H. unfold boot in H. apply M_bind_inv in H as (st & s1 & H1 & H).
  assert (Hd : exists v, Setup.detect_state (Setup.mkSt manager os) = (Ok v, Setup.mkSt manager os)).
  { eexists. unfold Setup.detect_state. rewrite (M_bind_Ok Setup.get_mgr _ _ manager (Setup.mkSt manager os)) by done.
    unfold mbind, M_bind, mbind_st. by rewrite Setup.path_exists_run. }
  destruct Hd as [v Hd]. rewrite Hd. cbn [fst].
  unfold with_setup in H1. cbn [setup] in H1. rewrite Hd in H1. injection H1 as <- <-. cbn in H.
  apply M_bind_inv in H as ([] & s2 & H2 & H). apply M_bind_inv in H as (st2 & s3 & H3 & H).
  injection H as <-. cbn [setup set_vm_state vm_state]. unfold with_setup in H3.
  destruct v; cbn in H2.
  - injection H2 as <-. cbn [setup] in H3. rewrite Hd in H3. by injection H3 as <- <-.
  - apply mcontext_Ok in H2. unfold with_setup in H2. cbn [setup] in H2.
    destruct (Setup.start_ready_runtime own_pid _) as [r st] eqn:E. injection H2 as -> <-.
    unfold Setup.start_ready_runtime in E. rewrite (M_bind_Ok _ _ _ _ _ Hd) in E. cbn in E, H3.
    destruct (Setup.detect_state st) as [r st'] eqn:E2. injection H3 as -> <-. cbn.
    apply Setup.detect_state_inv in E2 as (_ & -> & _). by apply Setup.ensure_inv in E.
Qed.
End lemmas.

(** ** Witnesses *)

Definition demo_host : Host := {|
  export_keying_material _ := Some (as_bytes "k");
  hex_encode _ := "6b";
  http_client := Ok tt;
  unix_post _ _ body := Ok (mkReply 200 (Ok ("jwt:" +:+ default "" (snd <$> head body))));
  url_parse url := Ok ("https", url);
  http_get _ := Ok (mkReply 200 (Ok []));
  status_error _ := [];
  alternate _ := "";
  debug _ := "";
  own_pid := 1;
|}.

Definition demo_srv (fs : list (list string * Setup.Node)) : Srv :=
  mkSrv Cold (Setup.demo_state fs []) (Some "secret") [] [].

Definition demo_control (token : string) : Opened :=
  mkOpened (Ok STREAM_CONTROL)
    [Ok CMRequestAttestation; Ok (CMSetupRequest (mkSetupRequest token (RootfsInline [])))].

Lemma streams_are_served_only_after_the_token_witness :
  exists o token, o ∈ [demo_control "secret"; mkOpened (Ok STREAM_PORT_FORWARD) []] /\
    stream_ty o = Ok STREAM_CONTROL /\ proves (control_reads o) token /\ Some "secret" = Some token.
Proof.
  pose (H := demo_host). pose (T := Setup.one_file_targz).
  destruct (handle_connection false [demo_control "secret"; mkOpened (Ok STREAM_PORT_FORWARD) []] false
    (demo_srv Setup.demo_persist)) as [[r acts] s'] eqn:E.
  assert (Ha : acts = [Controlled true; Served STREAM_PORT_FORWARD]).
  { change acts with (snd (fst (r, acts, s'))). rewrite <- E. vm_compute. reflexivity. }
  rewrite Ha in E. apply (streams_are_served_only_after_the_token false _ _ r [Controlled true] _ [] s' E).
Defined.

Lemma refused_setup_changes_nothing_witness :
  exists e, @apply_setup_request demo_host Setup.one_file_targz Cold (mkSetupRequest "guess" (RootfsInline [])) (demo_srv [])
    = (Err e, demo_srv []).
Proof.
  pose (H := demo_host). pose (T := Setup.one_file_targz). apply (refused_setup_changes_nothing Cold (mkSetupRequest "guess" (RootfsInline [])) (demo_srv []));
    [left; vm_compute; done|done].
Defined.

Lemma attestation_is_bound_to_the_connection_witness :
  exists p, protocol_version p = PROTOCOL_VERSION /\ Protocol.state p = Cold /\ jwt p = "jwt:6b".
Proof.
  pose (H := demo_host). pose (T := Setup.one_file_targz). destruct (build_attestation false (demo_srv [])) as [r s'] eqn:E.
  assert (Hr : fst (build_attestation false (demo_srv [])) = Ok (mkAttestation 1 Cold NotStarted "jwt:6b") /\
    vm_state (snd (build_attestation false (demo_srv []))) = Cold) by (vm_compute; done).
  rewrite E in Hr. cbn [fst snd] in Hr.
  destruct Hr as [-> Hv].
  destruct (attestation_is_bound_to_the_connection false (demo_srv []) _ s' E) as (Hp & Hs & _).
  eexists. split; [exact Hp|]. by rewrite Hs.
Defined.

Lemma boot_starts_a_ready_machine_witness :
  exists s, @boot demo_host Setup.demo_setup None
      (Setup.mkOs (Setup.demo_fs [(["data"; ".provisioned"], Setup.NFile [])]) [] [] [] []) = (Ok tt, s) /\
    Setup.inner_init_pid (Setup.mgr (setup s)) <> None.
Proof.
  pose (H := demo_host). pose (T := Setup.one_file_targz).
  destruct (boot Setup.demo_setup None
    (Setup.mkOs (Setup.demo_fs [(["data"; ".provisioned"], Setup.NFile [])]) [] [] [] [])) as [r s] eqn:E.
  assert (r = Ok tt) as ->.
  { change r with (fst (r, s)). rewrite <- E. by vm_compute. }
  exists s. split; [reflexivity|].
  exact (boot_starts_a_ready_machine _ _
    (Setup.mkOs (Setup.demo_fs [(["data"; ".provisioned"], Setup.NFile [])]) [] [] [] []) _ eq_refl E).
Defined.
