(* ===== verification/Proxy.v ===== *)
(** * The UDP proxy ([crates/proxy/src/*.rs])

    The machine maps ([machines.rs]), the sessions and their relays
    ([session.rs]), and the packet loop with its background starts
    ([proxy.rs]).  Sessions are objects of a heap, because the map, the relay
    task and the packet loop share them; the tasks of the proxy interleave at the
    points where they hold no lock.  Sockets, the clock and the Machines API are
    the environment of each operation. *)

From stdpp Require Import numbers countable.
From S2P Require Import Prelude Protocol.

Section proxy.
(** [std::net::IpAddr] and its parser. *)
Context {Ip : Type} `{Countable Ip} (parse_ip : string -> option Ip).

Definition SocketAddr : Type := Ip * Z.

(** ** [machines.rs] *)

Record MachineEntry := mkEntry {
  entry_id : string;
  entry_state : string;
  private_ip : option string;
}.

(** ** [session.rs] *)

(** [relay_handle] as the address the relay task captured, whether the task still
    runs, and whether it was aborted. *)
Record Session := mkSession {
  backend_addr : SocketAddr;
  last_activity : Z;
  relay_client : SocketAddr;
  relay_runs : bool;
  aborted : bool;
}.

(** ** [proxy.rs] *)

(** Where a task of [maybe_start_machine] is. *)
Inductive StartPc := CheckState | TakeGuard | CallStart | CallWait | CallRefresh | DropGuard | StartDone.

Record Starter := mkStarter { st_machine : string; st_pc : StartPc }.

(** A datagram the proxy sent. *)
Inductive Datagram :=
| ToBackend (session : nat) (to : SocketAddr) (payload : list byte)
| ToClient (to : SocketAddr) (payload : list byte).

Record Proxy := mkProxy {
  machine_map : gmap string Ip;
  full_map : gmap string string;
  sessions : gmap SocketAddr nat;
  heap : gmap nat Session;
  starting : gset string;
  starters : list Starter;
  sent : list Datagram;
}.

Definition set_maps (p : Proxy) (m : gmap string Ip) (f : gmap string string) : Proxy :=
  mkProxy m f (sessions p) (heap p) (starting p) (starters p) (sent p).
Definition set_heap (p : Proxy) (h : gmap nat Session) : Proxy :=
  mkProxy (machine_map p) (full_map p) (sessions p) h (starting p) (starters p) (sent p).
Definition set_sessions (p : Proxy) (s : gmap SocketAddr nat) (h : gmap nat Session) : Proxy :=
  mkProxy (machine_map p) (full_map p) s h (starting p) (starters p) (sent p).
Definition set_starters (p : Proxy) (g : gset string) (s : list Starter) : Proxy :=
  mkProxy (machine_map p) (full_map p) (sessions p) (heap p) g s (sent p).
Definition add_sent (p : Proxy) (d : Datagram) : Proxy :=
  mkProxy (machine_map p) (full_map p) (sessions p) (heap p) (starting p) (starters p) (sent p ++ [d]).

(** The loop of [refresh_once] over the entries. *)
Definition refresh_entry (maps : gmap string Ip * gmap string string) (entry : MachineEntry) :
    gmap string Ip * gmap string string :=
  let '(new_map, new_full) := maps in
  let ip := private_ip entry ≫= parse_ip in
  let new_full := <[entry_id entry := entry_state entry]> new_full in
  if bool_decide (entry_state entry = "started") then
    match ip with
    | Some ip => (<[entry_id entry := ip]> new_map, new_full)
    | None => (new_map, new_full)
    end
  else (new_map, new_full).

(** [refresh_once]; [fetched] is what [fetch_machines] gave. *)
Definition refresh_once (fetched : Res (list MachineEntry)) (p : Proxy) : Proxy :=
  match fetched with
  | Ok entries =>
      let '(new_map, new_full) := fold_left refresh_entry entries (∅, ∅) in
      set_maps p new_map new_full
  | _ => p
  end.

(** What the environment answers while a session is looked up or created. *)
Record Io := mkIo {
  now_secs : Z;
  bind_result : Res unit;
  connect_result : Res unit;
}.

Definition touch (now : Z) (s : Session) : Session :=
  mkSession (backend_addr s) now (relay_client s) (relay_runs s) (aborted s).

(** [relay_handle.abort()].  Tokio cancels the task where it next yields: the poll it may
    be in, which can still forward one datagram, counts as before the abort. *)
Definition abort (s : Session) : Session :=
  mkSession (backend_addr s) (last_activity s) (relay_client s) false true.

Definition abort_in (h : gmap nat Session) (session : nat) : gmap nat Session :=
  match h !! session with Some s => <[session := abort s]> h | None => h end.

(** The end of [create_session]: the socket, the relay task and the map entry. *)
Definition open_session (io : Io) (client_addr backend_addr_ : SocketAddr) : M Proxy nat :=
  _ ← mcontext "bind backend socket" (mlift (bind_result io));
  _ ← mcontext "connect backend socket" (mlift (connect_result io));
  p ← mget;
  let session := fresh (dom (heap p)) in
  let s := mkSession backend_addr_ (now_secs io) client_addr true false in
  _ ← mput (set_sessions p (<[client_addr := session]> (sessions p)) (<[session := s]> (heap p)));
  mret session.

(** [create_session], which holds the write lock throughout. *)
Definition create_session (io : Io) (client_addr backend_addr_ : SocketAddr) : M Proxy nat :=
  p ← mget;
  match sessions p !! client_addr with
  | Some session =>
      match heap p !! session with
      | Some s =>
          if bool_decide (backend_addr s = backend_addr_) then
            _ ← mput (set_heap p (<[session := touch (now_secs io) s]> (heap p)));
            mret session
          else
            _ ← mput (set_sessions p (delete client_addr (sessions p)) (abort_in (heap p) session));
            open_session io client_addr backend_addr_
      | None => mlift Panic
      end
  | None => open_session io client_addr backend_addr_
  end.

(** [get_or_create_session].  [meanwhile]: what the cleanup task does between the
    read lock, the removal of the stale session, and [create_session]. *)
Definition get_or_create_session (io : Io) (meanwhile1 meanwhile2 : Proxy -> Proxy)
    (client_addr backend_addr_ : SocketAddr) : M Proxy nat :=
  p ← mget;
  match sessions p !! client_addr with
  | Some session =>
      match heap p !! session with
      | Some s =>
          if bool_decide (backend_addr s = backend_addr_) then
            _ ← mput (set_heap p (<[session := touch (now_secs io) s]> (heap p)));
            mret session
          else
            _ ← mmodify meanwhile1;
            p ← mget;
            _ ← match sessions p !! client_addr with
                | Some old =>
                    mput (set_sessions p (delete client_addr (sessions p)) (abort_in (heap p) old))
                | None => mret tt
                end;
            _ ← mmodify meanwhile2;
            create_session io client_addr backend_addr_
      | None => mlift Panic
      end
  | None => _ ← mmodify meanwhile1; create_session io client_addr backend_addr_
  end.

(** One wake-up of the relay task of a session: what [recv] and [send_to] gave. *)
Definition relay_step (now : Z) (received : Res (list byte)) (send_result : Res unit)
    (session : nat) (p : Proxy) : Proxy :=
  match heap p !! session with
  | Some s =>
      if negb (relay_runs s) then p
      else
        let stop (s : Session) := mkSession (backend_addr s) (last_activity s) (relay_client s) false (aborted s) in
        match received with
        | Ok payload =>
            match send_result with
            | Ok _ => add_sent (set_heap p (<[session := touch now s]> (heap p))) (ToClient (relay_client s) payload)
            | _ => set_heap p (<[session := stop (touch now s)]> (heap p))
            end
        | _ => set_heap p (<[session := stop s]> (heap p))
        end
  | None => p
  end.

(** Whether [cleanup_sessions] expires a session. *)
Definition is_idle (now timeout_secs : Z) (s : Session) : bool :=
  timeout_secs <? saturating_sub now (last_activity s).

Definition session_idle (now timeout_secs : Z) (p : Proxy) (session : nat) : bool :=
  match heap p !! session with Some s => is_idle now timeout_secs s | None => false end.

(** One sweep of [cleanup_sessions]. *)
Definition sweep (now timeout_secs : Z) (p : Proxy) : Proxy :=
  set_sessions p
    (filter (fun '(_, session) => session_idle now timeout_secs p session = false) (sessions p))
    (map_imap (fun session s =>
       Some (if is_idle now timeout_secs s && bool_decide (session ∈ (map_to_list (sessions p)).*2)
             then abort s else s)) (heap p)).

(** One turn of [run_proxy] on a datagram.  A panic of the decoder is a panic of
    the loop, which runs in the main task. *)
Definition proxy_packet (io : Io) (meanwhile1 meanwhile2 : Proxy -> Proxy)
    (send_result : Res unit) (backend_port : Z) (client_addr : SocketAddr) (packet : list byte) :
    M Proxy unit :=
  decoded ← mtry (mlift (decode_proxy_packet packet));
  match (decoded : Res ProxyPacket) with
  | Ok decoded =>
      p ← mget;
      match machine_map p !! machine_id decoded with
      | None =>
          mput (set_starters p (starting p) (starters p ++ [mkStarter (machine_id decoded) CheckState]))
      | Some ip =>
          let backend := (ip, backend_port) in
          session ← mtry (get_or_create_session io meanwhile1 meanwhile2 client_addr backend);
          match (session : Res nat) with
          | Ok session =>
              match send_result with
              | Ok _ => mmodify (fun p =>
                  match heap p !! session with
                  | Some s => add_sent p (ToBackend session (backend_addr s) (pp_payload decoded))
                  | None => p
                  end)
              | _ => mret tt
              end
          | _ => mret tt
          end
      end
  | _ => mret tt
  end.

Definition startable (state : option string) : bool :=
  match state with
  | Some s => bool_decide (s = "stopped") || bool_decide (s = "suspended") || bool_decide (s = "created")
  | None => false
  end.

(** What the Machines API answered to a starter. *)
Inductive StartAnswer :=
| NoAnswer
| Answer (r : Res unit)
| Fetched (r : Res (list MachineEntry)).

(** One step of a task of [maybe_start_machine]. *)
Definition starter_step (answer : StartAnswer) (i : nat) (p : Proxy) : option Proxy :=
  match starters p !! i with
  | None => None
  | Some (mkStarter machine_id pc) =>
      let goto pc p := set_starters p (starting p) (<[i := mkStarter machine_id pc]> (starters p)) in
      match pc, answer with
      | CheckState, NoAnswer =>
          Some (goto (if startable (full_map p !! machine_id) then TakeGuard else StartDone) p)
      | TakeGuard, NoAnswer =>
          if bool_decide (machine_id ∈ starting p) then Some (goto StartDone p)
          else Some (goto CallStart (set_starters p ({[machine_id]} ∪ starting p) (starters p)))
      | CallStart, Answer r => Some (goto (if is_ok r then CallWait else DropGuard) p)
      | CallWait, Answer r => Some (goto (if is_ok r then CallRefresh else DropGuard) p)
      | CallRefresh, Fetched r => Some (goto DropGuard (refresh_once r p))
      | DropGuard, NoAnswer =>
          Some (goto StartDone (set_starters p (starting p ∖ {[machine_id]}) (starters p)))
      | _, _ => None
      end
  end.

(** ** The proxy's tasks interleaved *)

(** Between two locked sections the cleanup task may run, any number of times. *)
Inductive sweeps (timeout_secs : Z) : (Proxy -> Proxy) -> Prop :=
| no_sweep : sweeps timeout_secs (fun p => p)
| one_more f now : sweeps timeout_secs f -> sweeps timeout_secs (fun p => sweep now timeout_secs (f p)).

Inductive proxy_step (timeout_secs backend_port : Z) : Proxy -> Proxy -> Prop :=
| step_packet p io f g send_result client packet r p' :
    sweeps timeout_secs f -> sweeps timeout_secs g ->
    bind_result io <> Panic -> connect_result io <> Panic ->
    proxy_packet io f g send_result backend_port client packet p = (r, p') ->
    proxy_step timeout_secs backend_port p p'
| step_relay p now received send_result session :
    proxy_step timeout_secs backend_port p (relay_step now received send_result session p)
| step_sweep p now : proxy_step timeout_secs backend_port p (sweep now timeout_secs p)
| step_refresh p fetched : proxy_step timeout_secs backend_port p (refresh_once fetched p)
| step_starter p answer i p' :
    starter_step answer i p = Some p' -> proxy_step timeout_secs backend_port p p'.

Definition proxy_initial : Proxy := mkProxy ∅ ∅ ∅ ∅ ∅ [] [].

Inductive proxy_reachable (timeout_secs backend_port : Z) : Proxy -> Prop :=
| proxy_init : proxy_reachable timeout_secs backend_port proxy_initial
| proxy_more p p' : proxy_reachable timeout_secs backend_port p ->
    proxy_step timeout_secs backend_port p p' -> proxy_reachable timeout_secs backend_port p'.

(** ** Invariants *)

(** The map and the running relays correspond one to one. *)
Record SessionsOk (p : Proxy) : Prop := {
  ses_mapped : forall a k, sessions p !! a = Some k ->
    exists s, heap p !! k = Some s /\ aborted s = false /\ relay_client s = a;
  ses_kept : forall k s, heap p !! k = Some s -> aborted s = false ->
    exists a, sessions p !! a = Some k;
  ses_aborted : forall k s, heap p !! k = Some s -> aborted s = true -> relay_runs s = false;
}.

Definition active (s : Starter) : bool :=
  match st_pc s with CallStart | CallWait | CallRefresh | DropGuard => true | _ => false end.

Definition active_machines (ss : list Starter) : list string :=
  st_machine <$> filter (fun s => active s = true) ss.

(** The set of starting machines is that of the tasks past the guard, each of
    which starts another machine. *)
Record StartersOk (p : Proxy) : Prop := {
  star_set : starting p = list_to_set (active_machines (starters p));
  star_unique : NoDup (active_machines (starters p));
}.

Lemma ses_inj p a b k :
  SessionsOk p -> sessions p !! a = Some k -> sessions p !! b = Some k -> a = b.
Proof.
  intros HS Ha Hb. apply (ses_mapped p HS) in Ha as (s & Hs & _ & <-).
  apply (ses_mapped p HS) in Hb as (x & Hx & _ & <-). congruence.
Qed.

(** Changing one session object. *)
Lemma sessions_update p k s s' :
  SessionsOk p -> heap p !! k = Some s -> aborted s' = aborted s -> relay_client s' = relay_client s ->
  (aborted s' = true -> relay_runs s' = false) ->
  SessionsOk (set_heap p (<[k := s']> (heap p))).
Proof.
  intros [] Hk Ha Hc Hr. split; cbn.
  - intros a k' Hm. apply ses_mapped0 in Hm as (x & Hx & Hax & Hcx).
    destruct (decide (k' = k)) as [->|Hn].
    + exists s'. rewrite lookup_insert_eq. rewrite Hk in Hx. injection Hx as <-. split_and!; congruence.
    + exists x. by rewrite lookup_insert_ne.
  - intros k' x Hx Hax. apply lookup_insert_Some in Hx as [[<- <-]|[Hn Hx]].
    + rewrite Ha in Hax. eauto.
    + eauto.
  - intros k' x Hx Hax. apply lookup_insert_Some in Hx as [[<- <-]|[Hn Hx]]; eauto.
Qed.

Lemma sessions_remove p a k :
  SessionsOk p -> sessions p !! a = Some k ->
  SessionsOk (set_sessions p (delete a (sessions p)) (abort_in (heap p) k)).
Proof.
  intros HS Hm. pose proof HS as []. pose proof (ses_mapped0 _ _ Hm) as (s & Hs & Has & _).
  unfold abort_in. rewrite Hs. split; cbn.
  - intros b k' [Hab Hb]%lookup_delete_Some. pose proof (ses_mapped0 _ _ Hb) as (x & Hx & Hax).
    exists x. rewrite lookup_insert_ne; [done|]. intros <-. by apply Hab, (ses_inj p _ _ k).
  - intros k' x Hx Hax. apply lookup_insert_Some in Hx as [[<- <-]|[Hn Hx]]; [done|].
    destruct (ses_kept0 _ _ Hx Hax) as [b Hb]. exists b. rewrite lookup_delete_ne; [done|].
    intros <-. congruence.
  - intros k' x Hx Hax. apply lookup_insert_Some in Hx as [[<- <-]|[Hn Hx]]; [done|]. eauto.
Qed.

Lemma sessions_insert p a s :
  SessionsOk p -> sessions p !! a = None -> aborted s = false -> relay_client s = a ->
  SessionsOk (set_sessions p (<[a := fresh (dom (heap p))]> (sessions p))
    (<[fresh (dom (heap p)) := s]> (heap p))).
Proof.
  intros [] Ha Hs Hc. set (k := fresh (dom (heap p))).
  assert (Hk : heap p !! k = None) by (apply not_elem_of_dom, is_fresh).
  split; cbn.
  - intros b k' Hb. apply lookup_insert_Some in Hb as [[<- <-]|[Hn Hb]].
    + exists s. by rewrite lookup_insert_eq.
    + pose proof (ses_mapped0 _ _ Hb) as (x & Hx & Hax). exists x.
      rewrite lookup_insert_ne; [done|congruence].
  - intros k' x Hx Hax. apply lookup_insert_Some in Hx as [[<- <-]|[Hn Hx]].
    + exists a. apply lookup_insert_eq.
    + destruct (ses_kept0 _ _ Hx Hax) as [b Hb]. exists b. rewrite lookup_insert_ne; [done|].
      congruence.
  - intros k' x Hx Hax. apply lookup_insert_Some in Hx as [[<- <-]|[Hn Hx]]; [congruence|eauto].
Qed.

Lemma sweep_heap now timeout p k :
  heap (sweep now timeout p) !! k =
  (fun s => if is_idle now timeout s && bool_decide (k ∈ (map_to_list (sessions p)).*2)
            then abort s else s) <$> heap p !! k.
Proof. cbn. rewrite map_lookup_imap. by destruct (heap p !! k). Qed.

Lemma mapped_value (m : gmap SocketAddr nat) k :
  k ∈ (map_to_list m).*2 <-> exists a, m !! a = Some k.
Proof.
  rewrite list_elem_of_fmap. split.
  - intros ([a k'] & -> & Hin). apply elem_of_map_to_list in Hin. eauto.
  - intros [a Ha]. exists (a, k). split; [done|]. by apply elem_of_map_to_list.
Qed.

Lemma sweep_sessions now timeout p a k :
  sessions (sweep now timeout p) !! a = Some k <->
  sessions p !! a = Some k /\ session_idle now timeout p k = false.
Proof. cbn. rewrite map_lookup_filter_Some. done. Qed.

Lemma sessions_sweep now timeout p : SessionsOk p -> SessionsOk (sweep now timeout p).
Proof.
  intros HS. pose proof HS as []. split.
  - intros a k [Hm Hi]%sweep_sessions. pose proof (ses_mapped0 _ _ Hm) as (s & Hs & Has).
    exists s. rewrite sweep_heap, Hs. unfold session_idle in Hi. rewrite Hs in Hi.
    cbn. rewrite Hi. done.
  - intros k s Hs Has. rewrite sweep_heap in Hs. apply fmap_Some in Hs as (s0 & Hs0 & ->).
    destruct (is_idle now timeout s0 && _) eqn:Ei; [done|].
    destruct (ses_kept0 _ _ Hs0 Has) as [a Ha]. exists a. apply sweep_sessions. split; [done|].
    unfold session_idle. rewrite Hs0. apply andb_false_iff in Ei as [Ei|Ei]; [done|].
    apply bool_decide_eq_false in Ei. destruct Ei. apply mapped_value. eauto.
  - intros k s Hs Has. rewrite sweep_heap in Hs. apply fmap_Some in Hs as (s0 & Hs0 & ->).
    destruct (_ && _); [done|eauto].
Qed.

Lemma sessions_sweeps timeout f p : sweeps timeout f -> SessionsOk p -> SessionsOk (f p).
Proof. induction 1; auto using sessions_sweep. Qed.

(** Everything but the sessions. *)
Definition same_rest (p p' : Proxy) : Prop :=
  machine_map p' = machine_map p /\ full_map p' = full_map p /\ starting p' = starting p /\
  starters p' = starters p /\ sent p' = sent p.

Lemma same_rest_sweeps timeout f p : sweeps timeout f -> same_rest p (f p).
Proof. induction 1 as [|f now _ IH]; [done|]. exact IH. Qed.

Lemma same_rest_trans p q r : same_rest p q -> same_rest q r -> same_rest p r.
Proof. unfold same_rest. intros (?&?&?&?&?) (?&?&?&?&?). split_and!; congruence. Qed.

(** The session found or made for a client: the one the map holds, connected to
    the backend asked for; there is one unless a socket call fails. *)
Definition session_for (io : Io) (c b : SocketAddr) (r : Res nat) (p : Proxy) : Prop :=
  r <> Panic /\ (bind_result io = Ok tt -> connect_result io = Ok tt -> exists k, r = Ok k) /\
  forall k, r = Ok k -> sessions p !! c = Some k /\
    exists s, heap p !! k = Some s /\ backend_addr s = b /\ last_activity s = now_secs io.

Lemma open_session_spec io c b p r p' :
  SessionsOk p -> sessions p !! c = None -> bind_result io <> Panic -> connect_result io <> Panic ->
  open_session io c b p = (r, p') ->
  SessionsOk p' /\ same_rest p p' /\ session_for io c b r p'.
Proof.
  intros HS Hn Hb Hcn Ho. unfold open_session, mbind, M_bind, mbind_st, mget, mput, mret, M_ret,
    mret_st, mlift, mcontext in Ho. unfold session_for.
  destruct (bind_result io) as [[]|e|]; [|injection Ho as <- <-; done|done].
  destruct (connect_result io) as [[]|e|]; [|injection Ho as <- <-; done|done].
  injection Ho as <- <-. split; [by apply sessions_insert|]. split; [done|]. split; [done|].
  split; [eauto|].
  intros k [= <-]. split; [apply lookup_insert_eq|]. eexists. split; [apply lookup_insert_eq|done].
Qed.

Lemma reused_spec io c p k s :
  SessionsOk p -> sessions p !! c = Some k -> heap p !! k = Some s ->
  let p' := set_heap p (<[k := touch (now_secs io) s]> (heap p)) in
  SessionsOk p' /\ same_rest p p' /\ session_for io c (backend_addr s) (Ok k) p'.
Proof.
  intros HS Hk Hs p'. split.
  { eapply sessions_update; [done|exact Hs|done|done|]. apply (ses_aborted p HS _ _ Hs). }
  split; [done|]. split; [done|]. split; [eauto|]. intros k' [= <-]. split; [done|].
  eexists. split; [apply lookup_insert_eq|done].
Qed.

Lemma create_session_spec io c b p r p' :
  SessionsOk p -> bind_result io <> Panic -> connect_result io <> Panic ->
  create_session io c b p = (r, p') ->
  SessionsOk p' /\ same_rest p p' /\ session_for io c b r p'.
Proof.
  intros HS Hb Hcn Hc. unfold create_session in Hc. unfold mbind at 1, M_bind, mbind_st, mget in Hc.
  destruct (sessions p !! c) as [k|] eqn:Ek; [|by eapply open_session_spec].
  pose proof (ses_mapped p HS _ _ Ek) as (s & Hs & Has & _). rewrite Hs in Hc.
  case_bool_decide as Hbk.
  - injection Hc as <- <-. rewrite <- Hbk. by apply (reused_spec io c p k s).
  - unfold mbind, M_bind, mbind_st, mput in Hc.
    apply open_session_spec in Hc as (HS' & Hr' & Hses);
      [done|by apply sessions_remove|apply lookup_delete_eq|done|done].
Qed.

Lemma get_or_create_spec timeout io f g c b p r p' :
  SessionsOk p -> bind_result io <> Panic -> connect_result io <> Panic ->
  sweeps timeout f -> sweeps timeout g ->
  get_or_create_session io f g c b p = (r, p') ->
  SessionsOk p' /\ same_rest p p' /\ session_for io c b r p'.
Proof.
  intros HS Hb Hcn Hf Hg Hgo. unfold get_or_create_session in Hgo.
  unfold mbind at 1, M_bind, mbind_st, mget in Hgo.
  destruct (sessions p !! c) as [k|] eqn:Ek.
  - pose proof (ses_mapped p HS _ _ Ek) as (s & Hs & Has & _). rewrite Hs in Hgo.
    case_bool_decide as Hbk.
    + injection Hgo as <- <-. rewrite <- Hbk. by apply (reused_spec io c p k s).
    + pose proof (sessions_sweeps _ _ _ Hf HS) as HS1. pose proof (same_rest_sweeps _ _ p Hf) as Hr1.
      assert (Hq : exists q, SessionsOk q /\ same_rest p q /\ create_session io c b (g q) = (r, p')).
      { unfold mbind, M_bind, mbind_st, mmodify, mget, mput, mret, M_ret, mret_st in Hgo.
        destruct (sessions (f p) !! c) as [old|] eqn:Eo.
        - eexists. split; [by apply (sessions_remove (f p) c old)|]. split; [exact Hr1|exact Hgo].
        - eexists. split; [exact HS1|]. split; [exact Hr1|exact Hgo]. }
      destruct Hq as (q & HSq & Hrq & Hc).
      apply create_session_spec in Hc as (HS' & Hr' & Hses); [|by eapply sessions_sweeps|done|done].
      split; [done|]. split; [|done]. eapply same_rest_trans; [exact Hrq|].
      eapply same_rest_trans; [|exact Hr']. by eapply same_rest_sweeps.
  - unfold mbind, M_bind, mbind_st, mmodify in Hgo.
    apply create_session_spec in Hgo as (HS' & Hr' & Hses);
      [|by eapply sessions_sweeps|done|done].
    split; [done|]. split; [|done]. eapply same_rest_trans; [|exact Hr']. by eapply same_rest_sweeps.
Qed.

(** What a datagram does. *)
Lemma proxy_packet_spec timeout io f g send_result port client packet p r p' :
  SessionsOk p -> bind_result io <> Panic -> connect_result io <> Panic ->
  sweeps timeout f -> sweeps timeout g ->
  proxy_packet io f g send_result port client packet p = (r, p') ->
  SessionsOk p' /\
  match decode_proxy_packet packet with
  | Ok decoded =>
      r = Ok tt /\
      match machine_map p !! machine_id decoded with
      | None => p' = set_starters p (starting p) (starters p ++ [mkStarter (machine_id decoded) CheckState])
      | Some ip =>
          exists rs q, same_rest p q /\ session_for io client (ip, port) rs q /\
          match rs, send_result with
          | Ok k, Ok _ => p' = add_sent q (ToBackend k (ip, port) (pp_payload decoded))
          | _, _ => p' = q
          end
      end
  | Err _ => r = Ok tt /\ p' = p
  | Panic => r = Panic /\ p' = p
  end.
Proof.
  intros HS Hb Hcn Hf Hg Hp. unfold proxy_packet in Hp.
  unfold mbind at 1, M_bind, mbind_st, mtry at 1, mlift in Hp.
  destruct (decode_proxy_packet packet) as [decoded|e|] eqn:Ed;
    [|injection Hp as <- <-; done..].
  unfold mbind at 1, M_bind, mbind_st, mget in Hp.
  destruct (machine_map p !! machine_id decoded) as [ip|] eqn:Em.
  2:{ injection Hp as <- <-. split; [by destruct HS|]. done. }
  unfold mbind at 1, M_bind, mbind_st, mtry in Hp.
  destruct (get_or_create_session io f g client (ip, port) p) as [rs q] eqn:Eg.
  destruct (get_or_create_spec timeout io f g client (ip, port) p rs q HS Hb Hcn Hf Hg Eg)
    as (HSq & Hrq & Hses).
  pose proof Hses as (Hnp & _ & Hk).
  destruct rs as [k|e|]; [|injection Hp as <- <-; split; [done|]; split; [done|]; by exists (Err e), q|done].
  destruct (Hk k eq_refl) as (Hm & s & Hs & Hbs & Hls).
  destruct send_result as [[]|e|]; [|injection Hp as <- <-; split; [done|]; split; [done|]; by exists (Ok k), q..].
  unfold mmodify in Hp. rewrite Hs in Hp. injection Hp as <- <-. rewrite Hbs.
  split; [by destruct HSq|]. split; [done|]. exists (Ok k), q. done.
Qed.

Lemma sessions_relay now received send_result k p :
  SessionsOk p -> SessionsOk (relay_step now received send_result k p).
Proof.
  intros HS. unfold relay_step. destruct (heap p !! k) as [s|] eqn:Es; [|done].
  destruct (relay_runs s) eqn:Er; [|done].
  assert (Hna : aborted s = true -> False)
    by (intros Ha; pose proof (ses_aborted p HS _ _ Es Ha); congruence).
  assert (Hup : forall s', aborted s' = aborted s -> relay_client s' = relay_client s ->
    SessionsOk (set_heap p (<[k := s']> (heap p)))).
  { intros s' Ha Hc. eapply sessions_update; [done|exact Es|done|done|].
    intros Ht. rewrite Ha in Ht. destruct (Hna Ht). }
  cbn [negb]. destruct received as [payload|e|]; [|by apply Hup..].
  destruct send_result as [[]|e|]; [|by apply Hup..].
  pose proof (Hup (touch now s) eq_refl eq_refl) as Hq. by destruct Hq.
Qed.

Lemma active_machines_app l s l' :
  active_machines (l ++ s :: l') =
  active_machines l ++ (if active s then [st_machine s] else []) ++ active_machines l'.
Proof.
  unfold active_machines. rewrite filter_app, filter_cons, fmap_app. f_equal.
  destruct (active s); case_decide; done.
Qed.

(** A task that moves on without passing the guard. *)
Lemma starters_goto p i s s' :
  StartersOk p -> starters p !! i = Some s -> st_machine s' = st_machine s -> active s' = active s ->
  StartersOk (set_starters p (starting p) (<[i := s']> (starters p))).
Proof.
  intros [Hs Hu] Hi Hm Ha. pose proof (take_drop_middle _ _ _ Hi) as Hl.
  assert (E : active_machines (<[i := s']> (starters p)) = active_machines (starters p)).
  { rewrite insert_take_drop by (eapply lookup_lt_Some; exact Hi). rewrite <- Hl at 3.
    by rewrite !active_machines_app, Hm, Ha. }
  split; cbn [starting starters set_starters]; by rewrite E.
Qed.

Lemma starters_acquire p i s s' :
  StartersOk p -> starters p !! i = Some s -> st_machine s' = st_machine s ->
  active s = false -> active s' = true -> st_machine s ∉ starting p ->
  StartersOk (set_starters p ({[st_machine s]} ∪ starting p) (<[i := s']> (starters p))).
Proof.
  intros [Hs Hu] Hi Hm Ha Ha' Hn. pose proof (take_drop_middle _ _ _ Hi) as Hl.
  rewrite Hs in Hn. rewrite not_elem_of_list_to_set in Hn.
  assert (E : active_machines (<[i := s']> (starters p)) ≡ₚ st_machine s :: active_machines (starters p)).
  { rewrite insert_take_drop by (eapply lookup_lt_Some; exact Hi). rewrite <- Hl at 3.
    rewrite !active_machines_app, Hm, Ha, Ha'. cbn. symmetry. apply Permutation_middle. }
  split; cbn [starting starters set_starters].
  - rewrite E, Hs. done.
  - rewrite E. by constructor.
Qed.

Lemma starters_release p i s s' :
  StartersOk p -> starters p !! i = Some s -> active s = true -> active s' = false ->
  StartersOk (set_starters p (starting p ∖ {[st_machine s]}) (<[i := s']> (starters p))).
Proof using parse_ip.
  intros [Hs Hu] Hi Ha Ha'. pose proof (take_drop_middle _ _ _ Hi) as Hl.
  assert (E : active_machines (starters p) ≡ₚ st_machine s :: active_machines (<[i := s']> (starters p))).
  { rewrite insert_take_drop by (eapply lookup_lt_Some; exact Hi). rewrite <- Hl at 1.
    rewrite !active_machines_app, Ha, Ha'. cbn. symmetry. apply Permutation_middle. }
  rewrite E in Hs, Hu. apply NoDup_cons in Hu as [Hn Hu]. split; cbn [starting starters set_starters]; [|done].
  rewrite Hs, list_to_set_cons. apply set_eq. intros x.
  rewrite elem_of_difference, elem_of_union, elem_of_singleton, elem_of_list_to_set.
  split; [tauto|]. intros Hx. split; [auto|]. intros ->. contradiction.
Qed.

Lemma refresh_rest fetched p :
  sessions (refresh_once fetched p) = sessions p /\ heap (refresh_once fetched p) = heap p /\
  starting (refresh_once fetched p) = starting p /\ starters (refresh_once fetched p) = starters p /\
  sent (refresh_once fetched p) = sent p.
Proof. destruct fetched; cbn; [|done..]. by destruct (fold_left refresh_entry a (∅, ∅)). Qed.

(** The components an operation left alone keep their invariants. *)
Lemma sessions_same p q : sessions q = sessions p -> heap q = heap p -> SessionsOk p -> SessionsOk q.
Proof. intros Hs Hh []. split; rewrite ?Hs, ?Hh; assumption. Qed.

Lemma starters_same p q :
  starting q = starting p -> starters q = starters p -> StartersOk p -> StartersOk q.
Proof. intros Hs Hh []. split; rewrite ?Hs, ?Hh; assumption. Qed.

Lemma starter_step_sessions answer i p p' :
  starter_step answer i p = Some p' -> sessions p' = sessions p /\ heap p' = heap p.
Proof.
  unfold starter_step. destruct (starters p !! i) as [[m pc]|]; [|done].
  destruct pc, answer; try done; try case_bool_decide; intros [= <-]; try done.
  destruct (refresh_rest r p) as (E1 & E2 & _). cbn. by rewrite E1, E2.
Qed.

Lemma starter_step_ok answer i p p' :
  StartersOk p -> starter_step answer i p = Some p' -> StartersOk p'.
Proof.
  intros HS. unfold starter_step. destruct (starters p !! i) as [[m pc]|] eqn:Ei; [|done].
  destruct pc, answer; try done.
  - intros [= <-]. eapply starters_goto; [done..|]. by destruct (startable _).
  - case_bool_decide as Hm; intros [= <-]; [by eapply starters_goto|].
    by apply (starters_acquire p i (mkStarter m TakeGuard) (mkStarter m CallStart)).
  - intros [= <-]. eapply starters_goto; [done..|]. by destruct (is_ok r).
  - intros [= <-]. eapply starters_goto; [done..|]. by destruct (is_ok r).
  - intros [= <-]. destruct (refresh_rest r p) as (_ & _ & E3 & E4 & _).
    eapply starters_goto; [by eapply starters_same|by rewrite E4|done|done].
  - intros [= <-]. by apply (starters_release p i (mkStarter m DropGuard) (mkStarter m StartDone)).
Qed.

Definition ProxyOk (p : Proxy) : Prop := SessionsOk p /\ StartersOk p.

Lemma proxy_step_ok timeout port p p' : ProxyOk p -> proxy_step timeout port p p' -> ProxyOk p'.
Proof.
  intros [HS HT]. destruct 1 as [p io f g sr c packet r p' Hf Hg Hb Hc Hp|p now rv sr k|p now|p fetched
    |p answer i p' Hs].
  - destruct (proxy_packet_spec _ _ _ _ _ _ _ _ _ _ _ HS Hb Hc Hf Hg Hp) as [HS' Hd].
    split; [done|]. destruct (decode_proxy_packet packet) as [d|e|].
    2, 3: by destruct Hd as [_ ->].
    destruct Hd as [_ Hd]. destruct (machine_map p !! machine_id d) as [ip|].
    + destruct Hd as (rs & q & (_ & _ & E1 & E2 & _) & _ & Hq).
      apply (starters_same p); [..|done]; destruct rs, sr; subst p'; cbn; done.
    + subst p'. destruct HT as [Hs Hu].
      assert (E : active_machines (starters p ++ [mkStarter (machine_id d) CheckState]) =
        active_machines (starters p)) by (rewrite active_machines_app; cbn; apply app_nil_r).
      split; cbn [starting starters set_starters]; by rewrite E.
  - split; [by apply sessions_relay|]. unfold relay_step. destruct (heap p !! k) as [s|]; [|done].
    destruct (negb _); [done|]. apply (starters_same p); [..|done]; by destruct rv, sr.
  - split; [by apply sessions_sweep|]. by apply (starters_same p).
  - destruct (refresh_rest fetched p) as (E1 & E2 & E3 & E4 & _).
    split; [by apply (sessions_same p)|by apply (starters_same p)].
  - destruct (starter_step_sessions _ _ _ _ Hs) as [E1 E2].
    split; [by apply (sessions_same p)|by eapply starter_step_ok].
Qed.

Lemma proxy_reachable_ok timeout port p : proxy_reachable timeout port p -> ProxyOk p.
Proof.
  induction 1 as [|p p' _ IH Hs]; [|by eapply proxy_step_ok].
  split; [split; intros *; cbn; by rewrite lookup_empty|split; [done|constructor]].
Qed.

(** ** Properties *)

(** A datagram for a started machine is forwarded to that machine's address,
    with its payload unchanged, on a session that the map holds for its client,
    that the relay serves for that client and that was active now, whatever
    sweeps of the cleanup task come between. *)
Theorem datagrams_are_routed timeout port p io f g client packet d ip :
  proxy_reachable timeout port p -> sweeps timeout f -> sweeps timeout g ->
  decode_proxy_packet packet = Ok d -> machine_map p !! machine_id d = Some ip ->
  bind_result io = Ok tt -> connect_result io = Ok tt ->
  exists k s p', proxy_packet io f g (Ok tt) port client packet p = (Ok tt, p') /\
    sent p' = sent p ++ [ToBackend k (ip, port) (pp_payload d)] /\
    sessions p' !! client = Some k /\ heap p' !! k = Some s /\ backend_addr s = (ip, port) /\
    relay_client s = client /\ aborted s = false /\ last_activity s = now_secs io.
Proof using parse_ip.
  intros Hp Hf Hg Hd Hm Hb Hc. apply proxy_reachable_ok in Hp as [HS HT].
  destruct (proxy_packet io f g (Ok tt) port client packet p) as [r p'] eqn:E.
  apply (proxy_packet_spec timeout) in E as [HS' E]; [|congruence..].
  rewrite Hd, Hm in E. destruct E as (-> & rs & q & (_ & _ & _ & _ & Es) & (_ & Hok & Hses) & Hq).
  destruct (Hok Hb Hc) as [k ->]. destruct (Hses k eq_refl) as (Hk & s & Hs & Hbs & Hl). subst p'.
  destruct (ses_mapped _ HS' _ _ Hk) as (s' & Hs' & Ha & Hrc). cbn in Hs'.
  rewrite Hs in Hs'. injection Hs' as <-. exists k, s. eexists. split; [done|].
  cbn. rewrite Es. done.
Qed.

(** C21: A relay that still runs is that of exactly one entry of the session map,
    the entry of the client it answers, and what its backend sends goes to that
    client; so a session out of the map forwards nothing any more, an abort
    being taken to stop its relay at once. *)
Theorem running_relays_are_mapped timeout port p k s now payload :
  proxy_reachable timeout port p -> heap p !! k = Some s -> relay_runs s = true ->
  (forall a, sessions p !! a = Some k <-> a = relay_client s) /\
  sent (relay_step now (Ok payload) (Ok tt) k p) = sent p ++ [ToClient (relay_client s) payload].
Proof using parse_ip.
  intros Hp Hs Hr. apply proxy_reachable_ok in Hp as [HS _].
  assert (Ha : aborted s = false).
  { destruct (aborted s) eqn:E; [|done]. pose proof (ses_aborted p HS _ _ Hs E). congruence. }
  split.
  - assert (Hmap : forall a, sessions p !! a = Some k -> a = relay_client s).
    { intros a Hm. destruct (ses_mapped p HS _ _ Hm) as (x & Hx & _ & <-). congruence. }
    intros a. split; [apply Hmap|]. intros ->.
    destruct (ses_kept p HS _ _ Hs Ha) as [b Hb]. by rewrite <- (Hmap b Hb).
  - unfold relay_step. by rewrite Hs, Hr.
Qed.

(** A sweep of the cleanup task keeps in the map exactly the sessions whose
    last activity is within the timeout, stops the relays of the others, and
    changes no session otherwise. *)
Theorem sweep_expires_idle_sessions timeout port p now :
  proxy_reachable timeout port p ->
  (forall a k, sessions (sweep now timeout p) !! a = Some k <->
     sessions p !! a = Some k /\
     exists s, heap p !! k = Some s /\ saturating_sub now (last_activity s) <= timeout) /\
  (forall k, heap (sweep now timeout p) !! k =
     (fun s => if timeout <? saturating_sub now (last_activity s) then abort s else s) <$> heap p !! k).
Proof using parse_ip.
  intros Hp. apply proxy_reachable_ok in Hp as [HS _]. split.
  - intros a k. rewrite sweep_sessions. unfold session_idle, is_idle. split; intros [Hm Hi]; split; auto.
    + destruct (ses_mapped p HS _ _ Hm) as (s & Hs & _). rewrite Hs in Hi. exists s. split; [done|lia].
    + destruct Hi as (s & -> & Hi). lia.
  - intros k. rewrite sweep_heap. destruct (heap p !! k) as [s|] eqn:Es; [|done]. cbn. f_equal.
    change (timeout <? _) with (is_idle now timeout s).
    destruct (is_idle now timeout s); [|done]. case_bool_decide as Hm; [done|]. cbn.
    destruct (aborted s) eqn:Ea.
    + pose proof (ses_aborted p HS _ _ Es Ea) as Hr. destruct s; cbn in *; by subst.
    + destruct (ses_kept p HS _ _ Es Ea) as [a Ha]. destruct Hm. apply mapped_value. eauto.
Qed.

(** C31: However datagrams for machines that are not started interleave with the
    tasks they spawn, at most one task at a time is starting a given machine,
    and the set of starting machines is released on every path: it holds
    exactly the machines of the tasks that are past the guard. *)
Theorem one_start_per_machine timeout port p :
  proxy_reachable timeout port p ->
  (forall i j s t, starters p !! i = Some s -> starters p !! j = Some t ->
     active s = true -> active t = true -> st_machine s = st_machine t -> i = j) /\
  (forall m, m ∈ starting p <-> exists s, s ∈ starters p /\ active s = true /\ st_machine s = m).
Proof using parse_ip.
  intros Hp. apply proxy_reachable_ok in Hp as [_ [Hs Hu]]. split.
  - generalize dependent (starters p). intros ss _ Hu i j s t Hi Hj Has Hat Hm.
    destruct (decide (i = j)) as [|Hne]; [done|exfalso].
    assert (Hlt : forall i j s t, (i < j)%nat -> ss !! i = Some s -> ss !! j = Some t ->
      active s = true -> active t = true -> st_machine s = st_machine t -> False).
    { clear -Hu. intros i j s t Hij Hi Hj Has Hat Hm.
      rewrite <- (take_drop_middle _ _ _ Hi), active_machines_app, Has in Hu.
      apply NoDup_app in Hu as (_ & _ & Hu). cbn in Hu. apply NoDup_cons in Hu as [Hn _]. apply Hn.
      rewrite Hm. unfold active_machines. apply list_elem_of_fmap. exists t. split; [done|].
      apply list_elem_of_filter. split; [done|]. apply list_elem_of_lookup.
      exists (j - S i)%nat. rewrite lookup_drop. by replace (S i + (j - S i))%nat with j by lia. }
    destruct (Nat.lt_total i j) as [Hl|[|Hl]]; [by eapply Hlt|done|by eapply (Hlt j i)].
  - intros m. rewrite Hs, elem_of_list_to_set. unfold active_machines. rewrite list_elem_of_fmap.
    split.
    + intros (s & -> & Hin). apply list_elem_of_filter in Hin as [Ha Hin]. eauto.
    + intros (s & Hin & Ha & <-). exists s. split; [done|]. by apply list_elem_of_filter.
Qed.

(** What [refresh_once] builds. *)
Lemma refresh_entries entries m f :
  NoDup (entry_id <$> entries) ->
  let maps := fold_left refresh_entry entries (m, f) in
  (forall id ip, fst maps !! id = Some ip <->
     (exists e, e ∈ entries /\ entry_id e = id /\ entry_state e = "started" /\
        private_ip e ≫= parse_ip = Some ip) \/
     (m !! id = Some ip /\
        forall e, e ∈ entries -> entry_id e = id ->
          entry_state e <> "started" \/ private_ip e ≫= parse_ip = None)) /\
  (forall id st, snd maps !! id = Some st <->
     (exists e, e ∈ entries /\ entry_id e = id /\ entry_state e = st) \/
     (f !! id = Some st /\ forall e, e ∈ entries -> entry_id e <> id)).
Proof.
  revert m f. induction entries as [|e es IH]; intros m f Hd; cbn [fold_left fmap list_fmap] in *.
  - split; intros id v; (split; [intros Hv; right; split; [done|]; intros e Hin; by inversion Hin|]);
      intros [(e & Hin & _)|[Hv _]]; try done; inversion Hin.
  - apply NoDup_cons in Hd as [Hn Hd].
    assert (Hother : forall e', e' ∈ es -> entry_id e' <> entry_id e).
    { intros e' Hin E. apply Hn. rewrite <- E. by apply list_elem_of_fmap_2. }
    set (m' := fst (refresh_entry (m, f) e)).
    assert (Es : refresh_entry (m, f) e = (m', <[entry_id e := entry_state e]> f))
      by (subst m'; unfold refresh_entry; case_bool_decide; [destruct (_ ≫= _)|]; done).
    rewrite Es. destruct (IH m' (<[entry_id e := entry_state e]> f) Hd) as [IH1 IH2].
    assert (Hm' : forall id ip, m' !! id = Some ip <->
      (entry_id e = id /\ entry_state e = "started" /\ private_ip e ≫= parse_ip = Some ip) \/
      (m !! id = Some ip /\ (entry_id e = id ->
         entry_state e <> "started" \/ private_ip e ≫= parse_ip = None))).
    { intros id ip. subst m'. unfold refresh_entry.
      case_bool_decide as Est; [destruct (private_ip e ≫= parse_ip) as [ip0|] eqn:Ep|]; cbn.
      - rewrite lookup_insert_Some. split.
        + intros [[<- <-]|[Hne Hm]]; [by left|by right].
        + intros [(<- & _ & [= <-])|[Hm Hi]]; [by left|].
          destruct (decide (entry_id e = id)) as [Ei|]; [|by right]. destruct (Hi Ei); done.
      - split; [intros Hm; right; auto|]. intros [(_ & _ & ?)|[Hm _]]; done.
      - split; [intros Hm; right; auto|]. intros [(_ & ? & _)|[Hm _]]; done. }
    split.
    + intros id ip. rewrite IH1, Hm'. split.
      * intros [(e' & Hin & Hr)|[[Hr|[Hm Hi]] Hes]].
        -- left. exists e'. split; [by right|done].
        -- left. exists e. split; [by left|done].
        -- right. split; [done|]. intros e' [->|Hin]%elem_of_cons; auto.
      * intros [(e' & [->|Hin]%elem_of_cons & Hr)|[Hm Hes]].
        -- right. split; [by left|]. intros e' Hin E. destruct Hr as [E' _].
           destruct (Hother e' Hin). congruence.
        -- left. eauto.
        -- right. split; [right; split; [done|]; intros E; apply Hes; [by left|done]|].
           intros e' Hin. apply Hes. by right.
    + intros id st. rewrite IH2, lookup_insert_Some. split.
      * intros [(e' & Hin & Hr)|[[[Ei Ev]|[Hne Hf]] Hes]].
        -- left. exists e'. split; [by right|done].
        -- left. exists e. split; [by left|done].
        -- right. split; [done|]. intros e' [->|Hin]%elem_of_cons; auto.
      * intros [(e' & [->|Hin]%elem_of_cons & Hr & Hst)|[Hf Hes]].
        -- right. split; [by left|]. intros e' Hin. rewrite <- Hr. by apply Hother.
        -- left. eauto.
        -- right. split; [right; split; [apply Hes; by left|done]|].
           intros e' Hin. apply Hes. by right.
Qed.

(** A refresh that fetched the list of machines routes to exactly the started
    machines whose private address parses, and knows the state of exactly the
    machines listed; one that failed keeps both maps. *)
Theorem refresh_routes_started_machines fetched p :
  match fetched with
  | Ok entries => NoDup (entry_id <$> entries) ->
      (forall id ip, machine_map (refresh_once fetched p) !! id = Some ip <->
         exists e t, e ∈ entries /\ entry_id e = id /\ entry_state e = "started" /\
           private_ip e = Some t /\ parse_ip t = Some ip) /\
      (forall id st, full_map (refresh_once fetched p) !! id = Some st <->
         exists e, e ∈ entries /\ entry_id e = id /\ entry_state e = st)
  | _ => refresh_once fetched p = p
  end.
Proof.
  destruct fetched as [entries|e|]; [|done..]. intros Hd.
  destruct (refresh_entries entries ∅ ∅ Hd) as [H1 H2]. unfold refresh_once.
  destruct (fold_left refresh_entry entries (∅, ∅)) as [nm nf]. cbn [fst snd] in H1, H2.
  split; cbn [machine_map full_map set_maps].
  - intros id ip. rewrite H1, lookup_empty. split.
    + intros [(e & Hin & Hi & Hst & Hp)|[? _]]; [|done]. apply bind_Some in Hp as (t & Ht & Hp). eauto 8.
    + intros (e & t & Hin & Hi & Hst & Ht & Hp). left. exists e. split_and!; [done..|].
      rewrite Ht. exact Hp.
  - intros id st. rewrite H2, lookup_empty. split; [intros [?|[? _]]; done|auto].
Qed.

(** A session whose relay has stopped, because one send to the client or one
    read from the backend failed, stays in use: a datagram of its client is still
    forwarded on it, refreshes its activity, so that the next sweep within the
    timeout keeps it, and no reply reaches the client. *)
Theorem stopped_relay_is_reused timeout port p io f g client packet d ip k s :
  decode_proxy_packet packet = Ok d -> machine_map p !! machine_id d = Some ip ->
  sessions p !! client = Some k -> heap p !! k = Some s -> backend_addr s = (ip, port) ->
  relay_runs s = false ->
  exists p', proxy_packet io f g (Ok tt) port client packet p = (Ok tt, p') /\
    sent p' = sent p ++ [ToBackend k (ip, port) (pp_payload d)] /\
    heap p' !! k = Some (touch (now_secs io) s) /\
    (forall now, now <= now_secs io + timeout -> 0 <= timeout ->
       sessions (sweep now timeout p') !! client = Some k) /\
    (forall now received sr, relay_step now received sr k p' = p').
Proof.
  intros Hd Hm Hk Hs Hb Hr. eexists. split; [|split; [|split; [|split]]].
  - unfold proxy_packet, get_or_create_session, mbind, M_bind, mbind_st, mtry, mlift, mget, mput,
      mret, M_ret, mret_st, mmodify.
    rewrite Hd, Hm, Hk, Hs, bool_decide_true by done. cbn [heap set_heap].
    rewrite lookup_insert_eq. cbn [backend_addr touch]. rewrite Hb. reflexivity.
  - done.
  - cbn. apply lookup_insert_eq.
  - intros now Hnow Ht. apply sweep_sessions. split; [done|].
    unfold session_idle. cbn [heap set_heap add_sent]. rewrite lookup_insert_eq.
    unfold is_idle, saturating_sub. cbn [last_activity touch]. lia.
  - intros now received sr. unfold relay_step. cbn [heap set_heap add_sent].
    rewrite lookup_insert_eq. cbn [relay_runs touch]. by rewrite Hr.
Qed.
End proxy.

(** ** Witnesses: two machines, one client *)

Definition demo_ip (s : string) : option Z := if bool_decide (s = "fdaa::3") then Some 3 else None.

Abbreviation DemoProxy := (Proxy (Ip := Z)).

Definition demo_machines : list MachineEntry :=
  [mkEntry "m1" "started" (Some "fdaa::3"); mkEntry "m2" "stopped" None].

Definition demo_client : SocketAddr (Ip := Z) := (77, 5000).

(** A datagram: the little-endian length of the machine id, the id, the payload. *)
Definition demo_packet (id : string) : list byte := le_bytes 8 2 ++ as_bytes id ++ as_bytes "hello".

Definition demo_io (now : Z) : Io := mkIo now (Ok tt) (Ok tt).

Definition demo0 : DemoProxy := refresh_once demo_ip (Ok demo_machines) proxy_initial.

Definition demo_datagram (now : Z) (id : string) (p : DemoProxy) : DemoProxy :=
  snd (proxy_packet (demo_io now) (fun p => p) (fun p => p) (Ok tt) 8443 demo_client (demo_packet id) p).

Lemma demo_step_datagram now id p :
  proxy_reachable demo_ip 120 8443 p -> proxy_reachable demo_ip 120 8443 (demo_datagram now id p).
Proof.
  intros Hp. eapply proxy_more; [exact Hp|].
  eapply (step_packet demo_ip 120 8443 p (demo_io now) _ _ (Ok tt)); [constructor|constructor|done|done|].
  apply surjective_pairing.
Qed.

Lemma demo0_reachable : proxy_reachable demo_ip 120 8443 demo0.
Proof. eapply proxy_more; [apply proxy_init|apply step_refresh]. Qed.

Lemma datagrams_are_routed_witness :
  exists k s p', proxy_packet (demo_io 100) (fun p => p) (fun p => p) (Ok tt) 8443 demo_client
      (demo_packet "m1") demo0 = (Ok tt, p') /\
    sent p' = sent demo0 ++ [ToBackend k (3, 8443) (as_bytes "hello")] /\
    sessions p' !! demo_client = Some k /\ heap p' !! k = Some s /\ backend_addr s = (3, 8443) /\
    relay_client s = demo_client /\ aborted s = false /\ last_activity s = 100.
Proof.
  apply (datagrams_are_routed demo_ip 120 8443 demo0 (demo_io 100) _ _ demo_client (demo_packet "m1")
    (mkProxyPacket "m1" (as_bytes "hello")) 3); [|constructor|constructor|vm_compute; reflexivity..].
  eapply proxy_more; [apply proxy_init|apply step_refresh].
Defined.

Lemma running_relays_are_mapped_witness :
  let p := demo_datagram 100 "m1" demo0 in
  (forall a, sessions p !! a = Some 0%nat <-> a = demo_client) /\
  sent (relay_step 101 (Ok (as_bytes "hi")) (Ok tt) 0 p) = sent p ++ [ToClient demo_client (as_bytes "hi")].
Proof.
  apply (running_relays_are_mapped demo_ip 120 8443 _ 0 (mkSession (3, 8443) 100 demo_client true false));
    [apply demo_step_datagram, demo0_reachable|vm_compute; reflexivity|reflexivity].
Defined.

Lemma sweep_expires_idle_sessions_witness :
  let p := demo_datagram 100 "m1" demo0 in
  sessions (sweep 221 120 p) !! demo_client = None /\
  heap (sweep 221 120 p) !! 0%nat = Some (mkSession (3, 8443) 100 demo_client false true) /\
  sessions (sweep 220 120 p) !! demo_client = Some 0%nat.
Proof.
  intros p. assert (Hp : proxy_reachable demo_ip 120 8443 p)
    by apply demo_step_datagram, demo0_reachable.
  pose proof (sweep_expires_idle_sessions demo_ip 120 8443 p 221 Hp) as [Hm Hh].
  pose proof (sweep_expires_idle_sessions demo_ip 120 8443 p 220 Hp) as [Hm' _].
  split; [|split].
  - destruct (sessions (sweep 221 120 p) !! demo_client) as [k|] eqn:E; [|reflexivity].
    apply Hm in E as [Ek (s & Hs & Ht)]. vm_compute in Ek. injection Ek as <-.
    vm_compute in Hs. injection Hs as <-. vm_compute in Ht. congruence.
  - rewrite Hh. vm_compute. reflexivity.
  - apply Hm'. split; [vm_compute; reflexivity|]. eexists. split; [vm_compute; reflexivity|].
    vm_compute. congruence.
Defined.

(** Two datagrams for the stopped machine: the first task is past the guard. *)
Definition demo_starting : DemoProxy :=
  let p := demo_datagram 101 "m2" (demo_datagram 100 "m2" demo0) in
  match starter_step demo_ip NoAnswer 0 p ≫= starter_step demo_ip NoAnswer 0 with
  | Some p => p
  | None => p
  end.

Lemma one_start_per_machine_witness :
  starting demo_starting = {["m2"]} /\ length (starters demo_starting) = 2%nat /\
  (forall m, m ∈ starting demo_starting <->
     exists s, s ∈ starters demo_starting /\ active s = true /\ st_machine s = m).
Proof.
  split; [vm_compute; reflexivity|]. split; [vm_compute; reflexivity|].
  apply (one_start_per_machine demo_ip 120 8443 demo_starting).
  set (p := demo_datagram 101 "m2" (demo_datagram 100 "m2" demo0)).
  assert (Hp : proxy_reachable demo_ip 120 8443 p)
    by apply demo_step_datagram, demo_step_datagram, demo0_reachable.
  unfold demo_starting. fold p.
  destruct (starter_step demo_ip NoAnswer 0 p) as [q|] eqn:E1; [|exact Hp].
  cbn [mbind option_bind]. destruct (starter_step demo_ip NoAnswer 0 q) as [q'|] eqn:E2; [|exact Hp].
  eapply proxy_more; [eapply proxy_more; [exact Hp|]|]; eapply step_starter; eassumption.
Defined.

Lemma refresh_routes_started_machines_witness :
  NoDup (entry_id <$> demo_machines) /\
  machine_map demo0 !! "m1" = Some 3 /\ full_map demo0 !! "m2" = Some "stopped".
Proof.
  assert (Hd : NoDup (entry_id <$> demo_machines)) by (apply (bool_decide_unpack _); vm_compute; exact I).
  split; [exact Hd|].
  destruct (refresh_routes_started_machines demo_ip (Ok demo_machines) proxy_initial Hd) as [Hm Hf].
  split.
  - apply Hm. exists (mkEntry "m1" "started" (Some "fdaa::3")), "fdaa::3".
    split; [left|]. split_and!; reflexivity.
  - apply Hf. exists (mkEntry "m2" "stopped" None). split; [right; left|]. split; reflexivity.
Defined.

(** The relay of the client's session read an error; the state is reachable. *)
Definition demo_stopped : DemoProxy :=
  relay_step 101 (Err [Prelude.Io OtherIo]) (Ok tt) 0 (demo_datagram 100 "m1" demo0).

Lemma stopped_relay_is_reused_witness :
  proxy_reachable demo_ip 120 8443 demo_stopped /\
  exists p', proxy_packet (demo_io 150) (fun p => p) (fun p => p) (Ok tt) 8443 demo_client
      (demo_packet "m1") demo_stopped = (Ok tt, p') /\
    sent p' = sent demo_stopped ++ [ToBackend 0 (3, 8443) (as_bytes "hello")] /\
    heap p' !! 0%nat = Some (mkSession (3, 8443) 150 demo_client false false) /\
    (forall now, now <= 150 + 120 -> 0 <= 120 -> sessions (sweep now 120 p') !! demo_client = Some 0%nat) /\
    (forall now received sr, relay_step now received sr 0 p' = p').
Proof.
  split.
  - eapply proxy_more; [apply demo_step_datagram, demo0_reachable|apply step_relay].
  - apply (stopped_relay_is_reused 120 8443 demo_stopped (demo_io 150) _ _ demo_client (demo_packet "m1")
      (mkProxyPacket "m1" (as_bytes "hello")) 3 0 (mkSession (3, 8443) 100 demo_client false false));
      vm_compute; reflexivity.
Defined.
