(* ===== verification/ProxyUdp.v ===== *)
(** * The client's proxy socket ([crates/client/src/proxy_udp.rs])

    The UDP socket a client in proxy mode gives to quinn: every datagram goes out
    with the header that names the machine.  Composed with the proxy of [Proxy.v],
    this is the path of a datagram from the client to its machine. *)

From stdpp Require Import numbers countable.
From S2P Require Import Prelude Protocol Proxy.

Section proxy_udp.
(** The socket underneath: its state, and what it does with a transmit. *)
Context {Addr Ecn : Type} {Inner : Type}.

Record Transmit := mkTransmit {
  destination : Addr;
  ecn : option Ecn;
  contents : list byte;
  segment_size : option Z;
  src_ip : option Addr;
}.

Context (inner_try_send : Transmit -> M Inner unit).

Record ProxyUdpSocket := mkSocket { machine_header : list byte }.

Definition invalid_input (msg : string) : Error := [Msg msg; Prelude.Io InvalidInput].

Definition new_socket (machine_id : string) : Res ProxyUdpSocket :=
  if bool_decide (machine_id = "") then Err (invalid_input "machine_id must not be empty")
  else machine_header ← encode_proxy_machine_header machine_id; Ok (mkSocket machine_header).

Definition prepend_machine_header (socket : ProxyUdpSocket) (payload : list byte) : list byte :=
  machine_header socket ++ payload.

Definition try_send (socket : ProxyUdpSocket) (transmit : Transmit) : M Inner unit :=
  match segment_size transmit with
  | Some _ => mlift (Err (invalid_input "segmented transmits are unsupported in proxy mode"))
  | None =>
      let packet := prepend_machine_header socket (contents transmit) in
      inner_try_send (mkTransmit (destination transmit) (ecn transmit) packet None (src_ip transmit))
  end.

Definition max_transmit_segments : nat := 1.

(** A segmented transmit is refused, and nothing is sent. *)
Lemma segmented_transmit_refused socket transmit n s :
  segment_size transmit = Some n ->
  try_send socket transmit s =
    (Err (invalid_input "segmented transmits are unsupported in proxy mode"), s).
Proof. intros Hn. unfold try_send. by rewrite Hn. Qed.

Lemma new_socket_Ok machine_id socket :
  new_socket machine_id = Ok socket -> encode_proxy_machine_header machine_id = Ok (machine_header socket).
Proof.
  unfold new_socket. case_bool_decide; [done|]. intros (h & Hh & [= <-])%bind_Ok. done.
Qed.

Section path.
Context {Ip : Type} `{Countable Ip} (parse_ip : string -> option Ip).

(** C10: a datagram the client's socket sends for a machine the proxy knows is
    delivered to that machine with the payload the client gave it: the packet on
    the wire carries the header, and the proxy takes it off and forwards the rest
    on the session of the client. *)
Theorem client_datagrams_reach_the_machine timeout port p io f g client machine_id socket transmit ip inner :
  proxy_reachable parse_ip timeout port p -> sweeps timeout f -> sweeps timeout g ->
  new_socket machine_id = Ok socket -> str_ok machine_id -> slen machine_id < USIZE - 8 ->
  segment_size transmit = None -> contents transmit <> [] ->
  machine_map p !! machine_id = Some ip -> bind_result io = Ok tt -> connect_result io = Ok tt ->
  exists packet,
    try_send socket transmit inner
      = inner_try_send (mkTransmit (destination transmit) (ecn transmit) packet None (src_ip transmit)) inner /\
    exists k s p', proxy_packet io f g (Ok tt) port client packet p = (Ok tt, p') /\
      sent p' = sent p ++ [ToBackend k (ip, port) (contents transmit)] /\
      sessions p' !! client = Some k /\ heap p' !! k = Some s /\
      relay_client s = client /\ aborted s = false.
Proof using Type.
  intros Hp Hf Hg Hs Hok Hlen Hseg Hc Hm Hb Hconn. apply new_socket_Ok in Hs.
  exists (machine_header socket ++ contents transmit). split; [unfold try_send; by rewrite Hseg|].
  pose proof (proxy_packet_roundtrip machine_id _ (contents transmit) Hok Hlen Hc Hs) as Hd.
  destruct (datagrams_are_routed parse_ip timeout port p io f g client _ _ ip Hp Hf Hg Hd Hm Hb Hconn)
    as (k & s & p' & Hr & Hsent & Hk & Hh & _ & Hcl & Ha & _).
  exists k, s, p'. done.
Qed.
End path.
End proxy_udp.

(** ** Witness *)

Definition demo_transmit : Transmit (Addr := Z) (Ecn := Z) := mkTransmit 1 None (as_bytes "hello") None None.

(** The socket underneath records what it is given. *)
Definition record_sent (t : Transmit (Addr := Z) (Ecn := Z)) : M (list (Transmit (Addr := Z) (Ecn := Z))) unit :=
  fun sent => (Ok tt, sent ++ [t]).

Lemma client_datagrams_reach_the_machine_witness :
  exists socket packet, new_socket "m1" = Ok socket /\
    try_send record_sent socket demo_transmit [] = (Ok tt, [mkTransmit 1 None packet None None]) /\
    exists k p', proxy_packet (demo_io 10) (fun p => p) (fun p => p) (Ok tt) 8443 demo_client packet demo0 = (Ok tt, p') /\
      sent p' = [ToBackend k (3, 8443) (as_bytes "hello")].
Proof.
  destruct (new_socket "m1") as [socket|e|] eqn:Es; [|by vm_compute in Es..].
  assert (Hr : proxy_reachable demo_ip 60 8443 demo0) by (eapply proxy_more; [apply proxy_init|apply step_refresh]).
  destruct (client_datagrams_reach_the_machine record_sent demo_ip 60 8443 demo0 (demo_io 10) (fun p => p) (fun p => p)
    demo_client "m1" socket demo_transmit 3 [] Hr (no_sweep _) (no_sweep _) Es eq_refl eq_refl eq_refl
    ltac:(done) ltac:(vm_compute; reflexivity) eq_refl eq_refl) as (packet & Ht & k & s & p' & Hp & Hsent & _).
  exists socket, packet. split; [done|]. split; [exact Ht|]. exists k, p'. split; [exact Hp|exact Hsent].
Defined.
