(* ===== verification/ClientTrust.v ===== *)
(** * Whom the client trusts ([crates/client/src/{cache,attest,quic,main}.rs])

    The attestation cache and its file, the verification of an attestation, and
    the conversation of [connect_ready] that ends with the access token being
    sent.  Several client processes share the cache file: each connects in two
    halves, the first ending where the cache is loaded, and the halves of
    different processes interleave, also while one of them waits for the lock of the
    file.  The network, TLS, [serde_json],
    [jsonwebtoken] and the clock are parameters. *)

From S2P Require Import Prelude Protocol.
From S2P Require Setup.

Abbreviation path := Setup.path.
Abbreviation display := Setup.display.

(** ** Configuration ([main.rs]) *)

Record VaultConfig := mkVaultConfig {
  address : string;
  cfg_org : string;
  cfg_app : string;
  cfg_machine_id : option string;
  cfg_forward : list string;
  cfg_rootfs : option string;
  cfg_rootfs_url : option string;
  cfg_access_token : option string;
}.

Inductive TransportConfig := Direct | ProxyMode (machine_id : string).

Definition transport (cfg : VaultConfig) : TransportConfig :=
  match cfg_machine_id cfg with
  | Some machine_id => ProxyMode machine_id
  | None => Direct
  end.

(** ** The cache ([cache.rs]) *)

Definition CACHE_FILE_NAME : string := "attestation-cache-v1.json".
Definition LOCK_FILE_NAME : string := "attestation-cache-v1.lock".
Definition LOCK_RETRY_ATTEMPTS : nat := 100.

Record CacheEntry := mkCacheEntry {
  org : string;
  app : string;
  machine_id : string;
  fingerprint : string;
  verified_at : Z;
  last_seen_at : Z;
}.

Record AttestationCache := mkCache {
  cache_path : option path;
  entries : list CacheEntry;
}.

(** [AttestationCache::default]. *)
Definition default_cache : AttestationCache := mkCache None [].

Definition cache_entry_matches (entry : CacheEntry) (cfg : VaultConfig) (transport : TransportConfig)
    (fp : string) : bool :=
  if negb (bool_decide (org entry = cfg_org cfg)) || negb (bool_decide (app entry = cfg_app cfg))
     || negb (bool_decide (fingerprint entry = fp))
  then false
  else match transport with
       | Direct => true
       | ProxyMode id => bool_decide (machine_id entry = id)
       end.

(** [iter().find]. *)
Definition lookup (c : AttestationCache) (cfg : VaultConfig) (transport : TransportConfig)
    (fp : string) : option CacheEntry :=
  find (fun entry => cache_entry_matches entry cfg transport fp) (entries c).

(** [iter_mut().find] and an update of what it found. *)
Fixpoint update_first (p : CacheEntry -> bool) (f : CacheEntry -> CacheEntry) (l : list CacheEntry) :
    option (list CacheEntry) :=
  match l with
  | [] => None
  | x :: l =>
      if p x then Some (f x :: l)
      else match update_first p f l with Some l => Some (x :: l) | None => None end
  end.

Definition seen (now : Z) (e : CacheEntry) : CacheEntry :=
  mkCacheEntry (org e) (app e) (machine_id e) (fingerprint e) (verified_at e) now.

Definition reverified (now : Z) (e : CacheEntry) : CacheEntry :=
  mkCacheEntry (org e) (app e) (machine_id e) (fingerprint e) now now.

Definition same_key (cfg : VaultConfig) (id fp : string) (entry : CacheEntry) : bool :=
  bool_decide (org entry = cfg_org cfg) && bool_decide (app entry = cfg_app cfg)
  && bool_decide (machine_id entry = id) && bool_decide (fingerprint entry = fp).

(** [serde_json] on the stored cache, with its documented round trip. *)
Class Json := {
  Text : Type;
  empty_text : Text;
  to_vec_pretty : list CacheEntry -> Res Text;
  from_str : Text -> Res (list CacheEntry);
  from_to es t : to_vec_pretty es = Ok t -> from_str t = Ok es;
  from_empty : is_ok (from_str empty_text) = false;
}.

(** ** Attestation tokens ([attest.rs]) *)

Record Validation := mkValidation {
  algorithm : string;
  issuer : list string;
  audience : list string;
  validate_exp : bool;
  validate_nbf : bool;
  required_spec_claims : list string;
}.

Record AttestationClaims := mkClaims { iss : string; app_name : string; claim_machine_id : string }.

(** What [jsonwebtoken] gives. *)
Class Jwt := {
  JwkSet : Type;
  Jwk : Type;
  DecodingKey : Type;
  (** the key id of a token's header *)
  decode_header : string -> Res (option string);
  jwks_find : JwkSet -> string -> option Jwk;
  from_jwk : Jwk -> Res DecodingKey;
  decode : string -> DecodingKey -> Validation -> Res AttestationClaims;
}.

Section client.
Context `{JS : Json} `{JW : Jwt}.

(** The OIDC provider, as one process reaches it at one time. *)
Record Oidc := mkOidc {
  (** the [jwks_uri] of a discovery document *)
  fetch_discovery : string -> Res string;
  fetch_jwks : string -> Res JwkSet;
}.

Definition newline : byte := x0a.

Fixpoint drop_newlines (bs : list byte) : list byte :=
  match bs with
  | b :: rest => if bool_decide (b = newline) then drop_newlines rest else bs
  | [] => []
  end.

(** [jwt.trim_end_matches('\n')]. *)
Definition trim_end_newlines (s : string) : string :=
  from_bytes_unchecked (rev (drop_newlines (rev (as_bytes s)))).

Definition issuer_of (org : string) : string := "https://oidc.fly.io/" +:+ org.

Definition fetch_decoding_key (oidc : Oidc) (jwt org : string) : Res (string * DecodingKey) :=
  let issuer := issuer_of org in
  let discovery_url := issuer +:+ "/.well-known/openid-configuration" in
  jwks_uri ← fetch_discovery oidc discovery_url;
  jwks ← fetch_jwks oidc jwks_uri;
  header ← with_context "decode jwt header" (decode_header jwt);
  kid ← ok_or "jwt header missing kid" header;
  jwk ← ok_or ("jwk with kid " +:+ kid +:+ " not found") (jwks_find jwks kid);
  decoding_key ← with_context "build decoding key from jwk" (from_jwk jwk);
  Ok (issuer, decoding_key).

Definition verify_attestation_jwt (oidc : Oidc) (jwt org expected_aud : string) : Res AttestationClaims :=
  let jwt := trim_end_newlines jwt in
  '(issuer, decoding_key) ← fetch_decoding_key oidc jwt org;
  let validation :=
    mkValidation "RS256" [issuer] [expected_aud] true true ["exp"; "iss"; "aud"] in
  with_context "verify jwt" (decode jwt decoding_key validation).

(** ** One process: the cache file, its faults, and the control stream *)

Definition Disk : Type := gmap path Text.

Record Cl := mkCl {
  disk : Disk;
  io_faults : list (option IoErrorKind);
  cache : AttestationCache;
  sent : list ControlMessage;
  inbox : list (Res ControlMessage);
  write_faults : list (option Error);
}.

Definition set_disk (d : Disk) (s : Cl) : Cl :=
  mkCl d (io_faults s) (cache s) (sent s) (inbox s) (write_faults s).
Definition set_cache (c : AttestationCache) (s : Cl) : Cl :=
  mkCl (disk s) (io_faults s) c (sent s) (inbox s) (write_faults s).

(** A system call fails when the script says so. *)
Definition io_fault : M Cl unit := fun s =>
  match io_faults s with
  | fault :: rest =>
      (match fault with Some k => Err [Io k] | None => Ok tt end,
       mkCl (disk s) rest (cache s) (sent s) (inbox s) (write_faults s))
  | [] => (Ok tt, s)
  end.

Definition put_disk (f : Disk -> Disk) : M Cl unit := mmodify (fun s => set_disk (f (disk s)) s).

Definition read_to_string (p : path) : M Cl Text :=
  _ ← io_fault; s ← mget;
  mlift (match disk s !! p with Some t => Ok t | None => Err [Io NotFound] end).

(** [OpenOptions::new().write(true).create_new(true).open]. *)
Definition create_new (p : path) : M Cl unit :=
  _ ← io_fault; s ← mget;
  match disk s !! p with
  | Some _ => mlift (Err [Io AlreadyExists])
  | None => put_disk <[p := empty_text]>
  end.

Definition write (p : path) (t : Text) : M Cl unit := _ ← io_fault; put_disk <[p := t]>.

Definition rename (p q : path) : M Cl unit :=
  _ ← io_fault; s ← mget;
  match disk s !! p with
  | Some t => put_disk (fun d => <[q := t]> (delete p d))
  | None => mlift (Err [Io NotFound])
  end.

Definition remove_file (p : path) : M Cl unit :=
  _ ← io_fault; s ← mget;
  match disk s !! p with
  | Some _ => put_disk (delete p)
  | None => mlift (Err [Io NotFound])
  end.

(** ** The cache file *)

Definition load_from (p : path) : M Cl AttestationCache :=
  r ← mtry (read_to_string p);
  match (r : Res Text) with
  | Ok raw =>
      stored ← mlift (with_context "parse attestation cache json" (from_str raw));
      mret (mkCache (Some p) stored)
  | Err e =>
      if bool_decide (e = [Io NotFound]) then mret (mkCache (Some p) [])
      else mlift (Err (Msg ("read cache file " +:+ display p) :: e))
  | Panic => mlift Panic
  end.

(** [load_default]; [cache_dir] is [dirs::cache_dir()]. *)
Definition load_default (cache_dir : option path) : M Cl AttestationCache :=
  base ← mlift (ok_or "unable to determine cache directory" cache_dir);
  load_from (base ++ ["fly-vault"; CACHE_FILE_NAME]).

Definition load_attestation_cache (cache_dir : option path) : M Cl unit :=
  r ← mtry (load_default cache_dir);
  mmodify (set_cache (match (r : Res AttestationCache) with Ok c => c | _ => default_cache end)).

(** [CacheLock::acquire]; [others]: what other processes do to the disk while
    this one sleeps. *)
Fixpoint acquire_loop (attempts : nat) (others : nat -> Disk -> Disk) (p : path) : M Cl unit :=
  match attempts with
  | O => mlift (anyhow ("timed out acquiring cache lock " +:+ display p))
  | S n =>
      r ← mtry (create_new p);
      match (r : Res unit) with
      | Ok _ => mret tt
      | Err e =>
          if bool_decide (e = [Io AlreadyExists]) then _ ← put_disk (others n); acquire_loop n others p
          else mlift (Err (Msg ("create cache lock " +:+ display p) :: e))
      | Panic => mlift Panic
      end
  end.

Definition acquire (others : nat -> Disk -> Disk) (p : path) : M Cl unit :=
  acquire_loop LOCK_RETRY_ATTEMPTS others p.

(** [drop(lock)], also when an error returns early. *)
Definition with_lock {A} (p : path) (m : M Cl A) : M Cl A :=
  r ← mtry m; _ ← mtry (remove_file p); mlift r.

(** [unique] is the process id and the time in [temp_cache_path]. *)
Definition temp_cache_path (unique : string) (parent : path) : path :=
  parent ++ [CACHE_FILE_NAME +:+ "." +:+ unique +:+ ".tmp"].

Definition persist (unique : string) (others : nat -> Disk -> Disk) : M Cl unit :=
  s ← mget;
  match cache_path (cache s) with
  | None => mret tt
  | Some path =>
      parent ← mlift (ok_or ("cache path " +:+ display path +:+ " has no parent")
                        (match path with [] => None | _ => Some (Setup.parent path) end));
      _ ← mcontext ("create cache dir " +:+ display parent) io_fault;
      let lock := parent ++ [LOCK_FILE_NAME] in
      _ ← acquire others lock;
      with_lock lock (
        serialized ← mlift (with_context "serialize attestation cache" (to_vec_pretty (entries (cache s))));
        let temp_path := temp_cache_path unique parent in
        _ ← mcontext ("write temp cache file " +:+ display temp_path) (write temp_path serialized);
        mcontext ("rename temp cache file " +:+ display temp_path +:+ " to " +:+ display path)
          (rename temp_path path))
  end.

Definition set_entries (es : list CacheEntry) : M Cl unit :=
  mmodify (fun s => set_cache (mkCache (cache_path (cache s)) es) s).

Definition record_verified (now : Res Z) (unique : string) (others : nat -> Disk -> Disk)
    (cfg : VaultConfig) (id fp : string) : M Cl unit :=
  now ← mlift (with_context "system clock before unix epoch" now);
  s ← mget;
  _ ← set_entries (match update_first (same_key cfg id fp) (reverified now) (entries (cache s)) with
                   | Some es => es
                   | None => entries (cache s) ++ [mkCacheEntry (cfg_org cfg) (cfg_app cfg) id fp now now]
                   end);
  persist unique others.

Definition record_cache_hit (now : Res Z) (unique : string) (others : nat -> Disk -> Disk)
    (cfg : VaultConfig) (transport : TransportConfig) (fp : string) : M Cl (option CacheEntry) :=
  now ← mlift (with_context "system clock before unix epoch" now);
  s ← mget;
  let matches entry := cache_entry_matches entry cfg transport fp in
  match update_first matches (seen now) (entries (cache s)) with
  | Some es =>
      _ ← set_entries es;
      _ ← persist unique others;
      mret (seen now <$> lookup (cache s) cfg transport fp)
  | None => mret None
  end.

(** ** The connection ([quic.rs]) *)

(** Everything one run of [connect_ready] meets outside the shared disk. *)
Record Attempt := mkAttempt {
  cfg : VaultConfig;
  reprovision : bool;
  (** endpoint, TLS configuration, address resolution, handshake *)
  endpoint_result : Res unit;
  config_result : Res unit;
  resolve_result : Res unit;
  connect_result : Res unit;
  (** [peer_identity] and its downcast to a certificate chain *)
  peer_identity : option (option (list (list byte)));
  keying_material : option (list byte);
  cache_dir : option path;
  open_result : Res unit;
  http_client_result : Res unit;
  oidc : Oidc;
  clock : Res Z;
  unique : string;
  others : nat -> Disk -> Disk;
  home_dir : option string;
  read_file : string -> Res (list byte);
  (** scheme and normal form of a URL *)
  url_parse : string -> Res (string * string);
  faults : list (option IoErrorKind);
  replies : list (Res ControlMessage);
  stream_faults : list (option Error);
}.

(** [hex::encode], [Sha256::digest], [{:?}] and [PathBuf::join] on strings. *)
Context (hex_encode : list byte -> string) (sha256 : list byte -> list byte)
  (debug : ControlMessage -> string).

Definition server_cert_fingerprint (a : Attempt) : Res string :=
  identity ← ok_or "missing peer identity" (peer_identity a);
  certs ← ok_or "unexpected peer identity type" identity;
  cert ← ok_or "peer identity did not include a certificate" (List.hd_error certs);
  Ok (hex_encode (sha256 cert)).

Definition export_attestation_audience (a : Attempt) : Res string :=
  ekm ← ok_or "export keying material failed" (keying_material a);
  Ok (hex_encode ekm).

Definition write_stream (sent_ : list ControlMessage) : M Cl unit := fun s =>
  match write_faults s with
  | Some e :: rest => (Err e, mkCl (disk s) (io_faults s) (cache s) (sent s) (inbox s) rest)
  | rest => (Ok tt, mkCl (disk s) (io_faults s) (cache s) (sent s ++ sent_) (inbox s) (tail rest))
  end.

(** The end of the stream when the script has no more replies. *)
Definition read_message : M Cl ControlMessage := fun s =>
  match inbox s with
  | r :: rest => (r, mkCl (disk s) (io_faults s) (cache s) (sent s) rest (write_faults s))
  | [] => (Err [Io UnexpectedEof], s)
  end.

Definition assert_protocol_version (attestation : AttestationPayload) : Res unit :=
  if negb (protocol_version attestation =? PROTOCOL_VERSION) then
    anyhow ("protocol version mismatch: server=" +:+ pretty (protocol_version attestation)
            +:+ " client=" +:+ pretty PROTOCOL_VERSION)
  else Ok tt.

Definition assert_org_and_app (issuer app_name : string) (cfg : VaultConfig) : Res unit :=
  let expected_issuer := issuer_of (cfg_org cfg) in
  if negb (bool_decide (issuer = expected_issuer)) then
    anyhow ("attestation org mismatch: issuer=" +:+ issuer +:+ " expected=" +:+ expected_issuer)
  else if negb (bool_decide (app_name = cfg_app cfg)) then
    anyhow ("attestation app mismatch: app_name=" +:+ app_name +:+ " expected=" +:+ cfg_app cfg)
  else Ok tt.

Definition assert_machine_id (attested_machine_id : string) (transport : TransportConfig) : Res unit :=
  match transport with
  | ProxyMode id =>
      if negb (bool_decide (attested_machine_id = id)) then
        anyhow ("attestation machine mismatch: machine_id=" +:+ attested_machine_id +:+ " expected=" +:+ id)
      else Ok tt
  | Direct => Ok tt
  end.

Definition validate_attestation (a : Attempt) (transport : TransportConfig)
    (attestation : AttestationPayload) (aud tls_fingerprint : string) : M Cl unit :=
  _ ← mlift (assert_protocol_version attestation);
  s ← mget;
  match lookup (cache s) (cfg a) transport tls_fingerprint with
  | Some entry =>
      _ ← mtry (record_cache_hit (clock a) (unique a) (others a) (cfg a) transport tls_fingerprint);
      mret tt
  | None =>
      _ ← mlift (with_context "build reqwest client" (http_client_result a));
      claims ← mlift (verify_attestation_jwt (oidc a) (jwt attestation) (cfg_org (cfg a)) aud);
      _ ← mlift (assert_org_and_app (iss claims) (app_name claims) (cfg a));
      _ ← mlift (assert_machine_id (claim_machine_id claims) transport);
      _ ← mtry (record_verified (clock a) (unique a) (others a) (cfg a) (claim_machine_id claims)
                  tls_fingerprint);
      mret tt
  end.

(** [path.strip_prefix("~/")] and the rest joined to the home directory. *)
Definition expand_tilde (a : Attempt) (p : string) : Res string :=
  if String.prefix "~/" p then
    home ← ok_or "unable to determine home dir" (home_dir a);
    let rest := String.substring 2 (String.length p - 2) p in
    Ok (if String.prefix "/" rest then rest else home +:+ "/" +:+ rest)
  else Ok p.

Definition provisioning_source (a : Attempt) (state : VmState) (reprovision : bool) : Res RootfsSource :=
  if bool_decide (state = Ready) && negb reprovision then Ok RootfsNone
  else
    match cfg_rootfs (cfg a), cfg_rootfs_url (cfg a) with
    | Some _, Some _ => anyhow "both rootfs and rootfs_url are set; configure exactly one"
    | None, None =>
        anyhow ("either rootfs path or rootfs_url is required for " +:+
                (if bool_decide (state = Cold) then "cold boot" else "reprovision"))
    | Some rootfs_path, None =>
        p ← expand_tilde a rootfs_path;
        rootfs_bytes ← with_context ("read rootfs " +:+ rootfs_path) (read_file a p);
        Ok (RootfsInline rootfs_bytes)
    | None, Some rootfs_url =>
        '(scheme, normal) ← with_context ("parse rootfs_url " +:+ rootfs_url) (url_parse a rootfs_url);
        if negb (bool_decide (scheme = "http") || bool_decide (scheme = "https")) then
          anyhow ("rootfs_url must use http or https scheme, got " +:+ scheme)
        else Ok (RootfsUrl normal)
    end.

(** The first half of [connect_ready]: the handshake, the server's certificate
    and the cache. *)
Definition connect_open (a : Attempt) : M Cl string :=
  _ ← mlift (endpoint_result a);
  _ ← mlift (config_result a);
  _ ← mlift (resolve_result a);
  _ ← mlift (connect_result a);
  tls_fingerprint ← mlift (server_cert_fingerprint a);
  _ ← load_attestation_cache (cache_dir a);
  mret tls_fingerprint.

(** The second half: the control conversation. *)
Definition connect_attested (a : Attempt) (tls_fingerprint : string) : M Cl unit :=
  aud ← mlift (export_attestation_audience a);
  _ ← mcontext "open control stream" (mlift (open_result a));
  _ ← mcontext "write control stream tag" (write_stream []);
  _ ← mcontext "request attestation" (write_stream [CMRequestAttestation]);
  reply ← read_message;
  attestation ← mlift (match reply with
                       | CMAttestation payload => Ok payload
                       | other => anyhow ("expected attestation frame, got " +:+ debug other)
                       end);
  _ ← validate_attestation a (transport (cfg a)) attestation aud tls_fingerprint;
  access_token ← mlift (ok_or "access_token is required" (cfg_access_token (cfg a)));
  rootfs ← mlift (provisioning_source a (state attestation) (reprovision a));
  _ ← mcontext "send setup request" (write_stream [CMSetupRequest (mkSetupRequest access_token rootfs)]);
  reply ← read_message;
  mlift (match reply with
         | CMSetupComplete => Ok tt
         | CMError message => anyhow ("server setup error: " +:+ message)
         | other => anyhow ("expected setup response, got " +:+ debug other)
         end).

Definition connect_ready (a : Attempt) : M Cl unit :=
  tls_fingerprint ← connect_open a;
  connect_attested a tls_fingerprint.

(** ** Processes that share the cache *)

(** [w_history]: every attempt so far; [w_open]: those between their halves. *)
Record World := mkWorld {
  w_disk : Disk;
  w_history : list Attempt;
  w_open : list (Attempt * string * Cl);
}.

Definition start (d : Disk) (a : Attempt) : Cl :=
  mkCl d (faults a) default_cache [] (replies a) (stream_faults a).

(** What other processes do while one sleeps on the lock: they take files away, and
    those that have their connection open run their second halves, and sleep on the
    lock in their turn. *)
Inductive Rely (open : list (Attempt * string * Cl)) : Attempt -> Prop :=
| rely a : (forall n d, meanwhile open d (others a n d)) -> Rely open a
with meanwhile (open : list (Attempt * string * Cl)) : Disk -> Disk -> Prop :=
| meanwhile_nothing d : meanwhile open d d
| meanwhile_removed d p d' : meanwhile open (delete p d) d' -> meanwhile open d d'
| meanwhile_half d b fp s r s' d' :
    (b, fp, s) ∈ open -> Rely open b -> connect_attested b fp (set_disk d s) = (r, s') ->
    meanwhile open (disk s') d' -> meanwhile open d d'.

Inductive world_step : World -> World -> Prop :=
| world_open w a fp s :
    connect_open a (start (w_disk w) a) = (Ok fp, s) ->
    world_step w (mkWorld (disk s) (w_history w ++ [a]) (w_open w ++ [(a, fp, s)]))
| world_finish w i a fp s r s' :
    w_open w !! i = Some (a, fp, s) -> Rely (w_open w) a ->
    connect_attested a fp (set_disk (w_disk w) s) = (r, s') ->
    world_step w (mkWorld (disk s') (w_history w) (delete i (w_open w))).

Inductive world_reachable : World -> Prop :=
| world_init : world_reachable (mkWorld ∅ [] [])
| world_more w w' : world_reachable w -> world_step w w' -> world_reachable w'.

(** What the server answered first, when that was an attestation. *)
Definition attested (a : Attempt) (p : AttestationPayload) : Prop :=
  exists rest, replies a = Ok (CMAttestation p) :: rest.

(** An entry some attempt verified: on a connection with the entry's certificate,
    the server's attestation of the right protocol version had a token that verified
    for that connection's channel binding, issued by the organisation's provider for
    the entry's app and machine. *)
Definition vouched (history : list Attempt) (e : CacheEntry) : Prop :=
  exists a p aud claims, a ∈ history /\
    server_cert_fingerprint a = Ok (fingerprint e) /\ export_attestation_audience a = Ok aud /\
    attested a p /\ protocol_version p = PROTOCOL_VERSION /\
    verify_attestation_jwt (oidc a) (jwt p) (org e) aud = Ok claims /\
    iss claims = issuer_of (org e) /\ app_name claims = app e /\ claim_machine_id claims = machine_id e.

(** ** What every operation keeps *)

Section trust.
Context (V : CacheEntry -> Prop) (X : list ControlMessage * list (Res ControlMessage)).
Context (V_key : forall e t u,
  V (mkCacheEntry (org e) (app e) (machine_id e) (fingerprint e) t u) <-> V e).

Definition DiskOk (d : Disk) : Prop :=
  forall p t es, d !! p = Some t -> from_str t = Ok es -> Forall V es.

(** The files and the cache hold only entries in [V]; exactly [X] was sent and is
    still to be read. *)
Definition Trusted (s : Cl) : Prop := DiskOk (disk s) /\ Forall V (entries (cache s)) /\ (sent s, inbox s) = X.

Lemma DiskOk_insert d p t :
  DiskOk d -> (forall es, from_str t = Ok es -> Forall V es) -> DiskOk (<[p := t]> d).
Proof.
  intros Hd Ht q u es Hu He. apply lookup_insert_Some in Hu as [[_ <-]|[_ Hu]]; [auto|].
  exact (Hd _ _ _ Hu He).
Qed.

Lemma DiskOk_sub d d' :
  DiskOk d -> (forall p t, d' !! p = Some t -> d !! p = Some t) -> DiskOk d'.
Proof. intros Hd Hs p t es Hp He. exact (Hd _ _ _ (Hs _ _ Hp) He). Qed.

Lemma keeps_put_disk f :
  (forall d, DiskOk d -> DiskOk (f d)) -> keeps Trusted (put_disk f).
Proof. intros Hf. apply keeps_modify. intros s (Hd & He & Hx). split; [by apply Hf|done]. Qed.

Lemma keeps_io_fault : keeps Trusted io_fault.
Proof. intros s Hs. unfold io_fault. by destruct (io_faults s). Qed.

Hint Resolve keeps_put_disk keeps_io_fault : keeps.

Lemma keeps_create_new p : keeps Trusted (create_new p).
Proof.
  unfold create_new. apply keeps_bind; [auto with keeps|]. intros _. apply keeps_bind; [auto with keeps|].
  intros s. destruct (disk s !! p); [auto with keeps|]. apply keeps_put_disk. intros d Hd.
  apply DiskOk_insert; [done|]. intros es He. pose proof from_empty as Hn. by rewrite He in Hn.
Qed.

Lemma keeps_remove_file p : keeps Trusted (remove_file p).
Proof.
  unfold remove_file. apply keeps_bind; [auto with keeps|]. intros _. apply keeps_bind; [auto with keeps|].
  intros s. destruct (disk s !! p); [|auto with keeps]. apply keeps_put_disk. intros d Hd.
  eapply DiskOk_sub; [exact Hd|]. intros q x [_ Hq]%lookup_delete_Some. done.
Qed.

Lemma keeps_write p t : (forall es, from_str t = Ok es -> Forall V es) -> keeps Trusted (write p t).
Proof.
  intros Ht. unfold write. apply keeps_bind; [auto with keeps|]. intros _. apply keeps_put_disk.
  intros d Hd. by apply DiskOk_insert.
Qed.

Lemma keeps_rename p q : keeps Trusted (rename p q).
Proof.
  unfold rename. apply keeps_bind; [auto with keeps|]. intros _ s (Hd & He & Hx).
  unfold mbind, M_bind, mbind_st, mget. destruct (disk s !! p) as [t|] eqn:Ep; [|done].
  split; [|done]. cbn. apply DiskOk_insert; [|exact (fun es => Hd p t es Ep)].
  eapply DiskOk_sub; [exact Hd|]. intros u x [_ Hu]%lookup_delete_Some. done.
Qed.

Lemma keeps_acquire others p :
  (forall n d, DiskOk d -> DiskOk (others n d)) -> keeps Trusted (acquire others p).
Proof.
  intros Ho. unfold acquire. generalize LOCK_RETRY_ATTEMPTS. intros n.
  induction n as [|n IH]; cbn; [auto with keeps|].
  apply keeps_bind; [apply keeps_try, keeps_create_new|]. intros [u|e|]; [auto with keeps| |auto with keeps].
  case_bool_decide; [|auto with keeps]. apply keeps_bind; [|done]. apply keeps_put_disk, Ho.
Qed.

Lemma keeps_persist unique others :
  (forall n d, DiskOk d -> DiskOk (others n d)) -> keeps Trusted (persist unique others).
Proof.
  intros Ho s Hs. pose proof Hs as (Hd & He & Hx). unfold persist.
  unfold mbind at 1, M_bind, mbind_st, mget at 1. destruct (cache_path (cache s)) as [p|]; [|done].
  generalize (entries (cache s)) He. clear Hd He Hx. intros es He. revert s Hs.
  apply keeps_bind; [auto with keeps|]. intros parent. apply keeps_bind; [auto with keeps|]. intros _.
  apply keeps_bind; [by apply keeps_acquire|]. intros _. unfold with_lock.
  apply keeps_bind; [|intros r; apply keeps_bind; [apply keeps_try, keeps_remove_file|auto with keeps]].
  apply keeps_try. unfold mbind at 1, M_bind, mbind_st. intros s Hs. unfold mlift at 1.
  destruct (to_vec_pretty es) as [t|e|] eqn:Et; cbn [with_context]; [|done..]. revert s Hs.
  apply keeps_bind; [|intros _; apply keeps_context, keeps_rename].
  apply keeps_context, keeps_write. intros es' Hes. rewrite (from_to _ _ Et) in Hes. congruence.
Qed.

Lemma Forall_update_first p f es es' :
  update_first p f es = Some es' -> (forall e, V e -> V (f e)) -> Forall V es -> Forall V es'.
Proof.
  intros Hu Hf. revert es' Hu. induction es as [|e es IH]; cbn; intros es' Hu Hes; [done|].
  apply Forall_cons in Hes as [He Hes]. destruct (p e).
  - injection Hu as <-. constructor; auto.
  - destruct (update_first p f es) as [l|]; [|done]. injection Hu as <-. constructor; auto.
Qed.

Lemma keeps_set_entries es : Forall V es -> keeps Trusted (set_entries es).
Proof. intros He. apply keeps_modify. intros s (Hd & _ & Hx). done. Qed.

Lemma keeps_record_verified now unique others cfg id fp :
  (forall n d, DiskOk d -> DiskOk (others n d)) ->
  V (mkCacheEntry (cfg_org cfg) (cfg_app cfg) id fp 0 0) ->
  keeps Trusted (record_verified now unique others cfg id fp).
Proof using V_key.
  intros Ho Hv. unfold record_verified. apply keeps_bind; [auto with keeps|]. intros n s Hs.
  pose proof Hs as (_ & He & _). unfold mbind at 1, M_bind, mbind_st, mget.
  revert s Hs He. intros s Hs He. apply (keeps_bind Trusted (set_entries _)); [|intros _; by apply keeps_persist|done].
  apply keeps_set_entries. destruct (update_first _ _ _) as [es|] eqn:Eu.
  - eapply Forall_update_first; [exact Eu| |exact He]. intros e HV. by apply V_key.
  - apply Forall_app. split; [done|]. apply Forall_singleton.
    exact (proj2 (V_key (mkCacheEntry (cfg_org cfg) (cfg_app cfg) id fp 0 0) n n) Hv).
Qed.

Lemma keeps_record_cache_hit now unique others cfg transport fp :
  (forall n d, DiskOk d -> DiskOk (others n d)) ->
  keeps Trusted (record_cache_hit now unique others cfg transport fp).
Proof using V_key.
  intros Ho. unfold record_cache_hit. apply keeps_bind; [auto with keeps|]. intros n s Hs.
  pose proof Hs as (_ & He & _). unfold mbind at 1, M_bind, mbind_st, mget.
  destruct (update_first _ _ _) as [es|] eqn:Eu; [|done].
  apply (keeps_bind Trusted (set_entries es)); [| |done].
  - apply keeps_set_entries. eapply Forall_update_first; [exact Eu| |exact He].
    intros e HV. by apply V_key.
  - intros _. apply keeps_bind; [by apply keeps_persist|auto with keeps].
Qed.

Lemma read_trusted p s : Trusted s ->
  let rs := read_to_string p s in
  Trusted (snd rs) /\
  forall t es, fst rs = Ok t -> from_str t = Ok es -> Forall V es.
Proof.
  intros Hs. cbv zeta. unfold read_to_string, mbind, M_bind, mbind_st.
  pose proof (keeps_io_fault s Hs) as H1. destruct (io_fault s) as [[[]|e|] s1]; [|done..].
  cbn in H1 |- *. split; [done|]. intros t es Ht. destruct H1 as (Hd & _).
  destruct (disk s1 !! p) eqn:Ep; [|done]. injection Ht as ->. exact (Hd _ _ _ Ep).
Qed.

Lemma load_from_trusted p s : Trusted s ->
  Trusted (snd (load_from p s)) /\ forall c, fst (load_from p s) = Ok c -> Forall V (entries c).
Proof.
  intros Hs. pose proof (read_trusted p s Hs) as [H1 H2].
  unfold load_from, mbind, M_bind, mbind_st, mtry.
  destruct (read_to_string p s) as [[t|e|] s1]; cbn [fst snd] in H1, H2.
  - unfold mlift. destruct (from_str t) as [es|e|] eqn:Ef; cbn; split; try done.
    intros c [= <-]. exact (H2 _ _ eq_refl Ef).
  - case_bool_decide; cbn; split; try done. by intros c [= <-].
  - by split.
Qed.

Lemma load_trusted dir s : Trusted s ->
  Trusted (snd (load_default dir s)) /\
  forall c, fst (load_default dir s) = Ok c -> Forall V (entries c).
Proof.
  intros Hs. unfold load_default, mbind, M_bind, mbind_st, mlift.
  destruct dir as [base|]; cbn [ok_or anyhow]; [by apply load_from_trusted|by split].
Qed.

Lemma keeps_load dir : keeps Trusted (load_attestation_cache dir).
Proof.
  intros s Hs. unfold load_attestation_cache, mbind, M_bind, mbind_st, mtry.
  pose proof (load_trusted dir s Hs) as [(Hd & He & Hx) H2].
  destruct (load_default dir s) as [[c|e|] s1]; cbn [fst snd] in *; [| |done].
  - split; [done|]. split; [|done]. by apply H2.
  - split; [done|]. split; [constructor|done].
Qed.
End trust.

(** An entry that speaks for a connection under a configuration. *)
Definition covers (cfg : VaultConfig) (fp : string) (e : CacheEntry) : Prop :=
  org e = cfg_org cfg /\ app e = cfg_app cfg /\ fingerprint e = fp /\
  forall id, transport cfg = ProxyMode id -> machine_id e = id.

Lemma lookup_covers c cfg fp e :
  lookup c cfg (transport cfg) fp = Some e -> e ∈ entries c /\ covers cfg fp e.
Proof.
  intros Hf. apply find_some in Hf as [Hin Hm]. split; [by apply list_elem_of_In|].
  unfold cache_entry_matches in Hm. repeat case_bool_decide; cbn in Hm; try done.
  split_and!; try done. intros id Ht. rewrite Ht in Hm. by apply bool_decide_eq_true in Hm.
Qed.

Lemma assert_org_and_app_ok i n cfg :
  assert_org_and_app i n cfg = Ok tt -> i = issuer_of (cfg_org cfg) /\ n = cfg_app cfg.
Proof. unfold assert_org_and_app. repeat case_bool_decide; done. Qed.

Lemma assert_machine_id_ok m transport :
  assert_machine_id m transport = Ok tt -> forall id, transport = ProxyMode id -> m = id.
Proof. intros Ha id ->. unfold assert_machine_id in Ha. by case_bool_decide. Qed.

(** A predicate on entries that only looks at their key. *)
Definition key_only (V : CacheEntry -> Prop) : Prop := forall e t u,
  V (mkCacheEntry (org e) (app e) (machine_id e) (fingerprint e) t u) <-> V e.

Section validate.
Context (V : CacheEntry -> Prop) (X : list ControlMessage * list (Res ControlMessage)) (a : Attempt) (fp aud : string).
Context (V_key : key_only V) (Hothers : forall n d, DiskOk V d -> DiskOk V (others a n d)).
Context (attestation : AttestationPayload).
Context (V_verified : forall claims, protocol_version attestation = PROTOCOL_VERSION ->
  verify_attestation_jwt (oidc a) (jwt attestation) (cfg_org (cfg a)) aud = Ok claims ->
  iss claims = issuer_of (cfg_org (cfg a)) -> app_name claims = cfg_app (cfg a) ->
  V (mkCacheEntry (cfg_org (cfg a)) (cfg_app (cfg a)) (claim_machine_id claims) fp 0 0)).

Lemma validate_trusted s r s' :
  Trusted V X s ->
  validate_attestation a (transport (cfg a)) attestation aud fp s = (r, s') ->
  Trusted V X s' /\ (r = Ok tt -> exists e, V e /\ covers (cfg a) fp e).
Proof using V_key Hothers V_verified.
  intros Hs Hv. unfold validate_attestation in Hv.
  apply mbind_run in Hv as [(u & s1 & Hl & Hv)|(x & Hl & _ & Hr)];
    [|injection Hl as _ <-; split; [done|]; by intros ->].
  injection Hl as Hpv <-. unfold assert_protocol_version in Hpv.
  destruct (Z.eqb_spec (protocol_version attestation) PROTOCOL_VERSION) as [Hversion|]; [clear Hpv|done].
  unfold mbind at 1, M_bind, mbind_st, mget in Hv.
  destruct (lookup (cache s) (cfg a) (transport (cfg a)) fp) as [e|] eqn:El.
  - apply lookup_covers in El as [Hin Hc].
    assert (He : V e) by (destruct Hs as (_ & Hf & _); rewrite Forall_forall in Hf; auto).
    pose proof (keeps_try (Trusted V X) _ (keeps_record_cache_hit V X V_key (clock a) (unique a)
      (others a) (cfg a) (transport (cfg a)) fp Hothers) s Hs) as Hk.
    apply mbind_run in Hv as [(u' & s1 & Hl & Hv)|(x & Hl & _ & Hr)]; rewrite Hl in Hk.
    + injection Hv as <- <-. eauto.
    + split; [done|]. by intros ->.
  - apply mbind_run in Hv as [(u' & s1 & Hl & Hv)|(x & Hl & _ & Hr)];
      [injection Hl as _ <-|injection Hl as _ <-; split; [done|]; by intros ->].
    apply mbind_run in Hv as [(claims & s1 & Hl & Hv)|(x & Hl & _ & Hr)];
      [injection Hl as Hver <-|injection Hl as _ <-; split; [done|]; by intros ->].
    apply mbind_run in Hv as [([] & s1 & Hl & Hv)|(x & Hl & _ & Hr)];
      [injection Hl as Horg <-|injection Hl as _ <-; split; [done|]; by intros ->].
    apply mbind_run in Hv as [([] & s1 & Hl & Hv)|(x & Hl & _ & Hr)];
      [injection Hl as Hid <-|injection Hl as _ <-; split; [done|]; by intros ->].
    apply assert_org_and_app_ok in Horg as [Hi Hn].
    pose proof (V_verified _ Hversion Hver Hi Hn) as HV.
    pose proof (keeps_try (Trusted V X) _ (keeps_record_verified V X V_key (clock a) (unique a)
      (others a) (cfg a) (claim_machine_id claims) fp Hothers HV) s Hs) as Hk.
    apply mbind_run in Hv as [(u'' & s1 & Hl & Hv)|(x & Hl & _ & Hr)]; rewrite Hl in Hk.
    + injection Hv as <- <-. split; [done|]. intros _. eexists. split; [exact HV|].
      split_and!; try done. by apply assert_machine_id_ok.
    + split; [done|]. by intros ->.
Qed.
End validate.

Section attested.
Context (V : CacheEntry -> Prop) (a : Attempt) (fp : string).
Context (V_key : key_only V) (Hothers : forall n d, DiskOk V d -> DiskOk V (others a n d)).
Context (V_verified : forall p aud claims, attested a p -> protocol_version p = PROTOCOL_VERSION ->
  export_attestation_audience a = Ok aud ->
  verify_attestation_jwt (oidc a) (jwt p) (cfg_org (cfg a)) aud = Ok claims ->
  iss claims = issuer_of (cfg_org (cfg a)) -> app_name claims = cfg_app (cfg a) ->
  V (mkCacheEntry (cfg_org (cfg a)) (cfg_app (cfg a)) (claim_machine_id claims) fp 0 0)).

(** No access token was sent so far, and [ib] is still to be read. *)
Definition Silent (ib : list (Res ControlMessage)) (s : Cl) : Prop :=
  exists X, Trusted V (X, ib) s /\ forall q, CMSetupRequest q ∉ X.

Lemma silent_write ib ms : (forall q, CMSetupRequest q ∉ ms) -> keeps (Silent ib) (write_stream ms).
Proof.
  intros Hn s (X & (Hd & He & [= Hx Hi]) & Hq). unfold write_stream.
  assert (Hq' : forall q, CMSetupRequest q ∉ X ++ ms)
    by (intros q; rewrite elem_of_app; intros [|]; [by eapply Hq|by eapply Hn]).
  destruct (write_faults s) as [|[e|] rest]; cbn.
  - exists (X ++ ms). split; [|done]. split; [done|]. split; [done|]. cbn. by rewrite Hx, Hi.
  - exists X. split; [|done]. split; [done|]. split; [done|]. cbn. by rewrite Hx, Hi.
  - exists (X ++ ms). split; [|done]. split; [done|]. split; [done|]. cbn. by rewrite Hx, Hi.
Qed.

Lemma silent_read ib s r s' : Silent ib s -> read_message s = (r, s') ->
  Silent (tail ib) s' /\ forall m, r = Ok m -> head ib = Some (Ok m).
Proof.
  intros (X & (Hd & He & [= Hx Hi]) & Hq). unfold read_message. rewrite Hi.
  destruct ib as [|r0 ib]; intros [= <- <-].
  - split; [|done]. exists X. split; [|done]. split; [done|]. split; [done|]. cbn. by rewrite Hx, Hi.
  - split; [|by intros m ->]. exists X. split; [|done]. split; [done|]. split; [done|]. cbn. by rewrite Hx.
Qed.

(** What the second half guarantees, wherever it stops. *)
Lemma attested_spec s r s' :
  Silent (replies a) s -> connect_attested a fp s = (r, s') ->
  DiskOk V (disk s') /\
  forall q, CMSetupRequest q ∈ sent s' -> cfg_access_token (cfg a) = Some (access_token q) /\
    exists e, V e /\ covers (cfg a) fp e.
Proof using V_key Hothers V_verified.
  intros Hs Hc. unfold connect_attested in Hc.
  assert (Hend : forall ib t, Silent ib t -> DiskOk V (disk t) /\ forall q, CMSetupRequest q ∈ sent t ->
    cfg_access_token (cfg a) = Some (access_token q) /\ exists e, V e /\ covers (cfg a) fp e).
  { intros ib t (X & (Hd & _ & [= Hx _]) & Hq). split; [done|]. intros q Hin. rewrite Hx in Hin. by destruct (Hq q). }
  apply mbind_run in Hc as [(aud & s1 & Hl & Hc)|(x & Hl & _ & _)]; injection Hl as Haud <-; [|eauto].
  apply (keeps_run (Silent (replies a))) in Hc as [(u & s1 & _ & Hs1 & Hc)|[Ht _]]; eauto with keeps.
  apply (keeps_run (Silent (replies a))) in Hc as [(u1 & s2 & _ & Hs2 & Hc)|[Ht _]]; eauto;
    [|apply keeps_context, silent_write; intros q Hq; by apply not_elem_of_nil in Hq].
  apply (keeps_run (Silent (replies a))) in Hc as [(u2 & s3 & _ & Hs3 & Hc)|[Ht _]]; eauto;
    [|apply keeps_context, silent_write; intros q Hq; by apply list_elem_of_singleton in Hq].
  apply mbind_run in Hc as [(m & s4 & Hl & Hc)|(x & Hl & _ & _)];
    apply (silent_read (replies a)) in Hl as [Hs4 Hm]; try done; [|by eapply Hend].
  specialize (Hm m eq_refl). set (ib := tail (replies a)) in *.
  apply mbind_run in Hc as [(att & s5 & Hl & Hc)|(x & Hl & _ & _)]; injection Hl as Hatt <-; [|by eapply Hend].
  assert (Hattested : attested a att).
  { destruct m as [|p| | |]; try done. injection Hatt as ->. unfold attested.
    destruct (replies a) as [|r0 rest]; [done|]. injection Hm as ->. by eexists. }
  destruct Hs4 as (X & HT & HX).
  destruct (validate_attestation a (transport (cfg a)) att aud fp s4) as [rv s6] eqn:Ev.
  destruct (validate_trusted V (X, ib) a fp aud V_key Hothers att
    (fun claims Hpv => V_verified att aud claims Hattested Hpv Haud) s4 rv s6 HT Ev) as [HT6 Hv].
  assert (Hs6 : Silent ib s6) by (by exists X).
  apply mbind_run in Hc as [([] & s6' & Hl & Hc)|(x & Hl & _ & _)]; rewrite Ev in Hl; injection Hl as -> ->;
    [|eauto].
  apply mbind_run in Hc as [(token & s7 & Hl & Hc)|(x & Hl & _ & _)]; injection Hl as Htok <-; [|eauto].
  apply (keeps_run (Silent ib)) in Hc as [(rootfs & s7 & _ & Hs7 & Hc)|[Ht _]]; eauto with keeps.
  clear Hs6 HT6 HT HX Ev. destruct Hs7 as (X' & (Hd & He & [= Hx _]) & HX').
  assert (Hd' : disk s' = disk s7 /\ forall q, CMSetupRequest q ∈ sent s' -> access_token q = token).
  { unfold mbind, M_bind, mbind_st, mcontext, write_stream, read_message, mlift in Hc.
    assert (Hlast : forall q, CMSetupRequest q ∈ X' ++ [CMSetupRequest (mkSetupRequest token rootfs)] ->
      access_token q = token).
    { intros q Hq. apply elem_of_app in Hq as [Hq|Hq]; [by apply HX' in Hq|].
      apply list_elem_of_singleton in Hq. by injection Hq as ->. }
    rewrite Hx in Hc.
    destruct (write_faults s7) as [|[e|] rest]; cbn in Hc.
    - destruct (inbox s7) as [|[m'|e|] ib']; cbn in Hc; injection Hc as _ <-; cbn; auto.
    - injection Hc as _ <-. cbn. split; [done|]. intros q Hq. by apply HX' in Hq.
    - destruct (inbox s7) as [|[m'|e|] ib']; cbn in Hc; injection Hc as _ <-; cbn; auto. }
  destruct Hd' as [-> Hq]. split; [done|]. intros q Hin. rewrite (Hq q Hin).
  split; [|auto]. unfold ok_or, anyhow in Htok. by destruct (cfg_access_token (cfg a)); simplify_eq.
Qed.
End attested.

(** ** The shared cache over time *)

Lemma vouched_key history : key_only (vouched history).
Proof. by intros e t u. Qed.

Lemma vouched_more history a e : vouched history e -> vouched (history ++ [a]) e.
Proof.
  intros (b & p & aud & claims & Hin & Hr). exists b, p, aud, claims.
  split; [|done]. apply elem_of_app. by left.
Qed.

Lemma DiskOk_mono V W d : (forall e, V e -> W e) -> DiskOk V d -> DiskOk W d.
Proof. intros Hi Hd p t es Hp He. eapply Forall_impl; [exact (Hd _ _ _ Hp He)|exact Hi]. Qed.

(** An open attempt: it is in the history, knows its certificate and only vouched
    entries, has sent nothing and read nothing. *)
Definition OpenOk (history : list Attempt) (o : Attempt * string * Cl) : Prop :=
  let '(a, fp, s) := o in
  a ∈ history /\ server_cert_fingerprint a = Ok fp /\
  Forall (vouched history) (entries (cache s)) /\ sent s = [] /\ inbox s = replies a.

Record WorldOk (w : World) : Prop := {
  wo_disk : DiskOk (vouched (w_history w)) (w_disk w);
  wo_open : forall i o, w_open w !! i = Some o -> OpenOk (w_history w) o;
}.

Lemma OpenOk_more history a o : OpenOk history o -> OpenOk (history ++ [a]) o.
Proof.
  destruct o as [[b fp] s]. intros (Hin & Hfp & He & Hx). split; [apply elem_of_app; by left|].
  split; [done|]. split; [|done]. eapply Forall_impl; [exact He|]. intros e. apply vouched_more.
Qed.

Lemma connect_open_spec V a d fp s :
  DiskOk V d -> connect_open a (start d a) = (Ok fp, s) ->
  server_cert_fingerprint a = Ok fp /\ Trusted V ([], replies a) s.
Proof.
  intros Hd Hc. unfold connect_open in Hc.
  assert (H0 : Trusted V ([], replies a) (start d a)) by (split; [done|split; [constructor|done]]).
  do 4 (apply mbind_run in Hc as [(u & s1 & Hl & Hc)|(x & Hl & Hx & Hr)]; [|done];
        injection Hl as _ <-; clear u).
  apply mbind_run in Hc as [(fp' & s1 & Hl & Hc)|(x & Hl & Hx & Hr)]; [|done]. injection Hl as Hfp <-.
  apply (keeps_run (Trusted V ([], replies a))) in Hc as [(u & s1 & _ & Hs1 & Hc)|[_ Hr]];
    [|done|by apply keeps_load|done].
  injection Hc as <- <-. done.
Qed.

(** The second half of an open attempt, on the disk as it is now. *)
Lemma finish_spec history a fp s d r s' :
  DiskOk (vouched history) d -> OpenOk history (a, fp, s) ->
  (forall n d, DiskOk (vouched history) d -> DiskOk (vouched history) (others a n d)) ->
  connect_attested a fp (set_disk d s) = (r, s') ->
  DiskOk (vouched history) (disk s') /\
  forall q, CMSetupRequest q ∈ sent s' -> cfg_access_token (cfg a) = Some (access_token q) /\
    exists e, vouched history e /\ covers (cfg a) fp e.
Proof.
  intros Hd (Hin & Hfp & He & Hx & Hi) Hrm Hc.
  apply (attested_spec (vouched history) a fp (vouched_key _) Hrm) in Hc; [done| |].
  - intros p aud claims Hp Hpv Haud Hver Hiss Happ. exists a, p, aud, claims. split_and!; done.
  - exists []. split; [|intros q Hq; by apply not_elem_of_nil in Hq]. split; [done|]. split; [done|].
    cbn. by rewrite Hx, Hi.
Qed.

(** What the others do while one sleeps leaves the files as they should be. *)
Scheme Rely_mind := Induction for Rely Sort Prop
  with meanwhile_mind := Induction for meanwhile Sort Prop.

Lemma rely_others history open a :
  (forall o, o ∈ open -> OpenOk history o) -> Rely open a ->
  forall n d, DiskOk (vouched history) d -> DiskOk (vouched history) (others a n d).
Proof.
  intros Ho. revert a. refine (Rely_mind open
    (fun a _ => forall n d, DiskOk (vouched history) d -> DiskOk (vouched history) (others a n d))
    (fun d d' _ => DiskOk (vouched history) d -> DiskOk (vouched history) d') _ _ _ _).
  - intros a _ IH n d. apply IH.
  - done.
  - intros d p d' _ IH Hd. apply IH. eapply DiskOk_sub; [exact Hd|]. by intros q t [_ Hq]%lookup_delete_Some.
  - intros d b fp s r s' d' Hin _ IHb Hc _ IH Hd. apply IH.
    exact (proj1 (finish_spec history b fp s d r s' Hd (Ho _ Hin) IHb Hc)).
Qed.

Lemma open_rely w a : WorldOk w -> Rely (w_open w) a ->
  forall n d, DiskOk (vouched (w_history w)) d -> DiskOk (vouched (w_history w)) (others a n d).
Proof.
  intros Hw. apply rely_others. intros o Hin. apply list_elem_of_lookup in Hin as [i Hi]. by eapply (wo_open w Hw).
Qed.

Lemma world_ok w : world_reachable w -> WorldOk w.
Proof.
  induction 1 as [|w w' _ IH Hs].
  - split; [intros p t es Hp; cbn in Hp; unfold Disk in Hp; by rewrite lookup_empty in Hp|]. by intros [].
  - pose proof IH as [Hd Ho]. destruct Hs as [w a fp s Hc|w i a fp s r s' Hi Hrel Hc].
    + destruct (connect_open_spec (vouched (w_history w)) a _ fp s Hd Hc) as [Hfp (Hds & He & [= Hx Hib])].
      assert (Hm : forall e, vouched (w_history w) e -> vouched (w_history w ++ [a]) e)
        by (intros e; apply vouched_more).
      split; cbn; [by eapply DiskOk_mono|].
      intros j o Hj. apply lookup_app_Some in Hj as [Hj|[_ Hj]]; [by eapply OpenOk_more, Ho|].
      apply list_lookup_singleton_Some in Hj as [_ <-]. split_and!; try done.
      * apply elem_of_app. right. by left.
      * by eapply Forall_impl.
    + destruct (finish_spec _ a fp s _ r s' Hd (Ho _ _ Hi) (open_rely w a IH Hrel) Hc) as [Hd' _]. split; [exact Hd'|].
      intros j o Hj. cbn [w_open] in Hj. rewrite list_lookup_delete in Hj. exact (Ho _ _ Hj).
Qed.

(** ** What a successful write leaves *)

Lemma io_fault_disk s r s' : io_fault s = (r, s') -> disk s' = disk s.
Proof. unfold io_fault. destruct (io_faults s) as [|[] ]; by intros [= <- <-]. Qed.

Lemma remove_file_other l p s : p <> l -> disk (snd (remove_file l s)) !! p = disk s !! p.
Proof.
  intros Hn. unfold remove_file, mbind, M_bind, mbind_st.
  destruct (io_fault s) as [[u|e|] s1] eqn:Ei; pose proof (io_fault_disk _ _ _ Ei) as Hd; cbn;
    [|by rewrite Hd..].
  destruct (disk s1 !! l); cbn; [|by rewrite Hd]. unfold Disk in *. by rewrite lookup_delete_ne, Hd.
Qed.

Lemma write_Ok p t s u s' : write p t s = (Ok u, s') -> disk s' !! p = Some t.
Proof.
  unfold write. intros Hw. apply mbind_run in Hw as [(v & s1 & _ & Hw)|(x & _ & _ & Hr)]; [|done].
  injection Hw as _ <-. unfold Disk in *. cbn. apply lookup_insert_eq.
Qed.

Lemma rename_Ok p q t s u s' : rename p q s = (Ok u, s') -> disk s !! p = Some t -> disk s' !! q = Some t.
Proof.
  unfold rename. intros Hr Hp. apply mbind_run in Hr as [(v & s1 & Hi & Hr)|(x & _ & _ & Hr)]; [|done].
  apply io_fault_disk in Hi. unfold mbind, M_bind, mbind_st, mget in Hr. rewrite Hi, Hp in Hr.
  injection Hr as _ <-. unfold Disk in *. cbn. apply lookup_insert_eq.
Qed.

Lemma persist_Ok unique others d s u s' :
  cache_path (cache s) = Some (d ++ [CACHE_FILE_NAME]) -> persist unique others s = (Ok u, s') ->
  exists t, disk s' !! (d ++ [CACHE_FILE_NAME]) = Some t /\ from_str t = Ok (entries (cache s)).
Proof.
  intros Hp Hc. unfold persist in Hc. unfold mbind at 1, M_bind, mbind_st, mget in Hc. rewrite Hp in Hc.
  generalize dependent (entries (cache s)). intros es Hc. clear Hp.
  apply mbind_run in Hc as [(parent & s1 & Hl & Hc)|(x & _ & _ & Hr)]; [|done].
  assert (parent = d) as ->.
  { destruct (d ++ [CACHE_FILE_NAME]) eqn:E; [by destruct d|]. rewrite <- E in Hl.
    injection Hl as <- _. unfold Setup.parent. apply removelast_last. }
  clear Hl. apply mbind_run in Hc as [(v & s2 & _ & Hc)|(x & _ & _ & Hr)]; [|done].
  apply mbind_run in Hc as [(v' & s3 & _ & Hc)|(x & _ & _ & Hr)]; [|done].
  unfold with_lock in Hc. apply mbind_run in Hc as [(r & s4 & Hm & Hc)|(x & _ & _ & Hr)]; [|done].
  apply mtry_inv in Hm. apply mbind_run in Hc as [(v'' & s5 & Hrm & Hc)|(x & _ & _ & Hr)]; [|done].
  apply mtry_inv in Hrm. injection Hc as -> <-.
  assert (Hlock : d ++ [CACHE_FILE_NAME] <> d ++ [LOCK_FILE_NAME]) by (intros E; by apply app_inv_head in E).
  pose proof (remove_file_other _ _ s4 Hlock) as Hd. rewrite Hrm in Hd. cbn [snd] in Hd. rewrite Hd.
  apply mbind_run in Hm as [(t & s6 & Ht & Hm)|(x & _ & _ & Hr)]; [|done].
  injection Ht as Ht <-. apply with_context_Ok, from_to in Ht. exists t. split; [|done].
  apply mbind_run in Hm as [(w & s7 & Hw & Hm)|(x & _ & _ & Hr)]; [|done].
  unfold mcontext in Hw, Hm. destruct (write _ t s3) as [[]] eqn:Ew; try done. injection Hw as <- <-.
  apply write_Ok in Ew. destruct (rename _ _ _) as [[]] eqn:Er; try done. injection Hm as <- <-.
  exact (rename_Ok _ _ _ _ _ _ Er Ew).
Qed.

(** ** Properties *)

(** C1: The client sends its access token, which is the configured one, only on a
    connection whose server certificate has been attested: on some connection with
    that certificate, this one or an earlier one of any process sharing the cache,
    the attestation the server answered with had the right protocol version and a
    token that verified for the organisation of the configuration and for the channel
    binding of that connection, with its app and, in proxy mode, its machine.  Other
    processes may run and wait for the lock while this one does. *)
Theorem token_goes_to_attested_certificates w i a fp s r s' q :
  world_reachable w -> w_open w !! i = Some (a, fp, s) -> Rely (w_open w) a ->
  connect_attested a fp (set_disk (w_disk w) s) = (r, s') ->
  CMSetupRequest q ∈ sent s' ->
  cfg_access_token (cfg a) = Some (access_token q) /\ server_cert_fingerprint a = Ok fp /\
  exists e, vouched (w_history w) e /\ covers (cfg a) fp e.
Proof.
  intros Hw Hi Hrel Hc Hq. apply world_ok in Hw. pose proof (wo_open w Hw _ _ Hi) as Ho.
  destruct (finish_spec _ a fp s _ r s' (wo_disk w Hw) Ho (open_rely w a Hw Hrel) Hc) as [_ Hs].
  destruct (Hs q Hq) as [Ht He]. destruct Ho as (_ & Hfp & _). done.
Qed.

(** C11: However the processes that share the cache interleave, every entry of
    every file they leave was verified on a connection with its certificate. *)
Theorem cached_entries_were_verified w p t es e :
  world_reachable w -> w_disk w !! p = Some t -> from_str t = Ok es -> e ∈ es ->
  vouched (w_history w) e.
Proof.
  intros Hw Hp He Hin. pose proof (wo_disk w (world_ok w Hw) _ _ _ Hp He) as Hf.
  rewrite Forall_forall in Hf. auto.
Qed.

(** Recording a verification, when it succeeds, leaves in the cache file this
    process's own entries and the one just verified, and nothing else: whatever
    other processes recorded since this one loaded the cache is gone, since the
    lock is taken only for the write. *)
Theorem recording_replaces_the_file n unique others cfg id fp d s u s' :
  cache_path (cache s) = Some (d ++ [CACHE_FILE_NAME]) ->
  record_verified (Ok n) unique others cfg id fp s = (Ok u, s') ->
  exists t es, disk s' !! (d ++ [CACHE_FILE_NAME]) = Some t /\ from_str t = Ok es /\
    mkCacheEntry (cfg_org cfg) (cfg_app cfg) id fp n n ∈ es /\
    forall e, e ∈ es -> same_key cfg id fp e = true \/ e ∈ entries (cache s).
Proof.
  intros Hp Hr. unfold record_verified in Hr.
  apply mbind_run in Hr as [(m & s1 & Hl & Hr)|(x & Hl & Hx & _)];
    [injection Hl as <- <-|injection Hl as <- _; done].
  unfold mbind at 1, M_bind, mbind_st, mget in Hr.
  apply mbind_run in Hr as [(v & s1 & Hl & Hr)|(x & Hl & Hx & _)]; [|by injection Hl as <- _].
  injection Hl as _ <-. eapply persist_Ok in Hr as (t & Ht & Hf); [|exact Hp]. cbn in Hf.
  eexists t, _. split; [exact Ht|]. split; [exact Hf|].
  assert (Hkey : same_key cfg id fp (mkCacheEntry (cfg_org cfg) (cfg_app cfg) id fp n n) = true)
    by (unfold same_key; cbn; by rewrite !bool_decide_true).
  destruct (update_first _ _ _) as [es|] eqn:Eu; cbn.
  - clear -Eu. revert es Eu. induction (entries (cache s)) as [|e l IH]; cbn; intros es Eu; [done|].
    destruct (same_key cfg id fp e) eqn:Ek.
    + injection Eu as <-. apply andb_prop in Ek as [Ek Ek4]. apply andb_prop in Ek as [Ek Ek3].
      apply andb_prop in Ek as [Ek1 Ek2]. apply bool_decide_eq_true in Ek1, Ek2, Ek3, Ek4.
      assert (Er : reverified n e = mkCacheEntry (cfg_org cfg) (cfg_app cfg) id fp n n)
        by (unfold reverified; congruence).
      rewrite Er. split; [by left|]. intros x [->|Hx]%elem_of_cons; [left|right; by right].
      unfold same_key. cbn. by rewrite !bool_decide_true.
    + destruct (update_first _ _ l) as [l'|]; [|done]. injection Eu as <-.
      destruct (IH l' eq_refl) as [H1 H2]. split; [by right|].
      intros x [->|Hx]%elem_of_cons; [right; by left|]. destruct (H2 x Hx); [by left|right; by right].
  - split; [apply elem_of_app; right; by left|].
    intros e [He|He]%elem_of_app; [by right|]. apply list_elem_of_singleton in He as ->. by left.
Qed.
End client.

(** ** Witnesses: two processes, two machines *)

Definition demo_json : Json := {|
  Text := option (list CacheEntry);
  empty_text := None;
  to_vec_pretty es := Ok (Some es);
  from_str t := ok_or "empty" t;
  from_to es t H := ltac:(injection H as <-; reflexivity);
  from_empty := eq_refl;
|}.

(** Keys are issuers; a token is the id of the machine it was issued to. *)
Definition demo_jwt : Jwt := {|
  JwkSet := string; Jwk := string; DecodingKey := string;
  decode_header _ := Ok (Some "kid");
  jwks_find set _ := Some set;
  from_jwk := Ok;
  decode jwt key v :=
    if bool_decide (issuer v = [key]) then Ok (mkClaims key "my-app" jwt) else anyhow "InvalidIssuer";
|}.

#[local] Existing Instance demo_json.
#[local] Existing Instance demo_jwt.

Definition demo_cfg : VaultConfig :=
  mkVaultConfig "vault:8443" "my-org" "my-app" None [] None None (Some "s3cret").

Definition demo_attempt (cert : byte) (machine : string) : Attempt :=
  mkAttempt demo_cfg false (Ok tt) (Ok tt) (Ok tt) (Ok tt) (Some (Some [[cert]])) (Some [x2a])
    (Some ["home"; ".cache"]) (Ok tt) (Ok tt)
    (mkOidc (fun _ => Ok "jwks") (fun _ => Ok "https://oidc.fly.io/my-org"))
    (Ok 1000) machine (fun _ d => d) None (fun _ => Err [Io NotFound]) (fun _ => anyhow "relative URL")
    [] [Ok (CMAttestation (mkAttestation PROTOCOL_VERSION Ready SystemInit machine)); Ok CMSetupComplete] [].

Definition demo_open (d : Disk) (a : Attempt) : Cl :=
  snd (connect_open from_bytes_unchecked (fun b => b) a (start d a)).

Definition demo_finish (d : Disk) (a : Attempt) (fp : string) (s : Cl) : Cl :=
  snd (connect_attested from_bytes_unchecked (fun _ => "") a fp (set_disk d s)).

Definition demo_a : Attempt := demo_attempt x61 "m1".
Definition demo_b : Attempt := demo_attempt x62 "m2".

(** Both processes loaded the cache before either recorded. *)
Definition demo_world : World :=
  mkWorld ∅ [demo_a; demo_b] [(demo_a, "a", demo_open ∅ demo_a); (demo_b, "b", demo_open ∅ demo_b)].

Abbreviation demo_reachable :=
  (world_reachable from_bytes_unchecked (fun b => b) (fun _ => "")).

Lemma demo_world_reachable : demo_reachable demo_world.
Proof.
  apply (world_more _ _ _ (mkWorld ∅ [demo_a] [(demo_a, "a", demo_open ∅ demo_a)])).
  - apply (world_more _ _ _ (mkWorld ∅ [] [])); [apply world_init|].
    refine (world_open _ _ _ (mkWorld ∅ [] []) demo_a "a" (demo_open ∅ demo_a) _);
      vm_compute; reflexivity.
  - refine (world_open _ _ _ (mkWorld ∅ [demo_a] [(demo_a, "a", demo_open ∅ demo_a)]) demo_b "b"
             (demo_open ∅ demo_b) _); vm_compute; reflexivity.
Qed.

Lemma demo_rely open cert machine :
  Rely from_bytes_unchecked (fun _ => "") open (demo_attempt cert machine).
Proof. constructor. intros n d. constructor. Defined.

Definition demo_disk1 : Disk := disk (demo_finish ∅ demo_a "a" (demo_open ∅ demo_a)).

Definition demo_world1 : World :=
  mkWorld demo_disk1 [demo_a; demo_b] [(demo_b, "b", demo_open ∅ demo_b)].

Lemma demo_world1_reachable : demo_reachable demo_world1.
Proof.
  eapply world_more; [apply demo_world_reachable|].
  apply (world_finish _ _ _ demo_world 0 demo_a "a" (demo_open ∅ demo_a) (Ok tt));
    [vm_compute; reflexivity|apply demo_rely|vm_compute; reflexivity].
Qed.

Definition demo_file : path := ["home"; ".cache"; "fly-vault"; CACHE_FILE_NAME].

Lemma token_goes_to_attested_certificates_witness :
  exists q, CMSetupRequest q ∈ sent (demo_finish ∅ demo_a "a" (demo_open ∅ demo_a)) /\
  Some "s3cret" = Some (access_token q) /\
  exists e, vouched from_bytes_unchecked (fun b => b) (w_history demo_world) e /\ covers demo_cfg "a" e.
Proof.
  exists (mkSetupRequest "s3cret" RootfsNone). split; [vm_compute; right; left|].
  destruct (token_goes_to_attested_certificates from_bytes_unchecked (fun b => b) (fun _ => "")
    demo_world 0 demo_a "a" (demo_open ∅ demo_a) (Ok tt)
    (demo_finish ∅ demo_a "a" (demo_open ∅ demo_a)) (mkSetupRequest "s3cret" RootfsNone))
    as (Ht & _ & He).
  - apply demo_world_reachable.
  - vm_compute; reflexivity.
  - apply demo_rely.
  - vm_compute; reflexivity.
  - vm_compute; right; left.
  - split; [exact Ht|exact He].
Defined.

Lemma cached_entries_were_verified_witness :
  exists es e, demo_disk1 !! demo_file = Some (Some es) /\ e ∈ es /\ machine_id e = "m1" /\
  vouched from_bytes_unchecked (fun b => b) (w_history demo_world1) e.
Proof.
  exists [mkCacheEntry "my-org" "my-app" "m1" "a" 1000 1000],
    (mkCacheEntry "my-org" "my-app" "m1" "a" 1000 1000).
  split; [vm_compute; reflexivity|]. split; [left|]. split; [reflexivity|].
  eapply (cached_entries_were_verified from_bytes_unchecked (fun b => b) (fun _ => "") demo_world1 demo_file);
    [apply demo_world1_reachable|vm_compute; reflexivity|reflexivity|left].
Defined.

(** The second process's write drops the entry of the first. *)
Lemma recording_replaces_the_file_witness :
  exists t es s', record_verified (Ok 1000) "m2" (fun _ d => d) demo_cfg "m2" "b"
      (set_disk demo_disk1 (demo_open ∅ demo_b)) = (Ok tt, s') /\
    disk s' !! demo_file = Some t /\ from_str t = Ok es /\
    mkCacheEntry "my-org" "my-app" "m2" "b" 1000 1000 ∈ es /\
    ~ mkCacheEntry "my-org" "my-app" "m1" "a" 1000 1000 ∈ es.
Proof.
  destruct (recording_replaces_the_file 1000 "m2" (fun _ d => d) demo_cfg "m2" "b"
    ["home"; ".cache"; "fly-vault"] (set_disk demo_disk1 (demo_open ∅ demo_b)) tt
    (snd (record_verified (Ok 1000) "m2" (fun _ d => d) demo_cfg "m2" "b"
      (set_disk demo_disk1 (demo_open ∅ demo_b))))) as (t & es & Ht & Hf & Hin & Hall);
    [vm_compute; reflexivity|vm_compute; reflexivity|].
  exists t, es, (snd (record_verified (Ok 1000) "m2" (fun _ d => d) demo_cfg "m2" "b"
      (set_disk demo_disk1 (demo_open ∅ demo_b)))). split; [vm_compute; reflexivity|]. split; [exact Ht|]. split; [exact Hf|].
  split; [exact Hin|]. intros Hm. destruct (Hall _ Hm) as [Hk|He]; [vm_compute in Hk; discriminate Hk|].
  vm_compute in He.   apply not_elem_of_nil in He. exact He.
Defined.
