(* ===== verification/Handshake.v ===== *)
(** * The handshake: client and machine together

    [connect_ready] of the client ([ClientTrust]) and [handle_control_stream] of
    the machine ([InitServer]) on one connection, each reading what the other
    wrote.  The messages arrive as [Protocol] shows they do; that the two ends
    export the same keying material is TLS's. *)

From S2P Require Import Prelude Protocol ClientTrust.
From S2P Require Setup InitServer.

Abbreviation Srv := InitServer.Srv.
Abbreviation Host := InitServer.Host.

Definition set_inbox `{JS : Json} (replies : list (Res ControlMessage)) (s : Cl) : Cl :=
  mkCl (disk s) (io_faults s) (cache s) (sent s) replies (write_faults s).

(** ** The client's end *)

Section client.
Context `{JS : Json} `{JW : Jwt}.
Context (hex_encode : list byte -> string) (sha256 : list byte -> list byte) (debug : ControlMessage -> string).

(** The stream, which the cache and the verification leave alone. *)
Definition Net (X : list ControlMessage) (ib : list (Res ControlMessage)) (s : Cl) : Prop :=
  sent s = X /\ inbox s = ib /\ write_faults s = [].

Section net.
Context (X : list ControlMessage) (ib : list (Res ControlMessage)).

Lemma net_io_fault : keeps (Net X ib) io_fault.
Proof. intros s Hs. unfold io_fault. by destruct (io_faults s). Qed.

Lemma net_set_entries es : keeps (Net X ib) (set_entries es).
Proof. intros s Hs. exact Hs. Qed.

Hint Resolve net_io_fault net_set_entries : keeps.

Lemma net_acquire others p : keeps (Net X ib) (acquire others p).
Proof.
  unfold acquire. generalize LOCK_RETRY_ATTEMPTS. intros n. induction n as [|n IH]; cbn; [auto with keeps|].
  unfold create_new, put_disk. keeps_code.
Qed.
Hint Resolve net_acquire : keeps.

Lemma net_persist unique others : keeps (Net X ib) (persist unique others).
Proof. unfold persist, with_lock, write, rename, remove_file, put_disk. keeps_code. Qed.
Hint Resolve net_persist : keeps.

Lemma net_validate a transport att aud fp : keeps (Net X ib) (validate_attestation a transport att aud fp).
Proof. unfold validate_attestation, record_cache_hit, record_verified. keeps_code. Qed.
End net.

Lemma write_stream_net ms X ib s :
  Net X ib s -> exists s', write_stream ms s = (Ok tt, s') /\ Net (X ++ ms) ib s'.
Proof.
  intros (Hx & Hi & Hw). unfold write_stream. rewrite Hw. eexists. split; [done|].
  by split; cbn; rewrite ?Hx.
Qed.

(** What a client's end comes to, on a stream that takes its writes: it stops
    before the setup request, or sends one, and succeeds on the machine's word. *)
Lemma client_end a fp s r s' :
  Net [] (inbox s) s -> connect_attested hex_encode debug a fp s = (r, s') ->
  (r <> Ok tt /\ (sent s' = [] \/ sent s' = [CMRequestAttestation])) \/
  exists p q rest aud,
    inbox s = Ok (CMAttestation p) :: rest /\ sent s' = [CMRequestAttestation; CMSetupRequest q] /\
    protocol_version p = PROTOCOL_VERSION /\ cfg_access_token (cfg a) = Some (access_token q) /\
    provisioning_source a (state p) (reprovision a) = Ok (rootfs q) /\
    export_attestation_audience hex_encode a = Ok aud /\
    (r = Ok tt <-> exists rest', rest = Ok CMSetupComplete :: rest').
Proof.
  intros Hn Hc. unfold connect_attested in Hc.
  apply mbind_run in Hc as [(aud & s1 & Hl & Hc)|(x & Hl & _ & Hr)]; injection Hl as Haud <-;
    [|left; split; [by intros ->|left; apply Hn]].
  apply mbind_run in Hc as [(u & s1 & Hl & Hc)|(x & Hl & _ & Hr)]; unfold mcontext, mlift in Hl.
  2: { destruct (open_result a); injection Hl as _ <-; (left; split; [by intros ->|left; apply Hn]). }
  destruct (open_result a); try done. injection Hl as _ <-.
  destruct (write_stream_net [] _ _ s Hn) as (s1 & E1 & Hn1).
  destruct (write_stream_net [CMRequestAttestation] _ _ s1 Hn1) as (s2 & E2 & Hn2).
  rewrite (M_bind_Ok _ _ s tt s1) in Hc by (unfold mcontext; by rewrite E1).
  rewrite (M_bind_Ok _ _ s1 tt s2) in Hc by (unfold mcontext; by rewrite E2). cbn [app] in Hn2.
  clear E1 E2 Hn1 s1. set (ib := inbox s) in *. clearbody ib. destruct Hn2 as (Hx2 & Hi2 & Hw2).
  apply mbind_run in Hc as [(m & s3 & Hl & Hc)|(x & Hl & _ & Hr)]; unfold read_message in Hl; rewrite Hi2 in Hl.
  2: { left. split; [by intros ->|right]. by destruct ib; injection Hl as _ <-. }
  destruct ib as [|m0 rest]; [done|]. injection Hl as -> <-.
  set (s3 := mkCl _ _ _ _ _ _) in Hc. assert (Hn3 : Net [CMRequestAttestation] rest s3) by done. clearbody s3.
  clear Hx2 Hi2 Hw2 s2.
  apply mbind_run in Hc as [(p & s4 & Hl & Hc)|(x & Hl & _ & Hr)]; injection Hl as Hm <-;
    [|left; split; [by intros ->|right; apply Hn3]].
  destruct m as [|p'| | |]; try done. injection Hm as ->.
  pose proof (net_validate [CMRequestAttestation] rest a (transport (cfg a)) p aud fp s3 Hn3) as Hn4.
  apply mbind_run in Hc as [([] & s4 & Hl & Hc)|(x & Hl & _ & Hr)]; rewrite Hl in Hn4; cbn in Hn4;
    [|left; split; [by intros ->|right; apply Hn4]].
  assert (Hpv : protocol_version p = PROTOCOL_VERSION).
  { unfold validate_attestation in Hl. apply mbind_run in Hl as [(u1 & s5 & Hl & _)|(x & _ & _ & Hr)]; [|done].
    injection Hl as Hl _. unfold assert_protocol_version in Hl.
    by destruct (Z.eqb_spec (protocol_version p) PROTOCOL_VERSION). }
  clear Hl Hn3 s3.
  apply mbind_run in Hc as [(token & s5 & Hl & Hc)|(x & Hl & _ & Hr)]; injection Hl as Htok <-;
    [|left; split; [by intros ->|right; apply Hn4]].
  apply mbind_run in Hc as [(source & s5 & Hl & Hc)|(x & Hl & _ & Hr)]; injection Hl as Hsrc <-;
    [|left; split; [by intros ->|right; apply Hn4]].
  set (q := mkSetupRequest token source) in Hc.
  destruct (write_stream_net [CMSetupRequest q] _ _ s4 Hn4) as (s5 & E5 & Hn5).
  rewrite (M_bind_Ok _ _ s4 tt s5) in Hc by (unfold mcontext; by rewrite E5). cbn [app] in Hn5.
  right. exists p, q, rest, aud. destruct Hn5 as (Hx5 & Hi5 & _).
  assert (Htok' : cfg_access_token (cfg a) = Some token).
  { destruct (cfg_access_token (cfg a)); [|done]. by injection Htok as ->. }
  assert (Hlast : sent s' = sent s5 /\ (r = Ok tt <-> exists rest', rest = Ok CMSetupComplete :: rest')).
  { unfold mbind, M_bind, mbind_st, read_message in Hc. rewrite Hi5 in Hc.
    destruct rest as [|[m|e|] rest]; injection Hc as <- <-; cbn.
    - split; [done|]. split; [done|]. by intros (? & ?).
    - split; [done|]. destruct m; (split; [intros Hm; try discriminate Hm; eauto|by intros (? & [=])]).
    - split; [done|]. split; [done|]. by intros (? & ?).
    - split; [done|]. split; [done|]. by intros (? & ?). }
  destruct Hlast as [-> Hr]. by split_and!.
Qed.
End client.

(** ** The machine's end *)

Section server.
Context `{HO : Host} `{TG : Setup.TarGz}.
Import InitServer.

(** The stream takes its writes; [X] was written. *)
Definition Wire (X : list ControlMessage) (s : Srv) : Prop := InitServer.sent s = X /\ write_errors s = [].

Lemma wire_setup {A} X (m : M Setup.St A) : keeps (Wire X) (with_setup m).
Proof. intros s Hs. unfold with_setup. by destruct (m (setup s)). Qed.

Lemma wire_vm_state X v : keeps (Wire X) (mmodify (set_vm_state v)).
Proof. by intros s Hs. Qed.
Hint Resolve wire_setup wire_vm_state : keeps.

Lemma wire_build X tm : keeps (Wire X) (build_attestation tm).
Proof. unfold build_attestation. keeps_code. Qed.

Lemma wire_apply X st request : keeps (Wire X) (apply_setup_request st request).
Proof. unfold apply_setup_request. keeps_code. Qed.

Lemma write_message_setup m s r s' : write_message m s = (r, s') -> setup s' = setup s.
Proof. unfold write_message. destruct (write_errors s) as [|[]]; by intros [= _ <-]. Qed.

Lemma write_message_wire m X s :
  Wire X s -> exists s', write_message m s = (Ok tt, s') /\ Wire (X ++ [m]) s'.
Proof.
  intros [Hx Hw]. unfold write_message. rewrite Hw. eexists. split; [done|]. by split; cbn; rewrite ?Hx.
Qed.

Lemma error_turn {A} X text (a : A) s r s1 :
  Wire X s -> (_ ← write_message (CMError text); mret a) s = (r, s1) ->
  r = Ok a /\ InitServer.sent s1 = X ++ [CMError text].
Proof.
  intros Hw Ht. destruct (write_message_wire (CMError text) X s Hw) as (s' & E & Hw').
  rewrite (M_bind_Ok _ _ s tt s' E) in Ht. injection Ht as <- <-. split; [done|apply Hw'].
Qed.

Lemma tried_error_turn {A} X text (a : A) s r s1 :
  Wire X s -> (_ ← mtry (write_message (CMError text)); mret a) s = (r, s1) ->
  r = Ok a /\ InitServer.sent s1 = X ++ [CMError text].
Proof.
  intros Hw Ht. destruct (write_message_wire (CMError text) X s Hw) as (s' & E & Hw').
  unfold mbind, M_bind, mbind_st, mtry in Ht. rewrite E in Ht. injection Ht as <- <-. split; [done|apply Hw'].
Qed.

(** The attestation: sent from what was built, or a message that is no attestation,
    or nothing. *)
Lemma attest_turn tm m s r s1 :
  Wire [] s -> control_turn tm AwaitAttestation m s = (r, s1) ->
  ((forall ph, r <> Ok (Continue ph)) /\ r <> Ok (Return true) /\
     (InitServer.sent s1 = [] \/ exists e, InitServer.sent s1 = [CMError e])) \/
  exists p s0, m = Ok CMRequestAttestation /\ build_attestation tm s = (Ok p, s0) /\
    r = Ok (Continue (AwaitSetupRequest (vm_state s1))) /\ Wire [CMAttestation p] s1 /\ setup s1 = setup s0.
Proof.
  intros Hw Ht. unfold control_turn, send_error in Ht. destruct m as [m|e|].
  - destruct m; try (left; apply (error_turn []) in Ht as [-> ->]; [|done]; split_and!; [done..|right; by eexists]).
    pose proof (wire_build [] tm s Hw) as Hb.
    destruct (build_attestation tm s) as [[p|e|] s0] eqn:Eb; cbn in Hb.
    + rewrite (M_bind_Ok _ _ s p s0 Eb) in Ht. right. exists p, s0.
      destruct (write_message_wire (CMAttestation p) [] s0 Hb) as (s' & E & Hw').
      rewrite (M_bind_Ok _ _ s0 tt s' E) in Ht. injection Ht as <- <-. split_and!; try done. by apply write_message_setup in E.
    + rewrite (M_bind_Err _ _ s e s0 Eb) in Ht. injection Ht as <- <-. left. split_and!; [done..|left; apply Hb].
    + unfold mbind, M_bind, mbind_st in Ht. rewrite Eb in Ht. injection Ht as <- <-. left. split_and!; [done..|left; apply Hb].
  - left. apply (tried_error_turn []) in Ht as [-> ->]; [|done]. split_and!; [done..|right; by eexists].
  - injection Ht as <- <-. left. split_and!; [done..|left; apply Hw].
Qed.

(** What was done for an accepted request. *)
Lemma apply_runs v q s s' :
  apply_setup_request v q s = (Ok tt, s') ->
  exists tarball st, resolve_rootfs_source (rootfs q) = Ok tarball /\
    Setup.setup_and_prepare own_pid alternate tarball (setup s) = (Ok tt, st) /\
    setup s' = snd (Setup.runtime_status (snd (Setup.detect_state st))).
Proof.
  unfold apply_setup_request. rewrite (M_bind_Ok mget _ s s s) by done. intros H.
  apply M_bind_inv in H as ([] & s1 & [= _ <-] & H).
  apply M_bind_inv in H as (tarball & s1 & [= Ht <-] & H).
  apply M_bind_inv in H as ([] & s1 & [= _ <-] & H).
  apply M_bind_inv in H as ([] & s1 & Hp & H). unfold with_setup in Hp.
  destruct (Setup.setup_and_prepare own_pid alternate tarball (setup s)) as [r st] eqn:E.
  injection Hp as -> <-. exists tarball, st. split; [done|]. split; [done|].
  apply M_bind_inv in H as (state' & s1 & Hd & H). unfold with_setup in Hd. cbn [setup] in Hd.
  destruct (Setup.detect_state st) as [r st1]. injection Hd as -> <-.
  apply M_bind_inv in H as ([] & s1 & [= <-] & H).
  apply M_bind_inv in H as (rs & s1 & Hr & [= <-]). unfold with_setup in Hr. cbn [setup set_vm_state] in Hr.
  cbn [snd]. destruct (Setup.runtime_status st1) as [r st2]. by injection Hr as -> <-.
Qed.

(** The answer to the setup request: success exactly when it says so. *)
Lemma setup_turn tm v m p s r s1 :
  Wire [CMAttestation p] s -> control_turn tm (AwaitSetupRequest v) m s = (r, s1) ->
  ((forall ph, r <> Ok (Continue ph)) /\ r <> Ok (Return true) /\
     (InitServer.sent s1 = [CMAttestation p] \/ exists e, InitServer.sent s1 = [CMAttestation p; CMError e])) \/
  exists q, m = Ok (CMSetupRequest q) /\ r = Ok (Return true) /\
    InitServer.sent s1 = [CMAttestation p; CMSetupComplete] /\
    exists s0, apply_setup_request v q s = (Ok tt, s0) /\ setup s1 = setup s0.
Proof.
  intros Hw Ht. unfold control_turn, send_error in Ht. destruct m as [m|e|].
  - destruct m as [| |q| |]; try (left; apply (error_turn [CMAttestation p]) in Ht as [-> ->]; [|done];
      split_and!; [done..|right; by eexists]).
    pose proof (wire_apply [CMAttestation p] v q s Hw) as Ha.
    destruct (apply_setup_request v q s) as [[[]|e|] s0] eqn:Ea; cbn in Ha;
      unfold mbind at 1, M_bind, mbind_st, mtry in Ht; rewrite Ea in Ht.
    + destruct (write_message_wire CMSetupComplete _ s0 Ha) as (s' & E & Hw').
      unfold mbind, M_bind, mbind_st in Ht. rewrite E in Ht. injection Ht as <- <-. right. exists q.
      split_and!; [done..|apply Hw'|]. apply write_message_setup in E. eauto.
    + left. apply (error_turn [CMAttestation p]) in Ht as [-> ->]; [|done]. split_and!; [done..|right; by eexists].
    + injection Ht as <- <-. left. split_and!; [done..|left; apply Ha].
  - left. apply (tried_error_turn [CMAttestation p]) in Ht as [-> ->]; [|done]. split_and!; [done..|right; by eexists].
  - injection Ht as <- <-. left. split_and!; [done..|left; apply Hw].
Qed.

Lemma server_end tm reads s r s' :
  Wire [] s -> handle_control_stream tm AwaitAttestation reads s = (r, s') ->
  (r <> Some (Ok true) /\ forall p ms, InitServer.sent s' <> CMAttestation p :: CMSetupComplete :: ms) \/
  exists p q rest s0,
    reads = Ok CMRequestAttestation :: Ok (CMSetupRequest q) :: rest /\ r = Some (Ok true) /\
    InitServer.sent s' = [CMAttestation p; CMSetupComplete] /\
    build_attestation tm s = (Ok p, s0) /\ InitServer.access_token s = Some (Protocol.access_token q) /\
    exists tarball st, resolve_rootfs_source (rootfs q) = Ok tarball /\
      Setup.setup_and_prepare own_pid alternate tarball (setup s0) = (Ok tt, st) /\
      setup s' = snd (Setup.runtime_status (snd (Setup.detect_state st))).
Proof.
  intros Hw Hc. destruct reads as [|m reads]; cbn in Hc.
  { injection Hc as <- <-. left. split; [done|]. intros p ms. by rewrite (proj1 Hw). }
  destruct (control_turn tm AwaitAttestation m s) as [r1 s1] eqn:E1.
  destruct (attest_turn tm m s r1 s1 Hw E1) as [(Hc1 & Hr1 & Hx1)|(p & s0 & -> & Hb & -> & Hw1 & Hset)].
  { left. assert (Hs1 : forall p ms, InitServer.sent s1 <> CMAttestation p :: CMSetupComplete :: ms)
      by (intros p ms; destruct Hx1 as [->|[e ->]]; done).
    destruct r1 as [[ph|b]|e|]; [by destruct (Hc1 ph)|..]; injection Hc as <- <-; (split; [|done]); congruence. }
  destruct reads as [|m2 reads]; cbn in Hc.
  { injection Hc as <- <-. left. split; [done|]. intros p' ms. by rewrite (proj1 Hw1). }
  destruct (control_turn tm _ m2 s1) as [r2 s2] eqn:E2.
  destruct (setup_turn tm _ m2 p s1 r2 s2 Hw1 E2) as [(Hc2 & Hr2 & Hx2)|(q & -> & -> & Hx2 & s3 & Ha & Hset2)].
  { left. assert (Hs2 : forall p ms, InitServer.sent s2 <> CMAttestation p :: CMSetupComplete :: ms)
      by (intros p' ms; destruct Hx2 as [->|[e ->]]; done).
    destruct r2 as [[ph|b]|e|]; [by destruct (Hc2 ph)|..]; injection Hc as <- <-; (split; [|done]); congruence. }
  injection Hc as <- <-. right. exists p, q, reads, s0.
  assert (Hrun := Ha). apply apply_runs in Hrun as (tarball & st & Htb & Hsp & Hst). rewrite Hset in Hsp.
  split_and!; try done; [|exists tarball, st; rewrite Hset2; done].
  apply apply_token in Ha. pose proof (token_build (InitServer.access_token s) tm s eq_refl) as Ht.
  rewrite Hb in Ht. unfold Token in Ht. cbn in Ht.
  pose proof (token_turn (InitServer.access_token s) tm AwaitAttestation (Ok CMRequestAttestation) s eq_refl) as Ht1.
  rewrite E1 in Ht1. unfold Token in Ht1. cbn in Ht1. congruence.
Qed.
End server.

(** ** Both ends *)

Section handshake.
Context `{JS : Json} `{JW : Jwt} `{HO : Host} `{TG : Setup.TarGz}.

(** C3: The two ends of a handshake agree.  When each reads what the other wrote
    and they export the same keying material, the client is connected exactly when
    the machine authenticated the connection; and then both have the same access
    token, the attestation the client checked is the one the machine built, with a
    JWT issued for the audience the client expects, and what the machine set up is the
    root file system that resolves from the source the client chose for the attested
    state. *)
Theorem handshake_agreement tm a fp cl rcl cl' (srv : Srv) rsrv srv' :
  sent cl = [] -> write_faults cl = [] -> InitServer.sent srv = [] -> InitServer.write_errors srv = [] ->
  keying_material a = InitServer.export_keying_material CHANNEL_BINDING_LABEL ->
  connect_attested InitServer.hex_encode InitServer.debug a fp
    (set_inbox (map Ok (InitServer.sent srv')) cl) = (rcl, cl') ->
  InitServer.handle_control_stream tm InitServer.AwaitAttestation (map Ok (sent cl')) srv = (rsrv, srv') ->
  (rcl = Ok tt <-> rsrv = Some (Ok true)) /\
  (rcl = Ok tt -> exists p q aud s0,
     sent cl' = [CMRequestAttestation; CMSetupRequest q] /\
     InitServer.sent srv' = [CMAttestation p; CMSetupComplete] /\
     cfg_access_token (cfg a) = Some (access_token q) /\ InitServer.access_token srv = Some (access_token q) /\
     InitServer.build_attestation tm srv = (Ok p, s0) /\ protocol_version p = PROTOCOL_VERSION /\
     export_attestation_audience InitServer.hex_encode a = Ok aud /\
     (if tm then jwt p = "test-mode-jwt:" +:+ aud else InitServer.fetch_oidc_token aud = Ok (jwt p)) /\
     provisioning_source a (state p) (reprovision a) = Ok (rootfs q) /\
     exists tarball st, InitServer.resolve_rootfs_source (rootfs q) = Ok tarball /\
       Setup.setup_and_prepare InitServer.own_pid InitServer.alternate tarball (InitServer.setup s0) = (Ok tt, st) /\
       InitServer.setup srv' = snd (Setup.runtime_status (snd (Setup.detect_state st)))).
Proof.
  intros Hx Hw Hxs Hws Hkey Hc Hs.
  assert (Hs0 : Wire [] srv) by done.
  set (cl0 := set_inbox _ cl) in Hc.
  assert (Hc0 : Net [] (inbox cl0) cl0) by done.
  destruct (client_end _ _ a fp cl0 rcl cl' Hc0 Hc) as
    [(Hr & Hsent)|(p & q & rest & aud & Hib & Hsent & Hpv & Htok & Hsrc & Haud & Hr)];
  destruct (server_end tm _ srv rsrv srv' Hs0 Hs) as
    [(Hrs & Hout)|(p' & q' & rest' & s0 & Hreads & Hrs & Hout & Hb & Htoks & Hset)].
  - split; [done|]. by intros ->.
  - exfalso. by destruct Hsent as [E|E]; rewrite E in Hreads.
  - assert (Hno : rcl <> Ok tt).
    { rewrite Hr. intros (rest' & ->). unfold cl0 in Hib. cbn in Hib.
      destruct (InitServer.sent srv') as [|m1 [|m2 ms]] eqn:Em; try done. injection Hib as -> -> _.
      by apply (Hout p ms). }
    split; [done|]. by intros ->.
  - unfold cl0 in Hib. cbn in Hib. rewrite Hout in Hib. injection Hib as <- <-.
    rewrite Hsent in Hreads. injection Hreads as <- <-.
    split; [split; [done|by rewrite Hr; eauto]|]. intros _.
    assert (Hjwt : if tm then jwt p' = "test-mode-jwt:" +:+ aud else InitServer.fetch_oidc_token aud = Ok (jwt p')).
    { destruct (InitServer.attestation_is_bound_to_the_connection tm srv p' s0 Hb) as (_ & _ & ekm & Hekm & Hj).
      unfold export_attestation_audience in Haud. rewrite Hkey, Hekm in Haud. cbn in Haud. injection Haud as <-. exact Hj. }
    exists p', q, aud, s0. by split_and!.
Qed.
End handshake.

(** ** Witness *)

#[local] Existing Instance demo_json.
#[local] Existing Instance demo_jwt.
#[local] Existing Instance InitServer.demo_host.
#[local] Existing Instance Setup.one_file_targz.

Definition hs_attempt : Attempt :=
  mkAttempt (mkVaultConfig "vault:8443" "my-org" "my-app" None [] (Some "/root.tar") None (Some "secret")) false
    (Ok tt) (Ok tt) (Ok tt) (Ok tt) (Some (Some [[x61]])) (Some (as_bytes "k"))
    (Some ["home"; ".cache"]) (Ok tt) (Ok tt)
    (mkOidc (fun _ => Ok "jwks") (fun _ => Ok "https://oidc.fly.io/my-org"))
    (Ok 1000) "1" (fun _ d => d) None (fun _ => Ok []) (fun _ => anyhow "relative URL") [] [] [].

Definition hs_request : SetupRequest := mkSetupRequest "secret" (RootfsInline []).
Definition hs_client : Cl := start ∅ hs_attempt.
Definition hs_server : Srv := InitServer.demo_srv Setup.demo_persist.

Definition hs_server_run : option (Res bool) * Srv :=
  InitServer.handle_control_stream false InitServer.AwaitAttestation
    (map Ok [CMRequestAttestation; CMSetupRequest hs_request]) hs_server.

Definition hs_client_run : Res unit * Cl :=
  connect_attested InitServer.hex_encode InitServer.debug hs_attempt "a"
    (set_inbox (map Ok (InitServer.sent (snd hs_server_run))) hs_client).

Lemma handshake_agreement_witness :
  fst hs_client_run = Ok tt /\ fst hs_server_run = Some (Ok true) /\
  exists p, InitServer.fetch_oidc_token "6b" = Ok (jwt p).
Proof.
  destruct (handshake_agreement false hs_attempt "a" hs_client (fst hs_client_run) (snd hs_client_run)
    hs_server (fst hs_server_run) (snd hs_server_run)) as [Hi Ha];
    [reflexivity|reflexivity|reflexivity|reflexivity|reflexivity|unfold hs_client_run; by destruct connect_attested| |].
  - assert (E : sent (snd hs_client_run) = [CMRequestAttestation; CMSetupRequest hs_request]) by (vm_compute; reflexivity).
    rewrite E. unfold hs_server_run. by destruct InitServer.handle_control_stream.
  - assert (Hc : fst hs_client_run = Ok tt) by (vm_compute; reflexivity).
    split; [exact Hc|]. split; [by apply Hi|].
    destruct (Ha Hc) as (p & q & aud & s0 & _ & _ & _ & _ & _ & _ & Haud & Hj & _).
    exists p. vm_compute in Haud. injection Haud as <-. exact Hj.
Defined.
