(* ===== verification/Reconnect.v ===== *)
(** * The client's shared connection ([crates/client/src/quic.rs], lines 31-287)

    [ReconnectableConnection]: one connection shared by the console, the exec
    sessions, the forwards and the control socket.  Each call of [connect] is a
    task; the tasks interleave at the points where they hold no lock, each is
    resumed by its own answer of [connect_ready], and a caller may drop the
    future at any of them.  [notify_waiters] wakes the tasks that are already
    registered, and only those. *)

From S2P Require Import Prelude Protocol ConsoleClient.

Record ConnectionLease := mkLease { conn : nat; generation : nat }.

#[export] Instance ConnectionLease_eq_dec : EqDecision ConnectionLease.
Proof. solve_decision. Defined.

Record ReconnectState := mkReconnect {
  current : option ConnectionLease;
  next_generation : nat;
  connected_once : bool;
  reconnecting : bool;
  reprovision : bool;
}.

(** [ReconnectableConnection::new]. *)
Definition new_connection (reprovision : bool) : ReconnectState :=
  mkReconnect None 0 false false reprovision.

(** Where a call of [connect] is: before the lock at the top of the loop; between
    releasing it and creating the [Notified] future; registered; awaiting
    [connect_ready]; before the lock after its answer; before [notify_waiters];
    asleep; returned; dropped. *)
Inductive Pc :=
| Lock
| Unlocked
| Waiting
| Connecting (once reprovision : bool)
| Connected (c : nat)
| Failed (once : bool) (e : Error)
| NotifyConnected (l : ConnectionLease)
| NotifyFailed (once : bool) (e : Error)
| Sleeping
| Returned (r : Res ConnectionLease)
| Dropped.

Record Sys := mkSys { rstate : ReconnectState; calls : list Pc }.

(** [notify_waiters]. *)
Definition wake (pc : Pc) : Pc := match pc with Waiting => Lock | pc => pc end.

(** One step of a call: where it goes, the state, and whether it notifies. *)
Definition connect_step (answer : option (Res nat)) (pc : Pc) (st : ReconnectState) :
    option (Pc * ReconnectState * bool) :=
  match pc, answer with
  | Lock, None =>
      match current st with
      | Some lease => Some (Returned (Ok lease), st, false)
      | None =>
          if reconnecting st then Some (Unlocked, st, false)
          else Some (Connecting (connected_once st) (reprovision st),
                 mkReconnect None (next_generation st) (connected_once st) true (reprovision st), false)
      end
  | Unlocked, None => Some (Waiting, st, false)
  | Connecting once _, Some (Ok c) => Some (Connected c, st, false)
  | Connecting once _, Some (Err e) => Some (Failed once e, st, false)
  | Connected c, None =>
      let lease := mkLease c (next_generation st) in
      Some (NotifyConnected lease,
        mkReconnect (Some lease) (S (next_generation st)) true false false, false)
  | NotifyConnected lease, None => Some (Returned (Ok lease), st, true)
  | Failed once e, None =>
      Some (NotifyFailed once e,
        mkReconnect (current st) (next_generation st) (connected_once st) false (reprovision st), false)
  | NotifyFailed once e, None =>
      Some (if once && is_reconnectable_transport e then Sleeping else Returned (Err e), st, true)
  | Sleeping, None => Some (Lock, st, false)
  | _, _ => None
  end.

(** [invalidate], which notifies under the lock. *)
Definition invalidate (g : nat) (s : Sys) : Sys :=
  let st := rstate s in
  match current st with
  | Some lease =>
      if (generation lease =? g)%nat then
        mkSys (mkReconnect None (next_generation st) (connected_once st) (reconnecting st) (reprovision st))
          (map wake (calls s))
      else s
  | None => s
  end.

(** A future can only be dropped where it awaits. *)
Definition awaits (pc : Pc) : bool :=
  match pc with
  | Lock | Waiting | Connecting _ _ | Connected _ | Failed _ _ | Sleeping => true
  | _ => false
  end.

Inductive sys_step (drops : bool) : Sys -> Sys -> Prop :=
| sys_call s : sys_step drops s (mkSys (rstate s) (calls s ++ [Lock]))
| sys_move s i pc answer pc' st (n : bool) :
    calls s !! i = Some pc -> connect_step answer pc (rstate s) = Some (pc', st, n) ->
    sys_step drops s (mkSys st (if n then map wake (<[i := pc']> (calls s)) else <[i := pc']> (calls s)))
| sys_invalidate s i lease :
    calls s !! i = Some (Returned (Ok lease)) -> sys_step drops s (invalidate (generation lease) s)
| sys_drop s i pc :
    drops = true -> calls s !! i = Some pc -> awaits pc = true ->
    sys_step drops s (mkSys (rstate s) (<[i := Dropped]> (calls s))).

Inductive sys_steps (drops : bool) (s : Sys) : Sys -> Prop :=
| steps_refl : sys_steps drops s s
| steps_more t u : sys_steps drops s t -> sys_step drops t u -> sys_steps drops s u.

Definition sys_start (reprovision : bool) : Sys := mkSys (new_connection reprovision) [].

(** ** Sessions over the shared connection *)

(** The turns of a reconnecting loop: what [connect] gave and how the session ran
    on it.  The second component is the sessions run, the third the generations
    invalidated; [None] when the turns ran out. *)
Fixpoint run_exec_with_reconnect
    (turns : list (Res ConnectionLease * (ExecSessionRequest -> Res ConsoleSessionProgress)))
    (request : ExecSessionRequest) : option (Res Z) * list ExecSessionRequest * list nat :=
  match turns with
  | [] => (None, [], [])
  | (connected, run_exec) :: turns =>
      match connected with
      | Ok lease =>
          match run_exec request with
          | Ok progress =>
              match outcome progress with
              | Exited exit_code => (Some (Ok exit_code), [request], [])
              | Disconnected =>
                  let '(r, runs, gone) := run_exec_with_reconnect turns
                    (mkExecRequest (req_session_id request) (req_argv request) (req_context request)
                       (ConsoleClient.rendered_bytes progress)) in
                  (r, request :: runs, generation lease :: gone)
              end
          | Err e => (Some (Err e), [request], [])
          | Panic => (Some Panic, [request], [])
          end
      | Err e => (Some (Err e), [], [])
      | Panic => (Some Panic, [], [])
      end
  end.

Fixpoint run_console_with_reconnect
    (turns : list (Res ConnectionLease * (Z -> Res ConsoleSessionProgress))) (rendered_bytes : Z) :
    option (Res unit) * list Z * list nat :=
  match turns with
  | [] => (None, [], [])
  | (connected, run_console) :: turns =>
      match connected with
      | Ok lease =>
          match run_console rendered_bytes with
          | Ok progress =>
              match outcome progress with
              | Exited _ => (Some (Ok tt), [rendered_bytes], [])
              | Disconnected =>
                  let '(r, runs, gone) :=
                    run_console_with_reconnect turns (ConsoleClient.rendered_bytes progress) in
                  (r, rendered_bytes :: runs, generation lease :: gone)
              end
          | Err e => (Some (Err e), [rendered_bytes], [])
          | Panic => (Some Panic, [rendered_bytes], [])
          end
      | Err e => (Some (Err e), [], [])
      | Panic => (Some Panic, [], [])
      end
  end.

(** ** Invariants *)

(** Between setting [reconnecting] and clearing it. *)
Definition attempting (pc : Pc) : bool :=
  match pc with Connecting _ _ | Connected _ | Failed _ _ => true | _ => false end.

(** The lease a call holds. *)
Definition lease_of (pc : Pc) : option ConnectionLease :=
  match pc with NotifyConnected l | Returned (Ok l) => Some l | _ => None end.

(** Every lease that was given out. *)
Definition known (s : Sys) (l : ConnectionLease) : Prop :=
  current (rstate s) = Some l \/ exists i pc, calls s !! i = Some pc /\ lease_of pc = Some l.

Record SysOk (s : Sys) : Prop := {
  so_one : forall i j p q, calls s !! i = Some p -> calls s !! j = Some q ->
    attempting p = true -> attempting q = true -> i = j;
  so_flag : forall i p, calls s !! i = Some p -> attempting p = true -> reconnecting (rstate s) = true;
  so_none : reconnecting (rstate s) = true -> current (rstate s) = None;
  so_first : forall i once rp, calls s !! i = Some (Connecting once rp) ->
    once = connected_once (rstate s) /\ rp = reprovision (rstate s);
  so_once : connected_once (rstate s) = true <-> (0 < next_generation (rstate s))%nat;
  so_rep : connected_once (rstate s) = true -> reprovision (rstate s) = false;
  so_gen : forall l, known s l -> (generation l < next_generation (rstate s))%nat;
  so_lease : forall l l', known s l -> known s l' -> generation l = generation l' -> l = l';
}.

Lemma lookup_wake (l : list Pc) i p :
  map wake l !! i = Some p -> exists q, l !! i = Some q /\ p = wake q.
Proof. intros Hp. change (map wake l) with (wake <$> l) in Hp. rewrite list_lookup_fmap in Hp.
  destruct (l !! i) as [q|]; [|done]. injection Hp as <-. eauto. Qed.

(** Waking tasks changes nothing the invariant looks at. *)
Lemma wake_ok st cs : SysOk (mkSys st cs) -> SysOk (mkSys st (map wake cs)).
Proof.
  assert (Ha : forall p, attempting (wake p) = attempting p) by (by intros []).
  assert (Hl : forall p, lease_of (wake p) = lease_of p) by (by intros []).
  assert (Hk : forall l, known (mkSys st (map wake cs)) l -> known (mkSys st cs) l).
  { intros l [Hc|(i & p & (q & Hq & ->)%lookup_wake & Hp)]; [by left|]. right. rewrite Hl in Hp. eauto. }
  intros []. split; try done; cbn in *.
  - intros i j p q (p' & Hp & ->)%lookup_wake (q' & Hq & ->)%lookup_wake. rewrite !Ha. eauto.
  - intros i p (p' & Hp & ->)%lookup_wake. rewrite Ha. eauto.
  - intros i once rp (p' & Hp & E)%lookup_wake. destruct p'; try done. injection E as <- <-. eauto.
  - eauto.
  - eauto 6.
Qed.

(** A call that moves without taking part in an attempt. *)
Lemma move_ok st cs i p q :
  SysOk (mkSys st cs) -> cs !! i = Some p -> attempting q = false ->
  (forall l, lease_of q = Some l -> known (mkSys st cs) l) -> SysOk (mkSys st (<[i := q]> cs)).
Proof.
  intros [] Hi Hq Hl. cbn in *.
  assert (Hin : forall j r, <[i := q]> cs !! j = Some r -> (j = i /\ r = q) \/ cs !! j = Some r).
  { intros j r Hr. apply list_lookup_insert_Some in Hr as [(<- & <- & _)|[_ Hr]]; auto. }
  assert (Hk : forall l, known (mkSys st (<[i := q]> cs)) l -> known (mkSys st cs) l).
  { intros l [Hc|(j & r & Hr & Hlr)]; [by left|]. cbn in Hr.
    destruct (Hin _ _ Hr) as [[-> ->]|Hj]; [auto|]. right. eauto. }
  split; cbn; try done.
  - intros j k r r' Hr Hr' Ha Ha'. destruct (Hin _ _ Hr) as [[-> ->]|Hj]; [congruence|].
    destruct (Hin _ _ Hr') as [[-> ->]|Hj']; [congruence|]. eauto.
  - intros j r Hr Ha. destruct (Hin _ _ Hr) as [[-> ->]|Hj]; [congruence|]. eauto.
  - intros j once rp Hr. destruct (Hin _ _ Hr) as [[-> <-]|Hj]; [done|]. eauto.
  - eauto.
  - eauto 6.
Qed.

(** The call of the only attempt moves, and the state with it. *)
Lemma attempt_ok st st' cs i q :
  SysOk (mkSys st cs) ->
  (forall j r, cs !! j = Some r -> attempting r = true -> j = i) ->
  (attempting q = true -> reconnecting st' = true) ->
  (reconnecting st' = true -> current st' = None) ->
  (forall once rp, q = Connecting once rp -> once = connected_once st' /\ rp = reprovision st') ->
  (connected_once st' = true <-> (0 < next_generation st')%nat) ->
  (connected_once st' = true -> reprovision st' = false) ->
  (next_generation st <= next_generation st')%nat ->
  (forall l, current st' = Some l \/ lease_of q = Some l ->
     known (mkSys st cs) l \/
     l = mkLease (conn l) (next_generation st) /\ (next_generation st < next_generation st')%nat /\
     forall l', current st' = Some l' \/ lease_of q = Some l' -> l' = l) ->
  SysOk (mkSys st' (<[i := q]> cs)).
Proof.
  intros HS Hone Hq Hnone Hconn Honce Hrep Hle Hl. pose proof HS as []. cbn in *.
  assert (Hin : forall j r, <[i := q]> cs !! j = Some r -> (j = i /\ r = q) \/ cs !! j = Some r).
  { intros j r Hr. apply list_lookup_insert_Some in Hr as [(<- & <- & _)|[_ Hr]]; auto. }
  assert (Hk : forall l, known (mkSys st' (<[i := q]> cs)) l ->
    known (mkSys st cs) l \/ (current st' = Some l \/ lease_of q = Some l)).
  { intros l [Hc|(j & r & Hr & Hlr)]; [auto|]. cbn in Hr.
    destruct (Hin _ _ Hr) as [[-> ->]|Hj]; [auto|]. left. right. eauto. }
  assert (Hk' : forall l, known (mkSys st' (<[i := q]> cs)) l -> known (mkSys st cs) l \/
    l = mkLease (conn l) (next_generation st) /\ (next_generation st < next_generation st')%nat /\
    forall l', current st' = Some l' \/ lease_of q = Some l' -> l' = l)
    by (intros l Hn; apply Hk in Hn as [|Hn]; auto).
  split; cbn; try done.
  - intros j k r r' Hr Hr' Ha Ha'.
    destruct (Hin _ _ Hr) as [[-> _]|Hj], (Hin _ _ Hr') as [[-> _]|Hj']; [done|..].
    + symmetry. eauto.
    + eauto.
    + transitivity i; [eauto|symmetry; eauto].
  - intros j r Hr Ha. destruct (Hin _ _ Hr) as [[-> ->]|Hj]; [auto|].
    destruct (Hone _ _ Hj Ha). rewrite list_lookup_insert_eq in Hr by (eapply lookup_lt_Some; exact Hj).
    injection Hr as <-. auto.
  - intros j once rp Hr. destruct (Hin _ _ Hr) as [[-> E]|Hj]; [auto|].
    pose proof (Hone _ _ Hj eq_refl) as ->.
    rewrite list_lookup_insert_eq in Hr by (eapply lookup_lt_Some; exact Hj). injection Hr as Hr. auto.
  - intros l Hn. apply Hk' in Hn as [Hn|(E & Hlt & _)]; [apply so_gen0 in Hn; lia|].
    rewrite E. cbn. lia.
  - intros l l' Hn Hn' E.
    destruct (Hk' _ Hn) as [Ho|(El & Hlt & Hu)], (Hk' _ Hn') as [Ho'|(El' & _ & Hu')]; [eauto|..].
    + apply so_gen0 in Ho. rewrite E, El' in Ho. cbn in Ho. lia.
    + apply so_gen0 in Ho'. rewrite <- E, El in Ho'. cbn in Ho'. lia.
    + apply Hk in Hn' as [Hn'|Hn']; [|symmetry; by apply Hu].
      apply so_gen0 in Hn'. rewrite <- E, El in Hn'. cbn in Hn'. lia.
Qed.

(** What two moves of the same state have in common. *)
Lemma no_other st cs i p :
  SysOk (mkSys st cs) -> cs !! i = Some p -> attempting p = true \/ reconnecting st = false ->
  forall j r, cs !! j = Some r -> attempting r = true -> j = i.
Proof.
  intros [] Hi Hor j r Hj Ha. cbn in *. destruct Hor as [Hp|Hf]; [eauto|].
  pose proof (so_flag0 _ _ Hj Ha). congruence.
Qed.

Lemma connect_step_ok st cs i p answer q st' n :
  SysOk (mkSys st cs) -> cs !! i = Some p -> connect_step answer p st = Some (q, st', n) ->
  SysOk (mkSys st' (<[i := q]> cs)).
Proof.
  intros HS Hi Hs. pose proof (no_other st cs i p HS Hi) as Hno. pose proof HS as []. cbn in *.
  assert (Hcur : forall l, current st = Some l -> known (mkSys st cs) l) by (intros l Hc; by left).
  destruct p, answer as [[c0|e0|]|]; cbn in Hs; try done.
  - destruct (current st) as [l|] eqn:Ec.
    { injection Hs as <- <- _. eapply move_ok; [done..|]. intros l' [= <-]. auto. }
    destruct (reconnecting st) eqn:Er.
    { injection Hs as <- <- _. by eapply move_ok. }
    injection Hs as <- <- _. eapply attempt_ok; try done; eauto.
    + by intros once rp [= <- <-].
    + intros l [Hl|Hl]; done.
  - injection Hs as <- <- _. by eapply move_ok.
  - injection Hs as <- <- _. eapply attempt_ok; try done; eauto. intros l [Hl|Hl]; [auto|done].
  - injection Hs as <- <- _. eapply attempt_ok; try done; eauto. intros l [Hl|Hl]; [auto|done].
  - injection Hs as <- <- _. eapply attempt_ok; cbn; try done; eauto; [lia|].
    intros l [[= <-]|[= <-]]; right; cbn; (split; [done|]); (split; [lia|]); by intros l' [[= <-]|[= <-]].
  - injection Hs as <- <- _. eapply attempt_ok; cbn; try done; eauto. intros l' [Hl|Hl]; [auto|done].
  - injection Hs as <- <- _. eapply move_ok; [done..|]. intros l' [= <-]. right. by exists i, (NotifyConnected l).
  - injection Hs as <- <- _. eapply move_ok; [done..| |]; by destruct (once && is_reconnectable_transport e).
  - injection Hs as <- <- _. by eapply move_ok.
Qed.

Lemma sys_step_ok drops s t : SysOk s -> sys_step drops s t -> SysOk t.
Proof.
  intros HS. destruct s as [st cs]. inversion 1; subst; cbn in *.
  - pose proof HS as []. cbn in *.
    assert (Hin : forall j r, (cs ++ [Lock]) !! j = Some r -> r = Lock \/ cs !! j = Some r).
    { intros j r Hr. apply lookup_app_Some in Hr as [Hr|[_ Hr]]; [auto|].
      apply list_lookup_singleton_Some in Hr as [_ <-]. auto. }
    assert (Hk : forall l, known (mkSys st (cs ++ [Lock])) l -> known (mkSys st cs) l).
    { intros l [Hc|(j & r & Hr & Hlr)]; [by left|]. destruct (Hin _ _ Hr) as [->|Hj]; [done|]. right. eauto. }
    split; cbn; try done.
    + intros i j p q Hp Hq Ha Ha'.
      destruct (Hin _ _ Hp) as [->|Hp']; [done|]. destruct (Hin _ _ Hq) as [->|Hq']; [done|]. eauto.
    + intros i p Hp Ha. destruct (Hin _ _ Hp) as [->|Hp']; [done|]. eauto.
    + intros i once rp Hp. destruct (Hin _ _ Hp) as [|Hp']; [done|]. eauto.
    + eauto.
    + eauto.
  - match goal with H1 : connect_step _ _ _ = Some _ |- _ => eapply connect_step_ok in H1; [|done..] end.
    destruct n; [by apply wake_ok|done].
  - unfold invalidate. cbn. destruct (current st) as [l|] eqn:Ec; [|done].
    destruct (generation l =? generation lease)%nat; [|done]. apply wake_ok. pose proof HS as [].
    assert (Hk : forall l', known (mkSys (mkReconnect None (next_generation st) (connected_once st)
      (reconnecting st) (reprovision st)) cs) l' -> known (mkSys st cs) l')
      by (intros l' [Hc|Hc]; [done|by right]).
    split; cbn in *; eauto.
  - eapply move_ok; [done..|]. by intros l.
Qed.

Lemma sys_steps_ok drops rp s : sys_steps drops (sys_start rp) s -> SysOk s.
Proof.
  induction 1 as [|t u _ IH Hs]; [|by eapply sys_step_ok].
  assert (Hk : forall l, ~ known (sys_start rp) l)
    by (intros l [Hc|(i & p & Hp & _)]; [done|]; cbn in Hp; by rewrite lookup_nil in Hp).
  split; cbn; try done; intros *; rewrite ?lookup_nil; try done.
  - split; [done|lia].
  - intros Hl. by destruct (Hk _ Hl).
  - intros Hl. by destruct (Hk _ Hl).
Qed.

(** ** Properties *)

(** What the client was asked stays until an attempt succeeds. *)
Lemma asked_until_connected drops rp s :
  sys_steps drops (sys_start rp) s -> connected_once (rstate s) = false -> reprovision (rstate s) = rp.
Proof.
  induction 1 as [|t u _ IH Hs]; [done|]. intros Hc.
  destruct Hs as [t|t i pc answer pc' st n _ Hst|t i lease _|t i pc _ _ _]; cbn in *; auto.
  - destruct pc, answer as [[]|]; cbn in Hst; try done;
      try (destruct (current (rstate t)); [|destruct (reconnecting (rstate t))]);
      injection Hst as _ <- _; cbn in Hc |- *; auto; done.
  - revert Hc. unfold invalidate. destruct (current (rstate t)) as [l|]; [|auto].
    destruct (generation l =? generation lease)%nat; auto.
Qed.

(** C22: Whatever calls of [connect] and invalidations come, in any interleaving
    and with calls dropped, at most one call is connecting, it runs only while
    there is no current connection, and it asks the machine to be provisioned
    again exactly when the client was asked to and no attempt has succeeded yet. *)
Theorem one_connection_attempt_at_a_time drops rp s i p :
  sys_steps drops (sys_start rp) s -> calls s !! i = Some p -> attempting p = true ->
  current (rstate s) = None /\
  (forall j q, calls s !! j = Some q -> attempting q = true -> j = i) /\
  (forall once again, p = Connecting once again ->
     again = rp && (next_generation (rstate s) =? 0)%nat).
Proof.
  intros Hr Hi Ha. pose proof (asked_until_connected _ _ _ Hr) as Hask. apply sys_steps_ok in Hr as [].
  split; [eauto|]. split; [eauto|].
  intros once again ->. destruct (so_first0 _ _ _ Hi) as [_ ->].
  destruct (connected_once (rstate s)) eqn:Eo.
  - rewrite so_rep0 by done. assert (0 < next_generation (rstate s))%nat by (by apply so_once0).
    destruct (Nat.eqb_spec (next_generation (rstate s)) 0); [lia|]. by rewrite andb_false_r.
  - rewrite Hask by done. destruct (Nat.eqb_spec (next_generation (rstate s)) 0) as [|Hn]; [by rewrite andb_true_r|].
    assert (false = true) by (apply so_once0; lia). done.
Qed.

(** A caller that reports its connection lost removes the current connection
    only if it is the one it was given: a report about an earlier connection
    changes nothing. *)
Theorem stale_invalidation_is_ignored drops rp s i l :
  sys_steps drops (sys_start rp) s -> calls s !! i = Some (Returned (Ok l)) ->
  if decide (current (rstate s) = Some l)
  then current (rstate (invalidate (generation l) s)) = None
  else invalidate (generation l) s = s.
Proof.
  intros Hr Hi. apply sys_steps_ok in Hr as []. unfold invalidate. case_decide as Hc.
  - rewrite Hc, Nat.eqb_refl. done.
  - destruct (current (rstate s)) as [l'|] eqn:Ec; [|done].
    destruct (Nat.eqb_spec (generation l') (generation l)) as [E|]; [|done].
    destruct Hc. f_equal. apply so_lease0; [by left| |done]. right. by exists i, (Returned (Ok l)).
Qed.

(** The flag is set and no call will clear it. *)
Record Stuck (s : Sys) : Prop := {
  stuck_flag : reconnecting (rstate s) = true;
  stuck_none : current (rstate s) = None;
  stuck_calls : forall i p, calls s !! i = Some p -> attempting p = false;
}.

Lemma stuck_step drops s t :
  Stuck s -> sys_step drops s t -> Stuck t /\
  forall j l, lease_of <$> calls t !! j = Some (Some l) -> lease_of <$> calls s !! j = Some (Some l).
Proof.
  intros [Hf Hn Hc] Hs. destruct s as [st cs]. cbn in *.
  inversion Hs as [|? i p answer q st' n Hi Hst|? i lease Hi|? i p _ Hi Haw]; subst; cbn in *.
  - split; [split; try done|]; cbn.
    + intros j r Hr. apply lookup_app_Some in Hr as [Hr|[_ Hr]]; [eauto|].
      by apply list_lookup_singleton_Some in Hr as [_ <-].
    + intros j l Hj. apply fmap_Some in Hj as (r & Hr & E).
      apply lookup_app_Some in Hr as [Hr|[_ Hr]]; [by rewrite Hr, E|].
      apply list_lookup_singleton_Some in Hr as [_ <-]. done.
  - pose proof (Hc _ _ Hi) as Ha.
    assert (E : st' = st /\ attempting q = false /\ forall l, lease_of q = Some l -> lease_of p = Some l).
    { destruct p, answer as [[]|]; cbn in Hst, Ha; try done; rewrite ?Hn, ?Hf in Hst;
        injection Hst as <- <- _; try done; by destruct (once && is_reconnectable_transport e). }
    destruct E as (-> & Hq & Hl).
    assert (Hin : forall j r, <[i := q]> cs !! j = Some r -> (j = i /\ r = q) \/ cs !! j = Some r).
    { intros j r Hr. apply list_lookup_insert_Some in Hr as [(<- & <- & _)|[_ Hr]]; auto. }
    assert (Ht : forall j r, (if n then map wake (<[i := q]> cs) else <[i := q]> cs) !! j = Some r ->
      exists r', <[i := q]> cs !! j = Some r' /\ attempting r = attempting r' /\ lease_of r = lease_of r').
    { intros j r Hr. destruct n; [|eauto]. apply lookup_wake in Hr as (r' & Hr' & ->).
      exists r'. by destruct r'. }
    split; [split; try done|]; cbn.
    + intros j r (r' & Hr & -> & _)%Ht. destruct (Hin _ _ Hr) as [[_ ->]|]; eauto.
    + intros j l Hj. apply fmap_Some in Hj as (r & (r' & Hr & _ & El)%Ht & E).
      rewrite El in E. destruct (Hin _ _ Hr) as [[-> ->]|Hr']; [|by rewrite Hr', E].
      rewrite Hi. cbn. by rewrite (Hl l).
  - unfold invalidate. cbn. rewrite Hn. done.
  - assert (Hin : forall j r, <[i := Dropped]> cs !! j = Some r -> r = Dropped \/ cs !! j = Some r).
    { intros j r Hr. apply list_lookup_insert_Some in Hr as [(<- & <- & _)|[_ Hr]]; auto. }
    split; [split; try done|]; cbn.
    + intros j r Hr. destruct (Hin _ _ Hr) as [->|]; eauto.
    + intros j l Hj. apply fmap_Some in Hj as (r & Hr & E). destruct (Hin _ _ Hr) as [->|Hr']; [done|].
      by rewrite Hr', E.
Qed.

(** Dropping the call that is connecting, as an HTTP server does with the
    handler of a client that hangs up, leaves [reconnecting] set for ever:
    whatever happens
    afterwards there is no current connection, no call connects, and no call
    obtains a connection any more. *)
Theorem dropped_attempt_blocks_the_client drops rp s i p t :
  sys_steps drops (sys_start rp) s -> calls s !! i = Some p -> attempting p = true ->
  sys_steps true (mkSys (rstate s) (<[i := Dropped]> (calls s))) t ->
  current (rstate t) = None /\
  (forall j q, calls t !! j = Some q -> attempting q = false) /\
  (forall j l, calls t !! j = Some (Returned (Ok l)) -> lease_of <$> calls s !! j = Some (Some l)).
Proof.
  intros Hr Hi Ha Ht. pose proof (sys_steps_ok _ _ _ Hr) as [].
  assert (Hin : forall j r, <[i := Dropped]> (calls s) !! j = Some r ->
    r = Dropped \/ (j <> i /\ calls s !! j = Some r)).
  { intros j r Hj. apply list_lookup_insert_Some in Hj as [(<- & <- & _)|[Hn Hj]]; auto. }
  assert (H0 : Stuck (mkSys (rstate s) (<[i := Dropped]> (calls s)))).
  { split; cbn; [by eapply so_flag0|by eapply so_none0, so_flag0|].
    intros j r Hj. destruct (Hin _ _ Hj) as [->|[Hn Hj']]; [done|].
    destruct (attempting r) eqn:Er; [|done]. destruct Hn. eauto. }
  assert (Hl0 : forall j l, lease_of <$> <[i := Dropped]> (calls s) !! j = Some (Some l) ->
    lease_of <$> calls s !! j = Some (Some l)).
  { intros j l Hj. apply fmap_Some in Hj as (r & Hr' & E). destruct (Hin _ _ Hr') as [->|[_ Hj]]; [done|].
    by rewrite Hj, E. }
  assert (Hall : Stuck t /\ forall j l, lease_of <$> calls t !! j = Some (Some l) ->
    lease_of <$> calls s !! j = Some (Some l)).
  { induction Ht as [|t u _ [IH1 IH2] Hs]; [done|].
    destruct (stuck_step _ _ _ IH1 Hs) as [Hu Hl]. split; [done|]. eauto. }
  destruct Hall as [[_ Hn Hc] Hl]. split; [done|]. split; [done|].
  intros j l Hj. apply Hl. by rewrite Hj.
Qed.

(** ** Running a schedule *)

Inductive Op := OpCall | OpMove (i : nat) (answer : option (Res nat)) | OpInvalidate (i : nat).

Definition run_op (o : Op) (s : Sys) : option Sys :=
  match o with
  | OpCall => Some (mkSys (rstate s) (calls s ++ [Lock]))
  | OpMove i answer =>
      match calls s !! i with
      | Some pc =>
          match connect_step answer pc (rstate s) with
          | Some (pc', st, n) =>
              Some (mkSys st (if n then map wake (<[i := pc']> (calls s)) else <[i := pc']> (calls s)))
          | None => None
          end
      | None => None
      end
  | OpInvalidate i =>
      match calls s !! i with Some (Returned (Ok lease)) => Some (invalidate (generation lease) s) | _ => None end
  end.

Fixpoint run_ops (os : list Op) (s : Sys) : option Sys :=
  match os with [] => Some s | o :: os => run_op o s ≫= run_ops os end.

Lemma run_op_step drops o s t : run_op o s = Some t -> sys_step drops s t.
Proof.
  destruct o as [|i answer|i]; cbn.
  - intros [= <-]. apply sys_call.
  - destruct (calls s !! i) as [pc|] eqn:Ei; [|done].
    destruct (connect_step answer pc (rstate s)) as [[[pc' st] n]|] eqn:Es; [|done].
    intros [= <-]. by eapply sys_move.
  - destruct (calls s !! i) as [[]|] eqn:Ei; try done. destruct r; try done.
    intros [= <-]. by eapply sys_invalidate.
Qed.

Lemma run_ops_steps drops s0 os s t :
  sys_steps drops s0 s -> run_ops os s = Some t -> sys_steps drops s0 t.
Proof.
  revert s. induction os as [|o os IH]; intros s Hs Hr; [by injection Hr as <-|].
  cbn in Hr. apply bind_Some in Hr as (u & Hu & Hr). eapply IH; [|exact Hr].
  eapply steps_more; [exact Hs|by eapply run_op_step].
Qed.

(** A call that connects, from its first lock to its return. *)
Definition connects (i c : nat) : list Op :=
  [OpMove i None; OpMove i (Some (Ok c)); OpMove i None; OpMove i None].

(** A call can miss the notification of the attempt it waits for: it finds
    [reconnecting] set and releases the lock, the attempt succeeds and notifies,
    and only then does it register.  There is a current connection, and the call
    sleeps on until somebody loses it. *)
Theorem a_waiter_can_miss_the_connection :
  exists s l, sys_steps false (sys_start false) s /\
    calls s = [Returned (Ok l); Waiting] /\ current (rstate s) = Some l /\
    (forall i p answer, calls s !! i = Some p -> connect_step answer p (rstate s) = None) /\
    (forall t, sys_step false s t -> current (rstate t) = Some l -> calls t !! 1%nat = Some Waiting).
Proof.
  set (st := mkReconnect (Some (mkLease 7 0)) 1 true false false).
  exists (mkSys st [Returned (Ok (mkLease 7 0)); Waiting]), (mkLease 7 0).
  assert (Hmove : forall (i : nat) p answer, [Returned (Ok (mkLease 7 0)); Waiting] !! i = Some p ->
    connect_step answer p st = None).
  { intros [|[|i]] p [[]|]; cbn; try (by intros [= <-]); done. }
  split; [|split; [done|split; [done|split; [exact Hmove|]]]].
  - apply (run_ops_steps false _ [OpCall; OpCall; OpMove 0 None; OpMove 1 None; OpMove 0 (Some (Ok 7%nat));
      OpMove 0 None; OpMove 0 None; OpMove 1 None] (sys_start false)); [apply steps_refl|reflexivity].
  - intros t Ht Hc. inversion Ht as [|? i p answer q st' n Hi Hst|? i lease Hi|? i p Hd]; subst.
    + done.
    + cbn in Hi, Hst. by rewrite (Hmove i p answer Hi) in Hst.
    + destruct i as [|[|i]]; cbn in Hi; try done. injection Hi as <-. done.
    + done.
Qed.

(** ** Witnesses *)

Definition demo_connecting : Sys :=
  mkSys (mkReconnect None 0 false true true) [Connecting false true; Waiting].

Lemma demo_connecting_reachable drops : sys_steps drops (sys_start true) demo_connecting.
Proof.
  apply (run_ops_steps drops _ [OpCall; OpCall; OpMove 0 None; OpMove 1 None; OpMove 1 None] (sys_start true));
    [apply steps_refl|reflexivity].
Qed.

Lemma one_connection_attempt_at_a_time_witness :
  current (rstate demo_connecting) = None /\
  (forall j q, calls demo_connecting !! j = Some q -> attempting q = true -> j = 0%nat) /\
  true = true && (next_generation (rstate demo_connecting) =? 0)%nat.
Proof.
  destruct (one_connection_attempt_at_a_time false true demo_connecting 0 (Connecting false true)
    (demo_connecting_reachable false) eq_refl eq_refl) as (H1 & H2 & H3).
  split; [exact H1|]. split; [exact H2|]. exact (H3 false true eq_refl).
Defined.

(** The first connection was lost and a second one made; the first caller reports
    its loss again. *)
Definition demo_second : Sys :=
  mkSys (mkReconnect (Some (mkLease 8 1)) 2 true false false)
    [Returned (Ok (mkLease 7 0)); Returned (Ok (mkLease 8 1))].

Lemma demo_second_reachable : sys_steps false (sys_start false) demo_second.
Proof.
  apply (run_ops_steps false _ (OpCall :: connects 0 7 ++ OpInvalidate 0 :: OpCall :: connects 1 8)
    (sys_start false)); [apply steps_refl|reflexivity].
Qed.

Lemma stale_invalidation_is_ignored_witness : invalidate 0 demo_second = demo_second.
Proof.
  exact (stale_invalidation_is_ignored false false demo_second 0 (mkLease 7 0)
    demo_second_reachable eq_refl).
Defined.

Lemma dropped_attempt_blocks_the_client_witness :
  let t := mkSys (rstate demo_connecting) [Dropped; Waiting] in
  current (rstate t) = None /\ (forall j q, calls t !! j = Some q -> attempting q = false).
Proof.
  intros t. destruct (dropped_attempt_blocks_the_client true true demo_connecting 0 (Connecting false true) t
    (demo_connecting_reachable true) eq_refl eq_refl (steps_refl true t)) as (H1 & H2 & _).
  split; [exact H1|exact H2].
Defined.
