(* ===== verification/Forward.v ===== *)
(** * Port forwarding ([crates/client/src/{forward,control}.rs],
    [crates/init/src/forward.rs] lines 23-74 and 1137-1161)

    The forward specification, the target header one side writes and the other
    reads, the copying between a TCP socket and a QUIC stream that both sides do,
    and the forwards, exec sessions and listings of the local control socket.
    Sockets, JSON and HTTP framing are the environment. *)

From Stdlib Require Import Sorting.Sorted.
From stdpp Require Import numbers.
From S2P Require Import Prelude Protocol.

(** ** Specifications ([parse_forward]) *)

(** [str::split] on a one-byte separator. *)
Fixpoint split_bytes (sep : byte) (bs : list byte) : list (list byte) :=
  match bs with
  | [] => [[]]
  | b :: rest =>
      if bool_decide (b = sep) then [] :: split_bytes sep rest
      else match split_bytes sep rest with
           | part :: parts => (b :: part) :: parts
           | [] => [[b]]
           end
  end.

Fixpoint parse_digits (bs : list byte) (acc : Z) : option Z :=
  match bs with
  | [] => Some acc
  | b :: rest =>
      if between 48 57 b then
        let acc := acc * 10 + (b2z b - 48) in
        if acc <? U16 then parse_digits rest acc else None
      else None
  end.

(** [str::parse::<u16>]: an optional plus sign, then at least one digit. *)
Definition parse_u16 (bs : list byte) : Res Z :=
  let digits := match bs with b :: (_ :: _) as rest => if bool_decide (b = x2b) then rest else bs | _ => bs end in
  match digits with
  | [] => Err [ParseIntError]
  | _ => match parse_digits digits 0 with Some n => Ok n | None => Err [ParseIntError] end
  end.

Definition colon : byte := x3a.

Definition parse_forward (spec : string) : Res (Z * string) :=
  match split_bytes colon (as_bytes spec) with
  | [local; host; port] =>
      local_port ← with_context ("invalid local port in " +:+ spec) (parse_u16 local);
      target_port ← with_context ("invalid target port in " +:+ spec) (parse_u16 port);
      Ok (local_port, from_bytes_unchecked host +:+ ":" +:+ pretty target_port)
  | _ =>
      anyhow ("invalid --forward spec " +:+ spec +:+
              "; expected <local_port>:<target_host>:<target_port>")
  end.

(** ** The target header *)

(** What [bridge_one] writes before the data: the stream tag, the target, a zero. *)
Definition forward_header (target : string) : list byte :=
  z2b STREAM_PORT_FORWARD :: as_bytes target ++ [x00].

(** [read_target_addr]: one byte at a time; [ending] is how the stream ends when
    it has no more bytes.  The second component is what is left to read. *)
Fixpoint read_target_bytes (recv : list byte) (ending : Res unit) (bytes : list byte) :
    Res (list byte) * list byte :=
  match recv with
  | [] =>
      (match with_context "read target header byte" ending with
       | Ok _ => anyhow "unexpected EOF while reading target header"
       | Err e => Err e
       | Panic => Panic
       end, [])
  | one :: recv =>
      if bool_decide (one = x00) then (Ok bytes, recv)
      else
        let bytes := bytes ++ [one] in
        if 1024 <? len bytes then (anyhow "target address header too long", recv)
        else read_target_bytes recv ending bytes
  end.

Definition read_target_addr (recv : list byte) (ending : Res unit) : Res string * list byte :=
  let '(r, rest) := read_target_bytes recv ending [] in
  (bytes ← r; with_context "target address not utf-8" (from_utf8 bytes), rest).

(** ** Copying: [bridge_one] and [handle_port_forward_stream] *)

(** The context messages of the six calls. *)
Record BridgeTexts := mkTexts {
  read_tcp : string;
  write_quic : string;
  finish_quic : string;
  read_quic : string;
  write_tcp : string;
  shutdown_tcp : string;
}.

Definition client_texts : BridgeTexts :=
  mkTexts "read local tcp" "write quic data" "finish forward send" "read quic data" "write local tcp"
    "shutdown local write".

Definition server_texts : BridgeTexts :=
  mkTexts "read target tcp" "write quic send" "finish quic send" "read quic recv" "write target tcp"
    "shutdown target write".

(** A turn of one of the two loops that [select!] polls: what its read gave and
    what the write, or the end of the direction, then gave. *)
Inductive BridgeEvent :=
| TcpRead (read : Res (list byte)) (after : Res unit)
| QuicRead (read : Res (option (list byte))) (after : Res unit).

Record Bridge := mkBridge {
  to_quic : list byte;
  to_tcp : list byte;
  quic_finished : bool;
  tcp_shut : bool;
}.

Definition bridge_start : Bridge := mkBridge [] [] false false.

(** One turn: [Some] is the result of the direction that ended, which ends the
    whole bridge. *)
Definition bridge_turn (t : BridgeTexts) (e : BridgeEvent) (s : Bridge) : option (Res unit) * Bridge :=
  match e with
  | TcpRead read after =>
      match with_context (read_tcp t) read with
      | Ok [] =>
          (Some (with_context (finish_quic t) after), mkBridge (to_quic s) (to_tcp s) true (tcp_shut s))
      | Ok buf =>
          match with_context (write_quic t) after with
          | Ok _ => (None, mkBridge (to_quic s ++ buf) (to_tcp s) (quic_finished s) (tcp_shut s))
          | Err e => (Some (Err e), s)
          | Panic => (Some Panic, s)
          end
      | Err e => (Some (Err e), s)
      | Panic => (Some Panic, s)
      end
  | QuicRead read after =>
      match with_context (read_quic t) read with
      | Ok None | Ok (Some []) =>
          (Some (with_context (shutdown_tcp t) after), mkBridge (to_quic s) (to_tcp s) (quic_finished s) true)
      | Ok (Some buf) =>
          match with_context (write_tcp t) after with
          | Ok _ => (None, mkBridge (to_quic s) (to_tcp s ++ buf) (quic_finished s) (tcp_shut s))
          | Err e => (Some (Err e), s)
          | Panic => (Some Panic, s)
          end
      | Err e => (Some (Err e), s)
      | Panic => (Some Panic, s)
      end
  end.

(** The bridge over the turns that complete; [None] while both directions run. *)
Fixpoint bridge (t : BridgeTexts) (events : list BridgeEvent) (s : Bridge) : option (Res unit) * Bridge :=
  match events with
  | [] => (None, s)
  | e :: events =>
      match bridge_turn t e s with
      | (Some r, s) => (Some r, s)
      | (None, s) => bridge t events s
      end
  end.

(** ** The control socket ([control.rs]) *)

Record ForwardEntry := mkForward { target : string; task : nat }.

(** [tasks]: the accept loops spawned, and whether each still runs. *)
Record ControlState := mkControl {
  forwards : gmap Z ForwardEntry;
  tasks : list bool;
  execs : list ExecSessionRequest;
}.

Definition control_start : ControlState := mkControl ∅ [] [].

Inductive Response :=
| JsonForward (local_port : Z) (target : string)
| JsonForwards (list : list (Z * string))
| JsonSessions (list : list ExecSessionInfo)
| ExecStream (session_id : string)
| JsonError (status : Z) (message : string).

Definition BAD_REQUEST : Z := 400.
Definition NOT_FOUND : Z := 404.
Definition CONFLICT : Z := 409.
Definition BAD_GATEWAY : Z := 502.

Section control.
Context (show : Cause -> string).

(** A handler: the body as [collect] and the JSON parser gave it. *)
Definition with_body {A} (body : Res (Res A)) (s : ControlState)
    (f : A -> Res Response * ControlState) : Res Response * ControlState :=
  match with_context "read request body" body with
  | Ok (Ok a) => f a
  | Ok (Err err) => (Ok (JsonError BAD_REQUEST ("invalid json: " +:+ display_error show err)), s)
  | Ok Panic | Panic => (Panic, s)
  | Err e => (Err e, s)
  end.

Definition handle_create_forward (body : Res (Res string)) (bind : Z -> Res unit) (s : ControlState) :
    Res Response * ControlState :=
  with_body body s (fun spec =>
    match parse_forward spec with
    | Ok (local_port, target) =>
        match forwards s !! local_port with
        | Some _ =>
            (Ok (JsonError CONFLICT ("forward on port " +:+ pretty local_port +:+ " already exists")), s)
        | None =>
            match bind local_port with
            | Ok _ =>
                (Ok (JsonForward local_port target),
                 mkControl (<[local_port := mkForward target (length (tasks s))]> (forwards s))
                   (tasks s ++ [true]) (execs s))
            | Err err =>
                (Ok (JsonError BAD_REQUEST
                       ("bind local port " +:+ pretty local_port +:+ ": " +:+ display_error show err)), s)
            | Panic => (Panic, s)
            end
        end
    | Err err => (Ok (JsonError BAD_REQUEST (display_error show err)), s)
    | Panic => (Panic, s)
    end).

(** The map's iteration order is unspecified; [iter] is the one of this run. *)
Definition handle_list_forwards (iter : gmap Z ForwardEntry -> list (Z * ForwardEntry)) (s : ControlState) :
    Res Response * ControlState :=
  let list := (fun '(local_port, entry) => (local_port, target entry)) <$> iter (forwards s) in
  (Ok (JsonForwards (sort_by (fun a b => fst a <=? fst b) list)), s).

Definition handle_delete_forward (body : Res (Res Z)) (s : ControlState) : Res Response * ControlState :=
  with_body body s (fun local_port =>
    match forwards s !! local_port with
    | Some entry =>
        (Ok (JsonForward local_port (target entry)),
         mkControl (delete local_port (forwards s)) (<[task entry := false]> (tasks s)) (execs s))
    | None => (Ok (JsonError NOT_FOUND ("no forward on port " +:+ pretty local_port)), s)
    end).

(** The request of [POST /exec]; [fresh_id] is [generate_exec_session_id]. *)
Definition handle_exec (body : Res (Res (list string * option string * option string))) (fresh_id : string)
    (build_response : Res unit) (s : ControlState) : Res Response * ControlState :=
  with_body body s (fun '(command, session_id, context) =>
    match command with
    | [] => (Ok (JsonError BAD_REQUEST "command must not be empty"), s)
    | _ =>
        let session_id := default fresh_id session_id in
        let request := mkExecRequest session_id (Some command) context 0 in
        let s := mkControl (forwards s) (tasks s) (execs s ++ [request]) in
        (_ ← with_context "build exec response" build_response; Ok (ExecStream session_id), s)
    end).

(** [handle_list_exec]: the turns of its loop, what [connect] and the listing
    gave; the generations it invalidated come second. *)
Fixpoint handle_list_exec (reconnectable : Error -> bool)
    (turns : list (Res nat * Res (list ExecSessionInfo))) : option (Res Response) * list nat :=
  match turns with
  | [] => (None, [])
  | (connected, result) :: turns =>
      match connected with
      | Ok generation =>
          match result with
          | Ok list => (Some (Ok (JsonSessions list)), [])
          | Err err =>
              if reconnectable err then
                let '(r, gone) := handle_list_exec reconnectable turns in (r, generation :: gone)
              else (Some (Ok (JsonError BAD_GATEWAY (display_error show err))), [])
          | Panic => (Some Panic, [])
          end
      | Err err =>
          (Some (Ok (JsonError BAD_GATEWAY ("connect to machine: " +:+ display_error show err))), [])
      | Panic => (Some Panic, [])
      end
  end.

(** An accept loop that ended on its own. *)
Definition accept_failed (i : nat) (s : ControlState) : ControlState :=
  mkControl (forwards s) (<[i := false]> (tasks s)) (execs s).

(** ** Routing ([route]) *)

Inductive HttpMethod := GET | POST | DELETE | OtherMethod.

(** A request, and what the handlers get from outside: [serde_json::from_slice] at
    the three types, the socket, the fresh session identifier, the connection's
    answers to the listing and the order in which the map of forwards yields. *)
Record ControlRequest := mkControlRequest {
  method : HttpMethod;
  uri_path : string;
  collected : Res (list byte);
  parse_exec : list byte -> Res (list string * option string * option string);
  parse_create : list byte -> Res string;
  parse_delete : list byte -> Res Z;
  bind_local : Z -> Res unit;
  fresh_session_id : string;
  build_response : Res unit;
  reconnectable : Error -> bool;
  list_turns : list (Res nat * Res (list ExecSessionInfo));
  map_order : gmap Z ForwardEntry -> list (Z * ForwardEntry);
}.

Definition route (req : ControlRequest) (s : ControlState) : option (Res Response) * ControlState :=
  let now (x : Res Response * ControlState) := (Some (fst x), snd x) in
  match method req with
  | POST =>
      if bool_decide (uri_path req = "/exec") then
        now (handle_exec (parse_exec req <$> collected req) (fresh_session_id req) (build_response req) s)
      else if bool_decide (uri_path req = "/forwards") then
        now (handle_create_forward (parse_create req <$> collected req) (bind_local req) s)
      else now (Ok (JsonError NOT_FOUND "not found"), s)
  | GET =>
      if bool_decide (uri_path req = "/list-exec") then
        (fst (handle_list_exec (reconnectable req) (list_turns req)), s)
      else if bool_decide (uri_path req = "/forwards") then now (handle_list_forwards (map_order req) s)
      else now (Ok (JsonError NOT_FOUND "not found"), s)
  | DELETE =>
      if bool_decide (uri_path req = "/forwards") then
        now (handle_delete_forward (parse_delete req <$> collected req) s)
      else now (Ok (JsonError NOT_FOUND "not found"), s)
  | OtherMethod => now (Ok (JsonError NOT_FOUND "not found"), s)
  end.

Inductive control_step : ControlState -> ControlState -> Prop :=
| control_route s req : control_step s (snd (route req s))
| control_accept s i : control_step s (accept_failed i s).

Inductive control_reachable : ControlState -> Prop :=
| control_init : control_reachable control_start
| control_more s t : control_reachable s -> control_step s t -> control_reachable t.
End control.

(** ** Lemmas *)

Lemma read_target_bytes_ok target rest ending bytes :
  x00 ∉ target -> len bytes + len target <= 1024 ->
  read_target_bytes (target ++ x00 :: rest) ending bytes = (Ok (bytes ++ target), rest).
Proof.
  revert bytes. induction target as [|b target IH]; intros bytes Hn Hl; cbn [app read_target_bytes].
  - by rewrite bool_decide_true, app_nil_r.
  - apply not_elem_of_cons in Hn as [Hb Hn]. rewrite bool_decide_false by congruence.
    rewrite len_cons in Hl. pose proof (len_nonneg target).
    assert (Hlb : len (bytes ++ [b]) = len bytes + 1) by (rewrite len_app; done).
    destruct (Z.ltb_spec 1024 (len (bytes ++ [b]))); [lia|].
    rewrite IH by (done || lia). by rewrite <- app_assoc.
Qed.

Lemma read_target_bytes_long target rest ending bytes :
  x00 ∉ target -> len bytes <= 1024 -> 1024 < len bytes + len target ->
  fst (read_target_bytes (target ++ rest) ending bytes) = anyhow "target address header too long".
Proof.
  revert bytes. induction target as [|b target IH]; intros bytes Hn Hl Hg.
  - unfold len in *. cbn in *. lia.
  - cbn [app read_target_bytes].
    apply not_elem_of_cons in Hn as [Hb Hn]. rewrite bool_decide_false by congruence.
    rewrite len_cons in Hg. assert (Hlb : len (bytes ++ [b]) = len bytes + 1) by (rewrite len_app; done).
    destruct (Z.ltb_spec 1024 (len (bytes ++ [b]))); [done|]. apply IH; [done|lia|lia].
Qed.

(** The data of the turns, by direction. *)
Definition tcp_data (e : BridgeEvent) : list byte :=
  match e with TcpRead (Ok buf) _ => buf | _ => [] end.
Definition quic_data (e : BridgeEvent) : list byte :=
  match e with QuicRead (Ok (Some buf)) _ => buf | _ => [] end.

Lemma bridge_turn_copies t e s s' :
  bridge_turn t e s = (None, s') ->
  s' = mkBridge (to_quic s ++ tcp_data e) (to_tcp s ++ quic_data e) (quic_finished s) (tcp_shut s).
Proof.
  destruct e as [[[|b buf]|e|] [[]|e'|]|[[[|b buf]|]|e|] [[]|e'|]]; cbn; intros [= <-];
    by rewrite app_nil_r.
Qed.

Lemma bridge_copies t es s s' :
  bridge t es s = (None, s') ->
  s' = mkBridge (to_quic s ++ concat (tcp_data <$> es)) (to_tcp s ++ concat (quic_data <$> es))
         (quic_finished s) (tcp_shut s).
Proof.
  revert s. induction es as [|e es IH]; intros s Hb; cbn in *.
  - injection Hb as <-. rewrite !app_nil_r. by destruct s.
  - destruct (bridge_turn t e s) as [[r|] s1] eqn:E; [done|].
    apply bridge_turn_copies in E as ->. apply IH in Hb as ->. cbn. by rewrite <- !app_assoc.
Qed.

Lemma bridge_app t es es' s :
  bridge t (es ++ es') s =
  match bridge t es s with (Some r, s1) => (Some r, s1) | (None, s1) => bridge t es' s1 end.
Proof.
  revert s. induction es as [|e es IH]; intros s; cbn; [done|].
  destruct (bridge_turn t e s) as [[r|] s1]; [done|apply IH].
Qed.

Lemma StronglySorted_weaken {A} (R S : A -> A -> Prop) l :
  (forall a b, R a b -> S a b) -> StronglySorted R l -> StronglySorted S l.
Proof. intros Hi. induction 1; constructor; [done|]. eapply Forall_impl; eauto. Qed.

(** Each running accept loop is that of one forward. *)
Record ControlOk (s : ControlState) : Prop := {
  co_task : forall p e, forwards s !! p = Some e -> exists b, tasks s !! task e = Some b;
  co_inj : forall p q e f, forwards s !! p = Some e -> forwards s !! q = Some f -> task e = task f -> p = q;
  co_running : forall i, tasks s !! i = Some true -> exists p e, forwards s !! p = Some e /\ task e = i;
}.

Lemma with_body_keeps show {A} (body : Res (Res A)) s f :
  ControlOk s -> (forall a, ControlOk (snd (f a))) -> ControlOk (snd (with_body show body s f)).
Proof. intros Hs Hf. unfold with_body. by destruct body as [[a|e|]|e|]; cbn. Qed.

Lemma create_keeps show body bind s :
  ControlOk s -> ControlOk (snd (handle_create_forward show body bind s)).
Proof.
  intros Hs. apply with_body_keeps; [done|]. intros spec.
  destruct (parse_forward spec) as [[p tg]|e|]; [|done..].
  destruct (forwards s !! p) eqn:Ep; [done|]. destruct (bind p); [|done..].
  destruct Hs as [Ht Hi Hr].
  assert (Hlt : forall q e, forwards s !! q = Some e -> (task e < length (tasks s))%nat).
  { intros q e Hq. destruct (Ht _ _ Hq) as [b Hb]. eapply lookup_lt_Some; exact Hb. }
  split; cbn.
  - intros q e Hq. apply lookup_insert_Some in Hq as [[<- <-]|[_ Hq]]; cbn.
    + exists true. by rewrite lookup_app_r, Nat.sub_diag.
    + destruct (Ht _ _ Hq) as [b Hb]. exists b. by apply lookup_app_l_Some.
  - intros q r e f Hq Hf E. apply lookup_insert_Some in Hq as [[<- <-]|[Hn Hq]];
      apply lookup_insert_Some in Hf as [[<- <-]|[Hn' Hf]]; cbn in *; try done; eauto.
    + apply Hlt in Hf. lia.
    + apply Hlt in Hq. lia.
  - intros i Hin. apply lookup_app_Some in Hin as [Hin|[Hl Hin]].
    + destruct (Hr _ Hin) as (q & e & Hq & He). exists q, e. split; [|done].
      rewrite lookup_insert_ne; [done|]. congruence.
    + apply list_lookup_singleton_Some in Hin as [Hz _]. exists p. eexists.
      split; [apply lookup_insert_eq|]. cbn. lia.
Qed.

Lemma delete_keeps show body s : ControlOk s -> ControlOk (snd (handle_delete_forward show body s)).
Proof.
  intros Hs. apply with_body_keeps; [done|]. intros p. destruct (forwards s !! p) as [e|] eqn:Ep; [|done].
  destruct Hs as [Ht Hi Hr]. split; cbn.
  - intros q f [_ Hq]%lookup_delete_Some. destruct (Ht _ _ Hq) as [b Hb].
    rewrite list_lookup_insert. case_decide; [|eauto]. eauto.
  - intros q r f g [_ Hq]%lookup_delete_Some [_ Hg]%lookup_delete_Some. eauto.
  - intros i Hin. apply list_lookup_insert_Some in Hin as [(_ & Hf & _)|[Hn Hin]]; [done|].
    destruct (Hr _ Hin) as (q & f & Hq & Hf). exists q, f. split; [|done].
    rewrite lookup_delete_ne; [done|]. intros <-. congruence.
Qed.

Lemma exec_keeps show body id b s : ControlOk s -> ControlOk (snd (handle_exec show body id b s)).
Proof.
  intros Hs. apply with_body_keeps; [done|]. intros [[[|c cs] id'] ctx]; [done|]. by destruct Hs.
Qed.

Lemma route_keeps show req s : ControlOk s -> ControlOk (snd (route show req s)).
Proof.
  intros Hs. unfold route.
  destruct (method req); repeat case_bool_decide; cbn;
    auto using exec_keeps, create_keeps, delete_keeps.
Qed.

Lemma control_ok show s : control_reachable show s -> ControlOk s.
Proof.
  induction 1 as [|s t _ IH Hs].
  - split; cbn; intros *; rewrite ?lookup_empty, ?lookup_nil; done.
  - destruct Hs as [s req|s i].
    + by apply route_keeps.
    + destruct IH as [Ht Hi Hr]. split; cbn; [|done|].
      * intros p e Hp. destruct (Ht _ _ Hp) as [b Hb]. rewrite list_lookup_insert. case_decide; eauto.
      * intros j Hj. apply list_lookup_insert_Some in Hj as [(_ & Hf & _)|[_ Hj]]; [done|auto].
Qed.

Lemma parse_forward_not_Panic spec : parse_forward spec <> Panic.
Proof.
  assert (Hu : forall bs, parse_u16 bs <> Panic).
  { intros bs. unfold parse_u16. repeat case_match; done. }
  unfold parse_forward. do 4 (case_match; try done).
  repeat (apply bind_not_Panic; [by apply with_context_not_Panic|intros ? _]); done.
Qed.

(** The listing shows the forwards there are, by port. *)
Lemma listing_is_exact s iter :
  iter (forwards s) ≡ₚ map_to_list (forwards s) ->
  exists l, handle_list_forwards iter s = (Ok (JsonForwards l), s) /\
    StronglySorted (fun a b => fst a <= fst b) l /\
    forall p tg, (p, tg) ∈ l <-> target <$> forwards s !! p = Some tg.
Proof.
  intros Hit. eexists. split; [reflexivity|]. split.
  - eapply StronglySorted_weaken; [|apply (sort_by_sorted (fun a b : Z * string => fst a <=? fst b))].
    + cbn. intros a b. lia.
    + intros a b. lia.
    + intros a b c. lia.
  - intros p tg. rewrite sort_by_perm, Hit. rewrite list_elem_of_fmap. split.
    + intros ([q e] & E & Hin%elem_of_map_to_list). injection E as -> ->. by rewrite Hin.
    + intros (e & He & ->)%fmap_Some. exists (p, e). split; [done|]. by apply elem_of_map_to_list.
Qed.

(** ** Properties *)

(** The target that [bridge_one] writes is the one the machine connects to,
    and the data behind it is left untouched, exactly as long as it is at most
    1024 bytes; a longer one is refused. *)
Theorem target_header_roundtrip target data ending :
  str_ok target -> x00 ∉ as_bytes target ->
  exists header, forward_header target = z2b STREAM_PORT_FORWARD :: header /\
  if slen target <=? 1024
  then read_target_addr (header ++ data) ending = (Ok target, data)
  else fst (read_target_addr (header ++ data) ending) = anyhow "target address header too long".
Proof.
  intros Hs Hn. eexists. split; [reflexivity|]. rewrite <- app_assoc. cbn [app].
  pose proof (len_as_bytes target) as Hl. unfold read_target_addr.
  destruct (Z.leb_spec (slen target) 1024).
  - rewrite read_target_bytes_ok by (done || (rewrite Hl; unfold len; cbn; lia)). cbn [app].
    cbn [mbind Res_bind]. by rewrite from_utf8_as_bytes.
  - pose proof (read_target_bytes_long (as_bytes target) (x00 :: data) ending [] Hn) as Hlong.
    destruct (read_target_bytes _ _ _) as [r rest]. cbn in Hlong |- *.
    rewrite Hlong by (unfold len in *; cbn in *; lia). done.
Qed.

(** A bridge copies both directions in order for as long as neither side ends,
    and stops altogether at the first half-close: what the other direction still
    had to deliver is dropped, whatever it is, and the bridge reports success. *)
Theorem half_close_ends_both_directions t pre post s :
  bridge t pre bridge_start = (None, s) ->
  bridge t (pre ++ TcpRead (Ok []) (Ok tt) :: post) bridge_start =
    (Some (Ok tt), mkBridge (concat (tcp_data <$> pre)) (concat (quic_data <$> pre)) true false) /\
  bridge t (pre ++ QuicRead (Ok None) (Ok tt) :: post) bridge_start =
    (Some (Ok tt), mkBridge (concat (tcp_data <$> pre)) (concat (quic_data <$> pre)) false true).
Proof. intros Hb. rewrite !bridge_app, Hb. apply bridge_copies in Hb as ->. done. Qed.

(** Whatever requests the control socket serves, every accept loop that runs
    is that of exactly one forward, and the listing shows exactly the forwards
    there are, sorted by port, whatever order the map yields them in. *)
Theorem forwards_own_their_loops show s iter :
  control_reachable show s -> iter (forwards s) ≡ₚ map_to_list (forwards s) ->
  (forall i, tasks s !! i = Some true -> exists! p, task <$> forwards s !! p = Some i) /\
  exists l, handle_list_forwards iter s = (Ok (JsonForwards l), s) /\
    StronglySorted (fun a b => fst a <= fst b) l /\
    forall p tg, (p, tg) ∈ l <-> target <$> forwards s !! p = Some tg.
Proof.
  intros Hr Hit. destruct (control_ok _ _ Hr) as [Ht Hi Hrun]. split.
  - intros i Hin. destruct (Hrun _ Hin) as (p & e & Hp & He). exists p. split; [by rewrite Hp, <- He|].
    intros q Hq. apply fmap_Some in Hq as (f & Hf & Eq). eapply Hi; eauto. congruence.
  - by apply listing_is_exact.
Qed.

(** A listing whose connection is lost is asked for again, on the next
    connection, and the sessions it gives then are the answer: every generation
    that was lost is invalidated and no error is reported. *)
Theorem lost_listings_are_asked_again show reconnectable lost generation list turns :
  Forall (fun '(_, err) => reconnectable err = true) lost ->
  handle_list_exec show reconnectable
    (((fun '(g, err) => (Ok g, Err err)) <$> lost) ++ (Ok generation, Ok list) :: turns) =
  (Some (Ok (JsonSessions list)), lost.*1).
Proof.
  induction 1 as [|[g err] lost Hr _ IH]; [done|]. cbn. rewrite Hr.
  match goal with |- context [handle_list_exec ?a ?b ?c] =>
    replace (handle_list_exec a b c) with (Some (Ok (JsonSessions list)), lost.*1) by (symmetry; exact IH)
  end. done.
Qed.

(** ** Witnesses *)

Lemma lost_listings_are_asked_again_witness :
  handle_list_exec (fun _ => "") (fun _ => true)
    [(Ok 0%nat, Err [Msg "lost"]); (Ok 1%nat, Ok [])] = (Some (Ok (JsonSessions [])), [0%nat]).
Proof.
  apply (lost_listings_are_asked_again (fun _ => "") (fun _ => true) [(0%nat, [Msg "lost"])] 1 [] []).
  by apply Forall_cons; split; [|apply Forall_nil].
Defined.

Lemma target_header_roundtrip_witness :
  read_target_addr (as_bytes "localhost:80" ++ [x00] ++ as_bytes "GET /") (Ok tt) =
    (Ok "localhost:80", as_bytes "GET /").
Proof.
  destruct (target_header_roundtrip "localhost:80" (as_bytes "GET /") (Ok tt)) as (h & Hh & Hr).
  - reflexivity.
  - apply (bool_decide_unpack _). vm_compute. exact I.
  - vm_compute in Hh. injection Hh as <-. exact Hr.
Defined.

(** The client half-closes after its request; the answer is not delivered. *)
Lemma half_close_ends_both_directions_witness :
  bridge server_texts ([QuicRead (Ok (Some (as_bytes "ping"))) (Ok tt)] ++
      QuicRead (Ok None) (Ok tt) :: [TcpRead (Ok (as_bytes "pong")) (Ok tt)]) bridge_start =
    (Some (Ok tt), mkBridge [] (as_bytes "ping") false true).
Proof.
  apply (half_close_ends_both_directions server_texts [QuicRead (Ok (Some (as_bytes "ping"))) (Ok tt)]
    [TcpRead (Ok (as_bytes "pong")) (Ok tt)] (mkBridge [] (as_bytes "ping") false false)).
  reflexivity.
Defined.

(** A request with the bytes of its argument as its body. *)
Definition demo_control_request (m : HttpMethod) (body : string) : ControlRequest :=
  mkControlRequest m "/forwards" (Ok (as_bytes body)) (fun _ => anyhow "json")
    (fun bs => Ok (from_bytes_unchecked bs)) parse_u16 (fun _ => Ok tt) "s" (Ok tt) (fun _ => false) []
    map_to_list.

Definition demo_requests : list ControlRequest :=
  [demo_control_request POST "9000:db:5432"; demo_control_request POST "80:web:8080";
   demo_control_request POST "81:web:8081"; demo_control_request DELETE "81"].

Definition demo_forwards : ControlState :=
  fold_left (fun s req => snd (route (fun _ => "") req s)) demo_requests control_start.

Lemma routes_reachable show reqs s :
  control_reachable show s -> control_reachable show (fold_left (fun s req => snd (route show req s)) reqs s).
Proof.
  revert s. induction reqs as [|req reqs IH]; intros s Hs; cbn; [done|].
  apply IH. eapply control_more; [exact Hs|apply control_route].
Qed.

Lemma forwards_own_their_loops_witness :
  tasks demo_forwards = [true; true; false] /\
  (exists! p, task <$> forwards demo_forwards !! p = Some 0%nat) /\
  exists l, handle_list_forwards map_to_list demo_forwards = (Ok (JsonForwards l), demo_forwards) /\
    (80, "web:8080") ∈ l.
Proof.
  assert (Hr : control_reachable (fun _ => "") demo_forwards).
  { apply routes_reachable, control_init. }
  destruct (forwards_own_their_loops (fun _ => "") demo_forwards map_to_list Hr) as (Ho & l & Hl & _ & Hin);
    [reflexivity|].
  split; [vm_compute; reflexivity|]. split; [apply Ho; vm_compute; reflexivity|].
  exists l. split; [exact Hl|]. apply Hin. vm_compute. reflexivity.
Defined.
