(* ===== verification/ClientMain.v ===== *)
(** * The commands of the client ([crates/client/src/{main,forward,quic}.rs])

    What [fly-vault] does with a parsed command line: the configuration it reads,
    the request an [exec] makes, the forwards a [connect] opens, and the status
    the process ends with.  The argument parser, the TOML and JSON
    crates, [hex], the sockets and the file system are parameters. *)

From S2P Require Import Prelude Protocol ConsoleBuffer ConsoleStream ConsoleClient ExecSessions.
From S2P Require Import ClientTrust Reconnect.
From S2P Require Forward.

(** ** Configuration *)

Record ConfigFile := mkConfigFile { vault : gmap string VaultConfig }.

Definition config_path (config_dir : option path) : Res path :=
  base ← ok_or "unable to determine config directory" config_dir;
  Ok (base ++ ["fly-vault"; "config.toml"]).

Definition load_config_file (config_dir : option path) (read_to_string : path -> Res string)
    (from_str : string -> Res ConfigFile) : Res (path * ConfigFile) :=
  path ← config_path config_dir;
  raw ← with_context ("read config file " +:+ display path) (read_to_string path);
  cfg ← with_context "parse config toml" (from_str raw);
  Ok (path, cfg).

(** [HashMap::remove]: the entry moves out of the file. *)
Definition resolve_vault_config (config_dir : option path) (name : string) :
    M ConfigFile VaultConfig := fun cfg_file =>
  match vault cfg_file !! name with
  | Some cfg => (Ok cfg, mkConfigFile (delete name (vault cfg_file)))
  | None =>
      (anyhow ("vault " +:+ name +:+ " not found in " +:+
         match config_path config_dir with Ok p => display p | _ => "<unknown-config>" end), cfg_file)
  end.

(** ** Sessions ([quic.rs]) *)

Abbreviation ExecTurn := (Res ConnectionLease * (ExecSessionRequest -> Res ConsoleSessionProgress))%type.
Abbreviation ConsoleTurn := (Res ConnectionLease * (Z -> Res ConsoleSessionProgress))%type.

Section sessions.
Context (hex_encode : list byte -> string) (stdin_is_terminal stdout_is_terminal : bool).

(** [random]: the 16 bytes of [fill_bytes]. *)
Definition generate_exec_session_id (random : list byte) : string := hex_encode random.

Definition exec_request (random : list byte) (session context : option string) (command : list string) :
    ExecSessionRequest :=
  let session_id := default (generate_exec_session_id random) session in
  let has_command := negb (bool_decide (command = [])) in
  build_exec_request stdin_is_terminal stdout_is_terminal session_id
    (if has_command then Some command else None) (if has_command then context else None).

Definition connect_and_exec (turns : list ExecTurn) (random : list byte)
    (session context : option string) (command : list string) :
    option (Res Z) * list ExecSessionRequest * list nat :=
  run_exec_with_reconnect turns (exec_request random session context command).
End sessions.

(** The same loop, over [run_exec_streaming]: see [ConsoleClient]. *)
Definition run_exec_streaming_with_reconnect (turns : list ExecTurn) (request : ExecSessionRequest) :
    option (Res Z) * list ExecSessionRequest * list nat := run_exec_with_reconnect turns request.

(** [connected]: the result of [connect_ready]; the bytes written come second. *)
Definition list_exec_sessions `{BytesCrate} {R} `{AsyncRead R} {W} `{QS : QuicSend W}
    (connected : Res unit) (open_bi : Res (W * R)) : Res (list ExecSessionInfo) * option W :=
  match _ ← connected; with_context "open exec-list stream" open_bi with
  | Ok (send, recv) =>
      let '(r, send) := (_ ← mcontext "write exec-list stream tag" (write_u8 STREAM_EXEC_LIST);
                         mcontext "finish exec-list request" finish) send in
      (_ ← r; list ← fst (ExecSessionList_read_from recv); Ok (sessions list), Some send)
  | Err e => (Err e, None)
  | Panic => (Panic, None)
  end.

(** ** Local forwards ([forward.rs]) *)

(** The loop of [run_local_forwarders] that binds the listeners, each with the
    target its accept loop serves.  [bind] sees the ports this loop has bound. *)
Fixpoint start_forwarders (bind : list Z -> Z -> Res unit) (specs : list string) :
    M (list (Z * string)) unit :=
  match specs with
  | [] => mret tt
  | spec :: specs =>
      '(local_port, target) ← mlift (Forward.parse_forward spec);
      bound ← mget;
      _ ← mcontext ("bind local port " +:+ pretty local_port) (mlift (bind bound.*1 local_port));
      _ ← mput (bound ++ [(local_port, target)]);
      start_forwarders bind specs
  end.

(** [ctrl_c]: [None] until the signal.  The state is the loops that run. *)
Definition run_local_forwarders (bind : list Z -> Z -> Res unit) (ctrl_c : option (Res unit))
    (specs : list string) : option (Res unit) * list (Z * string) :=
  match specs with
  | [] => (with_context "wait for ctrl-c" <$> ctrl_c, [])
  | _ =>
      match start_forwarders bind specs [] with
      | (Ok _, bound) =>
          match with_context "wait for ctrl-c" <$> ctrl_c with
          | None => (None, bound)
          | Some (Ok _) => (Some (Ok tt), [])
          | r => (r, bound)
          end
      | (r, bound) => (Some r, bound)
      end
  end.

(** [result]: what [bridge_one] returned on the connection; the generation that
    is invalidated comes second. *)
Definition bridge_one_with_reconnect (connected : Res ConnectionLease) (result : Res unit) :
    Res unit * option nat :=
  match connected with
  | Ok lease =>
      (result, match result with
               | Err err => if is_reconnectable_transport err then Some (Reconnect.generation lease) else None
               | _ => None
               end)
  | Err e => (Err e, None)
  | Panic => (Panic, None)
  end.

(** ** [connect_and_run] *)

Inductive Task := ConsoleTask | ControlTask (socket : path).

(** What it spawns and what it waits for: the console, the signal or the forwarders. *)
Definition connect_and_run (console ctrl_c : option (Res unit))
    (forwarders : list string -> option (Res unit)) (forwards : list string)
    (control_socket : option path) : list Task * option (Res unit) :=
  match forwards, control_socket with
  | [], None => ([], console)
  | _, _ =>
      (ConsoleTask :: match control_socket with Some path => [ControlTask path] | None => [] end,
       match forwards with [] => ctrl_c | _ => forwarders forwards end)
  end.

(** ** [main] *)

Inductive Command :=
| Connect (vault : string) (forward : list string) (reprovision : bool) (control_socket : option path)
| Exec (vault : string) (session context : option string) (command : list (list byte))
| ListExec (vault : string)
| Build.

(** How a process is or ends: [main] returned, or [std::process::exit]. *)
Inductive Process :=
| Running
| Main (r : Res unit)
| Exit (code : Z).

(** The status the shell sees: Rust's [Termination] of a [Result], 101 for a panic. *)
Definition status (p : Process) : option Z :=
  match p with
  | Running => None
  | Main (Ok _) => Some 0
  | Main (Err _) => Some 1
  | Main Panic => Some 101
  | Exit code => Some code
  end.

(** What the commands get from outside. *)
Record Env := mkEnv {
  config_dir : option path;
  read_to_string : path -> Res string;
  from_str : string -> Res ConfigFile;
  debug_os : list byte -> string;
  hex_encode : list byte -> string;
  stdin_is_terminal : bool;
  stdout_is_terminal : bool;
  random : list byte;
  exec_turns : VaultConfig -> list ExecTurn;
  console_turns : VaultConfig -> bool -> list ConsoleTurn;
  ctrl_c : option (Res unit);
  bind : list Z -> Z -> Res unit;
  listed : VaultConfig -> Res (list ExecSessionInfo);
  to_string_pretty : list ExecSessionInfo -> Res string;
  cargo_build : Res bool;
}.

Section main.
Context (e : Env).

Definition vault_config (name : string) : Res VaultConfig :=
  '(_, cfg_file) ← load_config_file (config_dir e) (read_to_string e) (from_str e);
  fst (resolve_vault_config (config_dir e) name cfg_file).

(** [OsString::into_string] with the error of [main]. *)
Definition into_string (arg : list byte) : Res string :=
  match from_utf8 arg with
  | Ok s => Ok s
  | _ => anyhow ("exec arguments must be valid UTF-8: " +:+ debug_os e arg)
  end.

(** [collect::<Result<Vec<_>>>]. *)
Fixpoint into_strings (args : list (list byte)) : Res (list string) :=
  match args with
  | [] => Ok []
  | arg :: args => s ← into_string arg; ss ← into_strings args; Ok (s :: ss)
  end.

(** What an [exec] runs: the machine, the session, the context and the command. *)
Definition exec_plan (name : string) (session : option string) (command : list (list byte)) :
    Res (VaultConfig * list string) :=
  vault_cfg ← vault_config name;
  command ← into_strings command;
  if bool_decide (session = None) && bool_decide (command = [])
  then anyhow "exec requires a command unless --session is provided"
  else Ok (vault_cfg, command).

(** The requests sent come second. *)
Definition main_exec (name : string) (session context : option string) (command : list (list byte)) :
    Process * list ExecSessionRequest :=
  match exec_plan name session command with
  | Ok (vault_cfg, command) =>
      let '(r, runs, _) :=
        connect_and_exec (hex_encode e) (stdin_is_terminal e) (stdout_is_terminal e)
          (exec_turns e vault_cfg) (random e) session context command in
      (match r with
       | None => Running
       | Some (Ok exit_code) =>
           if negb (exit_code =? 0) then Exit (Z.land exit_code 255) else Main (Ok tt)
       | Some (Err err) => Main (Err err)
       | Some Panic => Main Panic
       end, runs)
  | Err err => (Main (Err err), [])
  | Panic => (Main Panic, [])
  end.

Definition main_connect (name : string) (forward : list string) (reprovision : bool)
    (control_socket : option path) : Process :=
  match vault_config name with
  | Ok vault_cfg =>
      let forwards := match forward with [] => cfg_forward vault_cfg | _ => forward end in
      let console := fst (fst (run_console_with_reconnect (console_turns e vault_cfg reprovision) 0)) in
      match snd (connect_and_run console (ctrl_c e)
                   (fun specs => fst (run_local_forwarders (bind e) (ctrl_c e) specs))
                   forwards control_socket) with
      | None => Running
      | Some r => Main r
      end
  | Err err => Main (Err err)
  | Panic => Main Panic
  end.

Definition run_build_commands : Res (list string) :=
  success ← with_context "run cargo build for init" (cargo_build e);
  if success : bool
  then Ok ["init binary built at target/x86_64-unknown-linux-musl/release/init"]
  else anyhow "cargo build failed".

Definition main_list_exec (name : string) : Res (list string) :=
  vault_cfg ← vault_config name;
  sessions ← listed e vault_cfg;
  out ← with_context "serialize exec sessions" (to_string_pretty e sessions);
  Ok [out].

(** The process, the lines it prints and the requests it sends. *)
Definition main (command : Command) : Process * list string * list ExecSessionRequest :=
  let printed (r : Res (list string)) :=
    (Main (_ ← r; Ok tt), match r with Ok out => out | _ => [] end, []) in
  match command with
  | Connect vault forward reprovision control_socket =>
      (main_connect vault forward reprovision control_socket, [], [])
  | Exec vault session context command =>
      let '(p, runs) := main_exec vault session context command in (p, [], runs)
  | ListExec vault => printed (main_list_exec vault)
  | Build => printed run_build_commands
  end.
End main.

(** ** Lemmas *)

Lemma into_strings_ok e args ss :
  into_strings e args = Ok ss -> map as_bytes ss = args /\ Forall str_ok ss.
Proof.
  revert ss. induction args as [|arg args IH]; intros ss; cbn [into_strings]; [intros [= <-]; done|].
  intros (s & Hs & (ss' & Hss & [= <-])%bind_Ok)%bind_Ok. unfold into_string in Hs.
  destruct (from_utf8 arg) as [s'|err|] eqn:E; [|done..]. injection Hs as <-.
  apply from_utf8_Ok in E as [<- Hok]. destruct (IH _ Hss) as [<- ?]. split; [done|by constructor].
Qed.

(** Same request, up to the bytes rendered. *)
Definition same_request (a b : ExecSessionRequest) : Prop :=
  req_session_id a = req_session_id b /\ req_argv a = req_argv b /\ req_context a = req_context b.

Lemma run_exec_same turns request r runs gone q :
  run_exec_with_reconnect turns request = (r, runs, gone) -> q ∈ runs -> same_request q request.
Proof.
  revert request r runs gone. induction turns as [|[c run] turns IH]; intros request r runs gone;
    cbn [run_exec_with_reconnect].
  - intros [= <- <- <-] ?%not_elem_of_nil. done.
  - destruct c as [lease|err|]; [|intros [= <- <- <-] ?%not_elem_of_nil; done..].
    destruct (run request) as [p|err|]; [destruct (outcome p) as [code|]|..];
      try (intros [= <- <- <-] ->%list_elem_of_singleton; done).
    destruct (run_exec_with_reconnect turns _) as [[r' runs'] gone'] eqn:E. intros [= <- <- <-] Hq.
    apply elem_of_cons in Hq as [->|Hq]; [done|]. apply (IH _ _ _ _ E Hq).
Qed.

(** A turn whose session was lost, wherever it started. *)
Definition lost (t : ExecTurn) : Prop :=
  exists lease, fst t = Ok lease /\
    forall request, exists n, snd t request = Ok (mkProgress Disconnected n).

Lemma run_exec_lost turns turns' request :
  Forall lost turns -> exists request' runs gone, same_request request' request /\
    run_exec_with_reconnect (turns ++ turns') request =
      let '(r, runs', gone') := run_exec_with_reconnect turns' request' in (r, runs ++ runs', gone ++ gone').
Proof.
  intros Hl. revert request. induction Hl as [|[c run] turns (lease & Hc & Hrun) _ IH]; intros request; cbn in *.
  - exists request, [], []. split; [done|]. by destruct (run_exec_with_reconnect turns' request) as [[? ?] ?].
  - subst c. destruct (Hrun request) as [n ->]. cbn.
    destruct (IH (mkExecRequest (req_session_id request) (req_argv request) (req_context request) n))
      as (request' & runs & gone & Hs & ->).
    exists request', (request :: runs), (Reconnect.generation lease :: gone). split; [done|].
    by destruct (run_exec_with_reconnect turns' request') as [[? ?] ?].
Qed.

(** What a turn's session does, as [run_exec] of [console.rs]. *)
Definition runs_session (env : SessionEnv) (run : ExecSessionRequest -> Res ConsoleSessionProgress) : Prop :=
  forall request, fst (run_session env (req_rendered_bytes request)) = Some (run request).

(** Frames the loop gets past: no exit, and the data is written out. *)
Definition passed (x : Res ConsoleFrame * list Z) : Prop :=
  exists f, fst x = Ok f /\ cs_ty f <> CONSOLE_EXIT /\
    (cs_ty f = CONSOLE_DATA -> fst (write_console_output (snd x) (cs_payload f)) = Some (Ok tt)).

Lemma session_loop_passed fs fs' n :
  Forall passed fs -> exists n' out, session_loop (fs ++ fs') n =
    let '(r, m, out') := session_loop fs' n' in (r, m, out ++ out').
Proof.
  intros Hf. revert n. induction Hf as [|[f rets] fs (f' & Ef & Hx & Hd) _ IH]; intros n; cbn in *.
  - exists n, []. by destruct (session_loop fs' n) as [[? ?] ?].
  - subst f. destruct (Z.eqb_spec (cs_ty f') CONSOLE_DATA) as [E|].
    + specialize (Hd E). destruct (write_console_output rets (cs_payload f')) as [w o]. cbn in Hd. subst w.
      destruct (IH (saturating_add_u64 n (len (cs_payload f')))) as (n' & out & ->).
      exists n', (o ++ out). destruct (session_loop fs' n') as [[? ?] ?]. by rewrite app_assoc.
    + rewrite (proj2 (Z.eqb_neq _ _) Hx). apply IH.
Qed.

(** A session that starts and whose tasks end when they are aborted. *)
Record Starts (env : SessionEnv) : Prop := {
  st_open : open_bi env = Ok tt;
  st_tag : write_tag env = Ok tt;
  st_startup : write_startup env = Ok tt;
  st_raw : match raw_mode env with
           | None => True
           | Some (guard, resize) => guard = Ok tt /\ default (Ok tt) resize = Ok tt
           end;
  st_join : resize_join env = JoinCancelled \/ resize_join env = JoinReturned (Ok tt);
}.

Lemma run_session_starts env n :
  Starts env -> fst (run_session env n) =
    let '(r, m, _) := session_loop (frames env) n in
    match r with
    | None => None
    | Some (Ok o) => Some (Ok (mkProgress o m))
    | Some (Err err) => Some (or_disconnected m err)
    | Some Panic => Some Panic
    end.
Proof.
  intros [Ho Ht Hs Hr Hj]. unfold run_session. rewrite Ho, Ht, Hs. cbn [with_context or_disconnected_bind].
  assert (Hraw : match raw_mode env with
                 | None => Ok tt
                 | Some (guard, resize) => _ ← with_context "enable raw mode" guard; default (Ok tt) resize
                 end = Ok tt).
  { destruct (raw_mode env) as [[guard resize]|]; [|done]. by destruct Hr as [-> ->]. }
  rewrite Hraw. destruct (session_loop (frames env) n) as [[r m] out].
  destruct r as [[o|err|]|]; cbn; unfold finish_session; destruct Hj as [E|E]; rewrite ?E; done.
Qed.

Lemma exec_plan_Ok e name session command cfg words :
  exec_plan e name session command = Ok (cfg, words) ->
  vault_config e name = Ok cfg /\ map as_bytes words = command /\ Forall str_ok words /\
  (session <> None \/ words <> []).
Proof.
  unfold exec_plan. intros (c & Hc & (ws & Hw & Hif)%bind_Ok)%bind_Ok. case_in Hif.
  injection Hif as <- <-. apply into_strings_ok in Hw as [<- ?]. split_and!; [done..|].
  apply andb_false_iff in Heqb as [?%bool_decide_eq_false|?%bool_decide_eq_false]; auto.
Qed.

Lemma wrap_exec_with_term_spec argv term :
  exists wrapper, wrap_exec_with_term argv term = wrapper ++ argv /\ (wrapper = [] <-> term = None).
Proof.
  destruct term as [term|]; [by exists ["/bin/sh"; "-lc"; term_script; "sh"; term]|by exists []].
Qed.

Lemma decode_encode_exit code : 0 <= code < 256 -> decode_exit (encode_exit code) = Ok code.
Proof.
  intros Hc. unfold decode_exit, encode_exit, len. rewrite be_bytes_length, be_value_bytes. cbn [Z.of_nat Z.eqb negb].
  f_equal. apply Z.mod_small. cbn. lia.
Qed.

(** ** Properties *)

(** What an [exec] asks of the machine.  Every request it sends, however often
    it reconnects, is the same up to the rendered bytes: the session that was named
    or a fresh one, the command as given (behind the shell wrapper when a terminal
    is attached) and its context, or no argv and no context when there was no
    command.  An argv is never empty, and a request without one names its session;
    when an argument is not UTF-8, or there is neither, nothing is sent. *)
Theorem exec_requests_are_the_command e name session context command p runs :
  main_exec e name session context command = (p, runs) ->
  (forall request, request ∈ runs ->
    req_session_id request = default (hex_encode e (random e)) session /\
    (command = [] -> session <> None /\ req_argv request = None /\ req_context request = None) /\
    (command <> [] -> req_context request = context /\ exists wrapper words,
      req_argv request = Some (wrapper ++ words) /\ map as_bytes words = command /\
      (wrapper = [] <-> stdin_is_terminal e = false /\ stdout_is_terminal e = false))) /\
  (session = None -> command = [] -> runs = []) /\
  (~ Forall (fun arg => utf8_valid arg = true) command -> runs = []).
Proof.
  unfold main_exec. destruct (exec_plan e name session command) as [[cfg words]|err|] eqn:Ep;
    [|intros [= <- <-]; split_and!; [by intros ? ?%not_elem_of_nil|done..]..].
  apply exec_plan_Ok in Ep as (_ & <- & Hok & Hsome). unfold connect_and_exec.
  destruct (run_exec_with_reconnect _ _) as [[r runs'] gone] eqn:Er. intros [= <- <-].
  split_and!; [|intros -> Hw; by destruct Hsome, words|].
  2: { intros Hn. exfalso. apply Hn, Forall_map. eapply Forall_impl; [exact Hok|]. done. }
  intros request Hq. destruct (run_exec_same _ _ _ _ _ _ Er Hq) as (Hi & Ha & Hc).
  rewrite Hi, Ha, Hc. cbn. split_and!; [done|..].
  - intros Hw%map_eq_nil. subst words. by destruct Hsome.
  - intros Hw. rewrite bool_decide_false by (by intros ->). split; [done|].
    destruct (wrap_exec_with_term_spec words (current_term_for_exec (stdin_is_terminal e) (stdout_is_terminal e)))
      as (wrapper & Hwr & Hx).
    exists wrapper, words. cbn. rewrite Hwr. split_and!; [done..|]. rewrite Hx.
    unfold current_term_for_exec. destruct (stdin_is_terminal e), (stdout_is_terminal e); cbn; intuition done.
Qed.

(** A session that runs to the command's exit. *)
Lemma exec_exits e name session context command cfg words turns lease env run rest shown wait rets more :
  exec_plan e name session command = Ok (cfg, words) ->
  exec_turns e cfg = turns ++ (Ok lease, run) :: rest -> Forall lost turns ->
  Starts env -> runs_session env run -> Forall passed shown ->
  frames env = shown ++ (Ok (mkConsoleFrame CONSOLE_EXIT (encode_exit (exit_status_code wait))), rets) :: more ->
  (forall code, wait = Ok (Some code) -> 0 <= code < 256) ->
  status (fst (main_exec e name session context command)) =
    Some (match wait with Ok (Some code) => code | _ => 255 end).
Proof.
  intros Ep Et Hl Hst Hrun Hsh Hf Hw. unfold main_exec, connect_and_exec. rewrite Ep. cbn beta iota. rewrite Et.
  destruct (run_exec_lost turns ((Ok lease, run) :: rest)
    (exec_request (hex_encode e) (stdin_is_terminal e) (stdout_is_terminal e) (random e) session context words)
    Hl) as (request & runs & gone & _ & ->).
  set (code := match wait with Ok (Some code) => code | _ => 255 end).
  assert (Hcode : exit_status_code wait = code /\ 0 <= code < 256).
  { subst code. destruct wait as [[c|]|x|]; try done. specialize (Hw c eq_refl). cbn.
    unfold as_u32. split; [|done]. apply Z.mod_small. change U32 with 4294967296. lia. }
  destruct Hcode as [Hc Hr]. rewrite Hc in Hf.
  specialize (Hrun request). rewrite run_session_starts, Hf in Hrun by done.
  destruct (session_loop_passed shown ((Ok (mkConsoleFrame CONSOLE_EXIT (encode_exit code)), rets) :: more)
    (req_rendered_bytes request) Hsh) as (n & out & E).
  rewrite E in Hrun. cbn in Hrun. rewrite decode_encode_exit in Hrun by lia. injection Hrun as Hrun.
  cbn. rewrite <- Hrun. cbn. destruct (Z.eqb_spec code 0) as [->|]; [done|]. cbn. f_equal.
  change 255 with (Z.ones 8). rewrite Z.land_ones by lia. apply Z.mod_small. lia.
Qed.

(** C25: The status of an [exec] is that of the command.  However often the
    connection is lost before, once a session that starts delivers the exit frame
    behind data it can show, the process ends with the code that [waitpid] gave the
    machine for the command (255 when a signal killed it); and an [exec] that fails,
    before it connects, when it connects or in its session, ends with 1. *)
Theorem exec_status_is_the_commands e name session context command :
  (forall cfg words turns lease env run rest shown wait rets more,
     exec_plan e name session command = Ok (cfg, words) ->
     exec_turns e cfg = turns ++ (Ok lease, run) :: rest -> Forall lost turns ->
     Starts env -> runs_session env run -> Forall passed shown ->
     frames env = shown ++ (Ok (mkConsoleFrame CONSOLE_EXIT (encode_exit (exit_status_code wait))), rets) :: more ->
     (forall code, wait = Ok (Some code) -> 0 <= code < 256) ->
     status (fst (main_exec e name session context command)) =
       Some (match wait with Ok (Some code) => code | _ => 255 end)) /\
  (forall err, exec_plan e name session command = Err err ->
     status (fst (main_exec e name session context command)) = Some 1) /\
  (forall cfg words turns connected run rest err,
     exec_plan e name session command = Ok (cfg, words) ->
     exec_turns e cfg = turns ++ (connected, run) :: rest -> Forall lost turns ->
     connected = Err err \/ (is_ok connected = true /\ forall request, run request = Err err) ->
     status (fst (main_exec e name session context command)) = Some 1).
Proof.
  split; [|split].
  - intros. by eapply exec_exits.
  - intros err Ep. unfold main_exec. by rewrite Ep.
  - intros cfg words turns connected run rest err Ep Et Hl Hf. unfold main_exec, connect_and_exec.
    rewrite Ep. cbn beta iota. rewrite Et.
    destruct (run_exec_lost turns ((connected, run) :: rest)
      (exec_request (hex_encode e) (stdin_is_terminal e) (stdout_is_terminal e) (random e) session context words)
      Hl) as (request & runs & gone & _ & ->).
    cbn. destruct Hf as [->|[Hok Hrun]]; [done|]. destruct connected; try done. by rewrite Hrun.
Qed.

(** The ports other than 0, for which the system picks one. *)
Definition named_ports (bound : list (Z * string)) : list Z := filter (fun p => p <> 0) bound.*1.

Lemma start_forwarders_spec bind specs bound r bound' :
  (forall ports p, bind ports p = Ok tt -> p <> 0 -> p ∉ ports) ->
  NoDup (named_ports bound) -> start_forwarders bind specs bound = (r, bound') ->
  NoDup (named_ports bound') /\
  exists taken added, bound' = bound ++ added /\
    Forall2 (fun spec b => Forward.parse_forward spec = Ok b) taken added /\
    match r with
    | Ok _ => taken = specs
    | _ => exists spec more, specs = taken ++ spec :: more /\
        (Forward.parse_forward spec = (_ ← r; Panic) \/
         exists p t, Forward.parse_forward spec = Ok (p, t) /\
           with_context ("bind local port " +:+ pretty p) (bind bound'.*1 p) = r)
    end.
Proof.
  intros Hb. revert bound. induction specs as [|spec specs IH]; intros bound Hnd; cbn [start_forwarders].
  - intros [= <- <-]. split; [done|]. exists [], []. by rewrite app_nil_r.
  - unfold mbind, M_bind, mbind_st, mlift, mget, mput, mcontext.
    destruct (Forward.parse_forward spec) as [[p t]|err|] eqn:Ep.
    2,3: intros [= <- <-]; split; [done|]; exists [], []; rewrite app_nil_r; split_and!; [done..|];
      exists spec, specs; split; [done|]; left; by rewrite Ep.
    destruct (bind bound.*1 p) as [[]|err|] eqn:Eb; cbn.
    2,3: intros [= <- <-]; split; [done|]; exists [], []; rewrite app_nil_r; split_and!; [done..|];
      exists spec, specs; split; [done|]; right; exists p, t; by rewrite Eb.
    intros Hs. apply IH in Hs as (Hnd' & taken & added & -> & Hf & Hr).
    + split; [done|]. exists (spec :: taken), ((p, t) :: added). 
      split; [by rewrite <- app_assoc|]. split; [by apply Forall2_cons|].
      destruct r; [by subst|..]; destruct Hr as (sp & more & -> & Hr); by exists sp, more.
    + unfold named_ports. rewrite fmap_app, filter_app. apply NoDup_app. split_and!; [done|..].
      * intros q [_ Hq]%list_elem_of_filter Hp%list_elem_of_filter. cbn in Hp.
        destruct Hp as [Hp0 ->%list_elem_of_singleton]. by destruct (Hb _ _ Eb Hp0).
      * change ([(p, t)].*1) with [p]. rewrite filter_cons, filter_nil.
        case_decide; [apply NoDup_singleton|constructor].
Qed.

(** The forwards of a [connect] are those it was given - on the command line,
    else in the configuration - however the console ends: until the signal the
    process runs and serves exactly the parsed specifications in order, with no
    named port twice; after it, it ends with status 0 and no loop runs.  The first
    specification that does not parse or whose port cannot be bound ends the
    process with that error, after the ones before it were bound. *)
Theorem forwards_are_the_specified_ones e name forward reprovision socket cfg :
  (forall ports p, bind e ports p = Ok tt -> p <> 0 -> p ∉ ports) ->
  (forall ports p, bind e ports p <> Panic) ->
  vault_config e name = Ok cfg ->
  let specs := match forward with [] => cfg_forward cfg | _ => forward end in
  specs <> [] ->
  let p := main_connect e name forward reprovision socket in
  exists taken bound, Forall2 (fun spec b => Forward.parse_forward spec = Ok b) taken bound /\
    NoDup (named_ports bound) /\
    ((taken = specs /\
      match ctrl_c e with
      | None => p = Running /\ run_local_forwarders (bind e) None specs = (None, bound)
      | Some (Ok _) => p = Main (Ok tt) /\ run_local_forwarders (bind e) (ctrl_c e) specs = (Some (Ok tt), [])
      | Some r => p = Main (with_context "wait for ctrl-c" r)
      end) \/
     exists spec more err, specs = taken ++ spec :: more /\ p = Main (Err err) /\
       (Forward.parse_forward spec = Err err \/
        exists port t, Forward.parse_forward spec = Ok (port, t) /\
          with_context ("bind local port " +:+ pretty port) (bind e bound.*1 port) = Err err)).
Proof.
  intros Hb Hp Hc specs Hs p.
  destruct (start_forwarders (bind e) specs []) as [r bound] eqn:Es.
  assert (Hrun : forall c, run_local_forwarders (bind e) c specs =
    match r with
    | Ok _ => match with_context "wait for ctrl-c" <$> c with
              | None => (None, bound) | Some (Ok _) => (Some (Ok tt), []) | r => (r, bound) end
    | r => (Some r, bound)
    end) by (intros c; unfold run_local_forwarders; destruct specs; [done|]; by rewrite Es).
  assert (Hmain : p = match fst (run_local_forwarders (bind e) (ctrl_c e) specs) with
                      | None => Running | Some r => Main r end).
  { unfold p, main_connect. rewrite Hc. fold specs. by destruct specs. }
  apply start_forwarders_spec in Es as (Hnd & taken & added & E & Hf & Hr); [|done|constructor].
  cbn in E. subst added. exists taken, bound. split_and!; [done..|]. rewrite !Hrun in *.
  destruct r as [[]|err|].
  - left. split; [done|]. destruct (ctrl_c e) as [[[]|err|]|]; cbn in *; done.
  - right. destruct Hr as (spec & more & Hsp & Hr). exists spec, more, err. cbn in *. done.
  - exfalso. destruct Hr as (spec & more & _ & [Hr|(port & t & _ & Hr%with_context_Panic)]); [|by eapply Hp].
    cbn in Hr. by apply Forward.parse_forward_not_Panic in Hr.
Qed.

(** ** Witnesses *)

Definition demo_config : VaultConfig :=
  mkVaultConfig "vault:8443" "my-org" "my-app" None ["5432:db:5432"] None None (Some "s3cret").

(** The command writes two bytes and exits with 3. *)
Definition demo_session : SessionEnv :=
  mkSessionEnv (Ok tt) (Ok tt) (Ok tt) None
    [(Ok (mkConsoleFrame CONSOLE_DATA (as_bytes "hi")), [2]);
     (Ok (mkConsoleFrame CONSOLE_EXIT (encode_exit (exit_status_code (Ok (Some 3))))), [])] JoinCancelled.

Definition demo_lost : ExecTurn := (Ok (mkLease 0 0), fun _ => Ok (mkProgress Disconnected 0)).

Definition demo_run (request : ExecSessionRequest) : Res ConsoleSessionProgress :=
  default (anyhow "") (fst (run_session demo_session (req_rendered_bytes request))).

Definition demo_env (signal : option (Res unit)) : Env :=
  mkEnv (Some ["etc"]) (fun _ => Ok "toml") (fun _ => Ok (mkConfigFile {["dev" := demo_config]}))
    (fun _ => "?") from_bytes_unchecked false false (as_bytes "0123456789abcdef")
    (fun _ => [demo_lost; (Ok (mkLease 1 1), demo_run)]) (fun _ _ => []) signal
    (fun ports p => if bool_decide (p <> 0 /\ p ∈ ports) then anyhow "in use" else Ok tt)
    (fun _ => Ok []) (fun _ => Ok "[]") (Ok true).

Definition demo_command : list (list byte) := [as_bytes "ls"; as_bytes "-l"].

Lemma demo_plan : exec_plan (demo_env None) "dev" None demo_command = Ok (demo_config, ["ls"; "-l"]).
Proof. vm_compute. reflexivity. Qed.

Lemma demo_passed : passed (Ok (mkConsoleFrame CONSOLE_DATA (as_bytes "hi")), [2]).
Proof. eexists. split; [reflexivity|]. split; [done|]. intros _. vm_compute. reflexivity. Qed.

Lemma demo_runs : runs_session demo_session demo_run.
Proof.
  intros request. unfold demo_run. rewrite run_session_starts by (split; cbn; auto).
  destruct (session_loop_passed [(Ok (mkConsoleFrame CONSOLE_DATA (as_bytes "hi")), [2])]
    (drop 1 (frames demo_session)) (req_rendered_bytes request)) as (n & out & E).
  { apply Forall_cons; split; [apply demo_passed|by apply Forall_nil]. }
  change (frames demo_session) with
    ([(Ok (mkConsoleFrame CONSOLE_DATA (as_bytes "hi")), [2])] ++ drop 1 (frames demo_session)).
  rewrite E. vm_compute. reflexivity.
Qed.

Lemma exec_requests_are_the_command_witness :
  let runs := snd (main_exec (demo_env None) "dev" None (Some "why") demo_command) in
  length runs = 2%nat /\ forall request, request ∈ runs ->
    req_session_id request = "0123456789abcdef" /\ req_context request = Some "why".
Proof.
  intros runs. split; [vm_compute; reflexivity|]. intros request Hq.
  destruct (exec_requests_are_the_command (demo_env None) "dev" None (Some "why") demo_command
    (fst (main_exec (demo_env None) "dev" None (Some "why") demo_command)) runs) as [H _];
    [by destruct (main_exec _ _ _ _ _)|].
  destruct (H request Hq) as (Hi & _ & Hc). split; [exact Hi|]. by apply Hc.
Defined.

(** One [exec] whose command exits with 3 after a lost connection, and one without a
    configuration. *)
Lemma exec_status_is_the_commands_witness :
  status (fst (main_exec (demo_env None) "dev" None None demo_command)) = Some 3 /\
  status (fst (main_exec (demo_env None) "absent" None None demo_command)) = Some 1.
Proof.
  split.
  - destruct (exec_status_is_the_commands (demo_env None) "dev" None None demo_command) as [H _].
    apply (H demo_config ["ls"; "-l"]
      [demo_lost] (mkLease 1 1) demo_session demo_run [] [(Ok (mkConsoleFrame CONSOLE_DATA (as_bytes "hi")), [2])]
      (Ok (Some 3)) [] []).
    + apply demo_plan.
    + reflexivity.
    + apply Forall_cons; split; [|by apply Forall_nil]. exists (mkLease 0 0). split; [done|]. by exists 0.
    + split; cbn; auto.
    + apply demo_runs.
    + apply Forall_cons; split; [apply demo_passed|by apply Forall_nil].
    + reflexivity.
    + intros code [= <-]. lia.
  - destruct (exec_status_is_the_commands (demo_env None) "absent" None None demo_command) as (_ & H & _).
    eapply H. vm_compute. reflexivity.
Defined.

Lemma forwards_are_the_specified_ones_witness :
  main_connect (demo_env (Some (Ok tt))) "dev" [] false None = Main (Ok tt) /\
  exists bound, run_local_forwarders (bind (demo_env None)) None ["5432:db:5432"] = (None, bound) /\
    NoDup (named_ports bound).
Proof.
  assert (Hb : forall c ports p, bind (demo_env c) ports p = Ok tt -> p <> 0 -> p ∉ ports).
  { intros c ports p. cbn. case_bool_decide; [done|]. intros _ Hp Hin. by destruct H. }
  assert (Hp : forall c ports p, bind (demo_env c) ports p <> Panic)
    by (intros c ports p; cbn; by case_bool_decide).
  split; [vm_compute; reflexivity|].
  destruct (forwards_are_the_specified_ones (demo_env None) "dev" [] false None demo_config)
    as (taken & bound & _ & Hnd & [(_ & _ & E)|(spec & more & err & _ & E & _)]);
    [apply Hb|apply Hp|vm_compute; reflexivity|done|..].
  - exists bound. split; [exact E|exact Hnd].
  - vm_compute in E. discriminate E.
Defined.
