(* ===== verification/ExecRetry.v ===== *)
(** * An exec session over lost connections: client and machine together

    [run_exec_with_reconnect] ([crates/client/src/quic.rs]) sends its request again
    on each connection, and [handler_step] ([ConsoleHandlers]) serves it.  Two
    things follow that neither shows alone: what becomes of a request the machine
    refuses, and of one whose session is gone. *)

From S2P Require Import Prelude Protocol ConsoleBuffer ConsoleStream ConsoleClient ExecSessions.
From S2P Require Import Reconnect ClientMain ConsoleHandlers.

(** What a client reads from a stream the machine dropped without writing. *)
Definition dropped_stream : list (Res ConsoleFrame * list Z) :=
  [(fst (ConsoleFrame_read_from (R := list byte) []), [])].

(** A turn on a connection whose console stream the machine drops. *)
Definition dropped (t : ExecTurn) : Prop :=
  exists lease env, fst t = Ok lease /\ Starts env /\ frames env = dropped_stream /\ runs_session env (snd t).

Lemma dropped_turn t request :
  dropped t -> snd t request = Ok (mkProgress Disconnected (req_rendered_bytes request)).
Proof.
  intros (lease & env & _ & Hst & Hf & Hrun). specialize (Hrun request).
  rewrite run_session_starts, Hf in Hrun by done. cbn in Hrun. by injection Hrun as <-.
Qed.

Section machine.
Context `{BC : BytesCrate} `{WA : WatchApi} {R : Type} `{AsyncRead R} `{!AsyncReadOk R} {W : Type} `{QS : QuicSend W}.

(** C28: A request the machine refuses is sent again for ever.  For a session that
    does not exist and a request without argv, or whose command does not spawn, the
    handler ends with the reason, having written nothing and changed nothing; the
    client takes the end of the stream for a lost connection: after any number of
    turns it has sent the same request in each, has invalidated each connection,
    and has not returned. *)
Theorem refused_requests_are_retried_forever (v : Env) request
    (o : Objects) (recv : R) (send : W) rest :
  ExecSessionRequest_ok request -> field_ok (ExecSessionRequest_to_bytes request) ->
  ahead recv (frame_bytes CONSOLE_EXEC (ExecSessionRequest_to_bytes request) ++ rest) ->
  mgr_sessions (managers o) !! req_session_id request = None ->
  (forall a argv, req_argv request = Some (a :: argv) -> exists x, env_spawn v (a :: argv) = Err x) ->
  (exists recv' x,
    handler_step v (Starting recv send) o =
      Some (ExecFinding request recv' send, o) /\
    handler_step v (ExecFinding request recv' send) o =
      Some (Finished (Err x), o)) /\
  forall turns, Forall dropped turns -> exists gone,
    run_exec_with_reconnect turns request = (None, replicate (length turns) request, gone) /\
    map Ok gone = map (fun t => Reconnect.generation <$> fst t) turns.
Proof.
  intros Hok Hf Ha Hnone Hspawn. split.
  - destruct (exec_request_reaches_its_session v request o recv send rest Hok Hf Ha)
      as (recv' & _ & E1 & E2).
    rewrite E1. unfold request_outcome in E2. rewrite Hnone in E2.
    destruct (req_argv request) as [[|a argv]|] eqn:Eargv; [eauto| |eauto].
    destruct (Hspawn a argv eq_refl) as [x Hx]. rewrite Hx in E2. eauto.
  - intros turns Hl. induction Hl as [|t turns Ht _ (gone & IH & Hg)]; [by exists []|].
    pose proof (dropped_turn t request Ht) as Hrun. destruct Ht as (lease & env & Hc & _).
    destruct t as [c run]. cbn in Hc, Hrun. subst c. exists (Reconnect.generation lease :: gone).
    cbn [run_exec_with_reconnect]. rewrite Hrun. cbn.
    replace (mkExecRequest _ _ _ _) with request by (by destruct request). rewrite IH. cbn. by rewrite Hg.
Qed.

Lemma find_or_spawn_new v request m command argv rt :
  mgr_sessions m !! req_session_id request = None -> req_argv request = Some (command :: argv) ->
  env_spawn v (command :: argv) = Ok rt ->
  exists m' k s, find_or_spawn (env_spawn v) request m = (Ok k, m') /\
    mgr_sessions m' !! req_session_id request = Some k /\ heap m' !! k = Some s /\
    runtime s = rt /\ ExecSessions.argv s = command :: argv.
Proof.
  intros Hn Ha Hs. unfold find_or_spawn, mbind, M_bind, mbind_st, mget, mlift, mput, mret, M_ret, mret_st.
  rewrite Hn, Ha. cbn [ok_or]. rewrite Hs. do 3 eexists. split; [reflexivity|]. cbn.
  by rewrite !lookup_insert_eq.
Qed.

(** A reconnection can run the command a second time.  When the connection is
    lost while a stream serves a session whose process has exited, the handler
    detaches and takes the session out of the manager; the client sends the same
    argv on its next connection, which finds no session and spawns the command
    again, as a session of its own that the client attaches to. *)
Theorem reconnection_can_run_the_command_again (v : Env) (o : Objects) att s result request lease run n turns
    command argv rt (recv : R) (send : W) code :
  heap (managers o) !! att_session att = Some s ->
  mgr_sessions (managers o) !! session_id s = Some (att_session att) ->
  exit_code (runtime s) = Some code ->
  req_session_id request = session_id s -> req_argv request = Some (command :: argv) ->
  run request = Ok (mkProgress Disconnected n) -> env_spawn v (command :: argv) = Ok rt ->
  let again := mkExecRequest (req_session_id request) (req_argv request) (req_context request) n in
  exists o1 o2 o3 k s',
    handler_step v (Detaching att result : Handler (R := R) (W := W)) o =
      Some (Removing (att_session att) result, o1) /\
    handler_step v (Removing (att_session att) result : Handler (R := R) (W := W)) o1 =
      Some (Finished result, o2) /\
    (exists r runs gone, run_exec_with_reconnect turns again = (r, runs, gone) /\
      run_exec_with_reconnect ((Ok lease, run) :: turns) request =
        (r, request :: runs, Reconnect.generation lease :: gone)) /\
    handler_step v (ExecFinding again recv send) o2 = Some (ExecAttaching k n recv send, o3) /\
    mgr_sessions (managers o3) !! req_session_id request = Some k /\
    heap (managers o3) !! k = Some s' /\ runtime s' = rt /\ ExecSessions.argv s' = command :: argv.
Proof.
  intros Hs Hm Hx Hid Hargv Hrun Hspawn again.
  set (s1 := mkExecSession (session_id s) (ExecSessions.argv s) (exec_context s) (runtime s) (ExecSessions.next_generation s)
    match ExecSessions.current s with
    | Some (g, t) => if g =? ExecSessions.generation att then None else Some (g, t)
    | None => None
    end).
  set (m1 := set_heap (managers o) (<[att_session att := s1]> (heap (managers o)))).
  assert (Hd : detach_locked (att_session att) (ExecSessions.generation att) (managers o) = (Ok true, m1)).
  { unfold detach_locked, mbind, M_bind, mbind_st, mget, mput, mret, M_ret, mret_st. rewrite Hs. cbn. by rewrite Hx. }
  set (m2 := set_sessions m1 (delete (session_id s) (mgr_sessions (managers o)))).
  assert (Hr : remove_if_same (session_id s) (att_session att) m1 = m2)
    by (unfold remove_if_same; by rewrite bool_decide_true).
  assert (Hnone : mgr_sessions m2 !! req_session_id again = None)
    by (cbn; rewrite Hid; apply lookup_delete_eq).
  destruct (find_or_spawn_new v again m2 command argv rt Hnone Hargv Hspawn) as (m3 & k & s' & Hf & Hk & Hs' & Hrt & Ha).
  exists (with_managers o m1), (with_managers o m2), (with_managers o m3), k, s'. split_and!; try done.
  - cbn. by rewrite Hd.
  - cbn. rewrite lookup_insert_eq. cbn. by rewrite Hr.
  - destruct (run_exec_with_reconnect turns again) as [[r runs] gone] eqn:E. exists r, runs, gone.
    split; [done|]. cbn [run_exec_with_reconnect]. rewrite Hrun. cbn [outcome rendered_bytes].
    fold again. by rewrite E.
  - cbn [handler_step]. cbn [managers with_managers]. by rewrite Hf.
Qed.
End machine.

(** ** Witnesses *)

#[local] Existing Instance bytes_crate.
#[local] Existing Instance list_QuicSend.

Definition lost_run (n : Z) : ExecSessionRequest -> Res ConsoleSessionProgress := fun request =>
  Ok (mkProgress Disconnected (req_rendered_bytes request + n)).

(** [exec --session missing], on one connection after another. *)
Definition missing : ExecSessionRequest := mkExecRequest "missing" None None 0.

Definition dropped_env : SessionEnv :=
  mkSessionEnv (Ok tt) (Ok tt) (Ok tt) None dropped_stream JoinCancelled.

Lemma dropped_env_turn c g : dropped (Ok (mkLease c g), lost_run 0).
Proof.
  exists (mkLease c g), dropped_env. split; [done|]. split.
  - split; cbn; auto.
  - split; [done|]. intros request. unfold snd, lost_run. rewrite Z.add_0_r. done.
Qed.

Lemma refused_requests_are_retried_forever_witness :
  exists gone, run_exec_with_reconnect
      [(Ok (mkLease 0 0), lost_run 0); (Ok (mkLease 1 1), lost_run 0)] missing =
    (None, [missing; missing], gone).
Proof.
  destruct (refused_requests_are_retried_forever (demo_env ClientFrame) missing
    (objects empty_server) (frame_bytes CONSOLE_EXEC (ExecSessionRequest_to_bytes missing)) [] [])
    as [_ Hc]; [|vm_compute; done|vm_compute; reflexivity|done|done|].
  - split; [done|]. split; [vm_compute; done|]. split; [done|vm_compute; done].
  - destruct (Hc [(Ok (mkLease 0 0), lost_run 0); (Ok (mkLease 1 1), lost_run 0)]) as (gone & E & _).
    + apply Forall_cons; split; [apply dropped_env_turn|].
      apply Forall_cons; split; [apply dropped_env_turn|by apply Forall_nil].
    + exists gone. exact E.
Defined.

(** The machine once the command of the session has exited. *)
Definition exited_session : ExecSession :=
  mkExecSession "s" ["sh"] None (demo_runtime (Some 0)) 2 (Some (1, 0%nat)).

Definition exited_objects : Objects :=
  mkObjects (mkManagers {["s" := 0%nat]} {[0%nat := exited_session]} ∅ 1 1) SharedConsoleManager_new [].

Definition demo_attachment : ExecSessionAttachment :=
  mkAttachment 0 (mkSub [] 0 (watch_subscribe (watch_new 0))) 0 1.

Lemma reconnection_can_run_the_command_again_witness :
  exists o2 o3 k s',
    handler_step (demo_env ClientFrame) (ExecFinding (mkExecRequest "s" (Some ["sh"]) None 9) [] []) o2 =
      Some (ExecAttaching (R := list byte) (W := list byte) k 9 [] [], o3) /\
    heap (managers o3) !! k = Some s' /\ ExecSessions.argv s' = ["sh"].
Proof.
  destruct (reconnection_can_run_the_command_again (R := list byte) (W := list byte)
    (demo_env ClientFrame) exited_objects demo_attachment exited_session (Ok tt) demo_request
    (mkLease 0 0) (lost_run 9) 9 [] "sh" [] (demo_runtime None) [] [] 0)
    as (o1 & o2 & o3 & k & s' & _ & _ & _ & E & _ & Hs & _ & Ha); [reflexivity..|].
  exists o2, o3, k, s'. split_and!; [exact E|exact Hs|exact Ha].
Defined.
