(* ===== verification/BatchExec.v ===== *)
(** * An exec whose input ends: client and machine together

    The input tasks of a session ([ClientInput]), the handler that serves its
    stream ([ConsoleHandlers]) and the receive loop ([ConsoleClient]): what becomes
    of an [exec] without a terminal once its input is at the end. *)

From S2P Require Import Prelude Protocol ConsoleBuffer ConsoleStream ConsoleClient ExecSessions.
From S2P Require Import Reconnect ClientMain ConsoleHandlers ExecRetry.
From S2P Require ClientInput.

Abbreviation client_frame := ClientInput.client_frame.
Abbreviation frames_data := ClientInput.frames_data.

(** What frames are on the wire, and what the machine makes of them. *)
Definition frames_bytes (fs : list ConsoleFrame) : list byte :=
  concat (map (fun f => frame_bytes (cs_ty f) (cs_payload f)) fs).

Definition input_of (f : ConsoleFrame) : list ConsoleInput :=
  match forward_client_frame f with Ok (Some input) => [input] | _ => [] end.

Definition inputs_of (fs : list ConsoleFrame) : list ConsoleInput := concat (map input_of fs).

(** The bytes among inputs. *)
Definition typed (ins : list ConsoleInput) : list byte :=
  concat (map (fun i => match i with Data data => data | Resize _ _ => [] end) ins).

Lemma client_frame_forwarded f :
  client_frame f -> exists input, forward_client_frame f = Ok (Some input) /\
    typed [input] = frames_data [f] /\ field_ok (cs_payload f) /\ 0 <= cs_ty f < 256.
Proof.
  intros [(chunk & Hc & ->)|(rows & cols & ->)].
  - exists (Data chunk). split; [done|]. rewrite ClientInput.frames_data_input. split; [cbn; apply app_nil_r|].
    split; [|done]. unfold field_ok, len. cbn. unfold ClientInput.STDIN_BUF in Hc. change U32 with 4294967296. lia.
  - unfold forward_client_frame, ClientInput.resize_frame, decode_resize, encode_resize, len. cbn [cs_ty cs_payload].
    rewrite length_app, !be_bytes_length. cbn [Z.eqb]. eexists. split; [reflexivity|]. split; [done|].
    split; [|done]. unfold field_ok, len. rewrite length_app, !be_bytes_length. done.
Qed.

Lemma frames_bytes_cons f fs rest :
  frames_bytes (f :: fs) ++ rest = frame_bytes (cs_ty f) (cs_payload f) ++ frames_bytes fs ++ rest.
Proof. unfold frames_bytes. cbn. by rewrite <- app_assoc. Qed.

Lemma typed_app a b : typed (a ++ b) = typed a ++ typed b.
Proof. unfold typed. by rewrite map_app, concat_app. Qed.

Lemma typed_inputs fs : Forall client_frame fs -> typed (inputs_of fs) = frames_data fs.
Proof.
  induction 1 as [|f fs Hf _ IH]; [done|].
  change (f :: fs) with ([f] ++ fs). rewrite ClientInput.frames_data_app, <- IH.
  destruct (client_frame_forwarded f Hf) as (input & E & Ht & _). rewrite <- Ht.
  unfold inputs_of. cbn. unfold input_of at 1. rewrite E. apply (typed_app [input]).
Qed.

Section batch.
Context `{BC : BytesCrate} `{WA : WatchApi} {R : Type} `{AsyncRead R} `{!AsyncReadOk R} {W : Type} `{QS : QuicSend W}.

(** A stream that has the frames ahead passes their inputs on, one after another. *)
Lemma frames_are_read (hs : gmap nat (Handler (R := R) (W := W))) i att st send s fs rest o recv :
  Forall client_frame fs -> heap (managers o) !! att_session att = Some s -> ahead recv (frames_bytes fs ++ rest) ->
  exists recv', ahead recv' rest /\
    rtc server_step (mkServer o (<[i := ExecStreaming att st recv send]> hs))
      (mkServer (with_inputs o (ExecChannel (att_session att)) (inputs_of fs))
         (<[i := ExecStreaming att st recv' send]> hs)).
Proof.
  intros Hfs. revert o recv. induction Hfs as [|f fs Hf _ IH]; intros o recv Hs Ha.
  - exists recv. split; [exact Ha|]. unfold with_inputs. cbn. rewrite app_nil_r. by destruct o.
  - rewrite frames_bytes_cons in Ha. destruct (client_frame_forwarded f Hf) as (input & E & _ & Hfield & Hty).
    destruct (read_console_frame recv (cs_ty f) (cs_payload f) _ Hty Hfield Ha) as (recv1 & E1 & Ha1).
    destruct (IH (with_inputs o (ExecChannel (att_session att)) [input]) recv1 Hs Ha1) as (recv' & Ha' & Hr).
    exists recv'. split; [done|]. eapply rtc_l.
    + eapply (idle_step _ _ _ ClientFrame); [apply lookup_insert_eq|]. cbn. rewrite Hs, E1.
      replace (mkConsoleFrame (cs_ty f) (cs_payload f)) with f by (by destruct f). cbn. rewrite E. reflexivity.
    + rewrite insert_insert_eq. unfold inputs_of in *. cbn [map concat]. unfold input_of at 1. rewrite E.
      unfold with_inputs in *. cbn in *. by rewrite <- app_assoc in Hr.
Qed.

(** C26: An [exec] without a terminal is cut off when its input ends.  Once the
    thread has read the end of the standard input, the client can write what is
    queued and finish its stream; the machine then passes all that was typed to the
    process, in order, and ends the handler of the stream with success although the
    process runs: the session stays, detached, with no exit frame sent.  The client
    takes the end of the stream for a lost connection and reconnects. *)
Theorem exec_without_terminal_is_cut_off s k c (v : Server) i att st (recv : R) (send : W) x :
  ClientInput.input_reachable s -> ClientInput.sendings s !! k = Some c ->
  ClientInput.rx_open c = true -> ClientInput.resize_tx c = false -> ClientInput.threads s !! k = Some ClientInput.Gone ->
  server_reachable v -> handlers v !! i = Some (ExecStreaming att st recv send) ->
  heap (managers (objects v)) !! att_session att = Some x -> exit_code (runtime x) = None ->
  ahead recv (frames_bytes (ClientInput.written c ++ ClientInput.queue c)) ->
  (exists s' c', rtc ClientInput.input_step s s' /\ ClientInput.sendings s' !! k = Some c' /\
     ClientInput.finished c' = true /\ ClientInput.written c' = ClientInput.written c ++ ClientInput.queue c) /\
  (exists v' x' ins, rtc server_step v v' /\ handlers v' = <[i := Finished (Ok tt)]> (handlers v) /\
     inputs (objects v') = inputs (objects v) ++ map (pair (ExecChannel (att_session att))) ins /\
     typed ins = ClientInput.read_by k (ClientInput.reads s) /\
     heap (managers (objects v')) !! att_session att = Some x' /\ exit_code (runtime x') = None /\
     mgr_sessions (managers (objects v')) = mgr_sessions (managers (objects v)) /\
     (forall g t, ExecSessions.current x' = Some (g, t) -> g <> ExecSessions.generation att)) /\
  (forall env run request shown, Starts env -> Forall passed shown -> frames env = shown ++ dropped_stream ->
     runs_session env run -> exists n, run request = Ok (mkProgress Disconnected n)).
Proof.
  intros Hs Hc Hx Hrt Ht Hv Hi Hheap Hrun Ha.
  pose proof (ClientInput.input_reachable_ok s Hs) as Hok.
  destruct (ClientInput.io_pair _ Hok _ _ _ Ht Hc) as [Hopen _ _ Htx _]. specialize (Hopen Hx).
  cbn in Hopen. rewrite app_nil_r in Hopen.
  destruct (ClientInput.input_reachable_frames s Hs) as [Hfs _]. specialize (Hfs _ _ Hc).
  split_and!.
  - destruct (ClientInput.queue_is_written s k c Hc Hx) as (s' & Hr & _ & Hc'); [by apply Htx|done|].
    eexists s', _. split_and!; [exact Hr|exact Hc'|done|done].
  - destruct v as [o hs]. cbn in *.
    destruct (frames_are_read hs i att st send x _ [] o recv Hfs Hheap) as (recv' & Ha' & Hr); [by rewrite app_nil_r|].
    rewrite insert_id in Hr by done.
    destruct (ended_stream_detaches (mkServer (with_inputs o (ExecChannel (att_session att))
        (inputs_of (ClientInput.written c ++ ClientInput.queue c))) (<[i := ExecStreaming att st recv' send]> hs))
        i att st recv' send x) as (v' & x' & Hr' & Hh & Hrel & Hrt');
      [apply lookup_insert_eq|exact Hheap|right; exact Ha'|].
    exists v', x', (inputs_of (ClientInput.written c ++ ClientInput.queue c)).
    assert (Hex : exit_code (runtime x') = None) by (by rewrite Hrt'). destruct Hrel.
    split_and!; [by etrans|by rewrite Hh; cbn; rewrite insert_insert_eq|done| |done|done|by auto|done].
    by rewrite typed_inputs, Hopen.
  - intros env run request shown Hst Hsh Hf Hrs. specialize (Hrs request).
    rewrite run_session_starts, Hf in Hrs by done.
    destruct (session_loop_passed shown dropped_stream (req_rendered_bytes request) Hsh) as (n & out & E).
    rewrite E in Hrs. cbn in Hrs. injection Hrs as <-. eauto.
Qed.
End batch.

(** ** Witness *)

#[local] Existing Instance bytes_crate.
#[local] Existing Instance list_QuicSend.

(** [echo date | vault exec sh], whose thread has read all there is. *)
Definition demo_piped : ClientInput.Input :=
  let s := ClientInput.start_session false false None ClientInput.input_start in
  let s := ClientInput.run_thread 0 Panic s in
  let s := ClientInput.run_thread 0 (Ok (as_bytes "date")) s in
  let s := ClientInput.run_thread 0 Panic s in
  ClientInput.run_thread 0 (Ok []) s.

Definition demo_channel : ClientInput.Sending :=
  ClientInput.mkSending true true false false [ClientInput.input_frame (as_bytes "date")] [] false.

Lemma demo_piped_reachable : ClientInput.input_reachable demo_piped.
Proof. unfold demo_piped. repeat apply ClientInput.run_thread_reachable. apply ClientInput.first_session. Qed.

Definition batch_moves : list Move :=
  let go := Go 0 ClientFrame in
  [Connect 0 (exec_startup ++ frames_bytes (ClientInput.queue demo_channel)); go; go; go].

Definition demo_batch : DemoServer := default empty_server (run batch_moves empty_server).

Lemma demo_batch_reachable : server_reachable demo_batch.
Proof. eapply (run_reachable batch_moves empty_server); [apply sr_init|vm_compute; reflexivity]. Qed.

Lemma exec_without_terminal_is_cut_off_witness :
  exists v', rtc server_step demo_batch v' /\ handlers v' !! 0%nat = Some (Finished (Ok tt)) /\
    exists x, heap (managers (objects v')) !! 0%nat = Some x /\ exit_code (runtime x) = None.
Proof.
  edestruct (exec_without_terminal_is_cut_off (R := list byte) (W := list byte) demo_piped 0 demo_channel
    demo_batch 0) as (_ & (v' & x' & _ & Hr & Hh & _ & _ & Hx & He & _) & _);
    [exact demo_piped_reachable|vm_compute; reflexivity|done|done|vm_compute; reflexivity
    |exact demo_batch_reachable|vm_compute; reflexivity|vm_compute; reflexivity|done|vm_compute; reflexivity|].
  exists v'. split; [exact Hr|]. split; [by rewrite Hh, lookup_insert_eq|].
  exists x'. split; [exact Hx|exact He].
Defined.
