(* ===== verification/Machines.v ===== *)
(** * The Machines API as the admin tool uses it ([crates/admin/src/machines.rs]
    and the waiting loops of [tenant.rs])

    JSON values and the parts of a machine's configuration the tool reads and
    rewrites, what it concludes from health checks, how it classifies errors, and
    its three waiting loops.  HTTP answers and the clock are parameters. *)

From stdpp Require Import numbers.
From S2P Require Import Prelude Text.

(** ** JSON ([serde_json::Value], objects sorted by key) *)

#[local] Set Warnings "-register-all".

(** [Number]: an unsigned or a negative integer of 64 bits, or a float by its bits. *)
Inductive Number := PosInt (n : Z) | NegInt (n : Z) | Float (bits : Z).

Inductive Value :=
| VNull
| VBool (b : bool)
| VNumber (n : Number)
| VString (s : string)
| VArray (items : list Value)
| VObject (fields : list (string * Value)).

(** Induction over the values nested in arrays and objects. *)
Section value_ind.
Context (P : Value -> Prop).
Context (Pnull : P VNull) (Pbool : forall b, P (VBool b)) (Pnumber : forall n, P (VNumber n))
  (Pstring : forall s, P (VString s)) (Parray : forall items, Forall P items -> P (VArray items))
  (Pobject : forall fields, Forall (fun '(_, v) => P v) fields -> P (VObject fields)).

Fixpoint Value_nested_ind (v : Value) : P v :=
  match v with
  | VNull => Pnull
  | VBool b => Pbool b
  | VNumber n => Pnumber n
  | VString s => Pstring s
  | VArray items =>
      Parray items ((fix go l : Forall P l := match l with
        | [] => Forall_nil_2 P
        | x :: l => Forall_cons_2 P x l (Value_nested_ind x) (go l)
        end) items)
  | VObject fields =>
      Pobject fields ((fix go l : Forall (fun '(_, v) => P v) l := match l with
        | [] => Forall_nil_2 _
        | (k, x) :: l => Forall_cons_2 (fun '(_, v) => P v) (k, x) l (Value_nested_ind x) (go l)
        end) fields)
  end.
End value_ind.

(** [Map::insert] of a map ordered by key. *)
Fixpoint obj_insert (key : string) (v : Value) (fields : list (string * Value)) : list (string * Value) :=
  match fields with
  | [] => [(key, v)]
  | (k, x) :: rest =>
      if bool_decide (k = key) then (key, v) :: rest
      else if str_leb key k then (key, v) :: (k, x) :: rest
      else (k, x) :: obj_insert key v rest
  end.

Fixpoint obj_get (key : string) (fields : list (string * Value)) : option Value :=
  match fields with
  | [] => None
  | (k, x) :: rest => if bool_decide (k = key) then Some x else obj_get key rest
  end.

Definition as_object (v : Value) : option (list (string * Value)) :=
  match v with VObject fields => Some fields | _ => None end.

Definition as_str (v : Value) : option string :=
  match v with VString s => Some s | _ => None end.

Definition as_array (v : Value) : option (list Value) :=
  match v with VArray items => Some items | _ => None end.

Definition as_u64 (v : Value) : option Z :=
  match v with VNumber (PosInt n) => Some n | _ => None end.

(** [serde_json::to_value] of a map of strings. *)
Definition metadata_value (metadata : gmap string string) : Value :=
  VObject (fold_right (fun '(k, s) fields => obj_insert k (VString s) fields) [] (map_to_list metadata)).

(** ** Machines and their configuration *)

Record ImageRef := mkImageRef {
  repository : option string;
  tag : option string;
  digest : option string;
}.

(** Timestamps are milliseconds. *)
Record MachineEvent := mkEvent {
  event_type : option string;
  status : option string;
  timestamp : option Z;
}.

Record Machine := mkMachine {
  id : string;
  name : option string;
  state : string;
  region : option string;
  instance_id : option string;
  private_ip : option string;
  created_at : option string;
  updated_at : option string;
  image_ref : option ImageRef;
  config : Value;
  checks : Value;
  events : list MachineEvent;
}.

(** [Machine::metadata]. *)
Definition config_metadata (config : Value) : gmap string string :=
  match (obj ← as_object config; m ← obj_get "metadata" obj; as_object m) : option _ with
  | Some m => list_to_map (omap (fun '(k, v) => match as_str v with Some s => Some (k, s) | None => None end) m)
  | None => ∅
  end.

Definition metadata (machine : Machine) : gmap string string := config_metadata (config machine).

Definition with_metadata (config : Value) (metadata : gmap string string) : Res Value :=
  obj ← ok_or "machine config is not an object" (as_object config);
  Ok (VObject (obj_insert "metadata" (metadata_value metadata) obj)).

Definition config_image (config : Value) : option string :=
  obj ← as_object config; image ← obj_get "image" obj; as_str image.

Definition with_image (config : Value) (image : string) : Res Value :=
  obj ← ok_or "machine config is not an object" (as_object config);
  Ok (VObject (obj_insert "image" (VString image) obj)).

(** ** Managed machines *)

Definition TENANT_ID_KEY : string := "fly_vault.tenant_id".
Definition MANAGED_BY_KEY : string := "fly_vault.managed_by".
Definition MANAGED_BY_VALUE : string := "fly-vault-admin".

(** What [list_managed_machines_with_options] keeps of the API's answer. *)
Definition is_managed_with (include_destroyed : bool) (machine : Machine) : bool :=
  bool_decide (metadata machine !! MANAGED_BY_KEY = Some MANAGED_BY_VALUE)
  && match metadata machine !! TENANT_ID_KEY with Some _ => true | None => false end
  && (include_destroyed
      || negb (bool_decide (state machine = "destroyed") || bool_decide (state machine = "deleted"))).

Definition is_managed : Machine -> bool := is_managed_with false.

(** ** Calls

    How the API answers a call that changes what it holds: the call takes effect,
    is refused, or takes effect with its answer lost. *)

Inductive Reply := Applied | Refused (e : Error) | Lost (e : Error).

Definition call {S} (reply : Reply) (effect : S -> S) : M S unit := fun r =>
  match reply with
  | Applied => (Ok tt, effect r)
  | Refused e => (Err e, r)
  | Lost e => (Err e, effect r)
  end.

(** ** Health checks *)

Fixpoint collect_statuses (v : Value) : list string :=
  match v with
  | VObject fields =>
      (match obj_get "status" fields with Some (VString s) => [s] | _ => [] end) ++
      concat (map (fun '(_, nested) => collect_statuses nested) fields)
  | VArray items => concat (map collect_statuses items)
  | _ => []
  end.

Definition status_passes (status : string) : bool :=
  let s := to_ascii_lowercase status in
  bool_decide (s = "passing") || bool_decide (s = "passed") || bool_decide (s = "healthy")
  || bool_decide (s = "ok").

Definition checks_are_passing (checks : Value) : option bool :=
  match collect_statuses checks with
  | [] => None
  | statuses => Some (forallb status_passes statuses)
  end.

(** ** Errors *)

Definition REQUEST_TIMEOUT : Z := 408.

Inductive MachineAction := Stop | DeleteMachine | DeleteVolume.

Inductive MachineActionDisposition := AlreadyApplied | Retryable | Fatal.

(** The first [ApiError] of the chain, which is what [downcast_ref] finds. *)
Definition api_status (err : Error) : option Z :=
  match find (fun c => match c with ApiError _ _ => true | _ => false end) err with
  | Some (ApiError status _) => Some status
  | _ => None
  end.

Definition is_wait_timeout (err : Error) : bool := bool_decide (api_status err = Some REQUEST_TIMEOUT).

Definition classify_machine_action_error (action : MachineAction) (err : Error) : MachineActionDisposition :=
  match api_status err with
  | None => Fatal
  | Some status =>
      if existsb (Z.eqb status) [408; 429; 502; 503; 504; 500] then Retryable
      else if status =? 404 then AlreadyApplied
      else if (status =? 409) || (status =? 422) then
        match action with Stop => AlreadyApplied | DeleteMachine | DeleteVolume => Fatal end
      else Fatal
  end.

(** ** Waiting *)

(** [wait_for_state]: the API waits at most a minute at a time; [reply k] is its
    answer to the [k]-th request.  Out of fuel is a panic. *)
Fixpoint wait_loop (fuel : nat) (reply : nat -> Res unit) (k : nat) (remaining : Z) : Res unit :=
  match fuel with
  | O => Panic
  | S fuel =>
      let chunk := Z.min remaining 60 in
      match reply k with
      | Ok _ => Ok tt
      | Err err =>
          if (chunk <? remaining) && is_wait_timeout err
          then wait_loop fuel reply (S k) (remaining - chunk)
          else Err err
      | Panic => Panic
      end
  end.

(** Durations are in milliseconds. *)
Definition wait_for_state (reply : nat -> Res unit) (timeout : Z) : Res unit :=
  let remaining := Z.max (timeout / 1000) 1 in
  wait_loop (Z.to_nat remaining) reply 0 remaining.

(** [wait_for_health]: [poll k] is the machine fetched in the [k]-th turn and
    [clock k] the time then; a turn that goes on sleeps two seconds. *)
Fixpoint health_loop (fuel : nat) (machine_id : string) (poll : nat -> Res Machine) (clock : nat -> Z)
    (deadline : Z) (k : nat) : Res unit :=
  match fuel with
  | O => Panic
  | S fuel =>
      machine ← with_context ("fetch machine " +:+ machine_id) (poll k);
      if negb (bool_decide (state machine = "started")) then
        anyhow ("machine " +:+ machine_id +:+ " left started state during health check: " +:+ state machine)
      else
        match checks_are_passing (checks machine) with
        | None | Some true => Ok tt
        | Some false =>
            if deadline <=? clock k then
              anyhow ("machine " +:+ machine_id +:+ " checks failed to pass before timeout")
            else health_loop fuel machine_id poll clock deadline (S k)
        end
  end.

Definition poll_fuel (duration : Z) : nat := S (Z.to_nat (duration / 2000) + 1).

Definition wait_for_health (machine_id : string) (poll : nat -> Res Machine) (clock : nat -> Z)
    (timeout : Z) : Res unit :=
  health_loop (poll_fuel timeout) machine_id poll clock timeout 0.

Fixpoint soak_loop (fuel : nat) (machine_id : string) (poll : nat -> Res Machine) (clock : nat -> Z)
    (deadline : Z) (k : nat) : Res unit :=
  match fuel with
  | O => Panic
  | S fuel =>
      if clock k <? deadline then
        machine ← with_context ("fetch machine " +:+ machine_id +:+ " during soak") (poll k);
        if negb (bool_decide (state machine = "started")) then
          anyhow ("machine " +:+ machine_id +:+ " crashed during soak window (state=" +:+ state machine +:+ ")")
        else if bool_decide (checks_are_passing (checks machine) = Some false) then
          anyhow ("machine " +:+ machine_id +:+ " failed checks during soak window")
        else soak_loop fuel machine_id poll clock deadline (S k)
      else Ok tt
  end.

Definition verify_soak_window (machine_id : string) (poll : nat -> Res Machine) (clock : nat -> Z)
    (soak : Z) : Res unit :=
  if soak =? 0 then Ok tt else soak_loop (poll_fuel soak) machine_id poll clock soak 0.

(** ** Usage facts *)

Definition DEFAULT_VOLUME_SIZE_GIB : Z := 30.

Record MountedVolumeFact := mkVolumeFact {
  volume_id : string;
  volume_name : option string;
  mount_path : option string;
  size_gib : Z;
}.

Record MachineUsageFact := mkUsageFact {
  fact_machine_id : string;
  fact_state : string;
  fact_region : option string;
  fact_instance_id : option string;
  started_at : option string;
  stopped_at : option string;
  deleted_at : option string;
  fact_created_at : option string;
  fact_updated_at : option string;
  fact_metadata : gmap string string;
  volumes : list MountedVolumeFact;
}.

(** A mount that names its volume; the rest of the object is optional. *)
Definition mounted_volume (volume_sizes : gmap string Z) (mount : list (string * Value)) : option MountedVolumeFact :=
  let text := fun key => v ← obj_get key mount; s ← as_str v; trimmed_nonempty s in
  volume_id ← text "volume";
  let size := v ← obj_get "size_gb" mount; n ← as_u64 v; Some (as_u32 n) in
  let size := match volume_sizes !! volume_id with Some n => Some n | None => size end in
  Some (mkVolumeFact volume_id (text "name") (text "path") (default DEFAULT_VOLUME_SIZE_GIB size)).

Definition mounted_volume_facts_with_sizes (machine : Machine) (volume_sizes : gmap string Z) :
    list MountedVolumeFact :=
  match (obj ← as_object (config machine); mounts ← obj_get "mounts" obj; as_array mounts) : option _ with
  | Some mounts => omap (mounted_volume volume_sizes) (omap as_object mounts)
  | None => []
  end.

Definition mounted_volume_facts (machine : Machine) : list MountedVolumeFact :=
  mounted_volume_facts_with_sizes machine ∅.

Definition mounted_volume_ids (machine : Machine) : list string := map volume_id (mounted_volume_facts machine).

(** [as_deref().map(str::trim).unwrap_or_default().to_ascii_lowercase()]. *)
Definition normalized (o : option string) : string := to_ascii_lowercase (default "" (trim <$> o)).

(** When a machine last started, stopped and was deleted. *)
Definition Lifecycle : Type := option string * option string * option string.

Section lifecycle.
(** [format_event_timestamp], which the [time] crate computes. *)
Context (format_event_timestamp : Z -> option string).

Definition record_event (times : Lifecycle) (event : MachineEvent) : Lifecycle :=
  match timestamp event ≫= format_event_timestamp with
  | None => times
  | Some at_ =>
      let '(started_at, stopped_at, deleted_at) := times in
      let event_type := normalized (event_type event) in
      let status := normalized (status event) in
      let among := fun s l => existsb (String.eqb s) l in
      (if among event_type ["start"] || among status ["started"] then Some at_ else started_at,
       if among event_type ["stop"; "suspend"] || among status ["stopped"; "suspended"] then Some at_ else stopped_at,
       if among event_type ["destroy"; "delete"] || among status ["destroyed"; "deleted"] then Some at_ else deleted_at)
  end.

Definition lifecycle_usage_timestamps_from_events (machine : Machine) : Lifecycle :=
  fold_left record_event (events machine) (None, None, None).

Definition or_else {A} (o fallback : option A) : option A := match o with Some _ => o | None => fallback end.

Definition lifecycle_usage_timestamps (machine : Machine) : Lifecycle :=
  let '(started_at, stopped_at, deleted_at) := lifecycle_usage_timestamps_from_events machine in
  let event_at := or_else (updated_at machine) (created_at machine) in
  let state := to_ascii_lowercase (trim (state machine)) in
  if bool_decide (state = "started") then (or_else started_at event_at, stopped_at, deleted_at)
  else if bool_decide (state = "stopped") then (started_at, or_else stopped_at event_at, deleted_at)
  else if bool_decide (state = "destroyed") || bool_decide (state = "deleted")
    then (started_at, stopped_at, or_else deleted_at event_at)
  else (started_at, stopped_at, deleted_at).

Definition usage_fact_with_volume_sizes (machine : Machine) (volume_sizes : gmap string Z) : MachineUsageFact :=
  let '(started_at, stopped_at, deleted_at) := lifecycle_usage_timestamps machine in
  mkUsageFact (id machine) (state machine) (region machine) (instance_id machine) started_at stopped_at deleted_at
    (created_at machine) (updated_at machine) (metadata machine)
    (mounted_volume_facts_with_sizes machine volume_sizes).
End lifecycle.

(** ** Lemmas *)

Lemma call_Ok {S} reply (f : S -> S) r u r' : call reply f r = (Ok u, r') -> r' = f r.
Proof. destruct reply; by intros [= <-]. Qed.

Lemma call_not_Panic {S} reply (f : S -> S) r : fst (call reply f r) <> Panic.
Proof. by destruct reply. Qed.

Lemma obj_get_insert key v fields : obj_get key (obj_insert key v fields) = Some v.
Proof.
  induction fields as [|[k x] rest IH]; cbn; [by rewrite bool_decide_true|].
  case_bool_decide; cbn; [by rewrite bool_decide_true|].
  destruct (str_leb key k); cbn; [by rewrite bool_decide_true|]. by rewrite bool_decide_false.
Qed.

Lemma obj_get_insert_ne key key' v fields :
  key <> key' -> obj_get key (obj_insert key' v fields) = obj_get key fields.
Proof.
  intros Hn. induction fields as [|[k x] rest IH]; cbn; [by rewrite bool_decide_false|].
  case_bool_decide as Hk; cbn; [subst; by rewrite bool_decide_false|].
  destruct (str_leb key' k); cbn; [by rewrite (bool_decide_false (key' = key))|]. by rewrite IH.
Qed.

(** The configuration sent for a machine runs the image asked for. *)
Lemma config_image_set c c1 c2 image md :
  with_image c image = Ok c1 -> with_metadata c1 md = Ok c2 -> config_image c2 = Some image.
Proof.
  unfold with_image, with_metadata. destruct c; cbn; try done. intros [= <-]. cbn. intros [= <-].
  unfold config_image. cbn. rewrite obj_get_insert_ne by done. by rewrite obj_get_insert.
Qed.

(** *** Metadata *)

(** [config_metadata] of an object of strings. *)
Lemma strings_lookup (fields : list (string * Value)) k :
  Forall (fun '(_, v) => exists s, v = VString s) fields ->
  (list_to_map (omap (fun '(k, v) => match as_str v with Some s => Some (k, s) | None => None end) fields)
    : gmap string string) !! k = obj_get k fields ≫= as_str.
Proof.
  induction fields as [|[k' v] fields IH]; intros Hf; [done|]. apply Forall_cons in Hf as [[s ->] Hf]. cbn.
  case_bool_decide as E; [subst; by rewrite lookup_insert_eq|]. rewrite lookup_insert_ne by done. by apply IH.
Qed.

Lemma obj_insert_strings k s fields :
  Forall (fun '(_, v) => exists s, v = VString s) fields ->
  Forall (fun '(_, v) => exists s, v = VString s) (obj_insert k (VString s) fields).
Proof.
  intros Hf. induction Hf as [|[k' v] fields Hv Hf IH]; cbn; [repeat constructor; eauto|].
  case_bool_decide; [|destruct (str_leb k k')]; repeat constructor; eauto.
Qed.

(** The metadata written to a configuration is the metadata read from it. *)
Lemma with_metadata_metadata config md c : with_metadata config md = Ok c -> config_metadata c = md.
Proof.
  unfold with_metadata. destruct (as_object config) as [obj|]; [|done]. intros [= <-].
  unfold config_metadata. cbn. rewrite obj_get_insert. cbn.
  rewrite <- (list_to_map_to_list md) at 2. apply map_eq. intros k.
  set (fields := fold_right _ _ _).
  assert (Hf : Forall (fun '(_, v) => exists s, v = VString s) fields /\
    obj_get k fields = VString <$> (list_to_map (map_to_list md) : gmap string string) !! k); cycle 1.
  { destruct Hf as [Hf Hg]. rewrite strings_lookup, Hg by done. by destruct (_ !! k). }
  subst fields. induction (map_to_list md) as [|[k' s] l [IH1 IH2]]; [done|]. cbn.
  split; [by apply obj_insert_strings|]. destruct (decide (k = k')) as [->|Hn].
  - by rewrite obj_get_insert, lookup_insert_eq.
  - by rewrite obj_get_insert_ne, lookup_insert_ne by done.
Qed.

Section waiting.
Context (machine_id : string) (poll : nat -> Res Machine) (clock : nat -> Z).
Context (poll_returns : forall k, poll k <> Panic).
Context (clock_sleeps : forall k, 2000 * Z.of_nat k <= clock k).

Lemma wait_returns reply timeout : (forall k, reply k <> Panic) -> wait_for_state reply timeout <> Panic.
Proof.
  intros Hr. unfold wait_for_state.
  assert (Hgen : forall fuel k remaining, 1 <= remaining -> (Z.to_nat remaining <= fuel)%nat ->
    wait_loop fuel reply k remaining <> Panic).
  { induction fuel as [|fuel IH]; intros k remaining H1 Hf; [lia|]. cbn.
    specialize (Hr k). destruct (reply k); [done| |done].
    destruct (Z.ltb_spec (Z.min remaining 60) remaining); cbn; [|done].
    destruct (is_wait_timeout e); [|done]. apply IH; lia. }
  apply Hgen; lia.
Qed.

Lemma health_returns timeout : wait_for_health machine_id poll clock timeout <> Panic.
Proof using poll_returns clock_sleeps.
  unfold wait_for_health, poll_fuel.
  assert (Hgen : forall fuel k, timeout < 2000 * (Z.of_nat fuel + Z.of_nat k - 1) -> (1 <= fuel)%nat ->
    health_loop fuel machine_id poll clock timeout k <> Panic).
  { induction fuel as [|fuel IH]; intros k Hk H1; [lia|]. cbn.
    specialize (poll_returns k). destruct (poll k) as [m|e|]; cbn; [|done..].
    case_bool_decide; cbn; [|done]. destruct (checks_are_passing (checks m)) as [[]|]; [done| |done].
    destruct (Z.leb_spec timeout (clock k)); [done|]. pose proof (clock_sleeps k).
    apply IH; [lia|]. destruct fuel; lia. }
  apply Hgen; [|lia]. pose proof (Z.div_mod timeout 2000 ltac:(lia)).
  pose proof (Z.mod_pos_bound timeout 2000 ltac:(lia)). lia.
Qed.

Lemma soak_returns soak : verify_soak_window machine_id poll clock soak <> Panic.
Proof using poll_returns clock_sleeps.
  unfold verify_soak_window, poll_fuel. destruct (soak =? 0); [done|].
  assert (Hgen : forall fuel k, soak < 2000 * (Z.of_nat fuel + Z.of_nat k - 1) -> (1 <= fuel)%nat ->
    soak_loop fuel machine_id poll clock soak k <> Panic).
  { induction fuel as [|fuel IH]; intros k Hk H1; [lia|]. cbn.
    pose proof (clock_sleeps k). destruct (Z.ltb_spec (clock k) soak); [|done].
    specialize (poll_returns k). destruct (poll k) as [m|e|]; cbn; [|done..].
    case_bool_decide; cbn; [|done]. case_bool_decide; [done|]. apply IH; [lia|]. destruct fuel; lia. }
  apply Hgen; [|lia]. pose proof (Z.div_mod soak 2000 ltac:(lia)).
  pose proof (Z.mod_pos_bound soak 2000 ltac:(lia)). lia.
Qed.

Lemma soak_loop_watches fuel deadline k :
  soak_loop fuel machine_id poll clock deadline k = Ok tt ->
  exists n, (k <= n)%nat /\ deadline <= clock n /\
    forall j, (k <= j < n)%nat -> clock j < deadline /\ exists m, poll j = Ok m /\ state m = "started" /\
      checks_are_passing (checks m) <> Some false.
Proof using Type.
  revert k. induction fuel as [|fuel IH]; intros k Hs; [done|]. cbn in Hs.
  destruct (Z.ltb_spec (clock k) deadline) as [Hk|Hk]; [|exists k; split; [lia|split; [done|]]; intros j Hj; lia].
  apply bind_Ok in Hs as (m & Hm & Hs). apply with_context_Ok in Hm.
  case_bool_decide as Est; [|done]. cbn in Hs. case_bool_decide as Ech; [done|].
  apply IH in Hs as (n & Hn & Hd & Hall). exists n. split; [lia|]. split; [done|].
  intros j Hj. destruct (decide (j = k)) as [->|Hne]; [|apply Hall; lia]. eauto.
Qed.

(** C37: the three waits of the admin tool end: when the API answers each request
    and each turn takes the two seconds it sleeps, none runs out of its bounded
    number of turns. *)
Theorem waits_end reply timeout :
  (forall k, reply k <> Panic) ->
  wait_for_state reply timeout <> Panic /\
  wait_for_health machine_id poll clock timeout <> Panic /\
  verify_soak_window machine_id poll clock timeout <> Panic.
Proof using poll_returns clock_sleeps.
  intros Hr. split; [by apply wait_returns|]. split; [apply health_returns|apply soak_returns].
Qed.

(** A soak window that passes was watched to its end, and at every look at the
    machine it was started and no check had failed. *)
Theorem soak_window_is_watched soak :
  soak <> 0 -> verify_soak_window machine_id poll clock soak = Ok tt ->
  exists n, soak <= clock n /\ forall j, (j < n)%nat ->
    clock j < soak /\ exists m, poll j = Ok m /\ state m = "started" /\ checks_are_passing (checks m) <> Some false.
Proof using Type.
  intros Hz Hs. unfold verify_soak_window in Hs. rewrite (proj2 (Z.eqb_neq soak 0) Hz) in Hs.
  apply soak_loop_watches in Hs as (n & _ & Hd & Hall). exists n. split; [done|]. intros j Hj. apply Hall. lia.
Qed.
End waiting.

(** ** Witnesses *)

Definition demo_poll (k : nat) : Res Machine :=
  Ok (mkMachine "m1" None "started" None None None None None None VNull
        (VArray [VObject [("status", VString (if (k =? 0)%nat then "critical" else "passing"))]]) []).

Lemma waits_end_witness :
  wait_for_state (fun k => if (k =? 2)%nat then Ok tt else Err [ApiError 408 ""]) 180000 <> Panic /\
  wait_for_health "m1" demo_poll (fun k => 2000 * Z.of_nat k) 180000 <> Panic /\
  verify_soak_window "m1" demo_poll (fun k => 2000 * Z.of_nat k) 180000 <> Panic.
Proof.
  refine (waits_end "m1" demo_poll (fun k => 2000 * Z.of_nat k) _ _ _ 180000 _); [done|lia|].
  intros k. by destruct (k =? 2)%nat.
Defined.

Lemma soak_window_is_watched_witness :
  verify_soak_window "m1" (fun k => demo_poll (S k)) (fun k => 2000 * Z.of_nat k) 5000 = Ok tt /\
  exists n, 5000 <= 2000 * Z.of_nat n.
Proof.
  assert (E : verify_soak_window "m1" (fun k => demo_poll (S k)) (fun k => 2000 * Z.of_nat k) 5000 = Ok tt)
    by (vm_compute; reflexivity).
  split; [exact E|].
  destruct (soak_window_is_watched "m1" (fun k => demo_poll (S k)) (fun k => 2000 * Z.of_nat k) 5000 ltac:(done) E)
    as (n & Hn & _). exists n. exact Hn.
Defined.
