(* ===== verification/Rollout.v ===== *)
(** * Rolling out an image ([crates/admin/src/rollout.rs])

    The choice of canaries, the batches of the rolling stage, the update of one
    machine under a lease, and the rollback of a failed rollout.  The machines are
    a map from ids to what the API holds for them; each call takes effect, is
    refused, or takes effect with its answer lost, as the environment says.  The
    tasks of a batch work on different machines, so their interleaving is only
    visible in the order in which they complete. *)

From Stdlib Require Import Sorting.Sorted.
From stdpp Require Import numbers sorting.
From S2P Require Import Prelude Machines.

Record UpdateImageOptions := mkOptions {
  image : string;
  tenants : list string;
  all_tenants : bool;
  concurrency : nat;
  canary : nat;
  soak : Z;
  start_timeout : Z;
  health_timeout : Z;
}.

Record MachineSnapshot := mkSnapshot {
  machine_id : string;
  tenant_id : string;
  snap_name : option string;
  snap_region : option string;
  snap_metadata : gmap string string;
  snap_config : Value;
  current_version : string;
  previous_image : string;
}.

Record UpdateFailure := mkFailure { error : Error; rollback_target : option MachineSnapshot }.

(** ** Selecting the machines *)

Definition validate_selectors (options : UpdateImageOptions) : Res unit :=
  if all_tenants options && negb (bool_decide (tenants options = [])) then
    anyhow "use either --all-tenants or --tenant <id>..., not both"
  else if negb (all_tenants options) && bool_decide (tenants options = []) then
    anyhow "select tenants with --tenant <id>... or use --all-tenants"
  else Ok tt.

Definition of_tenants (ts : list string) (machine : Machine) : bool :=
  match metadata machine !! TENANT_ID_KEY with
  | Some tenant => existsb (String.eqb tenant) ts
  | None => false
  end.

Definition snapshot_from_machine (machine : Machine) : Res MachineSnapshot :=
  tenant_id ← ok_or ("machine " +:+ id machine +:+ " missing " +:+ TENANT_ID_KEY +:+ " metadata")
                (metadata machine !! TENANT_ID_KEY);
  if negb (bool_decide (default "" (metadata machine !! MANAGED_BY_KEY) = MANAGED_BY_VALUE)) then
    anyhow ("machine " +:+ id machine +:+ " not managed by fly-vault-admin")
  else
    current_version ← ok_or ("machine " +:+ id machine +:+ " missing instance_id") (instance_id machine);
    previous_image ← ok_or ("machine " +:+ id machine +:+ " config.image missing")
                       (config_image (config machine));
    Ok (mkSnapshot (id machine) tenant_id (name machine) (region machine) (metadata machine)
          (config machine) current_version previous_image).

Fixpoint collect_snapshots (machines : list Machine) : Res (list MachineSnapshot) :=
  match machines with
  | [] => Ok []
  | machine :: rest =>
      s ← snapshot_from_machine machine; ss ← collect_snapshots rest; Ok (s :: ss)
  end.

(** The order of [targets.sort_by]. *)
Definition snapshot_leb (left right : MachineSnapshot) : bool :=
  if bool_decide (tenant_id left = tenant_id right)
  then str_leb (machine_id left) (machine_id right)
  else str_leb (tenant_id left) (tenant_id right).

(** ** Canaries *)

(** The first loop of [select_canary_indices], from index [idx]. *)
Fixpoint pick_tenants (targets : list MachineSnapshot) (idx count : nat) (seen : list string)
    (picked : list nat) : list nat :=
  match targets with
  | [] => picked
  | snapshot :: rest =>
      if existsb (String.eqb (tenant_id snapshot)) seen then pick_tenants rest (S idx) count seen picked
      else
        let picked := picked ++ [idx] in
        if (length picked =? count)%nat then picked
        else pick_tenants rest (S idx) count (tenant_id snapshot :: seen) picked
  end.

(** The second loop, over the indices that are left. *)
Fixpoint pick_more (indices : list nat) (count : nat) (picked : list nat) : list nat :=
  match indices with
  | [] => picked
  | idx :: rest =>
      if (length picked =? count)%nat then picked
      else if existsb (Nat.eqb idx) picked then pick_more rest count picked
      else pick_more rest count (picked ++ [idx])
  end.

Definition select_canary_indices (targets : list MachineSnapshot) (count : nat) : list nat :=
  if (count =? 0)%nat || bool_decide (length targets = 0%nat) then []
  else
    let picked := pick_tenants targets 0 count [] [] in
    if (length picked =? count)%nat then picked else pick_more (seq 0 (length targets)) count picked.

(** The targets whose index is chosen, and the others, in order. *)
Fixpoint split_indices (chosen : list nat) (idx : nat) (targets : list MachineSnapshot) :
    list MachineSnapshot * list MachineSnapshot :=
  match targets with
  | [] => ([], [])
  | snapshot :: rest =>
      let '(canaries, remaining) := split_indices chosen (S idx) rest in
      if existsb (Nat.eqb idx) chosen then (snapshot :: canaries, remaining)
      else (canaries, snapshot :: remaining)
  end.

(** ** Batches *)

(** [queue_by_tenant], a map ordered by tenant. *)
Fixpoint push_back (snapshot : MachineSnapshot) (queues : list (string * list MachineSnapshot)) :
    list (string * list MachineSnapshot) :=
  match queues with
  | [] => [(tenant_id snapshot, [snapshot])]
  | (tenant, queue) :: rest =>
      if bool_decide (tenant = tenant_id snapshot) then (tenant, queue ++ [snapshot]) :: rest
      else if str_leb (tenant_id snapshot) tenant then (tenant_id snapshot, [snapshot]) :: (tenant, queue) :: rest
      else (tenant, queue) :: push_back snapshot rest
  end.

Definition queue_by_tenant (remaining : list MachineSnapshot) : list (string * list MachineSnapshot) :=
  fold_left (fun queues snapshot => push_back snapshot queues) remaining [].

(** One pass over the queues, with room for [room] more machines. *)
Fixpoint take_batch (room : nat) (queues : list (string * list MachineSnapshot)) :
    list MachineSnapshot * list (string * list MachineSnapshot) :=
  match queues with
  | [] => ([], [])
  | (tenant, queue) :: rest =>
      match room with
      | O => ([], queues)
      | S room' =>
          match queue with
          | [] => let '(batch, rest) := take_batch room rest in (batch, (tenant, []) :: rest)
          | snapshot :: queue =>
              let '(batch, rest) := take_batch room' rest in (snapshot :: batch, (tenant, queue) :: rest)
          end
      end
  end.

(** ** One machine *)

(** What the API holds for a machine. *)
Record Remote := mkRemote {
  r_config : Value;
  r_name : option string;
  r_region : option string;
  r_cordoned : bool;
  r_leased : bool;
}.

Definition set_config (name region : option string) (c : Value) (r : Remote) : Remote :=
  mkRemote c name region (r_cordoned r) (r_leased r).
Definition set_cordoned (b : bool) (r : Remote) : Remote :=
  mkRemote (r_config r) (r_name r) (r_region r) b (r_leased r).
Definition set_leased (b : bool) (r : Remote) : Remote :=
  mkRemote (r_config r) (r_name r) (r_region r) (r_cordoned r) b.

(** What the environment answers while one machine is updated or rolled back:
    the fetch at the start of a rollback, the lease, the calls, the waits. *)
Record Env := mkEnv {
  get_result : Res (option string);
  lease_result : Res unit;
  cordon_reply : Reply;
  update_reply : Reply;
  wait_reply : nat -> Res unit;
  health_poll : nat -> Res Machine;
  health_clock : nat -> Z;
  soak_poll : nat -> Res Machine;
  soak_clock : nat -> Z;
  uncordon_reply : Reply;
  uncordon_again : Reply;
  release_reply : Reply;
}.

(** The waits after an update. *)
Definition confirm (env : Env) (mid : string) (options : UpdateImageOptions) : M Remote unit :=
  _ ← mcontext ("wait started for machine " +:+ mid)
        (mlift (wait_for_state (wait_reply env) (start_timeout options)));
  _ ← mcontext ("health checks for machine " +:+ mid)
        (mlift (wait_for_health mid (health_poll env) (health_clock env) (health_timeout options)));
  _ ← mcontext ("soak window for machine " +:+ mid)
        (mlift (verify_soak_window mid (soak_poll env) (soak_clock env) (soak options)));
  mcontext ("uncordon machine " +:+ mid) (call (uncordon_reply env) (set_cordoned false)).

(** The part of [update_one_machine] up to the update request. *)
Definition request_update (env : Env) (snapshot : MachineSnapshot) (image : string) : M Remote unit :=
  let mid := machine_id snapshot in
  _ ← mcontext ("cordon machine " +:+ mid) (call (cordon_reply env) (set_cordoned true));
  config ← mlift (with_context ("set image for machine " +:+ mid) (with_image (snap_config snapshot) image));
  config ← mlift (with_context ("set metadata for machine " +:+ mid)
                    (with_metadata config (snap_metadata snapshot)));
  mcontext ("update image for machine " +:+ mid)
    (call (update_reply env) (set_config (snap_name snapshot) (snap_region snapshot) config)).

(** The end of both operations: uncordon after an error, then release the lease. *)
Definition release (env : Env) (mid : string) (operation_result : Res unit) : M Remote unit :=
  _ ← (if is_ok operation_result then mret tt
       else _ ← mtry (call (uncordon_again env) (set_cordoned false)); mret tt);
  release_result ← mtry (mcontext ("release lease for machine " +:+ mid)
                           (call (release_reply env) (set_leased false)));
  mlift (match operation_result, (release_result : Res unit) with
         | Ok _, Err err => Err err
         | r, _ => r
         end).

Definition update_one_machine (env : Env) (snapshot : MachineSnapshot) (image : string)
    (options : UpdateImageOptions) (r : Remote) : (MachineSnapshot + UpdateFailure) * Remote :=
  let mid := machine_id snapshot in
  let finish rollback_target '(operation_result, r) :=
    match release env mid operation_result r with
    | (Ok _, r) => (inl snapshot, r)
    | (Err error, r) => (inr (mkFailure error rollback_target), r)
    | (Panic, r) => (inr (mkFailure [Msg "rollout task join error: panic"] None), r)
    end in
  match with_context ("lease machine " +:+ mid) (lease_result env) with
  | Ok _ =>
      match request_update env snapshot image (set_leased true r) with
      | (Ok _, r) => finish (Some snapshot) (confirm env mid options r)
      | (e, r) => finish None (e, r)
      end
  | Err error => (inr (mkFailure error None), r)
  | Panic => (inr (mkFailure [Msg "rollout task join error: panic"] None), r)
  end.

(** [rollback_one_machine]: the configuration is the one the API holds now, with
    the snapshot's image. *)
Definition rollback_one_machine (env : Env) (snapshot : MachineSnapshot) (options : UpdateImageOptions) :
    M Remote unit :=
  let mid := machine_id snapshot in
  current_instance ← mlift (with_context ("fetch machine " +:+ mid +:+ " for rollback") (get_result env));
  current ← mget;
  _ ← mlift (ok_or ("machine " +:+ mid +:+ " missing instance_id for rollback") current_instance);
  _ ← mlift (with_context ("lease machine " +:+ mid +:+ " for rollback") (lease_result env));
  _ ← mmodify (set_leased true);
  operation_result ← mtry (
    _ ← mcontext ("cordon machine " +:+ mid) (call (cordon_reply env) (set_cordoned true));
    config ← mlift (with_context ("set rollback image for machine " +:+ mid)
                      (with_image (r_config current) (previous_image snapshot)));
    config ← mlift (with_context ("set metadata for machine " +:+ mid)
                      (with_metadata config (config_metadata (r_config current))));
    _ ← mcontext ("rollback update for machine " +:+ mid)
          (call (update_reply env) (set_config (r_name current) (r_region current) config));
    confirm env mid options);
  release env mid operation_result.

(** ** The rollout *)

Definition World : Type := gmap string Remote.

(** A machine the API does not know answers every request with a 404. *)
Definition no_machine : Error := [ApiError 404 ""].

Definition update_in (env : Env) (snapshot : MachineSnapshot) (options : UpdateImageOptions) (w : World) :
    (MachineSnapshot + UpdateFailure) * World :=
  match w !! machine_id snapshot with
  | Some r =>
      let '(result, r) := update_one_machine env snapshot (image options) options r in
      (result, <[machine_id snapshot := r]> w)
  | None => (inr (mkFailure (Msg ("lease machine " +:+ machine_id snapshot) :: no_machine) None), w)
  end.

Definition rollback_in (env : Env) (snapshot : MachineSnapshot) (options : UpdateImageOptions) (w : World) :
    Res unit * World :=
  match w !! machine_id snapshot with
  | Some r =>
      let '(result, r) := rollback_one_machine env snapshot options r in
      (result, <[machine_id snapshot := r]> w)
  | None => (Err (Msg ("fetch machine " +:+ machine_id snapshot +:+ " for rollback") :: no_machine), w)
  end.

(** [rollback]: the last updated first; the result of each is only printed. *)
Definition rollback (env : string -> Env) (updated : list MachineSnapshot) (options : UpdateImageOptions)
    (w : World) : World :=
  fold_left (fun w snapshot => snd (rollback_in (env (machine_id snapshot)) snapshot options w)) (rev updated) w.

Definition same_machine (a b : MachineSnapshot) : bool := String.eqb (machine_id a) (machine_id b).

Definition rollback_targets (updated : list MachineSnapshot) (failures : list UpdateFailure) :
    list MachineSnapshot :=
  fold_left (fun rollback_targets failure =>
    match rollback_target failure with
    | Some snapshot =>
        if existsb (same_machine snapshot) rollback_targets then rollback_targets
        else rollback_targets ++ [snapshot]
    | None => rollback_targets
    end) failures updated.

(** What a stage ends with: the machines updated, or the error of the rollout
    with the machines to roll back. *)
Definition Stage : Type := (list MachineSnapshot + Error * list MachineSnapshot) * World.

Fixpoint canary_stage (env : string -> Env) (options : UpdateImageOptions) (canaries updated : list MachineSnapshot)
    (w : World) : Stage :=
  match canaries with
  | [] => (inl updated, w)
  | snapshot :: rest =>
      match update_in (env (machine_id snapshot)) snapshot options w with
      | (inl _, w) => canary_stage env options rest (updated ++ [snapshot]) w
      | (inr failure, w) =>
          (inr (Msg "canary stage failed" :: error failure, rollback_targets updated [failure]), w)
      end
  end.

(** The tasks of a batch, in the order they complete. *)
Fixpoint run_batch (env : string -> Env) (options : UpdateImageOptions) (batch : list MachineSnapshot)
    (w : World) : list MachineSnapshot * list UpdateFailure * World :=
  match batch with
  | [] => ([], [], w)
  | snapshot :: rest =>
      let '(result, w) := update_in (env (machine_id snapshot)) snapshot options w in
      let '(updated, failures, w) := run_batch env options rest w in
      match result with
      | inl s => (s :: updated, failures, w)
      | inr failure => (updated, failure :: failures, w)
      end
  end.

(** The error of a batch: a line for each failure, with its outermost message. *)
Definition rolling_failed (show : Cause -> string) (failures : list UpdateFailure) : Error :=
  [Msg ("rolling stage failed:" +:+ eol +:+
        String.concat eol (map (fun failure => "- " +:+ display_error show (error failure)) failures))].

(** [completion]: the order in which the tasks of a batch complete. *)
Fixpoint rolling_loop (fuel : nat) (show : Cause -> string) (env : string -> Env)
    (completion : list MachineSnapshot -> list MachineSnapshot) (options : UpdateImageOptions)
    (queues : list (string * list MachineSnapshot)) (updated : list MachineSnapshot) (w : World) : Stage :=
  match fuel with
  | O => (inr ([], updated), w)
  | S fuel =>
      if forallb (fun '(_, queue) => bool_decide (length (queue : list MachineSnapshot) = 0%nat)) queues
      then (inl updated, w)
      else
        match take_batch (concurrency options) queues with
        | ([], _) => (inl updated, w)
        | (batch, queues) =>
            let '(done, failures, w) := run_batch env options (completion batch) w in
            let updated := updated ++ done in
            match failures with
            | [] => rolling_loop fuel show env completion options queues updated w
            | _ => (inr (rolling_failed show failures, rollback_targets updated failures), w)
            end
        end
  end.

Definition rolling_stage (show : Cause -> string) (env : string -> Env)
    (completion : list MachineSnapshot -> list MachineSnapshot) (options : UpdateImageOptions) (remaining updated : list MachineSnapshot) (w : World) : Stage :=
  rolling_loop (S (length remaining)) show env completion options (queue_by_tenant remaining) updated w.

(** The targets of a rollout, split into canaries and the rest. *)
Definition select_targets (options : UpdateImageOptions) (listed : Res (list Machine)) :
    Res (list MachineSnapshot * list MachineSnapshot) :=
  _ ← validate_selectors options;
  if (concurrency options =? 0)%nat then anyhow "--concurrency must be >= 1"
  else
    machines ← listed;
    let machines := List.filter is_managed machines in
    let machines := if all_tenants options then machines else List.filter (of_tenants (tenants options)) machines in
    if bool_decide (length machines = 0%nat) then anyhow "no target machines selected"
    else
      targets ← collect_snapshots machines;
      let targets := sort_by snapshot_leb targets in
      let canary_count := Nat.min (canary options) (length targets) in
      Ok (split_indices (select_canary_indices targets canary_count) 0 targets).

(** [update_image]; [env] is for the updates and [back] for the rollbacks. *)
Definition update_image (show : Cause -> string) (env back : string -> Env)
    (completion : list MachineSnapshot -> list MachineSnapshot) (options : UpdateImageOptions) (listed : Res (list Machine)) (w : World) : Res unit * World :=
  match select_targets options listed with
  | Ok (canaries, remaining) =>
      let stage :=
        match canary_stage env options canaries [] w with
        | (inl updated, w) => rolling_stage show env completion options remaining updated w
        | failed => failed
        end in
      match stage with
      | (inl _, w) => (Ok tt, w)
      | (inr (e, targets), w) => (Err e, rollback back targets options w)
      end
  | Err e => (Err e, w)
  | Panic => (Panic, w)
  end.

(** ** One machine: lemmas *)

(** The configuration a machine has. *)
Definition has_config (c : Value) (r : Remote) : Prop := r_config r = c.

Lemma keeps_call c reply f : (forall r, r_config (f r) = r_config r) -> keeps (has_config c) (call reply f).
Proof. intros Hf r Hr. unfold has_config. destruct reply; cbn; by rewrite ?Hf. Qed.

Lemma keeps_confirm c env mid options : keeps (has_config c) (confirm env mid options).
Proof.
  unfold confirm. repeat (apply keeps_bind; [auto with keeps|intros _]).
  by apply keeps_context, keeps_call.
Qed.

Lemma keeps_release c env mid op : keeps (has_config c) (release env mid op).
Proof.
  unfold release. apply keeps_bind.
  - destruct (is_ok op); [auto with keeps|]. apply keeps_bind; [by apply keeps_try, keeps_call|auto with keeps].
  - intros _. apply keeps_bind; [|auto with keeps]. by apply keeps_try, keeps_context, keeps_call.
Qed.

(** A successful operation was confirmed and its lease released. *)
Lemma release_Ok env mid op r u r' :
  release env mid op r = (Ok u, r') ->
  op = Ok tt /\ r_leased r' = false /\ r_cordoned r' = r_cordoned r /\ r_config r' = r_config r.
Proof.
  unfold release. intros Hr. destruct op as [[]|e|]; cbn [is_ok] in Hr.
  - apply mbind_run in Hr as [(v & r1 & Hl & Hr)|(x & _ & _ & Hx)]; [|done]. injection Hl as _ <-.
    apply mbind_run in Hr as [(rr & r1 & Hl & Hr)|(x & _ & _ & Hx)]; [|done]. apply mtry_inv in Hl.
    destruct rr as [[]|e|]; injection Hr as Hr <-; try done.
    + apply mcontext_Ok, call_Ok in Hl as ->. done.
    + unfold mcontext in Hl. pose proof (call_not_Panic (release_reply env) (set_leased false) r).
      destruct (call _ _ r) as [[]]; cbn in *; congruence.
  - apply mbind_run in Hr as [(v & r1 & _ & Hr)|(x & _ & _ & Hx)]; [|done].
    apply mbind_run in Hr as [(rr & r2 & _ & Hr)|(x & _ & _ & Hx)]; [|done]. destruct rr; by injection Hr.
  - apply mbind_run in Hr as [(v & r1 & _ & Hr)|(x & _ & _ & Hx)]; [|done].
    apply mbind_run in Hr as [(rr & r2 & _ & Hr)|(x & _ & _ & Hx)]; [|done]. destruct rr; by injection Hr.
Qed.

Lemma confirm_Ok env mid options r u r' : confirm env mid options r = (Ok u, r') -> r_cordoned r' = false.
Proof.
  unfold confirm. intros Hc.
  do 3 (apply mbind_run in Hc as [(? & ? & _ & Hc)|(? & _ & _ & Hx)]; [|done]).
  by apply mcontext_Ok, call_Ok in Hc as ->.
Qed.

(** What the update request left, when it was accepted. *)
Lemma request_update_Ok env s img r u r' :
  request_update env s img r = (Ok u, r') -> config_image (r_config r') = Some img.
Proof.
  unfold request_update. intros Hc.
  apply mbind_run in Hc as [(v & r1 & _ & Hc)|(x & _ & _ & Hx)]; [|done].
  apply mbind_run in Hc as [(c1 & r2 & Hl & Hc)|(x & _ & _ & Hx)]; [|done].
  injection Hl as H1 _. apply with_context_Ok in H1.
  apply mbind_run in Hc as [(c2 & r3 & Hl & Hc)|(x & _ & _ & Hx)]; [|done].
  injection Hl as H2 _. apply with_context_Ok in H2.
  apply mcontext_Ok, call_Ok in Hc as ->. cbn. by eapply config_image_set.
Qed.

(** A request that was not accepted changed nothing, unless its answer was lost. *)
Lemma request_update_failed env s img r x r' :
  (forall e, update_reply env <> Lost e) -> request_update env s img r = (x, r') -> is_ok x = false ->
  r_config r' = r_config r.
Proof.
  intros Hn Hc Hx. unfold request_update in Hc.
  assert (Hk : forall reply f, (forall q, r_config (f q) = r_config q) ->
    forall msg, r_config (snd (mcontext msg (call reply f) r)) = r_config r).
  { intros reply f Hf msg. apply (keeps_context (has_config (r_config r))); [by apply keeps_call|done]. }
  specialize (Hk (cordon_reply env) (set_cordoned true) ltac:(done) ("cordon machine " +:+ machine_id s)).
  apply mbind_run in Hc as [(v & r1 & Hl & Hc)|(y & Hl & _ & _)]; rewrite Hl in Hk; [|done]. cbn in Hk.
  apply mbind_run in Hc as [(c1 & r2 & Hl2 & Hc)|(y & Hl2 & _ & _)]; injection Hl2 as _ <-; [|done].
  apply mbind_run in Hc as [(c2 & r2 & Hl2 & Hc)|(y & Hl2 & _ & _)]; injection Hl2 as _ <-; [|done].
  unfold mcontext, call in Hc. destruct (update_reply env) eqn:Eu; injection Hc as <- <-; try done.
  by destruct (Hn e).
Qed.

(** The environment's answers arrive, and its clock runs. *)
Record EnvOk (env : Env) : Prop := {
  eo_lease : lease_result env <> Panic;
  eo_wait : forall k, wait_reply env k <> Panic;
  eo_health : forall k, health_poll env k <> Panic;
  eo_soak : forall k, soak_poll env k <> Panic;
  eo_health_clock : forall k, 2000 * Z.of_nat k <= health_clock env k;
  eo_soak_clock : forall k, 2000 * Z.of_nat k <= soak_clock env k;
}.

Lemma confirm_returns env mid options r x r' :
  EnvOk env -> confirm env mid options r = (x, r') -> x <> Panic.
Proof.
  intros [] E ->. unfold confirm in E.
  apply mbind_Panic in E as [E|(? & ? & _ & E)].
  { apply mcontext_Panic in E. injection E as E _. by apply wait_returns in E. }
  apply mbind_Panic in E as [E|(? & ? & _ & E)].
  { apply mcontext_Panic in E. injection E as E _. by apply health_returns in E. }
  apply mbind_Panic in E as [E|(? & ? & _ & E)].
  { apply mcontext_Panic in E. injection E as E _. by apply soak_returns in E. }
  apply mcontext_Panic in E. eapply call_not_Panic. by rewrite E.
Qed.

Lemma release_returns env mid op r x r' :
  release env mid op r = (x, r') -> op <> Panic -> x <> Panic.
Proof.
  unfold release. intros Hr Hop ->.
  apply mbind_Panic in Hr as [Hr|(? & r1 & _ & Hr)].
  { destruct (is_ok op); [done|]. apply mbind_Panic in Hr as [Hr|(? & ? & _ & Hr)]; [|done].
    unfold mtry in Hr. pose proof (call_not_Panic (uncordon_again env) (set_cordoned false) r) as Hc.
    by destruct (call _ _ r) as [[]]. }
  apply mbind_Panic in Hr as [Hr|(rr & r2 & _ & Hr)].
  - unfold mtry in Hr. destruct (mcontext _ _ r1) as [[]] eqn:E; try done.
    apply mcontext_Panic in E. eapply call_not_Panic. by rewrite E.
  - destruct op, rr; by injection Hr.
Qed.

(** An update that succeeded. *)
Lemma update_one_Ok env s img options r s' r' :
  update_one_machine env s img options r = (inl s', r') ->
  s' = s /\ config_image (r_config r') = Some img /\ r_cordoned r' = false /\ r_leased r' = false.
Proof.
  unfold update_one_machine. destruct (with_context _ (lease_result env)) as [u|e|]; [|done..].
  destruct (request_update env s img (set_leased true r)) as [[u1|e|] r1] eqn:E1; intros Hu.
  2, 3: destruct (release _ _ _ r1) as [[u2|e2|] r2] eqn:E2; try done; by apply release_Ok in E2 as [? _].
  destruct (confirm env (machine_id s) options r1) as [x r2] eqn:E2.
  destruct (release _ _ _ r2) as [[u3|e3|] r3] eqn:E3; try done. injection Hu as <- <-.
  apply release_Ok in E3 as (-> & Hl & Hco & Hcf). split; [done|].
  rewrite Hl, Hco, Hcf. split; [|split; [by eapply confirm_Ok|done]].
  pose proof (keeps_confirm (r_config r1) env (machine_id s) options r1 eq_refl) as Hk.
  rewrite E2 in Hk. cbn in Hk. rewrite Hk. by eapply request_update_Ok.
Qed.

(** An update that failed reports its machine, or left its configuration alone. *)
Lemma update_one_failed env s img options r f r' :
  EnvOk env -> (forall e, update_reply env <> Lost e) ->
  update_one_machine env s img options r = (inr f, r') ->
  rollback_target f = Some s \/ (rollback_target f = None /\ r_config r' = r_config r).
Proof.
  intros HE Hn. unfold update_one_machine. pose proof (eo_lease env HE) as Hlp.
  destruct (lease_result env) as [u|e|]; cbn [with_context]; [|by intros [= <- <-]; right|done].
  destruct (request_update env s img (set_leased true r)) as [x r1] eqn:E1.
  assert (Hx : x <> Panic).
  { intros ->. unfold request_update in E1.
    apply mbind_Panic in E1 as [E1|(? & ? & _ & E1)].
    { apply mcontext_Panic in E1. eapply call_not_Panic. by rewrite E1. }
    apply mbind_Panic in E1 as [E1|(c & ? & _ & E1)].
    { injection E1 as E1 _. unfold with_image in E1. by destruct (snap_config s). }
    apply mbind_Panic in E1 as [E1|(? & ? & _ & E1)].
    { injection E1 as E1 _. unfold with_metadata in E1. by destruct c. }
    apply mcontext_Panic in E1. eapply call_not_Panic. by rewrite E1. }
  intros Hu. destruct x as [u1|e|]; [| |done].
  - destruct (confirm env (machine_id s) options r1) as [x r2] eqn:E2.
    apply confirm_returns in E2; [|done].
    destruct (release _ _ _ r2) as [[u3|e3|] r3] eqn:E3; [done|injection Hu as <- <-; by left|].
    by apply release_returns in E3.
  - pose proof (request_update_failed _ _ _ _ _ _ Hn E1 eq_refl) as Hc.
    pose proof (keeps_release (r_config r1) env (machine_id s) (Err e) r1 eq_refl) as Hk.
    destruct (release _ _ _ r1) as [[u3|e3|] r3] eqn:E3; [done| |by apply release_returns in E3].
    injection Hu as <- <-. right. split; [done|]. cbn in Hk. by rewrite Hk, Hc.
Qed.

(** A rollback whose calls all succeed puts the previous image back. *)
Record BackOk (env : Env) : Prop := {
  bo_get : exists v, get_result env = Ok (Some v);
  bo_lease : lease_result env = Ok tt;
  bo_cordon : cordon_reply env = Applied;
  bo_update : update_reply env = Applied;
  bo_env : EnvOk env;
}.

Lemma rollback_one_image env s options r fields :
  BackOk env -> r_config r = VObject fields ->
  exists fields', r_config (snd (rollback_one_machine env s options r)) = VObject fields' /\
    config_image (VObject fields') = Some (previous_image s).
Proof.
  intros [[v Hg] Hl Hc Hu HE] Hr. unfold rollback_one_machine.
  unfold mbind, M_bind. unfold mbind_st, mlift, mget, mmodify, mtry, mcontext.
  rewrite Hg, Hl, Hc, Hu, Hr. cbn [with_context ok_or with_image with_metadata as_object mbind Res_bind call r_config].
  set (fields' := obj_insert "metadata" _ _). set (r1 := set_config _ _ _ _).
  assert (Hi : config_image (VObject fields') = Some (previous_image s)).
  { unfold fields', config_image. cbn. rewrite obj_get_insert_ne by done. by rewrite obj_get_insert. }
  exists fields'. split; [|exact Hi].
  destruct (confirm env (machine_id s) options r1) as [x r2] eqn:E2.
  pose proof (keeps_confirm (r_config r1) env (machine_id s) options r1 eq_refl) as Hk. rewrite E2 in Hk.
  apply confirm_returns in E2; [|done].
  pose proof (keeps_release (r_config r1) env (machine_id s) x r2 Hk) as Hk2.
  destruct x; [| |done]; exact Hk2.
Qed.

(** ** The rollout: lemmas *)

Definition ids (l : list MachineSnapshot) : list string := machine_id <$> l.

Definition config_in (w : World) (s : MachineSnapshot) : option Value := r_config <$> w !! machine_id s.

(** The machine runs the image, takes traffic and is not leased. *)
Definition updated_in (img : string) (w : World) (s : MachineSnapshot) : Prop :=
  exists r, w !! machine_id s = Some r /\ config_image (r_config r) = Some img /\
    r_cordoned r = false /\ r_leased r = false.

(** Only the machines of [l] may differ. *)
Definition elsewhere (l : list string) (w w' : World) : Prop := forall i, i ∉ l -> w' !! i = w !! i.

Lemma elsewhere_trans l l' w w1 w2 :
  elsewhere l w w1 -> elsewhere l' w1 w2 -> elsewhere (l ++ l') w w2.
Proof.
  intros H1 H2 i Hi. rewrite elem_of_app in Hi. rewrite H2 by tauto. apply H1. tauto.
Qed.

Lemma elsewhere_perm l l' w w' : l ≡ₚ l' -> elsewhere l w w' -> elsewhere l' w w'.
Proof. intros Hp He i Hi. apply He. by rewrite Hp. Qed.

Lemma ids_app l k : ids (l ++ k) = ids l ++ ids k.
Proof. apply fmap_app. Qed.

Lemma ids_elem s l : s ∈ l -> machine_id s ∈ ids l.
Proof. apply list_elem_of_fmap_2. Qed.

Lemma ids_perm l k : l ≡ₚ k -> ids l ≡ₚ ids k.
Proof. apply fmap_Permutation. Qed.

Lemma elsewhere_config l w w' s : elsewhere l w w' -> machine_id s ∉ l -> config_in w' s = config_in w s.
Proof. intros He Hs. unfold config_in. by rewrite He. Qed.

Lemma elsewhere_updated l img w w' s :
  elsewhere l w w' -> machine_id s ∉ l -> updated_in img w s -> updated_in img w' s.
Proof. intros He Hs (r & Hr & Hu). exists r. by rewrite He. Qed.

(** In a list of distinct machines the id decides. *)
Lemma ids_inj l s t : NoDup (ids l) -> s ∈ l -> t ∈ l -> machine_id s = machine_id t -> s = t.
Proof.
  intros Hn Hs Ht E. apply list_elem_of_lookup in Hs as [i Hi]. apply list_elem_of_lookup in Ht as [j Hj].
  assert (i = j); [|congruence]. eapply (NoDup_lookup (ids l) i j (machine_id s)); [done|..].
  - unfold ids. by rewrite list_lookup_fmap, Hi.
  - unfold ids. rewrite list_lookup_fmap, Hj. cbn. by rewrite E.
Qed.

Lemma update_in_elsewhere env s options w : elsewhere [machine_id s] w (snd (update_in env s options w)).
Proof.
  intros i Hi. rewrite list_elem_of_singleton in Hi. unfold update_in.
  destruct (w !! machine_id s) as [r|]; [|done]. destruct (update_one_machine _ _ _ _ r). cbn.
  unfold World in *. by rewrite lookup_insert_ne.
Qed.

Lemma update_in_Ok env s options w s' w' :
  update_in env s options w = (inl s', w') -> s' = s /\ updated_in (image options) w' s.
Proof.
  unfold update_in. destruct (w !! machine_id s) as [r|]; [|done].
  destruct (update_one_machine _ _ _ _ r) as [[x|f] r'] eqn:E; [|done]. intros [= <- <-].
  apply update_one_Ok in E as (-> & Hi & Hc & Hl). split; [done|].
  exists r'. unfold World in *. by rewrite lookup_insert_eq.
Qed.

Lemma update_in_failed env s options w f w' :
  EnvOk env -> (forall e, update_reply env <> Lost e) -> update_in env s options w = (inr f, w') ->
  rollback_target f = Some s \/ (rollback_target f = None /\ config_in w' s = config_in w s).
Proof.
  intros HE Hn. unfold update_in. destruct (w !! machine_id s) as [r|] eqn:Er.
  - destruct (update_one_machine _ _ _ _ r) as [[x|f'] r'] eqn:E; [done|]. intros [= <- <-].
    apply update_one_failed in E as [Hf|[Hf Hc]]; [by left|right|done|done]. split; [done|].
    unfold config_in, World in *. by rewrite lookup_insert_eq, Er; cbn; rewrite Hc.
  - intros [= <- <-]. by right.
Qed.

Lemma update_in_target env s options w f w' t :
  update_in env s options w = (inr f, w') -> rollback_target f = Some t -> t = s.
Proof.
  unfold update_in. intros E Et. destruct (w !! machine_id s) as [r|]; [|by injection E as <- _].
  destruct (update_one_machine _ _ _ _ r) as [[x|f'] r'] eqn:Eu; [done|]. injection E as -> _.
  unfold update_one_machine in Eu.
  destruct (with_context _ _); [|by injection Eu as <- _|by injection Eu as <- _].
  destruct (request_update _ _ _ _) as [[u1|e1|] r1];
    [destruct (confirm _ _ _ r1) as [x2 r2]; destruct (release _ _ _ r2) as [[]]
    |destruct (release _ _ _ r1) as [[]]..]; try done; injection Eu as <- _; cbn in Et; congruence.
Qed.

(** *** Rolling back *)

Lemma rollback_in_elsewhere env s options w : elsewhere [machine_id s] w (snd (rollback_in env s options w)).
Proof.
  intros i Hi. rewrite list_elem_of_singleton in Hi. unfold rollback_in.
  destruct (w !! machine_id s) as [r|]; [|done]. destruct (rollback_one_machine _ _ _ r). cbn.
  unfold World in *. by rewrite lookup_insert_ne.
Qed.

(** The machine has a configuration that is an object. *)
Definition configured (w : World) (s : MachineSnapshot) : Prop :=
  exists fields, config_in w s = Some (VObject fields).

Definition image_in (w : World) (s : MachineSnapshot) : option string := config_in w s ≫= config_image.

Lemma image_configured w s img : image_in w s = Some img -> configured w s.
Proof.
  unfold image_in, configured. destruct (config_in w s) as [c|]; [|done]. cbn.
  destruct c; try done. eauto.
Qed.

Lemma rollback_spec back options l w :
  NoDup (ids l) -> (forall s, s ∈ l -> BackOk (back (machine_id s)) /\ configured w s) ->
  elsewhere (ids l) w (rollback back l options w) /\
  forall s, s ∈ l -> image_in (rollback back l options w) s = Some (previous_image s).
Proof.
  intros Hn Hall. unfold rollback.
  assert (Hgen : forall k w, NoDup (ids k) -> (forall s, s ∈ k -> BackOk (back (machine_id s)) /\ configured w s) ->
    let w' := fold_left (fun w s => snd (rollback_in (back (machine_id s)) s options w)) k w in
    elsewhere (ids k) w w' /\ forall s, s ∈ k -> image_in w' s = Some (previous_image s)).
  { clear. induction k as [|s k IH]; intros w Hn Hall; [by split; [|intros s Hs; inversion Hs]|].
    cbn [ids fmap list_fmap] in *. apply NoDup_cons in Hn as [Hs Hn]. cbn [fold_left].
    set (w1 := snd (rollback_in (back (machine_id s)) s options w)).
    pose proof (rollback_in_elsewhere (back (machine_id s)) s options w) as He. fold w1 in He.
    assert (Hk : forall t, t ∈ k -> machine_id t ∉ [machine_id s]).
    { intros t Ht. rewrite list_elem_of_singleton. intros E. apply Hs. rewrite <- E. by apply ids_elem. }
    destruct (IH w1 Hn) as [He' Hi].
    { intros t Ht. destruct (Hall t ltac:(by right)) as [Hb (fields & Hf)]. split; [done|].
      exists fields. by rewrite (elsewhere_config [machine_id s] w w1 t He) by auto. }
    split; [exact (elsewhere_trans [machine_id s] (ids k) w w1 _ He He')|].
    intros t [->|Ht]%elem_of_cons; [|auto].
    unfold image_in. rewrite (elsewhere_config (ids k) w1 _ s He' Hs).
    destruct (Hall s ltac:(by left)) as [Hb (fields & Hf)].
    unfold w1, config_in, rollback_in in *. destruct (w !! machine_id s) as [r|]; [|done].
    cbn in Hf. injection Hf as Hf.
    destruct (rollback_one_image (back (machine_id s)) s options r fields Hb Hf) as (f' & Hc & Hi').
    destruct (rollback_one_machine _ _ _ r) as [x r']. cbn in Hc |- *. unfold World.
    rewrite lookup_insert_eq. cbn. by rewrite Hc. }
  assert (Hp : rev l ≡ₚ l) by (symmetry; apply Permutation_rev).
  destruct (Hgen (rev l) w) as [He Hi].
  - by rewrite (ids_perm _ _ Hp).
  - intros s Hs. apply Hall. by rewrite Hp in Hs.
  - split; [eapply elsewhere_perm; [apply ids_perm, Hp|exact He]|].
    intros s Hs. apply Hi. by rewrite Hp.
Qed.

Lemma existsb_same s l : existsb (same_machine s) l = true <-> machine_id s ∈ ids l.
Proof.
  rewrite existsb_exists. unfold same_machine, ids. rewrite list_elem_of_fmap. split.
  - intros (t & Ht & E%String.eqb_eq). exists t. split; [done|]. by apply list_elem_of_In.
  - intros (t & E & Ht). exists t. split; [by apply list_elem_of_In|]. by apply String.eqb_eq.
Qed.

Lemma rollback_targets_spec updated failures :
  NoDup (ids updated) ->
  let ts := rollback_targets updated failures in
  NoDup (ids ts) /\ (forall s, s ∈ updated -> s ∈ ts) /\
  (forall s, s ∈ ts -> s ∈ updated \/ exists f, f ∈ failures /\ rollback_target f = Some s) /\
  (forall f s, f ∈ failures -> rollback_target f = Some s -> machine_id s ∈ ids ts).
Proof.
  intros Hn. unfold rollback_targets. revert updated Hn.
  induction failures as [|f fs IH]; intros upd Hn; cbn [fold_left].
  - split_and!; try done; [by left|]. intros f s Hf. inversion Hf.
  - set (upd1 := match rollback_target f with Some s => _ | None => _ end).
    assert (H1 : NoDup (ids upd1) /\ (forall s, s ∈ upd -> s ∈ upd1) /\
      (forall s, s ∈ upd1 -> s ∈ upd \/ rollback_target f = Some s) /\
      (forall s, rollback_target f = Some s -> machine_id s ∈ ids upd1)).
    { subst upd1. destruct (rollback_target f) as [s|]; [|by split_and!; try done; left].
      destruct (existsb (same_machine s) upd) eqn:E.
      - split_and!; try done; [by left|]. intros t [= <-]. by apply existsb_same.
      - assert (Hs : machine_id s ∉ ids upd) by (rewrite <- existsb_same, E; done).
        split_and!.
        + rewrite ids_app. apply NoDup_app. split; [done|]. split; [|apply NoDup_singleton].
          intros i Hi Hin. apply list_elem_of_singleton in Hin as ->. done.
        + intros t Ht. apply elem_of_app. by left.
        + intros t [Ht|Ht]%elem_of_app; [by left|]. apply list_elem_of_singleton in Ht as ->. by right.
        + intros t [= <-]. apply ids_elem, elem_of_app. right. by left. }
    destruct H1 as (Hn1 & Hs1 & Ho1 & Hf1). destruct (IH upd1 Hn1) as (Hn2 & Hs2 & Ho2 & Hf2).
    split_and!; [done|by auto|..].
    + intros s Hs. apply Ho2 in Hs as [Hs|(g & Hg & E)].
      * apply Ho1 in Hs as [Hs|E]; [by left|right]. exists f. split; [by left|done].
      * right. exists g. split; [by right|done].
    + intros g s [->|Hg]%elem_of_cons E; [|by eapply Hf2].
      apply Hf1 in E. apply list_elem_of_fmap in E as (t & Et & Ht). rewrite Et. by apply ids_elem, Hs2.
Qed.

(** *** Batches *)

Definition contents (queues : list (string * list MachineSnapshot)) : list MachineSnapshot :=
  concat (map snd queues).

(** One queue per tenant, holding machines of that tenant. *)
Definition QueuesOk (queues : list (string * list MachineSnapshot)) : Prop :=
  NoDup (map fst queues) /\ StronglySorted (fun a b => str_leb a b = true) (map fst queues) /\
  forall tenant queue s, (tenant, queue) ∈ queues -> s ∈ queue -> tenant_id s = tenant.

Lemma take_batch_spec room queues batch rest :
  take_batch room queues = (batch, rest) ->
  contents queues ≡ₚ batch ++ contents rest /\ (length batch <= room)%nat /\
  map fst rest = map fst queues /\
  (forall tenant queue s, (tenant, queue) ∈ rest -> s ∈ queue -> exists q, (tenant, q) ∈ queues /\ s ∈ q) /\
  ((forall tenant queue s, (tenant, queue) ∈ queues -> s ∈ queue -> tenant_id s = tenant) ->
     (tenant_id <$> batch) `sublist_of` map fst queues) /\
  ((0 < room)%nat -> contents queues <> [] -> batch <> []).
Proof.
  revert room batch rest. induction queues as [|[tenant queue] queues IH]; intros room batch rest Ht; cbn in Ht.
  - injection Ht as <- <-. split; [done|]. split; [cbn; lia|]. split; [done|]. split; [eauto|].
    split; [intros _; apply sublist_nil_l|done].
  - destruct room as [|room].
    { injection Ht as <- <-. split; [done|]. split; [cbn; lia|]. split; [done|]. split; [eauto|].
      split; [intros _; apply sublist_nil_l|]. lia. }
    destruct queue as [|s queue].
    + destruct (take_batch (S room) queues) as [b r] eqn:E. injection Ht as <- <-.
      destruct (IH _ _ _ E) as (Hp & Hl & Hf & Hm & Hs & Hne). split_and!; try done.
      * cbn. by rewrite Hf.
      * intros tn q x [[= -> ->]|Hin]%elem_of_cons Hx; [inversion Hx|].
        destruct (Hm _ _ _ Hin Hx) as (q' & Hq' & Hx'). exists q'. split; [by right|done].
      * intros Hw. cbn. apply sublist_cons, Hs. intros tn q x Hin. apply Hw. by right.
    + destruct (take_batch room queues) as [b r] eqn:E. injection Ht as <- <-.
      destruct (IH _ _ _ E) as (Hp & Hl & Hf & Hm & Hs & Hne). split_and!; try done.
      * unfold contents in *. cbn. rewrite Hp. rewrite !app_assoc. constructor.
        apply Permutation_app_tail. apply Permutation_app_comm.
      * cbn. lia.
      * cbn. by rewrite Hf.
      * intros tn q x [[= -> ->]|Hin]%elem_of_cons Hx; [exists (s :: queue); split; [by left|by right]|].
        destruct (Hm _ _ _ Hin Hx) as (q' & Hq' & Hx'). exists q'. split; [by right|done].
      * intros Hw. cbn. rewrite (Hw tenant (s :: queue) s) by (by left). constructor. apply Hs.
        intros tn q x Hin. apply Hw. by right.
Qed.

Lemma take_batch_ok room queues batch rest :
  QueuesOk queues -> take_batch room queues = (batch, rest) ->
  QueuesOk rest /\ NoDup (tenant_id <$> batch) /\ (length batch <= room)%nat /\
  contents queues ≡ₚ batch ++ contents rest /\ ((0 < room)%nat -> contents queues <> [] -> batch <> []).
Proof.
  intros (Hn & Hso & Hw) Ht. destruct (take_batch_spec _ _ _ _ Ht) as (Hp & Hl & Hf & Hm & Hs & Hne).
  split_and!; try done.
  - split; [by rewrite Hf|]. split; [by rewrite Hf|]. intros tenant queue s Hin Hq. destruct (Hm _ _ _ Hin Hq) as (q & Hq' & Hs').
    eauto.
  - eapply sublist_NoDup; [exact Hn|by apply Hs].
Qed.

Lemma push_back_spec s queues :
  QueuesOk queues -> QueuesOk (push_back s queues) /\ contents (push_back s queues) ≡ₚ s :: contents queues /\
  (forall k, k ∈ map fst (push_back s queues) -> k = tenant_id s \/ k ∈ map fst queues).
Proof.
  intros (Hn & Hso & Hw). induction queues as [|[tenant queue] queues IH]; cbn.
  - split; [split; [apply NoDup_singleton|split; [repeat constructor|]]|split; [done|]].
    + intros tn q x Hin Hx. apply list_elem_of_singleton in Hin as [= -> ->].
      by apply list_elem_of_singleton in Hx as ->.
    + intros k [->|Hk]%elem_of_cons; [by left|inversion Hk].
  - cbn in Hn, Hso. apply NoDup_cons in Hn as [Hk Hn]. inversion Hso as [|? ? Hso1 Hall]; subst.
    assert (Hw' : forall tn q x, (tn, q) ∈ queues -> x ∈ q -> tenant_id x = tn)
      by (intros tn q x Hin; apply Hw; by right).
    destruct (IH Hn Hso1 Hw') as ((Hn1 & Hs1 & Hw1) & Hp1 & Hk1). clear IH.
    rewrite Forall_forall in Hall. case_bool_decide as Et; [|destruct (str_leb _ _) eqn:El].
    + split; [split; [by apply NoDup_cons|split; [by constructor; [|apply Forall_forall]|]]|split].
      * intros tn q x [[= -> ->]|Hin]%elem_of_cons Hx; [|by eapply Hw'].
        apply elem_of_app in Hx as [Hx|Hx]; [eapply Hw; [by left|done]|].
        by apply list_elem_of_singleton in Hx as ->.
      * unfold contents. cbn. rewrite <- app_assoc. cbn. symmetry. apply Permutation_middle.
      * auto.
    + assert (Hnew : tenant_id s ∉ tenant :: map fst queues).
      { intros [E|Hin]%elem_of_cons; [by destruct Et|]. destruct Et.
        apply str_leb_antisym; [by apply Hall|done]. }
      split; [split; [cbn; by repeat (apply NoDup_cons; split)|split]|split].
      * constructor; [done|]. apply Forall_forall. intros k [->|Hin]%elem_of_cons; [done|].
        eapply str_leb_trans; [exact El|by apply Hall].
      * intros tn q x [[= -> ->]|Hin]%elem_of_cons Hx; [by apply list_elem_of_singleton in Hx as ->|].
        by eapply Hw.
      * done.
      * cbn. intros k [->|Hin]%elem_of_cons; [by left|by right].
    + split; [split; [|split]|split].
      * cbn. apply NoDup_cons. split; [|done]. intros [E|Hin]%Hk1; [by destruct Et|done].
      * cbn. constructor; [done|]. apply Forall_forall. intros k [->|Hin]%Hk1; [|by apply Hall].
        destruct (str_leb_total tenant (tenant_id s)); congruence.
      * intros tn q x [[= -> ->]|Hin]%elem_of_cons Hx; [eapply Hw; [by left|done]|by eapply Hw1].
      * unfold contents in *. cbn. rewrite Hp1. symmetry. apply Permutation_middle.
      * cbn. intros k [->|[->|Hin]%Hk1]%elem_of_cons; [right; by left|by left|right; by right].
Qed.

Lemma queue_by_tenant_spec l :
  QueuesOk (queue_by_tenant l) /\ contents (queue_by_tenant l) ≡ₚ l.
Proof.
  unfold queue_by_tenant.
  assert (Hgen : forall l qs, QueuesOk qs ->
    let qs' := fold_left (fun queues snapshot => push_back snapshot queues) l qs in
    QueuesOk qs' /\ contents qs' ≡ₚ contents qs ++ l).
  { clear. induction l as [|s l IH]; intros qs Hq; cbn; [by rewrite app_nil_r|].
    destruct (push_back_spec s qs Hq) as (Hq1 & Hp & _). destruct (IH _ Hq1) as [Hq2 Hp2].
    split; [done|]. rewrite Hp2, Hp. cbn. apply Permutation_middle. }
  apply (Hgen l []). split; [constructor|split; [constructor|]]. intros tn q s Hin. inversion Hin.
Qed.

(** *** The stages *)

Section stages.
Context (show : Cause -> string) (env : string -> Env) (options : UpdateImageOptions)
  (completion : list MachineSnapshot -> list MachineSnapshot).
Context (completion_perm : forall l, completion l ≡ₚ l).

(** The environment answers, and no answer to an update request is lost. *)
Definition answers : Prop := forall i, EnvOk (env i) /\ forall e, update_reply (env i) <> Lost e.

(** What a stage that works on [todo], after [upd], guarantees. *)
Definition stage_ok (upd todo : list MachineSnapshot) (w : World) (st : Stage) : Prop :=
  elsewhere (ids todo) w (snd st) /\
  match fst st with
  | inl upd' => upd' ≡ₚ upd ++ todo /\ forall s, s ∈ todo -> updated_in (image options) (snd st) s
  | inr (e, ts) =>
      e <> [] /\ NoDup (ids ts) /\ (forall s, s ∈ upd -> s ∈ ts) /\ (forall s, s ∈ ts -> s ∈ upd ++ todo) /\
      (answers -> forall s, s ∈ todo -> s ∈ ts \/ config_in (snd st) s = config_in w s)
  end.

(** A failure over machines that are all known gives the rollback its targets. *)
Lemma failed_targets (upd dn todo : list MachineSnapshot) failures w w' :
  NoDup (ids (upd ++ todo)) -> NoDup (ids (upd ++ dn)) -> (forall s, s ∈ dn -> s ∈ todo) ->
  (forall f s, f ∈ failures -> rollback_target f = Some s -> s ∈ todo) ->
  (answers -> forall s, s ∈ todo ->
     s ∈ dn \/ (exists f, f ∈ failures /\ rollback_target f = Some s) \/ config_in w' s = config_in w s) ->
  let ts := rollback_targets (upd ++ dn) failures in
  NoDup (ids ts) /\ (forall s, s ∈ upd -> s ∈ ts) /\ (forall s, s ∈ ts -> s ∈ upd ++ todo) /\
  (answers -> forall s, s ∈ todo -> s ∈ ts \/ config_in w' s = config_in w s).
Proof.
  intros Hn Hnd Hdn Hf Hall ts.
  destruct (rollback_targets_spec (upd ++ dn) failures Hnd) as (Hts & Hin & Hout & Hfs). fold ts in Hts, Hin, Hout, Hfs.
  assert (Hsub : forall s, s ∈ ts -> s ∈ upd ++ todo).
  { intros s Hs. apply elem_of_app. apply Hout in Hs as [[Hs|Hs]%elem_of_app|(f & Hff & E)]; eauto. }
  split; [done|]. split; [intros s Hs; apply Hin, elem_of_app; by left|]. split; [done|].
  intros Ha s Hs. destruct (Hall Ha s Hs) as [Hd|[(f & Hff & E)|Hc]]; [left|left|by right].
  - apply Hin, elem_of_app. by right.
  - pose proof (Hfs _ _ Hff E) as Hid. apply list_elem_of_fmap in Hid as (t & Et & Ht).
    rewrite (ids_inj (upd ++ todo) s t); [done|done|apply elem_of_app; by right|by apply Hsub|done].
Qed.

Lemma canary_stage_ok canaries upd w :
  NoDup (ids (upd ++ canaries)) -> stage_ok upd canaries w (canary_stage env options canaries upd w).
Proof.
  revert upd w. induction canaries as [|s rest IH]; intros upd w Hn; cbn [canary_stage].
  - split; [done|]. cbn. rewrite app_nil_r. split; [done|]. intros s Hs. inversion Hs.
  - destruct (update_in (env (machine_id s)) s options w) as [[s'|f] w1] eqn:E;
      pose proof (update_in_elsewhere (env (machine_id s)) s options w) as He; rewrite E in He; cbn [snd] in He.
    + apply update_in_Ok in E as [_ Hu].
      assert (Hn' : NoDup (ids ((upd ++ [s]) ++ rest))) by (by rewrite <- app_assoc).
      destruct (IH (upd ++ [s]) w1 Hn') as [He1 Hst].
      assert (Hs : machine_id s ∉ ids rest).
      { rewrite ids_app in Hn. apply NoDup_app in Hn as (_ & _ & Hn). cbn in Hn. by apply NoDup_cons in Hn as [? _]. }
      split; [exact (elsewhere_trans [machine_id s] (ids rest) _ _ _ He He1)|].
      destruct (canary_stage env options rest (upd ++ [s]) w1) as [[upd'|[e ts]] w2]; cbn [fst snd] in *.
      * destruct Hst as [Hp Hg]. split; [by rewrite Hp, <- app_assoc|].
        intros t [->|Ht]%elem_of_cons; [|auto]. by eapply elsewhere_updated.
      * destruct Hst as (Hee & Hts & Hin & Hout & Hun). split_and!; [done..|intros t Ht| |].
        { apply Hin, elem_of_app. by left. }
        { intros t Ht. apply Hout in Ht. by rewrite <- app_assoc in Ht. }
        { intros Ha t [->|Ht]%elem_of_cons; [left; apply Hin, elem_of_app; right; by left|].
          destruct (Hun Ha t Ht) as [|Hc]; [by left|right]. rewrite Hc.
          apply (elsewhere_config [machine_id s]); [done|]. rewrite list_elem_of_singleton.
          intros Et. apply Hs. rewrite <- Et. by apply ids_elem. }
    + split; [eapply (elsewhere_trans [machine_id s] (ids rest)); [exact He|done]|]. cbn [fst snd]. split; [done|].
      pose proof (failed_targets upd [] (s :: rest) [f] w w1 Hn) as Hft. rewrite app_nil_r in Hft.
      apply Hft; [|by intros t Ht; inversion Ht| |].
      * rewrite ids_app in Hn. by apply NoDup_app in Hn as (? & _).
      * intros g t Hg Et. apply list_elem_of_singleton in Hg as ->.
        rewrite (update_in_target _ _ _ _ _ _ _ E Et). by left.
      * intros Ha t [->|Ht]%elem_of_cons; right.
        { destruct (Ha (machine_id s)) as [HE Hl].
          apply update_in_failed in E as [E|[_ E]]; [left; exists f; split; [by left|done]|by right|done|done]. }
        { right. apply (elsewhere_config [machine_id s]); [done|]. rewrite list_elem_of_singleton. intros Et.
          rewrite ids_app in Hn. apply NoDup_app in Hn as (_ & _ & Hn). cbn in Hn.
          apply NoDup_cons in Hn as [Hn _]. apply Hn. rewrite <- Et. by apply ids_elem. }
Qed.

Lemma run_batch_spec batch w dn failures w' :
  NoDup (ids batch) -> run_batch env options batch w = (dn, failures, w') ->
  elsewhere (ids batch) w w' /\ dn `sublist_of` batch /\
  (forall s, s ∈ dn -> updated_in (image options) w' s) /\ (failures = [] -> dn = batch) /\
  (forall f s, f ∈ failures -> rollback_target f = Some s -> s ∈ batch) /\
  (answers -> forall s, s ∈ batch ->
     s ∈ dn \/ (exists f, f ∈ failures /\ rollback_target f = Some s) \/ config_in w' s = config_in w s).
Proof.
  revert w dn failures w'. induction batch as [|s rest IH]; intros w dn fs w' Hn Hr; cbn [run_batch] in Hr.
  - injection Hr as <- <- <-. split_and!; [done|constructor| |done| |].
    + intros s Hs. inversion Hs.
    + intros f s Hf. inversion Hf.
    + intros _ s Hs. inversion Hs.
  - cbn [ids fmap list_fmap] in Hn. apply NoDup_cons in Hn as [Hs Hn].
    destruct (update_in (env (machine_id s)) s options w) as [res w1] eqn:E.
    destruct (run_batch env options rest w1) as [[dn1 fs1] w2] eqn:Er.
    destruct (IH _ _ _ _ Hn Er) as (He1 & Hsub & Hu & Hall & Hf & Ha). clear IH Er.
    pose proof (update_in_elsewhere (env (machine_id s)) s options w) as He. rewrite E in He. cbn [snd] in He.
    pose proof (elsewhere_trans [machine_id s] (ids rest) _ _ _ He He1) as He2. cbn [app] in He2.
    assert (Hkeep : forall t, t ∈ rest -> config_in w1 t = config_in w t).
    { intros t Ht. apply (elsewhere_config [machine_id s]); [done|]. rewrite list_elem_of_singleton.
      intros Et. apply Hs. rewrite <- Et. by apply ids_elem. }
    destruct res as [s'|f]; injection Hr as <- <- <-.
    + apply update_in_Ok in E as [-> Hg]. split_and!; try done.
      * by constructor.
      * intros t [->|Ht]%elem_of_cons; [exact (elsewhere_updated (ids rest) _ w1 w2 s He1 Hs Hg)|auto].
      * intros ->. by rewrite Hall.
      * intros f t Hin Et. right. eauto.
      * intros Han t [->|Ht]%elem_of_cons; [left; by left|].
        destruct (Ha Han t Ht) as [|[|Hc]]; [left; by right|by right; left|right; right].
        by rewrite Hc, Hkeep.
    + split_and!; try done.
      * by constructor.
      * intros g t [->|Hg]%elem_of_cons Et; [|right; eauto].
        rewrite (update_in_target _ _ _ _ _ _ _ E Et). by left.
      * intros Han t [->|Ht]%elem_of_cons.
        { right. destruct (Han (machine_id s)) as [HE Hl].
          apply update_in_failed in E as [E|[_ E]]; [left; exists f; split; [by left|done]|right|done|done].
          by rewrite (elsewhere_config (ids rest) w1 w2 s He1 Hs), E. }
        { destruct (Ha Han t Ht) as [Hd|[(g & Hg & Et)|Hc]]; [by left|right; left|right; right].
          - exists g. split; [by right|done].
          - by rewrite Hc, Hkeep. }
Qed.

Lemma forallb_empty queues :
  forallb (fun '(_, queue) => bool_decide (length (queue : list MachineSnapshot) = 0%nat))
    (queues : list (string * list MachineSnapshot)) = true <-> contents queues = [].
Proof.
  induction queues as [|[tenant queue] queues IH]; [done|]. unfold contents in *. cbn.
  rewrite andb_true_iff, IH, bool_decide_eq_true. split.
  - intros [Hq ->]. by destruct queue.
  - intros Hq. by destruct queue.
Qed.

Lemma rolling_loop_ok fuel queues upd w :
  (length (contents queues) < fuel)%nat -> (0 < concurrency options)%nat -> QueuesOk queues ->
  NoDup (ids (upd ++ contents queues)) ->
  stage_ok upd (contents queues) w (rolling_loop fuel show env completion options queues upd w).
Proof using completion_perm.
  revert queues upd w. induction fuel as [|fuel IH]; intros queues upd w Hf Hc Hq Hn; [lia|]. cbn [rolling_loop].
  destruct (forallb _ queues) eqn:Ee.
  { apply forallb_empty in Ee. rewrite Ee. split; [done|]. cbn. rewrite app_nil_r. split; [done|].
    intros s Hs. inversion Hs. }
  assert (Hne : contents queues <> []) by (intros E; apply forallb_empty in E; congruence).
  destruct (take_batch (concurrency options) queues) as [batch rest] eqn:Et.
  destruct (take_batch_ok _ _ _ _ Hq Et) as (Hq' & _ & _ & Hp & Hb). specialize (Hb Hc Hne).
  destruct batch as [|b0 batch0]; [done|]. set (batch := b0 :: batch0) in *.
  assert (Hbatch : completion batch ≡ₚ batch) by apply completion_perm.
  assert (Hn' : NoDup (ids (upd ++ batch ++ contents rest))).
  { by rewrite (ids_perm _ (upd ++ contents queues)) by (by rewrite Hp). }
  rewrite !ids_app in Hn'. apply NoDup_app in Hn' as (Hnu & Hnub & Hn').
  apply NoDup_app in Hn' as (Hnb & Hnbr & Hnr).
  assert (Hncb : NoDup (ids (completion batch))) by (by rewrite (ids_perm _ _ Hbatch)).
  destruct (run_batch env options (completion batch) w) as [[dn fs] w1] eqn:Er.
  destruct (run_batch_spec _ _ _ _ _ Hncb Er) as (He & Hsub & Hu & Hall & Hfs & Ha).
  assert (He' : elsewhere (ids batch) w w1) by (eapply elsewhere_perm; [apply ids_perm, Hbatch|done]).
  assert (Hperm : ids batch ++ ids (contents rest) ≡ₚ ids (contents queues))
    by (rewrite <- ids_app; apply ids_perm; by rewrite Hp).
  assert (Hin : forall s, s ∈ contents queues <-> s ∈ completion batch \/ s ∈ contents rest)
    by (intros s; by rewrite Hp, elem_of_app, Hbatch).
  assert (Hrest : forall s, s ∈ contents rest -> machine_id s ∉ ids batch)
    by (intros s Hs Hi; apply (Hnbr _ Hi); by apply ids_elem).
  destruct fs as [|f fs].
  - rewrite Hall in * by done.
    assert (Hn2 : NoDup (ids ((upd ++ completion batch) ++ contents rest))).
    { rewrite <- app_assoc. by rewrite (ids_perm _ (upd ++ contents queues)) by (by rewrite Hp, Hbatch). }
    assert (Hf2 : (length (contents rest) < fuel)%nat).
    { apply Permutation_length in Hp. rewrite length_app in Hp. cbn in Hp. lia. }
    destruct (IH rest (upd ++ completion batch) w1 Hf2 Hc Hq' Hn2) as [He2 Hst].
    split; [eapply elsewhere_perm; [exact Hperm|exact (elsewhere_trans _ _ _ _ _ He' He2)]|].
    destruct (rolling_loop fuel show env completion options rest (upd ++ completion batch) w1)
      as [[upd'|[e ts]] w2]; cbn [fst snd] in *.
    + destruct Hst as [Hpu Hg]. split; [by rewrite Hpu, <- app_assoc, Hp, Hbatch|].
      intros s [Hs|Hs]%Hin; [|auto]. apply (elsewhere_updated (ids (contents rest)) _ w1 w2); [done| |auto].
      intros Hi. rewrite Hbatch in Hs. apply (Hnbr (machine_id s)); [by apply ids_elem|done].
    + destruct Hst as (Hee & Hts & Hti & Hto & Hun). split_and!; [done..|intros s Hs| |].
      * apply Hti, elem_of_app. by left.
      * intros s Hs. apply Hto in Hs. rewrite <- app_assoc, elem_of_app, elem_of_app in Hs.
        apply elem_of_app. destruct Hs as [Hs|Hs]; [by left|right]. by apply Hin.
      * intros Han s [Hs|Hs]%Hin; [left; apply Hti, elem_of_app; by right|].
        destruct (Hun Han s Hs) as [|Hcf]; [by left|right].
        rewrite Hcf. apply (elsewhere_config (ids batch)); auto.
  - split; [eapply elsewhere_perm; [exact Hperm|]; intros i Hi; apply He'; intros Hi'; apply Hi, elem_of_app; by left|].
    cbn [fst snd]. split; [done|].
    apply (failed_targets upd dn (contents queues) (f :: fs) w w1); [done|..].
    + rewrite ids_app. apply NoDup_app. split; [done|]. split.
      * intros i Hi Hd. apply (Hnub i Hi), elem_of_app. left.
        rewrite <- (ids_perm _ _ Hbatch). unfold ids in *. apply list_elem_of_fmap in Hd as (x & -> & Hx).
        apply list_elem_of_fmap_2. by apply (elem_of_sublist dn (completion batch)).
      * eapply sublist_NoDup; [exact Hncb|]. by apply fmap_sublist.
    + intros s Hs. apply Hin. left. by apply (elem_of_sublist dn (completion batch)).
    + intros g s Hg Eg. apply Hin. left. eauto.
    + intros Han s [Hs|Hs]%Hin; [auto|]. right. right. apply (elsewhere_config (ids batch)); auto.
Qed.
(** *** The whole rollout *)

(** Both stages together, over all the targets. *)
Definition both_stages (canaries remaining : list MachineSnapshot) (w : World) : Stage :=
  match canary_stage env options canaries [] w with
  | (inl updated, w) => rolling_stage show env completion options remaining updated w
  | failed => failed
  end.

Lemma both_stages_ok canaries remaining w :
  (0 < concurrency options)%nat -> NoDup (ids (canaries ++ remaining)) ->
  stage_ok [] (canaries ++ remaining) w (both_stages canaries remaining w).
Proof using completion_perm.
  intros Hc Hn. unfold both_stages.
  pose proof Hn as Hsplit. rewrite ids_app in Hsplit. apply NoDup_app in Hsplit as (Hnc & Hcr & Hnr).
  destruct (canary_stage_ok canaries [] w Hnc) as [He Hst].
  destruct (canary_stage env options canaries [] w) as [[upd|[e ts]] w1]; cbn [fst snd] in *.
  - destruct Hst as [Hp Hu]. destruct (queue_by_tenant_spec remaining) as [Hq Hcont].
    assert (Hperm : upd ++ contents (queue_by_tenant remaining) ≡ₚ canaries ++ remaining) by (by rewrite Hp, Hcont).
    destruct (rolling_loop_ok (S (length remaining)) (queue_by_tenant remaining) upd w1) as [He1 Hst1];
      [rewrite Hcont; lia|done|done|by rewrite (ids_perm _ _ Hperm)|]. unfold rolling_stage.
    assert (He1' : elsewhere (ids remaining) w1 (snd (rolling_loop (S (length remaining)) show env completion options
              (queue_by_tenant remaining) upd w1))) by (eapply elsewhere_perm; [apply ids_perm, Hcont|done]).
    split; [rewrite ids_app; exact (elsewhere_trans _ _ _ _ _ He He1')|].
    assert (Hrem : forall s, s ∈ remaining -> machine_id s ∉ ids canaries)
      by (intros s Hs Hi; apply (Hcr _ Hi); by apply ids_elem).
    destruct (rolling_loop _ _ _ _ _ _ _ _) as [[upd'|[e ts]] w2]; cbn [fst snd] in *.
    + destruct Hst1 as [Hp1 Hu1]. split; [by rewrite Hp1, Hperm|].
      intros s [Hs|Hs]%elem_of_app; [|apply Hu1; by rewrite Hcont].
      apply (elsewhere_updated (ids remaining) _ w1 w2); [done| |auto].
      intros Hi. apply (Hcr (machine_id s)); [by apply ids_elem|done].
    + destruct Hst1 as (Hee & Hts & Hin & Hout & Hun). split_and!; [done|done| | |].
      * intros s Hs. inversion Hs.
      * intros s Hs. apply Hout in Hs. by rewrite Hperm in Hs.
      * intros Ha s [Hs|Hs]%elem_of_app; [left; apply Hin; rewrite Hp; by apply elem_of_app; right|].
        destruct (Hun Ha s ltac:(by rewrite Hcont)) as [|Hcf]; [by left|right].
        rewrite Hcf. apply (elsewhere_config (ids canaries)); auto.
  - destruct Hst as (Hee & Hts & Hin & Hout & Hun). split; [|split_and!; [done|done| | |]]; cbn [fst snd].
    + intros i Hi. apply He. rewrite ids_app in Hi. intros Hi'. apply Hi, elem_of_app. by left.
    + intros s Hs. inversion Hs.
    + intros s Hs. apply Hout in Hs. change (s ∈ canaries ++ remaining). apply elem_of_app. by left.
    + intros Ha s [Hs|Hs]%elem_of_app; [by apply Hun|right]. apply (elsewhere_config (ids canaries)); [done|].
      intros Hi. apply (Hcr (machine_id s)); [done|by apply ids_elem].
Qed.
End stages.

(** *** The targets *)

Definition selected (options : UpdateImageOptions) (machine : Machine) : bool :=
  is_managed machine && (all_tenants options || of_tenants (tenants options) machine).

Lemma snapshot_from_machine_Ok m s :
  snapshot_from_machine m = Ok s ->
  machine_id s = id m /\ config_image (config m) = Some (previous_image s) /\
  metadata m !! TENANT_ID_KEY = Some (tenant_id s).
Proof.
  unfold snapshot_from_machine. intros Hs.
  apply bind_Ok in Hs as (tn & Ht & Hs). destruct (negb _); [done|].
  apply bind_Ok in Hs as (v & _ & Hs). apply bind_Ok in Hs as (img & Hi & Hs). injection Hs as <-. cbn.
  destruct (metadata m !! TENANT_ID_KEY); [|done]. injection Ht as ->.
  destruct (config_image (config m)); [|done]. by injection Hi as ->.
Qed.

Lemma collect_snapshots_Ok ms ss :
  collect_snapshots ms = Ok ss -> Forall2 (fun m s => snapshot_from_machine m = Ok s) ms ss.
Proof.
  revert ss. induction ms as [|m ms IH]; intros ss Hs; cbn in Hs; [by injection Hs as <-|].
  apply bind_Ok in Hs as (s & Hm & Hs). apply bind_Ok in Hs as (ss' & Hms & Hs). injection Hs as <-.
  constructor; auto.
Qed.

Lemma split_indices_perm chosen idx targets c r :
  split_indices chosen idx targets = (c, r) -> c ++ r ≡ₚ targets.
Proof.
  revert idx c r. induction targets as [|s rest IH]; intros idx c r Hs; cbn in Hs; [by injection Hs as <- <-|].
  destruct (split_indices chosen (S idx) rest) as [c' r'] eqn:E. apply IH in E.
  destruct (existsb _ _); injection Hs as <- <-; cbn; [by rewrite E|]. by rewrite <- Permutation_middle, E.
Qed.

(** The targets are the selected machines, each once. *)
Lemma select_targets_Ok options machines canaries remaining :
  select_targets options (Ok machines) = Ok (canaries, remaining) ->
  (0 < concurrency options)%nat /\
  exists snapshots, canaries ++ remaining ≡ₚ snapshots /\
    Forall2 (fun m s => snapshot_from_machine m = Ok s) (List.filter (selected options) machines) snapshots.
Proof.
  unfold select_targets. intros Hs. apply bind_Ok in Hs as (? & _ & Hs).
  destruct (concurrency options =? 0)%nat eqn:Ec; [done|]. apply Nat.eqb_neq in Ec. split; [lia|].
  apply bind_Ok in Hs as (ms & [= <-] & Hs). case_bool_decide; [done|].
  apply bind_Ok in Hs as (snaps & Hc & Hs). injection Hs as Hs. apply collect_snapshots_Ok in Hc.
  exists snaps. split; [rewrite (split_indices_perm _ _ _ _ _ Hs); apply sort_by_perm|].
  assert (Hf : List.filter (selected options) machines =
    if all_tenants options then List.filter is_managed machines
    else List.filter (of_tenants (tenants options)) (List.filter is_managed machines)); [|by rewrite Hf].
  unfold selected. destruct (all_tenants options); cbn.
  - clear. induction machines as [|m ms IH]; [done|]. cbn. rewrite andb_true_r. destruct (is_managed m); by rewrite IH.
  - clear. induction machines as [|m ms IH]; [done|]. cbn. destruct (is_managed m); cbn; [|done].
    by rewrite IH.
Qed.

(** The world holds what the listing says. *)
Definition Listed (w : World) (machines : list Machine) : Prop :=
  forall m, m ∈ machines -> exists r, w !! id m = Some r /\ r_config r = config m.

(** The image a machine is configured to run. *)
Definition image_of (w : World) (i : string) : option string := (r_config <$> w !! i) ≫= config_image.

(** The targets of a selection, by their machines. *)
Lemma targets_of_machines options machines canaries remaining :
  NoDup (id <$> machines) -> select_targets options (Ok machines) = Ok (canaries, remaining) ->
  (0 < concurrency options)%nat /\ NoDup (ids (canaries ++ remaining)) /\
  (forall i, i ∈ ids (canaries ++ remaining) <-> exists m, m ∈ machines /\ selected options m = true /\ id m = i) /\
  (forall m, m ∈ machines -> selected options m = true -> exists s, s ∈ canaries ++ remaining /\
     snapshot_from_machine m = Ok s) /\
  (forall s, s ∈ canaries ++ remaining -> exists m, m ∈ machines /\ snapshot_from_machine m = Ok s).
Proof.
  intros Hn Hs. apply select_targets_Ok in Hs as (Hc & snaps & Hp & Hf). split; [done|].
  set (ms := List.filter (selected options) machines) in *.
  assert (Hids : ids snaps = id <$> ms).
  { clear -Hf. induction Hf as [|m s ms ss Hm Hf IH]; [done|]. cbn. unfold ids in IH. rewrite IH.
    by apply snapshot_from_machine_Ok in Hm as (-> & _). }
  assert (Hms : forall m, m ∈ ms <-> m ∈ machines /\ selected options m = true)
    by (intros m; unfold ms; rewrite !list_elem_of_In; apply filter_In).
  assert (Hsub : ms `sublist_of` machines).
  { unfold ms. clear. induction machines as [|m l IH]; [constructor|]. cbn.
    destruct (selected options m); by constructor. }
  split_and!.
  - rewrite (ids_perm _ _ Hp), Hids. eapply sublist_NoDup; [exact Hn|by apply fmap_sublist].
  - intros i. rewrite (ids_perm _ _ Hp), Hids, list_elem_of_fmap. split.
    + intros (m & -> & Hm). apply Hms in Hm as [? ?]. eauto.
    + intros (m & Hm & Hsel & <-). exists m. split; [done|]. by apply Hms.
  - intros m Hm Hsel. assert (Hin : m ∈ ms) by (by apply Hms).
    apply list_elem_of_lookup in Hin as [k Hk]. destruct (Forall2_lookup_l _ _ _ _ _ Hf Hk) as (s & Hs & Hsn).
    exists s. split; [|done]. rewrite Hp. by eapply list_elem_of_lookup_2.
  - intros s Hin. rewrite Hp in Hin. apply list_elem_of_lookup in Hin as [k Hk].
    destruct (Forall2_lookup_r _ _ _ _ _ Hf Hk) as (m & Hm & Hsn). exists m. split; [|done].
    apply list_elem_of_lookup_2, Hms in Hm. tauto.
Qed.

Lemma update_image_stages show env back completion options listed w canaries remaining :
  select_targets options listed = Ok (canaries, remaining) ->
  update_image show env back completion options listed w =
  match both_stages show env options completion canaries remaining w with
  | (inl _, w) => (Ok tt, w)
  | (inr (e, targets), w) => (Err e, rollback back targets options w)
  end.
Proof. intros Hs. unfold update_image. by rewrite Hs. Qed.

(** C23: a rollout that succeeds has updated every selected machine: each runs the
    new image, takes traffic and is not leased; no other machine was touched. *)
Theorem rollout_updates_the_selected_machines show env back completion options machines w w' :
  (forall l, completion l ≡ₚ l) -> NoDup (id <$> machines) ->
  update_image show env back completion options (Ok machines) w = (Ok tt, w') ->
  (forall m, m ∈ machines -> selected options m = true ->
     exists r, w' !! id m = Some r /\ config_image (r_config r) = Some (image options) /\
       r_cordoned r = false /\ r_leased r = false) /\
  (forall i, (forall m, m ∈ machines -> selected options m = true -> id m <> i) -> w' !! i = w !! i).
Proof.
  intros Hcp Hn Hu. destruct (select_targets options (Ok machines)) as [[canaries remaining]|e|] eqn:Hs.
  - destruct (targets_of_machines _ _ _ _ Hn Hs) as (Hc & Hnd & Hids & Hto & _).
    rewrite (update_image_stages _ _ _ _ _ _ _ _ _ Hs) in Hu.
    destruct (both_stages_ok show env options completion Hcp canaries remaining w Hc Hnd) as [He Hst].
    destruct (both_stages _ _ _ _ _ _ _) as [[upd|[e ts]] w2]; cbn [fst snd] in *; [|done]. injection Hu as <-.
    destruct Hst as [_ Hup]. split.
    + intros m Hm Hsel. destruct (Hto m Hm Hsel) as (s & Hin & Hsn). destruct (Hup s Hin) as (r & Hr & Hrest).
      apply snapshot_from_machine_Ok in Hsn as (<- & _). eauto.
    + intros i Hi. apply He. intros Hin. apply Hids in Hin as (m & Hm & Hsel & Ei). by apply (Hi m).
  - unfold update_image in Hu. by rewrite Hs in Hu.
  - unfold update_image in Hu. by rewrite Hs in Hu.
Qed.

(** The configuration stays an object, whatever an update does. *)
Definition IsObject (r : Remote) : Prop := exists fields, r_config r = VObject fields.

Lemma keeps_object_call reply f : (forall r, IsObject r -> IsObject (f r)) -> keeps IsObject (call reply f).
Proof. intros Hf r Hr. destruct reply; cbn; auto. Qed.

Lemma keeps_object_request env s img : keeps IsObject (request_update env s img).
Proof.
  unfold request_update. apply keeps_bind; [by apply keeps_context, keeps_object_call|intros _].
  unfold with_image. destruct (snap_config s) as [| | | | |fields]; [intros r Hr; exact Hr..|].
  intros r Hr. apply (keeps_context IsObject); [|done]. apply keeps_object_call. intros q _. eexists. done.
Qed.

Lemma update_one_object env s img options r :
  IsObject r -> IsObject (snd (update_one_machine env s img options r)).
Proof.
  intros Hr. unfold update_one_machine. destruct (with_context _ _); [|done..].
  assert (Hrel : forall op r1, IsObject r1 -> IsObject (snd (release env (machine_id s) op r1))).
  { intros op r1 (fields & Hf). exists fields. by apply keeps_release. }
  pose proof (keeps_object_request env s img (set_leased true r) Hr) as Hq.
  destruct (request_update env s img (set_leased true r)) as [[u|e|] r1]; cbn [snd] in Hq.
  - destruct Hq as (fields & Hf). pose proof (keeps_confirm _ env (machine_id s) options r1 Hf) as Hc.
    destruct (confirm env (machine_id s) options r1) as [op r2]. cbn [snd] in Hc.
    specialize (Hrel op r2 ltac:(by exists fields)). by destruct (release _ _ _ _) as [[]].
  - specialize (Hrel (Err e) r1 Hq). by destruct (release _ _ _ _) as [[]].
  - specialize (Hrel Panic r1 Hq). by destruct (release _ _ _ _) as [[]].
Qed.

Lemma update_in_configured env s options w t :
  configured w t -> configured (snd (update_in env s options w)) t.
Proof.
  unfold configured, config_in, update_in. intros (fields & Hf).
  destruct (w !! machine_id s) as [r|] eqn:Er; [|cbn; eauto].
  pose proof (update_one_object env s (image options) options r) as Ho.
  destruct (update_one_machine _ _ _ _ r) as [x r']. cbn [snd] in *. unfold World in *.
  destruct (decide (machine_id s = machine_id t)) as [E|Hne]; [|rewrite lookup_insert_ne by done; eauto].
  rewrite <- E in *. rewrite Er in Hf. injection Hf as Hf. rewrite lookup_insert_eq. cbn.
  destruct Ho as (f' & Hf'); [by exists fields|]. rewrite Hf'. eauto.
Qed.

Lemma canary_stage_configured env options canaries upd w t :
  configured w t -> configured (snd (canary_stage env options canaries upd w)) t.
Proof.
  revert upd w. induction canaries as [|s rest IH]; intros upd w Ht; cbn; [done|].
  pose proof (update_in_configured (env (machine_id s)) s options w t Ht) as Hc.
  destruct (update_in _ s options w) as [[s'|f] w1]; [by apply IH|done].
Qed.

Lemma run_batch_configured env options batch w t :
  configured w t -> configured (snd (run_batch env options batch w)) t.
Proof.
  revert w. induction batch as [|s rest IH]; intros w Ht; cbn; [done|].
  pose proof (update_in_configured (env (machine_id s)) s options w t Ht) as Hc.
  destruct (update_in _ s options w) as [res w1]. specialize (IH w1 Hc).
  destruct (run_batch _ _ rest w1) as [[dn fs] w2]. by destruct res.
Qed.

Lemma rolling_loop_configured fuel show env completion options queues upd w t :
  configured w t -> configured (snd (rolling_loop fuel show env completion options queues upd w)) t.
Proof.
  revert queues upd w. induction fuel as [|fuel IH]; intros queues upd w Ht; cbn; [done|].
  destruct (forallb _ _); [done|]. destruct (take_batch _ _) as [[|s batch] rest]; [done|].
  pose proof (run_batch_configured env options (completion (s :: batch)) w t Ht) as Hc.
  destruct (run_batch _ _ _ w) as [[dn fs] w1]. destruct fs; [by apply IH|done].
Qed.

Lemma both_stages_configured show env options completion canaries remaining w t :
  configured w t -> configured (snd (both_stages show env options completion canaries remaining w)) t.
Proof.
  intros Ht. unfold both_stages. pose proof (canary_stage_configured env options canaries [] w t Ht) as Hc.
  destruct (canary_stage _ _ _ _ _) as [[upd|[e ts]] w1]; [by apply rolling_loop_configured|done].
Qed.

(** After the rollback, every target has its old image. *)
Lemma rollback_all back options (all ts : list MachineSnapshot) w w1 :
  NoDup (ids all) -> NoDup (ids ts) -> (forall s, s ∈ ts -> s ∈ all) -> (forall i, BackOk (back i)) ->
  (forall s, s ∈ all -> image_in w s = Some (previous_image s) /\ configured w1 s) ->
  elsewhere (ids all) w w1 ->
  (forall s, s ∈ all -> s ∈ ts \/ config_in w1 s = config_in w s) ->
  let w2 := rollback back ts options w1 in
  elsewhere (ids all) w w2 /\ forall s, s ∈ all -> image_in w2 s = Some (previous_image s).
Proof.
  intros Hn Hts Hout Hb Hprev He Hun w2.
  destruct (rollback_spec back options ts w1 Hts) as [He2 Hi2].
  { intros s Hin. split; [done|]. by apply Hprev, Hout. }
  fold w2 in He2, Hi2. split.
  - intros i Hi. rewrite He2; [by apply He|]. intros Hin. apply Hi.
    apply list_elem_of_fmap in Hin as (s & -> & Hin). by apply ids_elem, Hout.
  - intros s Hin. destruct (decide (machine_id s ∈ ids ts)) as [Hd|Hd].
    + apply list_elem_of_fmap in Hd as (t & Et & Ht). rewrite (ids_inj all s t); auto.
    + destruct (Hun s Hin) as [Hs|Hs]; [by destruct Hd; apply ids_elem|].
      unfold image_in. rewrite (elsewhere_config (ids ts) w1 w2 s He2 Hd), Hs. by apply Hprev.
Qed.

(** C8: when a rollout fails and the calls of the rollback succeed, every machine
    is again configured with the image it ran before, as long as no answer to an
    update request was lost. *)
Theorem failed_rollout_restores_the_images show env back completion options machines w e w' :
  (forall l, completion l ≡ₚ l) -> NoDup (id <$> machines) -> Listed w machines ->
  answers env -> (forall i, BackOk (back i)) ->
  update_image show env back completion options (Ok machines) w = (Err e, w') ->
  forall m, m ∈ machines -> image_of w' (id m) = config_image (config m).
Proof.
  intros Hcp Hn Hl Ha Hb Hu m Hm.
  assert (Hold : image_of w (id m) = config_image (config m)).
  { destruct (Hl m Hm) as (r & Hr & Hcf). unfold image_of. by rewrite Hr; cbn; rewrite Hcf. }
  destruct (select_targets options (Ok machines)) as [[canaries remaining]|e0|] eqn:Hs;
    [|unfold update_image in Hu; rewrite Hs in Hu; by injection Hu as _ <-..].
  destruct (targets_of_machines _ _ _ _ Hn Hs) as (Hc & Hnd & Hids & _ & Hfrom).
  rewrite (update_image_stages _ _ _ _ _ _ _ _ _ Hs) in Hu.
  destruct (both_stages_ok show env options completion Hcp canaries remaining w Hc Hnd) as [He Hst].
  destruct (both_stages _ _ _ _ _ _ _) as [[upd|[e1 ts]] w2] eqn:Hbs; cbn [fst snd] in *; [done|]. injection Hu as _ <-.
  destruct Hst as (_ & Hts & _ & Hout & Hun). specialize (Hun Ha). cbn [app] in Hout.
  assert (Hprev : forall s, s ∈ canaries ++ remaining -> image_in w s = Some (previous_image s)).
  { intros s Hin. destruct (Hfrom s Hin) as (m' & Hm' & (Ei & Eimg & _)%snapshot_from_machine_Ok).
    destruct (Hl m' Hm') as (r & Hr & Hcf). unfold image_in, config_in. rewrite Ei, Hr. cbn. by rewrite Hcf. }
  destruct (rollback_all back options (canaries ++ remaining) ts w w2) as [He2 Hi2]; [done|done|done|done| |done|done|].
  { intros s Hin. split; [by apply Hprev|].
    pose proof (both_stages_configured show env options completion canaries remaining w s) as Hcf.
    rewrite Hbs in Hcf. by apply Hcf, (image_configured w s (previous_image s)), Hprev. }
  destruct (decide (id m ∈ ids (canaries ++ remaining))) as [Hi|Hi].
  - apply list_elem_of_fmap in Hi as (s & Es & Hin). rewrite Es. change (image_in (rollback back ts options w2) s = config_image (config m)).
    rewrite Hi2 by done. rewrite <- Hold, Es. symmetry. by apply Hprev.
  - unfold image_of. rewrite He2 by done. exact Hold.
Qed.

(** A machine whose update took effect but whose answer was lost fails the
    rollout and is not rolled back: it keeps the new image. *)
Theorem lost_update_is_not_rolled_back show env back completion options machines s w r fields e0 :
  select_targets options (Ok machines) = Ok ([s], []) -> w !! machine_id s = Some r ->
  snap_config s = VObject fields ->
  lease_result (env (machine_id s)) = Ok tt -> cordon_reply (env (machine_id s)) = Applied ->
  update_reply (env (machine_id s)) = Lost e0 ->
  exists e w', update_image show env back completion options (Ok machines) w = (Err e, w') /\
    image_of w' (machine_id s) = Some (image options).
Proof.
  intros Hs Hw Hf Hl Hc Hu. rewrite (update_image_stages _ _ _ _ _ _ _ _ _ Hs).
  unfold both_stages. cbn [canary_stage]. unfold update_in. rewrite Hw.
  set (en := env (machine_id s)) in *.
  assert (Hone : exists e r', update_one_machine en s (image options) options r = (inr (mkFailure e None), r') /\
    config_image (r_config r') = Some (image options)).
  { unfold update_one_machine. rewrite Hl. cbn [with_context].
    destruct (request_update en s (image options) (set_leased true r)) as [x r1] eqn:E1.
    unfold request_update, mbind, M_bind, mbind_st, mlift, mcontext in E1. rewrite Hc, Hu, Hf in E1. cbn in E1.
    injection E1 as <- <-.
    match goal with |- context [release en _ ?op ?r1] => set (o := op); set (q := r1) end.
    pose proof (keeps_release (r_config q) en (machine_id s) o q eq_refl) as Hk.
    destruct (release en (machine_id s) o q) as [[u|e|] r2] eqn:E2.
    - by apply release_Ok in E2 as [? _].
    - exists e, r2. split; [done|]. cbn in Hk. rewrite Hk.
      unfold config_image. cbn. rewrite obj_get_insert_ne by done. by rewrite obj_get_insert.
    - by apply release_returns in E2. }
  destruct Hone as (e & r' & -> & Hi). cbn. eexists _, _. split; [done|].
  unfold image_of, World in *. by rewrite lookup_insert_eq.
Qed.

(** ** The schedule of the rolling stage *)

(** The batches, as they are taken from the queues. *)
Fixpoint schedule (fuel room : nat) (queues : list (string * list MachineSnapshot)) : list (list MachineSnapshot) :=
  match fuel with
  | O => []
  | S fuel =>
      match take_batch room queues with
      | ([], _) => []
      | (batch, queues) => batch :: schedule fuel room queues
      end
  end.

(** The stage over a list of batches. *)
Fixpoint run_batches (show : Cause -> string) (env : string -> Env)
    (completion : list MachineSnapshot -> list MachineSnapshot) (options : UpdateImageOptions)
    (batches : list (list MachineSnapshot)) (updated : list MachineSnapshot) (w : World) : Stage :=
  match batches with
  | [] => (inl updated, w)
  | batch :: rest =>
      let '(done, failures, w) := run_batch env options (completion batch) w in
      match failures with
      | [] => run_batches show env completion options rest (updated ++ done) w
      | _ => (inr (rolling_failed show failures, rollback_targets (updated ++ done) failures), w)
      end
  end.

Definition batch_ok (room : nat) (batch : list MachineSnapshot) : Prop :=
  batch <> [] /\ (length batch <= room)%nat /\ NoDup (tenant_id <$> batch).

Lemma take_batch_empty room queues : contents queues = [] -> fst (take_batch room queues) = [].
Proof.
  revert room. induction queues as [|[tenant queue] queues IH]; intros room Hq; [done|].
  unfold contents in *. cbn in *. apply app_nil in Hq as [-> Hq]. destruct room as [|room]; [done|].
  specialize (IH (S room) Hq). by destruct (take_batch (S room) queues).
Qed.

Lemma rolling_loop_schedule fuel show env completion options queues upd w :
  (length (contents queues) < fuel)%nat -> (0 < concurrency options)%nat -> QueuesOk queues ->
  let batches := schedule fuel (concurrency options) queues in
  rolling_loop fuel show env completion options queues upd w
    = run_batches show env completion options batches upd w /\
  concat batches ≡ₚ contents queues /\ Forall (batch_ok (concurrency options)) batches.
Proof.
  revert queues upd w. induction fuel as [|fuel IH]; intros queues upd w Hf Hc Hq; [lia|].
  cbn [rolling_loop schedule]. destruct (forallb _ queues) eqn:Ee.
  { apply forallb_empty in Ee. pose proof (take_batch_empty (concurrency options) queues Ee) as Ht.
    destruct (take_batch _ _) as [b rest]. cbn in Ht. subst b. cbn. by rewrite Ee. }
  assert (Hne : contents queues <> []) by (intros E; apply forallb_empty in E; congruence).
  destruct (take_batch (concurrency options) queues) as [batch rest] eqn:Et.
  destruct (take_batch_ok _ _ _ _ Hq Et) as (Hq' & Hnd & Hlen & Hp & Hb). specialize (Hb Hc Hne).
  destruct batch as [|s batch]; [done|]. cbn zeta.
  assert (Hf2 : (length (contents rest) < fuel)%nat).
  { apply Permutation_length in Hp. rewrite length_app in Hp. cbn in Hp. lia. }
  destruct (IH rest upd w Hf2 Hc Hq') as (_ & Hp2 & Hall2). cbn [concat run_batches].
  split; [|split; [by rewrite Hp, Hp2|by apply Forall_cons; split_and!]].
  destruct (run_batch _ _ _ w) as [[dn fs] w1]. destruct fs; [by apply IH|done].
Qed.

(** The rolling stage updates the remaining machines in batches: each machine
    is in exactly one batch, a batch is never empty or larger than the
    concurrency asked for, and never holds two machines of one tenant. *)
Theorem rolling_stage_spreads_the_load show env completion options remaining updated w :
  (0 < concurrency options)%nat ->
  exists batches, concat batches ≡ₚ remaining /\ Forall (batch_ok (concurrency options)) batches /\
    rolling_stage show env completion options remaining updated w
      = run_batches show env completion options batches updated w.
Proof.
  intros Hc. destruct (queue_by_tenant_spec remaining) as [Hq Hp].
  destruct (rolling_loop_schedule (S (length remaining)) show env completion options (queue_by_tenant remaining)
              updated w) as (He & Hcat & Hall); [rewrite Hp; lia|done|done|].
  eexists. split; [|split; [exact Hall|exact He]]. by rewrite Hcat.
Qed.

(** ** Witnesses *)

Definition demo_config (tenant img : string) : Value :=
  VObject [("image", VString img);
           ("metadata", VObject [(MANAGED_BY_KEY, VString MANAGED_BY_VALUE); (TENANT_ID_KEY, VString tenant)])].

Definition demo_machine (i tenant : string) : Machine :=
  mkMachine i None "started" None (Some "v1") None None None None (demo_config tenant "old") VNull [].

Definition demo_machines : list Machine := [demo_machine "m1" "acme"; demo_machine "m2" "zeta"].

Definition demo_world : World :=
  list_to_map (map (fun m => (id m, mkRemote (config m) None None false false)) demo_machines).

Definition demo_options : UpdateImageOptions := mkOptions "new" [] true 2 1 0 1000 0.

(** Every call takes effect; the machine polled for its health is in state [st],
    and the update answers [reply]. *)
Definition demo_env (st : string) (reply : Reply) : Env :=
  let poll := fun _ => Ok (mkMachine "" None st None None None None None None VNull VNull []) in
  mkEnv (Ok (Some "v1")) (Ok tt) Applied reply (fun _ => Ok tt) poll (fun k => 2000 * Z.of_nat k)
    poll (fun k => 2000 * Z.of_nat k) Applied Applied Applied.

(** The second machine never becomes healthy. *)
Definition demo_sick (i : string) : Env :=
  demo_env (if bool_decide (i = "m2") then "stopped" else "started") Applied.

Definition demo_update (env : string -> Env) : Res unit * World :=
  update_image (fun _ => "") env (fun _ => demo_env "started" Applied) (fun l => l) demo_options
    (Ok demo_machines) demo_world.

Lemma demo_env_ok st reply : EnvOk (demo_env st reply).
Proof. split; cbn; try done; lia. Qed.

Lemma demo_machines_distinct : NoDup (id <$> demo_machines).
Proof. apply (bool_decide_unpack _). by vm_compute. Qed.

Lemma demo_listed : Listed demo_world demo_machines.
Proof. intros m [->|[->|Hm]%elem_of_cons]%elem_of_cons; [..|inversion Hm]; eexists; split; vm_compute; done. Qed.

Lemma rollout_updates_the_selected_machines_witness :
  fst (demo_update (fun _ => demo_env "started" Applied)) = Ok tt /\
  exists r, snd (demo_update (fun _ => demo_env "started" Applied)) !! "m2" = Some r /\
    config_image (r_config r) = Some "new" /\ r_cordoned r = false /\ r_leased r = false.
Proof.
  assert (E : fst (demo_update (fun _ => demo_env "started" Applied)) = Ok tt) by (vm_compute; reflexivity).
  split; [exact E|].
  refine (proj1 (rollout_updates_the_selected_machines (fun _ => "") (fun _ => demo_env "started" Applied)
    (fun _ => demo_env "started" Applied) (fun l => l) demo_options demo_machines demo_world _
    (fun l => Permutation_refl l) demo_machines_distinct _) (demo_machine "m2" "zeta") _ _).
  - rewrite <- E. apply surjective_pairing.
  - right. left.
  - vm_compute. reflexivity.
Defined.

Lemma failed_rollout_restores_the_images_witness :
  exists e w', demo_update demo_sick = (Err e, w') /\ image_of w' "m1" = Some "old" /\ image_of w' "m2" = Some "old".
Proof.
  destruct (demo_update demo_sick) as [r w'] eqn:E.
  assert (Hr : exists e, r = Err e).
  { assert (Hf : exists e, fst (demo_update demo_sick) = Err e) by (vm_compute; eauto). by rewrite E in Hf. }
  destruct Hr as [e ->]. exists e, w'. split; [done|].
  assert (Hback : forall i : string, BackOk (demo_env "started" Applied)).
  { intros _. split; [by eexists|done..|apply demo_env_ok]. }
  assert (Hans : answers demo_sick) by (intros i; split; [apply demo_env_ok|done]).
  pose proof (failed_rollout_restores_the_images (fun _ => "") demo_sick (fun _ => demo_env "started" Applied)
    (fun l => l) demo_options demo_machines demo_world e w' (fun l => Permutation_refl l) demo_machines_distinct
    demo_listed Hans Hback E) as Hall.
  split; [apply (Hall (demo_machine "m1" "acme")); left|apply (Hall (demo_machine "m2" "zeta")); right; left].
Defined.

Definition demo_single : UpdateImageOptions := mkOptions "new" ["acme"] false 2 1 0 1000 0.

Lemma lost_update_is_not_rolled_back_witness :
  exists e w', update_image (fun _ => "") (fun _ => demo_env "started" (Lost []))
      (fun _ => demo_env "started" Applied) (fun l => l) demo_single (Ok demo_machines) demo_world = (Err e, w') /\
    image_of w' "m1" = Some "new".
Proof.
  pose (s := mkSnapshot "m1" "acme" None None (metadata (demo_machine "m1" "acme")) (demo_config "acme" "old") "v1" "old").
  refine (lost_update_is_not_rolled_back (fun _ => "") (fun _ => demo_env "started" (Lost []))
    (fun _ => demo_env "started" Applied) (fun l => l) demo_single demo_machines s demo_world
    (mkRemote (demo_config "acme" "old") None None false false) _ [] _ _ _ _ _ _);
    try reflexivity; vm_compute; reflexivity.
Defined.

Definition demo_snapshot (i tenant : string) : MachineSnapshot :=
  mkSnapshot i tenant None None ∅ (demo_config tenant "old") "v1" "old".

Lemma rolling_stage_spreads_the_load_witness :
  let remaining := [demo_snapshot "m1" "acme"; demo_snapshot "m2" "acme"; demo_snapshot "m3" "zeta"] in
  exists batches, concat batches ≡ₚ remaining /\ Forall (batch_ok 2) batches /\
    rolling_stage (fun _ => "") demo_sick (fun l => l) demo_options remaining [] demo_world
      = run_batches (fun _ => "") demo_sick (fun l => l) demo_options batches [] demo_world.
Proof. apply (rolling_stage_spreads_the_load (fun _ => "") demo_sick (fun l => l) demo_options). cbn. lia. Defined.
