(* ===== verification/Canaries.v ===== *)
(** * The canaries of a rollout ([crates/admin/src/rollout.rs])

    What [select_canary_indices] chooses: one target of each tenant first, then
    the targets that are left, up to the count. *)

From S2P Require Import Prelude Text Machines Rollout.

Lemma existsb_nat i l : existsb (Nat.eqb i) l = true <-> i ∈ l.
Proof.
  rewrite existsb_exists. setoid_rewrite Nat.eqb_eq. split.
  - intros (x & Hx & ->). by apply list_elem_of_In.
  - intros Hi. exists i. split; [by apply list_elem_of_In|done].
Qed.

Lemma existsb_string s l : existsb (String.eqb s) l = true <-> s ∈ l.
Proof.
  rewrite existsb_exists. setoid_rewrite String.eqb_eq. split.
  - intros (x & Hx & ->). by apply list_elem_of_In.
  - intros Hi. exists s. split; [by apply list_elem_of_In|done].
Qed.

Section canaries.
Context (targets : list MachineSnapshot).

(** The tenants of the targets with these indices. *)
Definition tenants_at (picked : list nat) : list string :=
  omap (fun i => tenant_id <$> targets !! i) picked.

Lemma tenants_at_app l k : tenants_at (l ++ k) = tenants_at l ++ tenants_at k.
Proof. apply omap_app. Qed.

(** Distinct indices of distinct tenants; all of [targets] are covered, or the
    count is reached. *)
Record Picked (count : nat) (covered : list MachineSnapshot) (picked : list nat) : Prop := {
  pk_nodup : NoDup picked;
  pk_range : Forall (fun i => (i < length targets)%nat) picked;
  pk_tenants : NoDup (tenants_at picked);
  pk_length : (length picked <= count)%nat;
  pk_covers : length picked = count \/ forall s, s ∈ covered -> tenant_id s ∈ tenants_at picked;
}.

Lemma pick_tenants_spec count pre rest seen picked :
  targets = pre ++ rest -> (forall t, t ∈ seen <-> t ∈ tenants_at picked) ->
  Forall (fun i => (i < length pre)%nat) picked -> Picked count pre picked -> (length picked < count)%nat ->
  Picked count targets (pick_tenants rest (length pre) count seen picked).
Proof.
  revert pre seen picked. induction rest as [|s rest IH]; intros pre seen picked HT Hseen Hlt HP Hcount; cbn.
  { rewrite app_nil_r in HT. by subst pre. }
  assert (HT' : targets = (pre ++ [s]) ++ rest) by (by rewrite <- app_assoc).
  assert (Hlen : length (pre ++ [s]) = S (length pre)) by (rewrite length_app; cbn; lia).
  assert (Hlt' : Forall (fun i => (i < length (pre ++ [s]))%nat) picked)
    by (eapply Forall_impl; [exact Hlt|cbn; lia]).
  assert (Hs : targets !! length pre = Some s) by (rewrite HT; by apply list_lookup_middle).
  destruct HP as [Hnd Hr Ht Hle Hcov]. destruct (existsb _ seen) eqn:E.
  - apply existsb_string in E. rewrite <- Hlen. apply (IH _ seen); [done..| |done].
    split; try done. right. intros x Hx. apply elem_of_app in Hx as [Hx|Hx].
    + destruct Hcov as [?|Hcov]; [lia|]. by apply Hcov.
    + apply list_elem_of_singleton in Hx as ->. by apply Hseen.
  - assert (Hnew : tenant_id s ∉ tenants_at picked)
      by (rewrite <- Hseen, <- existsb_string, E; done).
    assert (Htp : tenants_at (picked ++ [length pre]) = tenants_at picked ++ [tenant_id s])
      by (rewrite tenants_at_app; unfold tenants_at at 2; cbn; by rewrite Hs).
    assert (Hpl : length (picked ++ [length pre]) = S (length picked)) by (rewrite length_app; cbn; lia).
    assert (HP' : Picked count (pre ++ [s]) (picked ++ [length pre])).
    { split.
      - apply NoDup_app. split_and!; [done| |apply NoDup_singleton].
        intros i Hi ->%list_elem_of_singleton. rewrite Forall_forall in Hlt. specialize (Hlt _ Hi). lia.
      - apply Forall_app. split; [done|]. apply Forall_singleton. rewrite HT, length_app. cbn. lia.
      - rewrite Htp. apply NoDup_app. split_and!; [done| |apply NoDup_singleton].
        by intros t Hin ->%list_elem_of_singleton.
      - lia.
      - right. intros x Hx. rewrite Htp. apply elem_of_app. apply elem_of_app in Hx as [Hx|Hx].
        + left. destruct Hcov as [?|Hcov]; [lia|]. by apply Hcov.
        + right. apply list_elem_of_singleton in Hx as ->. apply list_elem_of_here. }
    destruct (Nat.eqb_spec (length (picked ++ [length pre])) count) as [Heq|Hneq].
    + destruct HP'. split; try done. by left.
    + rewrite <- Hlen. apply (IH _ (tenant_id s :: seen)); [done| | |done|lia].
      * intros t. rewrite Htp, elem_of_app, elem_of_cons, list_elem_of_singleton, Hseen. tauto.
      * apply Forall_app. split; [done|]. apply Forall_singleton. lia.
Qed.

Lemma pick_more_spec indices count picked :
  NoDup picked -> (length picked <= count)%nat ->
  exists more, pick_more indices count picked = picked ++ more /\ NoDup (picked ++ more) /\
    (length (picked ++ more) <= count)%nat /\ (forall i, i ∈ more -> i ∈ indices) /\
    (length (picked ++ more) = count \/ forall i, i ∈ indices -> i ∈ picked ++ more).
Proof.
  revert picked. induction indices as [|i indices IH]; intros picked Hnd Hle; cbn.
  { exists []. rewrite app_nil_r. split_and!; try done. right. by intros ? ?%elem_of_nil. }
  destruct (Nat.eqb_spec (length picked) count) as [Heq|Hneq].
  { exists []. rewrite app_nil_r. split_and!; try done; [by intros ? ?%elem_of_nil|by left]. }
  destruct (existsb _ picked) eqn:E.
  - apply existsb_nat in E. destruct (IH picked Hnd Hle) as (more & -> & Hn & Hl & Hin & Hc).
    exists more. split_and!; try done; [intros x Hx; apply list_elem_of_further; auto|].
    destruct Hc as [?|Hc]; [by left|right]. intros x [->|Hx]%elem_of_cons; [apply elem_of_app; by left|auto].
  - assert (Hni : i ∉ picked) by (rewrite <- existsb_nat, E; done).
    destruct (IH (picked ++ [i])) as (more & -> & Hn & Hl & Hin & Hc).
    + apply NoDup_app. split_and!; [done| |apply NoDup_singleton]. by intros x Hx ->%list_elem_of_singleton.
    + rewrite length_app. cbn. lia.
    + rewrite <- app_assoc in *. exists (i :: more). split_and!; try done.
      * intros x [->|Hx]%elem_of_cons; [apply list_elem_of_here|apply list_elem_of_further; auto].
      * destruct Hc as [?|Hc]; [by left|right]. intros x [->|Hx]%elem_of_cons; [|auto].
        apply elem_of_app. right. apply list_elem_of_here.
Qed.

(** What [select_canary_indices] picks. *)
Lemma select_canary_indices_spec count :
  (count <= length targets)%nat ->
  let picked := select_canary_indices targets count in
  NoDup picked /\ Forall (fun i => (i < length targets)%nat) picked /\ length picked = count /\
  (NoDup (tenants_at picked) \/ forall s, s ∈ targets -> tenant_id s ∈ tenants_at picked).
Proof.
  intros Hle. unfold select_canary_indices.
  destruct (Nat.eqb_spec count 0) as [->|Hc0]; cbn [orb].
  { split_and!; [apply NoDup_nil_2|by apply Forall_nil|done|left; apply NoDup_nil_2]. }
  case_bool_decide as Hl; [lia|]. cbn.
  destruct (pick_tenants_spec count [] targets [] []) as [Hnd Hr Ht Hlen Hcov]; [done|done|by apply Forall_nil| |cbn; lia|].
  { split; [apply NoDup_nil_2|by apply Forall_nil|apply NoDup_nil_2|cbn; lia|].
    right. by intros s ?%elem_of_nil. }
  cbn [length] in *. set (picked := pick_tenants targets 0 count [] []) in *.
  destruct (Nat.eqb_spec (length picked) count) as [Heq|Hneq]; [split_and!; auto|].
  destruct (pick_more_spec (seq 0 (length targets)) count picked Hnd Hlen) as (more & -> & Hn & Hl' & Hin & Hfull).
  assert (Hrange : Forall (fun i => (i < length targets)%nat) (picked ++ more)).
  { apply Forall_app. split; [done|]. apply Forall_forall. intros i Hi%Hin%elem_of_seq. lia. }
  split_and!; [done|done| |].
  - destruct Hfull as [?|Hfull]; [done|].
    assert (length (seq 0 (length targets)) <= length (picked ++ more))%nat as Hge
      by (apply NoDup_incl_length; [apply seq_NoDup|]; intros i Hi; by apply list_elem_of_In, Hfull, list_elem_of_In).
    rewrite length_seq in Hge. lia.
  - right. destruct Hcov as [?|Hcov]; [done|]. intros s Hs. rewrite tenants_at_app. apply elem_of_app. left. auto.
Qed.

(** The canaries are the targets with the chosen indices. *)
Lemma split_indices_fst chosen pre rest :
  targets = pre ++ rest ->
  fst (split_indices chosen (length pre) rest) =
    omap (fun i => targets !! i) (filter (fun i => i ∈ chosen) (seq (length pre) (length rest))).
Proof.
  revert pre. induction rest as [|s rest IH]; intros pre HT; [done|].
  cbn [split_indices length seq]. rewrite filter_cons.
  specialize (IH (pre ++ [s])). rewrite length_app, <- app_assoc, Nat.add_1_r in IH. specialize (IH HT).
  destruct (split_indices chosen (S (length pre)) rest) as [c r]. cbn [fst] in IH.
  assert (Hs : targets !! length pre = Some s) by (rewrite HT; by apply list_lookup_middle).
  destruct (existsb (Nat.eqb (length pre)) chosen) eqn:E.
  - apply existsb_nat in E. rewrite decide_True by done. cbn. by rewrite Hs, IH.
  - rewrite decide_False by (rewrite <- existsb_nat, E; done). cbn. by rewrite IH.
Qed.

Lemma canaries_perm chosen :
  NoDup chosen -> Forall (fun i => (i < length targets)%nat) chosen ->
  fst (split_indices chosen 0 targets) ≡ₚ omap (fun i => targets !! i) chosen.
Proof.
  intros Hnd Hr. change 0%nat with (length (A := MachineSnapshot) []). rewrite split_indices_fst by done.
  apply omap_Permutation. apply NoDup_Permutation; [apply NoDup_filter, NoDup_seq|done|].
  intros i. rewrite list_elem_of_filter, elem_of_seq. rewrite Forall_forall in Hr. cbn. split; [by intros [? _]|].
  intros Hi. specialize (Hr i Hi). split; [done|lia].
Qed.

Lemma tenants_at_map picked : tenants_at picked = map tenant_id (omap (fun i => targets !! i) picked).
Proof.
  unfold tenants_at. induction picked as [|i picked IH]; [done|]. cbn.
  destruct (targets !! i); cbn; [f_equal|]; exact IH.
Qed.

Lemma length_at picked :
  Forall (fun i => (i < length targets)%nat) picked -> length (omap (fun i => targets !! i) picked) = length picked.
Proof.
  induction 1 as [|i picked Hi _ IH]; [done|]. cbn. apply lookup_lt_is_Some in Hi as [s ->]. cbn. by rewrite IH.
Qed.
End canaries.

(** The canaries represent the tenants.  There are as many as asked for, or
    every target when there are fewer; canaries and remaining targets are all the
    targets, each once; and two canaries are of one tenant only when every tenant
    with a target has a canary. *)
Theorem canaries_represent_the_tenants options listed canaries remaining :
  select_targets options listed = Ok (canaries, remaining) ->
  length canaries = Nat.min (canary options) (length canaries + length remaining) /\
  (NoDup (map tenant_id canaries) \/
   forall s, s ∈ remaining -> tenant_id s ∈ map tenant_id canaries).
Proof.
  intros Hs. unfold select_targets in Hs. apply bind_Ok in Hs as (? & _ & Hs).
  destruct (concurrency options =? 0)%nat; [done|]. apply bind_Ok in Hs as (ms & _ & Hs).
  case_bool_decide; [done|]. apply bind_Ok in Hs as (snaps & _ & Hs). injection Hs as Hs.
  set (targets := sort_by snapshot_leb snaps) in *. set (count := Nat.min _ _) in Hs.
  destruct (select_canary_indices_spec targets count) as (Hnd & Hr & Hl & Ht); [lia|].
  pose proof (canaries_perm targets _ Hnd Hr) as Hp. pose proof (split_indices_perm _ _ _ _ _ Hs) as Hall.
  rewrite Hs in Hp. cbn [fst] in Hp.
  assert (Hmap : map tenant_id canaries ≡ₚ tenants_at targets (select_canary_indices targets count))
    by (rewrite tenants_at_map; by apply Permutation_map).
  split.
  - rewrite <- length_app, Hall, Hp, length_at by done. exact Hl.
  - destruct Ht as [Ht|Ht]; [left; by rewrite Hmap|right]. intros s Hin. rewrite Hmap. apply Ht.
    rewrite <- Hall. apply elem_of_app. by right.
Qed.

(** ** Witness: two canaries of three machines of two tenants *)

Lemma canaries_represent_the_tenants_witness :
  exists canaries remaining,
    select_targets (mkOptions "new" [] true 2 2 0 1000 0)
      (Ok [demo_machine "m1" "acme"; demo_machine "m2" "acme"; demo_machine "m3" "zeta"])
      = Ok (canaries, remaining) /\
    map tenant_id canaries = ["acme"; "zeta"] /\
    length canaries = Nat.min 2 (length canaries + length remaining).
Proof.
  eexists _, _. split; [vm_compute; reflexivity|]. split; [reflexivity|].
  refine (proj1 (canaries_represent_the_tenants (mkOptions "new" [] true 2 2 0 1000 0)
    (Ok [demo_machine "m1" "acme"; demo_machine "m2" "acme"; demo_machine "m3" "zeta"]) _ _ _)).
  vm_compute. reflexivity.
Defined.
