(* ===== verification/Template.v ===== *)
(** * Tenant templates ([crates/admin/src/template.rs], [parse_vars] of [main.rs])

    A template renders to one machine specification per index: every string of
    the configuration, the metadata, the name and the region has its placeholders
    [{{key}}] replaced.  Reading the file, parsing TOML and converting it to JSON
    are parameters; the iteration order of a hash map is an argument. *)

From stdpp Require Import numbers.
From S2P Require Import Prelude Text Machines.

Definition open_brace : byte := x7b.
Definition close_brace : byte := x7d.

(** [format!("{{{{{key}}}}}")]. *)
Definition token (key : list byte) : list byte :=
  [open_brace; open_brace] ++ key ++ [close_brace; close_brace].

Definition unresolved (output : list byte) : bool :=
  contains_bytes [open_brace; open_brace] output && contains_bytes [close_brace; close_brace] output.

Definition replace_var (output : list byte) (var : string * string) : list byte :=
  replace_bytes (token (as_bytes var.1)) (as_bytes var.2) 0 output.

(** [vars] in the order the map iterates. *)
Definition render_string (input : string) (vars : list (string * string)) : Res string :=
  let output := fold_left replace_var vars (as_bytes input) in
  if unresolved output then anyhow ("unresolved template variables in '" +:+ input +:+ "'")
  else Ok (from_bytes_unchecked output).

Definition render_opt (o : option string) (vars : list (string * string)) : Res (option string) :=
  match o with None => Ok None | Some s => s ← render_string s vars; Ok (Some s) end.

Fixpoint render_value (value : Value) (vars : list (string * string)) : Res Value :=
  match value with
  | VString s => s ← render_string s vars; Ok (VString s)
  | VArray items =>
      items ← (fix go l := match l with
                           | [] => Ok []
                           | item :: l => item ← render_value item vars; l ← go l; Ok (item :: l)
                           end) items;
      Ok (VArray items)
  | VObject fields =>
      fields ← (fix go l := match l with
                            | [] => Ok []
                            | (k, nested) :: l => nested ← render_value nested vars; l ← go l; Ok ((k, nested) :: l)
                            end) fields;
      Ok (VObject fields)
  | _ => Ok value
  end.

(** The metadata's values, in the order the map iterates. *)
Fixpoint render_metadata (entries : list (string * string)) (vars : list (string * string)) :
    Res (list (string * string)) :=
  match entries with
  | [] => Ok []
  | (k, value) :: rest =>
      value ← render_string value vars; rest ← render_metadata rest vars; Ok ((k, value) :: rest)
  end.

(** ** Templates *)

Record MachineTemplate (Toml : Type) := mkMachineTemplate {
  mt_name : option string;
  mt_region : option string;
  mt_config : Toml;
  mt_lease_ttl : option Z;
  mt_skip_launch : option bool;
  mt_skip_service_registration : option bool;
  mt_lsvd : option bool;
}.
Arguments mkMachineTemplate {Toml}.
Arguments mt_name {Toml}.
Arguments mt_region {Toml}.
Arguments mt_config {Toml}.
Arguments mt_lease_ttl {Toml}.
Arguments mt_skip_launch {Toml}.
Arguments mt_skip_service_registration {Toml}.
Arguments mt_lsvd {Toml}.

Record TenantTemplate (Toml : Type) := mkTemplate {
  tt_version : Z;
  tt_app : string;
  machine_count : nat;
  machine : MachineTemplate Toml;
  tt_metadata : gmap string string;
}.
Arguments mkTemplate {Toml}.
Arguments tt_version {Toml}.
Arguments tt_app {Toml}.
Arguments machine_count {Toml}.
Arguments machine {Toml}.
Arguments tt_metadata {Toml}.

Record RenderedMachineSpec := mkSpec {
  spec_name : option string;
  spec_region : option string;
  spec_config : Value;
  spec_metadata : gmap string string;
  spec_lease_ttl : option Z;
  spec_skip_launch : option bool;
  spec_skip_service_registration : option bool;
  spec_lsvd : option bool;
}.

Section template.
Context {Toml : Type} (to_json : Toml -> Res Value).
(** The order in which a map is iterated while machine [idx] is rendered. *)
Context (iter : nat -> gmap string string -> list (string * string)).

Definition load_template (raw : Res string) (parse : string -> Res (TenantTemplate Toml)) (path : string) :
    Res (TenantTemplate Toml) :=
  raw ← with_context ("read template file " +:+ path) raw;
  template ← with_context "parse tenant template toml" (parse raw);
  if (machine_count template =? 0)%nat then anyhow "template machine_count must be greater than zero"
  else
    config_json ← with_context "convert template machine.config to json" (to_json (mt_config (machine template)));
    match as_object config_json with
    | Some _ => Ok template
    | None => anyhow "template machine.config must be a TOML table"
    end.

Definition machine_vars (tenant_id : string) (access_token : option string) (extra_vars : gmap string string)
    (idx : nat) : gmap string string :=
  let vars := <["index" := pretty (S idx)]> (<["tenant_id" := tenant_id]> extra_vars) in
  match access_token with Some token => <["access_token" := token]> vars | None => vars end.

Definition render_machine (template : TenantTemplate Toml) (tenant_id : string) (access_token : option string)
    (extra_vars : gmap string string) (idx : nat) : Res RenderedMachineSpec :=
  let vars := iter idx (machine_vars tenant_id access_token extra_vars idx) in
  config ← with_context "convert template machine.config to json" (to_json (mt_config (machine template)));
  config ← render_value config vars;
  metadata ← render_metadata (iter idx (tt_metadata template)) vars;
  name ← render_opt (mt_name (machine template)) vars;
  region ← render_opt (mt_region (machine template)) vars;
  Ok (mkSpec name region config (list_to_map metadata) (mt_lease_ttl (machine template))
        (mt_skip_launch (machine template)) (mt_skip_service_registration (machine template))
        (mt_lsvd (machine template))).

Fixpoint render_machines (template : TenantTemplate Toml) (tenant_id : string) (access_token : option string)
    (extra_vars : gmap string string) (indices : list nat) : Res (list RenderedMachineSpec) :=
  match indices with
  | [] => Ok []
  | idx :: rest =>
      spec ← render_machine template tenant_id access_token extra_vars idx;
      specs ← render_machines template tenant_id access_token extra_vars rest;
      Ok (spec :: specs)
  end.

Definition render_template (template : TenantTemplate Toml) (tenant_id : string) (access_token : option string)
    (extra_vars : gmap string string) : Res (list RenderedMachineSpec) :=
  render_machines template tenant_id access_token extra_vars (seq 0 (machine_count template)).
End template.

(** ** The [--var] arguments *)

Definition equals_sign : byte := x3d.

Fixpoint parse_vars_from (vars : gmap string string) (input : list string) : Res (gmap string string) :=
  match input with
  | [] => Ok vars
  | item :: rest =>
      '(key, value) ← ok_or ("invalid --var '" +:+ item +:+ "', expected key=value") (split_once equals_sign item);
      if is_empty (trim key) then anyhow ("invalid --var '" +:+ item +:+ "': empty key")
      else
        match vars !! trim key with
        | Some _ => anyhow ("duplicate --var key '" +:+ key +:+ "': provided multiple times")
        | None => parse_vars_from (<[trim key := value]> vars) rest
        end
  end.

Definition parse_vars (input : list string) : Res (gmap string string) := parse_vars_from ∅ input.

(** ** Placeholders *)

(** A template string: literal text and placeholders. *)
Inductive Segment := Lit (text : list byte) | Var (key : list byte).

Definition print_segment (s : Segment) : list byte :=
  match s with Lit text => text | Var key => token key end.

Definition print_template (segs : list Segment) : list byte := concat (map print_segment segs).

Definition plain (bs : list byte) : Prop := (open_brace ∉ bs) /\ (close_brace ∉ bs).

Definition plain_segment (s : Segment) : Prop := match s with Lit text => plain text | Var key => plain key end.

Definition plain_var (var : string * string) : Prop := plain (as_bytes var.1) /\ plain (as_bytes var.2).

#[export] Instance plain_dec bs : Decision (plain bs).
Proof. unfold plain. apply _. Defined.
#[export] Instance plain_segment_dec s : Decision (plain_segment s).
Proof. destruct s; apply _. Defined.
#[export] Instance plain_var_dec var : Decision (plain_var var).
Proof. unfold plain_var. apply _. Defined.

(** Simultaneous substitution: the value of each placeholder, all of them defined. *)
Fixpoint substitute (vars : gmap string string) (segs : list Segment) : option (list byte) :=
  match segs with
  | [] => Some []
  | Lit text :: rest => out ← substitute vars rest; Some (text ++ out)
  | Var key :: rest =>
      value ← vars !! from_bytes_unchecked key; out ← substitute vars rest; Some (as_bytes value ++ out)
  end.

(** One replacement, on the segments. *)
Definition fill (key value : list byte) (s : Segment) : Segment :=
  match s with
  | Var key' => if bool_decide (key' = key) then Lit value else s
  | Lit _ => s
  end.

Lemma strip_bytes_app pat l : strip_bytes pat (pat ++ l) = Some l.
Proof. induction pat as [|p pat IH]; [done|]. cbn. by rewrite bool_decide_true. Qed.

(** A token starts another token's text only if the keys agree. *)
Lemma token_prefix key key' rest :
  plain key -> plain key' -> starts_with (token key) (token key' ++ rest) = bool_decide (key' = key).
Proof.
  intros [_ Hk] [_ Hk']. unfold starts_with, token. cbn [app strip_bytes].
  rewrite (bool_decide_true (open_brace = open_brace)) by done.
  revert key' Hk'. induction key as [|b key IH]; intros [|b' key'] Hk'; cbn [app strip_bytes].
  - rewrite !bool_decide_true by done. done.
  - rewrite (bool_decide_false (close_brace = b')) by (intros <-; apply Hk'; by left).
    by rewrite bool_decide_false.
  - rewrite (bool_decide_false (b = close_brace)) by (intros ->; apply Hk; by left).
    by rewrite bool_decide_false.
  - destruct (decide (b = b')) as [<-|Hb].
    + rewrite bool_decide_true by done. rewrite IH.
      * apply bool_decide_ext. split; [by intros ->|by intros [=]].
      * intros Hin. apply Hk. by right.
      * intros Hin. apply Hk'. by right.
    + by rewrite !bool_decide_false by congruence.
Qed.

(** Past its first byte, a token does not start a token. *)
Lemma token_tail key key' rest :
  plain key' -> starts_with (token key) (open_brace :: (key' ++ [close_brace; close_brace] ++ rest)) = false.
Proof.
  intros [Ho _]. unfold starts_with, token. cbn. rewrite bool_decide_true by done.
  destruct key' as [|b key']; cbn; rewrite bool_decide_false; try done. intros <-. apply Ho. by left.
Qed.

Lemma replace_token_copy key value l bs :
  open_brace ∉ l -> replace_bytes (token key) value 0 (l ++ bs) = l ++ replace_bytes (token key) value 0 bs.
Proof. apply (replace_bytes_copy open_brace). Qed.

Lemma replace_segments key value segs :
  plain key -> Forall plain_segment segs ->
  replace_bytes (token key) value 0 (print_template segs) = print_template (map (fill key value) segs).
Proof.
  intros Hk. induction segs as [|s segs IH]; intros Hs; [done|]. apply Forall_cons in Hs as [Hs Hsegs].
  unfold print_template in *. cbn [map concat]. specialize (IH Hsegs).
  set (rest := concat (map print_segment segs)) in *.
  destruct s as [text|key']; cbn [print_segment fill plain_segment] in *.
  - rewrite replace_token_copy; [by rewrite <- IH|apply Hs].
  - pose proof (token_prefix key key' rest Hk Hs) as Hp. case_bool_decide as E.
    + subst key'. cbn [print_segment]. unfold token at 2. cbn [app replace_bytes].
      unfold token in Hp at 2. cbn [app] in Hp. rewrite Hp. rewrite <- IH. f_equal.
      rewrite <- (replace_bytes_skip (token key) value (open_brace :: key ++ [close_brace; close_brace]) rest).
      f_equal.
    + cbn [print_segment]. unfold token at 2 3. cbn [app replace_bytes].
      unfold token in Hp at 2. cbn [app] in Hp. rewrite Hp. rewrite <- app_assoc in Hp |- *.
      pose proof (token_tail key key' rest Hs) as Ht. cbn [app] in Ht |- *. rewrite Ht. do 2 f_equal.
      assert (Hc : open_brace ∉ key' ++ [close_brace; close_brace]).
      { rewrite elem_of_app. intros [Hin|Hin]; [by destruct Hs|]. apply list_elem_of_In in Hin. by destruct Hin as [|[|[]]]. }
      pose proof (replace_token_copy key value (key' ++ [close_brace; close_brace]) rest Hc) as Hcopy.
      rewrite <- !app_assoc in Hcopy. cbn [app] in Hcopy. by rewrite Hcopy, IH, <- app_assoc.
Qed.

(** All the replacements, on the segments. *)
Definition fill_var (segs : list Segment) (var : string * string) : list Segment :=
  map (fill (as_bytes var.1) (as_bytes var.2)) segs.

Lemma fill_plain segs var :
  plain_var var -> Forall plain_segment segs -> Forall plain_segment (fill_var segs var).
Proof.
  intros [_ Hv] Hs. apply Forall_map. eapply Forall_impl; [exact Hs|]. intros [text|key] Hk; [done|].
  cbn. by case_bool_decide.
Qed.

Lemma replace_all vars segs :
  Forall plain_var vars -> Forall plain_segment segs ->
  fold_left replace_var vars (print_template segs) = print_template (fold_left fill_var vars segs) /\
  Forall plain_segment (fold_left fill_var vars segs).
Proof.
  revert segs. induction vars as [|var vars IH]; intros segs Hv Hs; [done|]. apply Forall_cons in Hv as [Hvar Hv].
  cbn [fold_left]. unfold replace_var at 2. rewrite replace_segments by (done || apply Hvar).
  apply (IH (fill_var segs var)); [done|by apply fill_plain].
Qed.

Lemma fill_all_lit vars text : fold_left fill_var vars [Lit text] = [Lit text].
Proof. by induction vars as [|var vars IH]. Qed.

Lemma fill_all_app vars segs segs' :
  fold_left fill_var vars (segs ++ segs') = fold_left fill_var vars segs ++ fold_left fill_var vars segs'.
Proof.
  revert segs segs'. induction vars as [|var vars IH]; intros segs segs'; [done|]. cbn [fold_left].
  unfold fill_var at 2 4 6. by rewrite map_app, IH.
Qed.

(** The first variable of the list with the key gives the value. *)
Lemma fill_all_var vars key :
  fold_left fill_var vars [Var key] =
  match (list_to_map vars : gmap string string) !! from_bytes_unchecked key with
  | Some value => [Lit (as_bytes value)]
  | None => [Var key]
  end.
Proof.
  induction vars as [|[k v] vars IH]; [done|]. cbn [fold_left list_to_map foldr fst snd].
  unfold fill_var at 2. cbn [map fill fst snd]. case_bool_decide as E.
  - subst key. rewrite from_bytes_as_bytes, lookup_insert_eq. apply fill_all_lit.
  - rewrite lookup_insert_ne; [done|]. intros ->. by rewrite as_bytes_from_bytes in E.
Qed.

Lemma fill_all vars segs :
  match substitute (list_to_map vars) segs with
  | Some out => print_template (fold_left fill_var vars segs) = out /\
      Forall (fun s => exists text, s = Lit text) (fold_left fill_var vars segs)
  | None => exists key, Var key ∈ fold_left fill_var vars segs
  end.
Proof.
  induction segs as [|s segs IH]; cbn [substitute].
  - replace (fold_left fill_var vars []) with (@nil Segment) by (clear; by induction vars). done.
  - change (s :: segs) with ([s] ++ segs). rewrite fill_all_app. destruct s as [text|key].
    + rewrite fill_all_lit. destruct (substitute _ segs) as [out|]; cbn.
      * destruct IH as [<- Hl]. split; [done|]. constructor; eauto.
      * destruct IH as [key Hk]. exists key. by right.
    + rewrite fill_all_var. destruct (_ !! _) as [value|]; cbn; [|exists key; by left].
      destruct (substitute _ segs) as [out|]; cbn.
      * destruct IH as [<- Hl]. split; [done|]. constructor; eauto.
      * destruct IH as [key' Hk]. exists key'. by right.
Qed.

(** Text without braces is resolved; a placeholder left is not. *)
Lemma print_plain segs :
  Forall plain_segment segs -> Forall (fun s => exists text, s = Lit text) segs -> unresolved (print_template segs) = false.
Proof.
  intros Hp Hl. assert (Hn : open_brace ∉ print_template segs).
  { unfold print_template. induction Hl as [|s segs [text ->] Hl IH]; [intros Hin; inversion Hin|].
    apply Forall_cons in Hp as [[Ho _] Hp]. cbn. rewrite elem_of_app. intros [Hin|Hin]; [done|by apply IH]. }
  unfold unresolved. by rewrite (contains_bytes_absent open_brace [open_brace]).
Qed.

Lemma print_unresolved segs key : Var key ∈ segs -> unresolved (print_template segs) = true.
Proof.
  intros Hin. apply list_elem_of_split in Hin as (l & k & ->). unfold unresolved, print_template.
  rewrite map_app, concat_app. cbn [map concat print_segment]. unfold token.
  rewrite !(contains_bytes_app _ (concat _)); [done|..].
  - rewrite <- !app_assoc. apply contains_bytes_app, contains_bytes_app, contains_bytes_here.
  - rewrite <- !app_assoc. apply contains_bytes_here.
Qed.

(** C32: When neither the variables nor the text between the placeholders of a
    template string hold a brace, the successive textual replacements are a
    simultaneous substitution of its placeholders, whatever the order of the
    variables, and a placeholder without a variable is an error.  (With braces in
    either, the result can depend on that order.) *)
Theorem placeholders_are_substituted vars segs :
  Forall plain_var vars -> Forall plain_segment segs ->
  let input := from_bytes_unchecked (print_template segs) in
  render_string input vars =
  match substitute (list_to_map vars) segs with
  | Some out => Ok (from_bytes_unchecked out)
  | None => anyhow ("unresolved template variables in '" +:+ input +:+ "'")
  end.
Proof.
  intros Hv Hs input. unfold render_string, input. rewrite as_bytes_from_bytes.
  destruct (replace_all vars segs Hv Hs) as [-> Hp]. pose proof (fill_all vars segs) as Hf.
  destruct (substitute _ segs) as [out|].
  - destruct Hf as [<- Hl]. by rewrite (print_plain _ Hp Hl).
  - destruct Hf as [key Hk]. by rewrite (print_unresolved _ _ Hk).
Qed.

(** So it can when the text between the placeholders holds braces. *)
Example nested_text_depends_on_the_map_order :
  render_string "{{{{a}}}}" [("a", "b"); ("b", "c")] = Ok "c" /\
  render_string "{{{{a}}}}" [("b", "c"); ("a", "b")] = anyhow "unresolved template variables in '{{{{a}}}}'".
Proof. vm_compute. done. Qed.

(** When the value of one variable holds the placeholder of another, the result
    depends on the order in which the hash map is iterated: one order renders the
    string, the other refuses it. *)
Theorem rendering_depends_on_the_map_order a b x :
  a <> b -> plain (as_bytes a) -> plain_var (b, x) ->
  let input := from_bytes_unchecked (token (as_bytes a)) in
  let nested := (a, from_bytes_unchecked (token (as_bytes b))) in
  render_string input [nested; (b, x)] = Ok x /\
  render_string input [(b, x); nested] = anyhow ("unresolved template variables in '" +:+ input +:+ "'").
Proof.
  intros Hab Ha [Hb Hx] input nested. cbn in Hb, Hx. unfold render_string, input, nested.
  rewrite as_bytes_from_bytes. cbn [fold_left]. unfold replace_var. cbn [fst snd]. rewrite as_bytes_from_bytes.
  assert (Hseg : forall k, plain (as_bytes k) -> Forall plain_segment [Var (as_bytes k)])
    by (intros k Hk; by apply Forall_cons).
  assert (Hone : forall k k' v, plain (as_bytes k) -> plain (as_bytes k') ->
    replace_bytes (token (as_bytes k)) v 0 (token (as_bytes k')) = if bool_decide (k' = k) then v else token (as_bytes k')).
  { intros k k' v Hk Hk'. pose proof (replace_segments (as_bytes k) v _ Hk (Hseg k' Hk')) as Hr.
    unfold print_template in Hr. cbn [map concat print_segment fill] in Hr. rewrite !app_nil_r in Hr. rewrite Hr.
    destruct (decide (k' = k)) as [->|Hn]; [by rewrite !bool_decide_true by done|].
    rewrite (bool_decide_false (k' = k)) by done. rewrite bool_decide_false; [done|].
    intros E. by apply Hn, as_bytes_inj. }
  rewrite !Hone by done. rewrite (bool_decide_true (a = a)), (bool_decide_false (a = b)) by done.
  rewrite !Hone by done. rewrite (bool_decide_true (a = a)), (bool_decide_true (b = b)) by done. split.
  - pose proof (print_plain [Lit (as_bytes x)]) as Hp. unfold print_template in Hp. cbn in Hp. rewrite app_nil_r in Hp.
    rewrite Hp, from_bytes_as_bytes; [done|by apply Forall_cons|apply Forall_cons; eauto].
  - pose proof (print_unresolved [Var (as_bytes b)] (as_bytes b)) as Hp.
    unfold print_template in Hp. cbn [map concat print_segment] in Hp. rewrite app_nil_r in Hp.
    by rewrite Hp by (by left).
Qed.

(** ** Specifications *)

Definition resolved (s : string) : Prop := unresolved (as_bytes s) = false.

(** Every string of the value, the keys of its objects apart. *)
Fixpoint resolved_value (v : Value) : Prop :=
  match v with
  | VString s => resolved s
  | VArray items => foldr (fun v rest => resolved_value v /\ rest) True items
  | VObject fields => foldr (fun '(_, v) rest => resolved_value v /\ rest) True fields
  | _ => True
  end.

Definition resolved_opt (o : option string) : Prop := match o with Some s => resolved s | None => True end.

Definition spec_resolved (spec : RenderedMachineSpec) : Prop :=
  resolved_value (spec_config spec) /\ map_Forall (fun _ s => resolved s) (spec_metadata spec) /\
  resolved_opt (spec_name spec) /\ resolved_opt (spec_region spec).

Lemma render_string_resolved input vars s : render_string input vars = Ok s -> resolved s.
Proof.
  unfold render_string, resolved. destruct (unresolved _) eqn:E; [done|]. intros [= <-]. by rewrite as_bytes_from_bytes.
Qed.

Lemma render_opt_resolved o vars o' : render_opt o vars = Ok o' -> resolved_opt o'.
Proof.
  unfold render_opt. destruct o as [s|]; [|by intros [= <-]]. intros (s' & Hs & [= <-])%bind_Ok.
  by eapply render_string_resolved.
Qed.

Lemma render_value_resolved vars v v' : render_value v vars = Ok v' -> resolved_value v'.
Proof.
  revert v'. induction v as [| | | |items IH|fields IH] using Value_nested_ind; intros v' Hr; cbn in Hr;
    [by injection Hr as <-..| | |].
  - apply bind_Ok in Hr as (s' & Hs & [= <-]). by eapply render_string_resolved.
  - apply bind_Ok in Hr as (items' & Hs & [= <-]). cbn. revert items' Hs.
    induction IH as [|v items Hv _ IH]; intros items' Hs; [by injection Hs as <-|].
    apply bind_Ok in Hs as (v' & Hv' & Hs). apply bind_Ok in Hs as (l & Hl & [= <-]). cbn. auto.
  - apply bind_Ok in Hr as (fields' & Hs & [= <-]). cbn. revert fields' Hs.
    induction IH as [|[k v] fields Hv _ IH]; intros fields' Hs; [by injection Hs as <-|].
    apply bind_Ok in Hs as (v' & Hv' & Hs). apply bind_Ok in Hs as (l & Hl & [= <-]). cbn. auto.
Qed.

Lemma render_metadata_resolved entries vars entries' :
  render_metadata entries vars = Ok entries' -> map_Forall (fun _ s => resolved s) (list_to_map entries' : gmap string string).
Proof.
  revert entries'. induction entries as [|[k v] rest IH]; intros entries' Hr; cbn in Hr.
  - injection Hr as <-. apply map_Forall_empty.
  - apply bind_Ok in Hr as (v' & Hv & Hr). apply bind_Ok in Hr as (l & Hl & [= <-]). cbn.
    apply map_Forall_insert_2; [by eapply render_string_resolved|by apply IH].
Qed.

Section rendered.
Context {Toml : Type} (to_json : Toml -> Res Value) (iter : nat -> gmap string string -> list (string * string)).

(** A rendered template has one specification per machine, and no string of a
    specification's configuration, metadata, name or region has a placeholder
    left. *)
Theorem rendered_specs_are_resolved (template : TenantTemplate Toml) tenant_id access_token extra_vars specs :
  render_template to_json iter template tenant_id access_token extra_vars = Ok specs ->
  length specs = machine_count template /\ Forall spec_resolved specs.
Proof.
  unfold render_template. rewrite <- (length_seq (machine_count template) 0) at 2.
  generalize (seq 0 (machine_count template)) as indices. intros indices. revert specs.
  induction indices as [|idx rest IH]; intros specs Hr; cbn in Hr; [by injection Hr as <-|].
  apply bind_Ok in Hr as (spec & Hs & Hr). apply bind_Ok in Hr as (specs' & Hss & [= <-]).
  destruct (IH _ Hss) as [Hlen Hall]. cbn. split; [by f_equal|]. constructor; [|done].
  unfold render_machine in Hs. apply bind_Ok in Hs as (c & _ & Hs). apply bind_Ok in Hs as (c' & Hc & Hs).
  apply bind_Ok in Hs as (md & Hmd & Hs). apply bind_Ok in Hs as (nm & Hnm & Hs).
  apply bind_Ok in Hs as (rg & Hrg & [= <-]). split_and!; cbn.
  - by eapply render_value_resolved.
  - by eapply render_metadata_resolved.
  - by eapply render_opt_resolved.
  - by eapply render_opt_resolved.
Qed.
End rendered.

(** ** Witnesses *)

Lemma placeholders_are_substituted_witness :
  render_string "tenant-{{tenant_id}}-{{index}}" [("index", "1"); ("tenant_id", "acme")] = Ok "tenant-acme-1".
Proof.
  refine (placeholders_are_substituted [("index", "1"); ("tenant_id", "acme")]
    [Lit (as_bytes "tenant-"); Var (as_bytes "tenant_id"); Lit (as_bytes "-"); Var (as_bytes "index")] _ _);
    apply (bool_decide_unpack _); vm_compute; reflexivity.
Defined.

Lemma rendering_depends_on_the_map_order_witness :
  render_string "{{a}}" [("a", "{{b}}"); ("b", "x")] = Ok "x" /\
  render_string "{{a}}" [("b", "x"); ("a", "{{b}}")] = anyhow "unresolved template variables in '{{a}}'".
Proof.
  refine (rendering_depends_on_the_map_order "a" "b" "x" _ _ _); [done|..];
    apply (bool_decide_unpack _); vm_compute; reflexivity.
Defined.

Definition demo_template : TenantTemplate Value :=
  mkTemplate 1 "vault" 2
    (mkMachineTemplate (Some "vm-{{index}}") None (VObject [("image", VString "{{img}}")]) None None None None) ∅.

Lemma rendered_specs_are_resolved_witness :
  exists specs, render_template Ok (fun _ => map_to_list) demo_template "acme" None {["img" := "vault:1"]} = Ok specs /\
    length specs = 2%nat /\ Forall spec_resolved specs.
Proof.
  destruct (render_template Ok (fun _ => map_to_list) demo_template "acme" None {["img" := "vault:1"]})
    as [specs|e|] eqn:E; [|by vm_compute in E..].
  exists specs. split; [done|]. exact (rendered_specs_are_resolved Ok (fun _ => map_to_list) demo_template _ _ _ _ E).
Defined.
