(* ===== verification/Tenant.v ===== *)
(** * Tenants ([crates/admin/src/tenant.rs])

    Creating a tenant from a template, with the volumes its mounts name and the
    cleanup of a creation that fails; deleting a tenant; listing tenants and usage
    facts; the authorization of the usage-facts server.  The machines and volumes
    the API holds are explicit, and what it answers to each call is a parameter. *)

From stdpp Require Import numbers.
From S2P Require Import Prelude Text Machines Template.

Definition TEMPLATE_KEY : string := "fly_vault.template".

(** ** What the API holds *)

Record Cloud := mkCloud {
  machines : gmap string Machine;
  cloud_volumes : gmap string (option Z);
  (** the ids cordoned so far: the machines no traffic is sent to any more *)
  cordoned_ids : gset string;
}.

Definition set_machines (f : gmap string Machine -> gmap string Machine) (c : Cloud) : Cloud :=
  mkCloud (f (machines c)) (cloud_volumes c) (cordoned_ids c).
Definition set_volumes (f : gmap string (option Z) -> gmap string (option Z)) (c : Cloud) : Cloud :=
  mkCloud (machines c) (f (cloud_volumes c)) (cordoned_ids c).
Definition set_cordoned (mid : string) (c : Cloud) : Cloud :=
  mkCloud (machines c) (cloud_volumes c) ({[mid]} ∪ cordoned_ids c).

Record CreateMachineRequest := mkRequest {
  req_name : option string;
  req_region : option string;
  req_config : Value;
  req_lease_ttl : option Z;
  req_skip_launch : option bool;
  req_skip_service_registration : option bool;
  req_lsvd : option bool;
}.

Record CreateVolumeRequest := mkVolumeRequest {
  vol_name : string;
  vol_region : option string;
  vol_size_gb : option Z;
}.

(** The answer to a request that creates something, with the id it gets. *)
Inductive CreateReply := Created (new : string) | CreateRefused (e : Error) | CreateLost (new : string) (e : Error).

(** What the API answers to its [k]-th call. *)
Record Api := mkApi {
  create_reply : nat -> CreateReply;
  delete_reply : nat -> Reply;
  cordon_reply : nat -> Reply;
  stop_reply : nat -> Reply;
  wait_reply : nat -> nat -> Res unit;
  list_error : nat -> option Error;
  (** the machines it lists for a query, out of those it holds *)
  listing : nat -> list (string * string) -> gmap string Machine -> list Machine;
  volume_listing : nat -> gmap string (option Z) -> list (string * option Z);
  (** the machine a request creates *)
  launched : string -> CreateMachineRequest -> Machine;
}.

(** The calls made so far, and what the API holds. *)
Definition Sys : Type := nat * Cloud.

Definition numbered {A} (f : nat -> M Cloud A) : M Sys A := fun '(k, c) =>
  let '(r, c) := f k c in (r, (S k, c)).

Definition not_found : Error := [ApiError 404 ""].

Section tenant.
Context (api : Api) (show : Cause -> string).

(** ** The client's calls *)

(** Deleting what is not there is a 404. *)
Definition delete_machine (mid : string) : M Sys unit := numbered (fun k c =>
  match machines c !! mid with
  | Some _ => call (delete_reply api k) (set_machines (delete mid)) c
  | None => (Err not_found, c)
  end).

Definition delete_volume (vid : string) : M Sys unit := numbered (fun k c =>
  match cloud_volumes c !! vid with
  | Some _ => call (delete_reply api k) (set_volumes (delete vid)) c
  | None => (Err not_found, c)
  end).

Definition create_machine (request : CreateMachineRequest) : M Sys Machine := numbered (fun k c =>
  let add := fun new => set_machines <[new := launched api new request]> c in
  match create_reply api k with
  | Created new => (Ok (launched api new request), add new)
  | CreateRefused e => (Err e, c)
  | CreateLost new e => (Err e, add new)
  end).

(** The id is all the tool uses of the answer. *)
Definition create_volume (request : CreateVolumeRequest) : M Sys string := numbered (fun k c =>
  let add := fun new => set_volumes <[new := vol_size_gb request]> c in
  match create_reply api k with
  | Created new => (Ok new, add new)
  | CreateRefused e => (Err e, c)
  | CreateLost new e => (Err e, add new)
  end).

Definition cordon_machine (mid : string) : M Sys unit :=
  numbered (fun k c => call (cordon_reply api k) (set_cordoned mid) c).

Definition stopped (m : Machine) : Machine :=
  mkMachine (id m) (name m) "stopped" (region m) (instance_id m) (private_ip m) (created_at m) (updated_at m)
    (image_ref m) (config m) (checks m) (events m).

Definition stop_machine (mid : string) : M Sys unit :=
  numbered (fun k c => call (stop_reply api k) (set_machines (alter stopped mid)) c).

Definition wait_state (timeout : Z) : M Sys unit :=
  numbered (fun k c => (wait_for_state (wait_reply api k) timeout, c)).

Definition list_machines (query : list (string * string)) : M Sys (list Machine) := numbered (fun k c =>
  match list_error api k with
  | Some e => (Err e, c)
  | None => (Ok (listing api k query (machines c)), c)
  end).

Definition list_volumes : M Sys (list (string * option Z)) := numbered (fun k c =>
  match list_error api k with
  | Some e => (Err e, c)
  | None => (Ok (volume_listing api k (cloud_volumes c)), c)
  end).

(** ** Listing *)

Definition belongs_to (tenant : string) (machine : Machine) : bool :=
  bool_decide (metadata machine !! TENANT_ID_KEY = Some tenant).

Definition list_managed_machines_with_options (tenant_filter : option string) (include_destroyed : bool) :
    M Sys (list Machine) :=
  let query := ("metadata." +:+ MANAGED_BY_KEY, MANAGED_BY_VALUE) ::
    match tenant_filter with Some tenant => [("metadata." +:+ TENANT_ID_KEY, tenant)] | None => [] end in
  machines ← list_machines query;
  let machines := List.filter (is_managed_with include_destroyed) machines in
  mret (match tenant_filter with Some tenant => List.filter (belongs_to tenant) machines | None => machines end).

Definition list_managed_machines (tenant_filter : option string) : M Sys (list Machine) :=
  list_managed_machines_with_options tenant_filter false.

Definition list_volume_sizes : M Sys (gmap string Z) :=
  volumes ← list_volumes;
  mret (list_to_map (rev (omap (fun '(vid, size) => match size with Some n => Some (vid, n) | None => None end) volumes))).

(** ** Cleaning up *)

(** A deletion that failed: nothing to report when it was done already. *)
Definition deletion_error (action : MachineAction) (what vid : string) (err : Error) : list string :=
  match classify_machine_action_error action err with
  | AlreadyApplied => []
  | Retryable => ["delete " +:+ what +:+ " " +:+ vid +:+ " (retryable): " +:+ display_error show err]
  | Fatal => ["delete " +:+ what +:+ " " +:+ vid +:+ ": " +:+ display_error show err]
  end.

(** Each of [ids] is deleted; the errors to report. *)
Fixpoint delete_each (action : MachineAction) (what : string) (del : string -> M Sys unit) (ids : list string) :
    M Sys (list string) :=
  match ids with
  | [] => mret []
  | i :: rest =>
      r ← mtry (del i);
      match r with
      | Ok _ => delete_each action what del rest
      | Err err =>
          errors ← delete_each action what del rest;
          mret (deletion_error action what i err ++ errors)
      | Panic => mlift Panic
      end
  end.

Definition cleanup_created_machines : list string -> M Sys (list string) :=
  delete_each DeleteMachine "machine" delete_machine.

Definition cleanup_created_volumes : list string -> M Sys (list string) :=
  delete_each DeleteVolume "volume" delete_volume.

Definition with_cleanup_errors (error : Error) (cleanup_errors : list string) (context : string) : Error :=
  let error := Msg context :: error in
  match cleanup_errors with
  | [] => error
  | _ => [Msg (display_error show error +:+ eol +:+ "cleanup errors:" +:+ eol +:+ String.concat eol cleanup_errors)]
  end.

(** ** Volumes for mounts *)

(** The mounts that name a volume to create, with their indices. *)
Fixpoint pending_mounts (index : nat) (mounts : list Value) : Res (list (nat * string)) :=
  match mounts with
  | [] => Ok []
  | mount :: rest =>
      let here := "machine config mounts[" +:+ pretty index +:+ "]" in
      mount_obj ← ok_or (here +:+ " must be an object") (as_object mount);
      let text := fun key => v ← obj_get key mount_obj; s ← as_str v; trimmed_nonempty s in
      match text "volume" with
      | Some _ => pending_mounts (S index) rest
      | None =>
          name ← ok_or (here +:+ " must include non-empty 'volume' or 'name'") (text "name");
          pending ← pending_mounts (S index) rest;
          Ok ((index, name) :: pending)
      end
  end.

(** [mounts[index]] gets the volume. *)
Definition set_mount_volume (index : nat) (vid : string) (mounts : list Value) : list Value :=
  match mounts !! index with
  | Some (VObject fields) => <[index := VObject (obj_insert "volume" (VString vid) fields)]> mounts
  | _ => mounts
  end.

Definition mount_size (mounts : list Value) (index : nat) : Z :=
  default DEFAULT_VOLUME_SIZE_GIB
    (mount ← mounts !! index; obj ← as_object mount; v ← obj_get "size_gb" obj; n ← as_u64 v; Some (as_u32 n)).

Fixpoint create_mount_volumes (region : option string) (dry_run : bool) (pending : list (nat * string))
    (mounts : list Value) (created : list string) : M Sys (list Value * list string) :=
  match pending with
  | [] => mret (mounts, created)
  | (index, name) :: rest =>
      region' ← mlift (ok_or ("machine region is required when config.mounts[" +:+ pretty index +:+ "] uses name '"
                              +:+ name +:+ "' without volume") region);
      if dry_run then
        create_mount_volumes region dry_run rest
          (set_mount_volume index ("<auto:" +:+ name +:+ "@" +:+ region' +:+ ">") mounts) created
      else
        let context := "create volume '" +:+ name +:+ "' in region '" +:+ region' +:+ "'" in
        r ← mtry (mcontext context (create_volume (mkVolumeRequest name (Some region') (Some (mount_size mounts index)))));
        match r with
        | Ok vid => create_mount_volumes region dry_run rest (set_mount_volume index vid mounts) (created ++ [vid])
        | Err error =>
            cleanup_errors ← cleanup_created_volumes created;
            mlift (Err (with_cleanup_errors error cleanup_errors context))
        | Panic => mlift Panic
        end
  end.

Definition set_request_config (config : Value) (r : CreateMachineRequest) : CreateMachineRequest :=
  mkRequest (req_name r) (req_region r) config (req_lease_ttl r) (req_skip_launch r)
    (req_skip_service_registration r) (req_lsvd r).

(** The request with its volumes, and the volumes created. *)
Definition ensure_mount_volumes (request : CreateMachineRequest) (dry_run : bool) :
    M Sys (CreateMachineRequest * list string) :=
  let region := req_region request ≫= trimmed_nonempty in
  config ← mlift (ok_or "machine config must be an object" (as_object (req_config request)));
  match obj_get "mounts" config with
  | None => mret (request, [])
  | Some mounts =>
      mounts ← mlift (ok_or "machine config mounts must be an array" (as_array mounts));
      pending ← mlift (pending_mounts 0 mounts);
      '(mounts, created) ← create_mount_volumes region dry_run pending mounts [];
      mret (set_request_config (VObject (obj_insert "mounts" (VArray mounts) config)) request, created)
  end.

(** ** Creating a tenant *)

Definition tenant_metadata (tenant_id template_label : string) (metadata : gmap string string) : gmap string string :=
  <[TEMPLATE_KEY := template_label]> (<[MANAGED_BY_KEY := MANAGED_BY_VALUE]> (<[TENANT_ID_KEY := tenant_id]> metadata)).

Definition request_of_spec (spec : RenderedMachineSpec) (config : Value) : CreateMachineRequest :=
  mkRequest (spec_name spec) (spec_region spec) config (spec_lease_ttl spec) (spec_skip_launch spec)
    (spec_skip_service_registration spec) (spec_lsvd spec).

(** The first loop: the requests, with their volumes created. *)
Fixpoint prepare_requests (tenant_id template_label : string) (dry_run : bool) (rendered : list RenderedMachineSpec)
    (created : list string) (requests : list CreateMachineRequest) :
    M Sys (list CreateMachineRequest * list string) :=
  match rendered with
  | [] => mret (requests, created)
  | spec :: rest =>
      config ← mlift (with_context "set metadata on machine config"
                 (with_metadata (spec_config spec) (tenant_metadata tenant_id template_label (spec_metadata spec))));
      r ← mtry (ensure_mount_volumes (request_of_spec spec config) dry_run);
      match r with
      | Ok (request, new) =>
          prepare_requests tenant_id template_label dry_run rest (created ++ new) (requests ++ [request])
      | Err error =>
          cleanup_errors ← cleanup_created_volumes created;
          mlift (Err (with_cleanup_errors error cleanup_errors
                        ("prepare machine request for tenant '" +:+ tenant_id +:+ "'")))
      | Panic => mlift Panic
      end
  end.

(** The cleanup after a failure past the volumes. *)
Definition cleanup_and_fail {A} (created_ids created_volumes : list string) (error : Error) (context : string) :
    M Sys A :=
  machine_errors ← cleanup_created_machines created_ids;
  volume_errors ← cleanup_created_volumes created_volumes;
  mlift (Err (with_cleanup_errors error (machine_errors ++ volume_errors) context)).

(** The second loop. *)
Fixpoint create_machines (tenant_id : string) (requests : list CreateMachineRequest) (created_volumes created_ids : list string) :
    M Sys (list string) :=
  match requests with
  | [] => mret created_ids
  | request :: rest =>
      let context := "create machine for tenant '" +:+ tenant_id +:+ "'" in
      r ← mtry (mcontext context (create_machine request));
      match r with
      | Ok machine => create_machines tenant_id rest created_volumes (created_ids ++ [id machine])
      | Err error => cleanup_and_fail created_ids created_volumes error context
      | Panic => mlift Panic
      end
  end.

(** The third loop. *)
Fixpoint wait_started (tenant_id : string) (timeout : Z) (waiting created_ids created_volumes : list string) :
    M Sys unit :=
  match waiting with
  | [] => mret tt
  | mid :: rest =>
      r ← mtry (mcontext ("wait for machine " +:+ mid +:+ " to start") (wait_state timeout));
      match r with
      | Ok _ => wait_started tenant_id timeout rest created_ids created_volumes
      | Err error =>
          cleanup_and_fail created_ids created_volumes error
            ("wait for tenant '" +:+ tenant_id +:+ "' machines to start")
      | Panic => mlift Panic
      end
  end.

(** [create_tenant]; [template] is what [load_template] returned, and the result
    is the ids of the machines created. *)
Definition create_tenant {Toml} (to_json : Toml -> Res Value) (iter : nat -> gmap string string -> list (string * string))
    (client_app tenant_id template_label : string) (template : Res (TenantTemplate Toml))
    (access_token : option string) (extra_vars : gmap string string) (dry_run : bool) (wait_timeout : Z) :
    M Sys (list string) :=
  template ← mlift template;
  if negb (tt_version template =? 1) then
    mlift (anyhow ("unsupported template version " +:+ pretty (tt_version template) +:+ " (expected 1)"))
  else if negb (bool_decide (tt_app template = client_app)) then
    mlift (anyhow ("template app '" +:+ tt_app template +:+ "' does not match configured app '" +:+ client_app +:+ "'"))
  else
    rendered ← mlift (render_template to_json iter template tenant_id access_token extra_vars);
    '(requests, created_volumes) ← prepare_requests tenant_id template_label dry_run rendered [] [];
    if dry_run then mret []
    else
      created_ids ← create_machines tenant_id requests created_volumes [];
      _ ← wait_started tenant_id wait_timeout created_ids created_ids created_volumes;
      mret created_ids.

(** ** Deleting a tenant *)

(** What is done with one machine; the errors to report. *)
Definition delete_tenant_machine (wait_timeout : Z) (machine : Machine) : M Sys (list string) :=
  cordoned ← mtry (cordon_machine (id machine));
  let cordon_errors := match (cordoned : Res unit) with
    | Err err => ["cordon " +:+ id machine +:+ ": " +:+ display_error show err] | _ => [] end in
  stop_errors ←
    (if bool_decide (state machine = "started") then
       stopped ← mtry (stop_machine (id machine));
       match (stopped : Res unit) with
       | Err err =>
           mret (match classify_machine_action_error Stop err with
                 | AlreadyApplied => []
                 | Retryable => ["stop " +:+ id machine +:+ " (retryable): " +:+ display_error show err]
                 | Fatal => ["stop " +:+ id machine +:+ ": " +:+ display_error show err]
                 end)
       | _ =>
           waited ← mtry (wait_state wait_timeout);
           mret (match (waited : Res unit) with
                 | Err err => ["wait stopped " +:+ id machine +:+ ": " +:+ display_error show err] | _ => [] end)
       end
     else mret []);
  delete_errors ← cleanup_created_machines [id machine];
  mret (cordon_errors ++ stop_errors ++ delete_errors).

Fixpoint delete_tenant_machines (wait_timeout : Z) (machines : list Machine) : M Sys (list string) :=
  match machines with
  | [] => mret []
  | machine :: rest =>
      errors ← delete_tenant_machine wait_timeout machine;
      more ← delete_tenant_machines wait_timeout rest;
      mret (errors ++ more)
  end.

(** The ids in order, each once: a [BTreeSet]. *)
Definition sorted_set (ids : list string) : list string := sort_by str_leb (remove_dups ids).

(** What follows the plan: the machines, the volumes, and a last listing. *)
Definition delete_listed (tenant_id : string) (wait_timeout : Z) (machines : list Machine) (volume_ids : list string) :
    M Sys unit :=
  machine_errors ← delete_tenant_machines wait_timeout machines;
  volume_errors ← cleanup_created_volumes volume_ids;
  remaining ← list_managed_machines (Some tenant_id);
  let remaining_errors := match remaining with
    | [] => []
    | _ => [pretty (length remaining) +:+ " machine(s) still remain for tenant " +:+ tenant_id]
    end in
  match machine_errors ++ volume_errors ++ remaining_errors with
  | [] => mret tt
  | errors => mlift (anyhow ("tenant delete completed with errors:" +:+ eol +:+ String.concat eol errors))
  end.

Definition delete_tenant (tenant_id : string) (yes : bool) (wait_timeout : Z) : M Sys unit :=
  machines ← list_managed_machines (Some tenant_id);
  match machines with
  | [] => mret tt
  | _ =>
      let volume_ids := sorted_set (concat (map mounted_volume_ids machines)) in
      if negb yes then mlift (anyhow "refusing delete without --yes")
      else delete_listed tenant_id wait_timeout machines volume_ids
  end.
End tenant.
