(* ===== verification/MachinesApi.v ===== *)
(** * The Fly Machines API client ([crates/admin/src/machines.rs])

    [MachinesClient]: the HTTP request each method sends, what becomes of the
    response, and [wait_for_state], which waits in pieces of a minute.  The network
    is an interface; the types of the responses are parsed by parameters.  The
    other files of the admin tool work with the effects of these calls; here is
    that the requests of different calls are different, how the answers become the
    errors they classify, and that the loop is the one [Machines] proves to end. *)

From S2P Require Import Prelude Text Machines Template Tenant.

(** ** Requests and responses *)

Inductive Method := GET | POST | DELETE.

Record Request := mkHttp {
  method : Method;
  url : string;
  bearer : string;
  query : list (string * string);
  lease_nonce : option string;
  json_body : option Value;
}.

(** [text]: the body, or the error of reading it. *)
Record Response := mkResponse {
  response_status : Z;
  response_text : Res string;
}.

(** [RequestBuilder::send]. *)
Class Http (Net : Type) := { transmit : Request -> M Net Response }.

(** [Deserialize] of the types of the responses. *)
Class Parsers := {
  MachineT : Type;
  VolumeT : Type;
  parse_machine : string -> Res MachineT;
  parse_machines : string -> Res (list MachineT);
  parse_lease_nonce : string -> Res string;
  parse_volume : string -> Res VolumeT;
  parse_volumes : string -> Res (list VolumeT);
}.

Record UpdateMachineRequest := mkUpdate {
  upd_name : option string;
  upd_region : option string;
  upd_config : Value;
  upd_current_version : option string;
}.

(** [Serialize] with [skip_serializing_if = "Option::is_none"]. *)
Definition field {A} (key : string) (f : A -> Value) (x : option A) : list (string * Value) :=
  match x with Some a => [(key, f a)] | None => [] end.

Definition number (n : Z) : Value := VNumber (PosInt n).

Definition CreateMachineRequest_json (r : CreateMachineRequest) : Value :=
  VObject (field "name" VString (req_name r) ++ field "region" VString (req_region r) ++
    [("config", req_config r)] ++ field "lease_ttl" number (req_lease_ttl r) ++
    field "skip_launch" VBool (req_skip_launch r) ++
    field "skip_service_registration" VBool (req_skip_service_registration r) ++
    field "lsvd" VBool (req_lsvd r)).

Definition CreateVolumeRequest_json (r : CreateVolumeRequest) : Value :=
  VObject (("name", VString (vol_name r)) :: field "region" VString (vol_region r) ++
    field "size_gb" number (vol_size_gb r)).

Definition UpdateMachineRequest_json (r : UpdateMachineRequest) : Value :=
  VObject (field "name" VString (upd_name r) ++ field "region" VString (upd_region r) ++
    [("config", upd_config r)] ++ field "current_version" VString (upd_current_version r)).

(** ** The client *)

Record MachinesClient := mkClient { api_base : string; app : string; token : string }.

Definition slash : byte := z2b 47.

(** [trim_end_matches('/')]. *)
Definition trim_end_slashes (s : string) : string :=
  from_bytes_unchecked (rev (drop_while (fun b => bool_decide (b = slash)) (rev (as_bytes s)))).

Definition MachinesClient_new (api_base app token : string) : MachinesClient :=
  mkClient (trim_end_slashes api_base) app token.

Definition app_path (self : MachinesClient) (suffix : string) : string :=
  api_base self +:+ "/v1/apps/" +:+ app self +:+ "/" +:+ suffix.

Definition machine_path (self : MachinesClient) (machine_id suffix : string) : string :=
  if is_empty suffix then
    api_base self +:+ "/v1/apps/" +:+ app self +:+ "/machines/" +:+ machine_id
  else
    api_base self +:+ "/v1/apps/" +:+ app self +:+ "/machines/" +:+ machine_id +:+ "/" +:+ suffix.

(** One method of the client with its arguments. *)
Inductive ApiCall :=
| ListMachines (query : list (string * string))
| GetMachine (machine_id : string)
| CreateMachine (req : CreateMachineRequest)
| UpdateMachine (machine_id : string) (req : UpdateMachineRequest) (nonce : option string)
| WaitFor (machine_id state : string) (chunk : Z) (instance_id : option string)
| StopMachine (machine_id : string)
| DeleteMachineCall (machine_id : string) (force : bool)
| CordonMachine (machine_id : string) (nonce : option string)
| UncordonMachine (machine_id : string) (nonce : option string)
| CreateLease (machine_id : string) (ttl_secs : Z)
| ReleaseLease (machine_id nonce : string)
| DeleteVolumeCall (volume_id : string)
| CreateVolume (req : CreateVolumeRequest)
| ListVolumes.

Definition empty_json : Value := VObject [].

(** The request each method builds. *)
Definition request_of (self : MachinesClient) (c : ApiCall) : Request :=
  let volumes := api_base self +:+ "/v1/apps/" +:+ app self +:+ "/volumes" in
  let req m url query nonce body := mkHttp m url (token self) query nonce body in
  match c with
  | ListMachines query => req GET (app_path self "machines") query None None
  | GetMachine id => req GET (machine_path self id "") [] None None
  | CreateMachine r => req POST (app_path self "machines") [] None (Some (CreateMachineRequest_json r))
  | UpdateMachine id r nonce =>
      req POST (machine_path self id "") [] nonce (Some (UpdateMachineRequest_json r))
  | WaitFor id state chunk instance_id =>
      req GET (machine_path self id "wait")
        ([("state", state); ("timeout", pretty chunk)] ++
         match instance_id with Some i => [("instance_id", i)] | None => [] end) None None
  | StopMachine id => req POST (machine_path self id "stop") [] None (Some empty_json)
  | DeleteMachineCall id force =>
      req DELETE (machine_path self id "") [("force", if force then "true" else "false")] None None
  | CordonMachine id nonce => req POST (machine_path self id "cordon") [] nonce (Some empty_json)
  | UncordonMachine id nonce => req POST (machine_path self id "uncordon") [] nonce (Some empty_json)
  | CreateLease id ttl =>
      req POST (machine_path self id "lease") [] None (Some (VObject [("ttl", number ttl)]))
  | ReleaseLease id nonce => req DELETE (machine_path self id "lease") [] (Some nonce) None
  | DeleteVolumeCall id => req DELETE (volumes +:+ "/" +:+ id) [] None None
  | CreateVolume r => req POST volumes [] None (Some (CreateVolumeRequest_json r))
  | ListVolumes => req GET volumes [] None None
  end.

(** ** Sending *)

(** [StatusCode::is_success]. *)
Definition is_success (status : Z) : bool := (200 <=? status) && (status <? 300).

Definition error_for_status (response : Response) : Res Response :=
  if is_success (response_status response) then Ok response
  else Err [ApiError (response_status response)
              match response_text response with Ok body => body | _ => "" end].

Section client.
Context {Net : Type} `{HN : Http Net} `{PA : Parsers}.

Definition send {T} (parse : string -> Res T) (req : Request) : M Net T :=
  response ← mcontext "machines api request" (transmit req);
  response ← mlift (error_for_status response);
  mlift (with_context "parse machines api response" (body ← response_text response; parse body)).

Definition send_empty (req : Request) : M Net unit :=
  response ← mcontext "machines api request" (transmit req);
  _ ← mlift (error_for_status response);
  mret tt.

Section methods.
Context (self : MachinesClient).

Definition list_machines (query : list (string * string)) : M Net (list MachineT) :=
  send parse_machines (request_of self (ListMachines query)).
Definition get_machine (machine_id : string) : M Net MachineT :=
  send parse_machine (request_of self (GetMachine machine_id)).
Definition create_machine (req : CreateMachineRequest) : M Net MachineT :=
  send parse_machine (request_of self (CreateMachine req)).
Definition update_machine (machine_id : string) (req : UpdateMachineRequest) (nonce : option string) :
    M Net MachineT :=
  send parse_machine (request_of self (UpdateMachine machine_id req nonce)).
Definition stop_machine (machine_id : string) : M Net unit :=
  send_empty (request_of self (StopMachine machine_id)).
Definition delete_machine (machine_id : string) (force : bool) : M Net unit :=
  send_empty (request_of self (DeleteMachineCall machine_id force)).
Definition cordon_machine (machine_id : string) (nonce : option string) : M Net unit :=
  send_empty (request_of self (CordonMachine machine_id nonce)).
Definition uncordon_machine (machine_id : string) (nonce : option string) : M Net unit :=
  send_empty (request_of self (UncordonMachine machine_id nonce)).
Definition create_lease (machine_id : string) (ttl_secs : Z) : M Net string :=
  send parse_lease_nonce (request_of self (CreateLease machine_id ttl_secs)).
Definition release_lease (machine_id nonce : string) : M Net unit :=
  send_empty (request_of self (ReleaseLease machine_id nonce)).
Definition delete_volume (volume_id : string) : M Net unit :=
  send_empty (request_of self (DeleteVolumeCall volume_id)).
Definition create_volume (req : CreateVolumeRequest) : M Net VolumeT :=
  send parse_volume (request_of self (CreateVolume req)).
Definition list_volumes : M Net (list VolumeT) := send parse_volumes (request_of self ListVolumes).

(** The loop of [wait_for_state]; out of fuel is a panic. *)
Fixpoint wait_http (fuel : nat) (machine_id state : string) (instance_id : option string) (remaining : Z) :
    M Net unit :=
  match fuel with
  | O => mlift Panic
  | S fuel =>
      let chunk := Z.min remaining 60 in
      result ← mtry (send_empty (request_of self (WaitFor machine_id state chunk instance_id)));
      match result with
      | Ok _ => mret tt
      | Err err =>
          if (chunk <? remaining) && is_wait_timeout err
          then wait_http fuel machine_id state instance_id (remaining - chunk)
          else mlift (Err err)
      | Panic => mlift Panic
      end
  end.

(** Durations are in milliseconds. *)
Definition wait_for_state (machine_id state : string) (timeout : Z) (instance_id : option string) :
    M Net unit :=
  let remaining := Z.max (timeout / 1000) 1 in
  wait_http (Z.to_nat remaining) machine_id state instance_id remaining.

End methods.
End client.

(** ** The URLs *)

Definition slash_free (s : string) : Prop := slash ∉ as_bytes s.

Fixpoint join (segments : list string) : string :=
  match segments with
  | [] => ""
  | [s] => s
  | s :: rest => s +:+ "/" +:+ join rest
  end.

(** The path of a call below the application. *)
Definition segments (c : ApiCall) : list string :=
  match c with
  | ListMachines _ | CreateMachine _ => ["machines"]
  | GetMachine id | UpdateMachine id _ _ | DeleteMachineCall id _ => ["machines"; id]
  | WaitFor id _ _ _ => ["machines"; id; "wait"]
  | StopMachine id => ["machines"; id; "stop"]
  | CordonMachine id _ => ["machines"; id; "cordon"]
  | UncordonMachine id _ => ["machines"; id; "uncordon"]
  | CreateLease id _ | ReleaseLease id _ => ["machines"; id; "lease"]
  | DeleteVolumeCall id => ["volumes"; id]
  | CreateVolume _ | ListVolumes => ["volumes"]
  end.

Lemma append_assoc (a b c : string) : (a +:+ b) +:+ c = a +:+ b +:+ c.
Proof. apply as_bytes_inj. by rewrite !as_bytes_app, app_assoc. Qed.

Lemma url_segments self c :
  url (request_of self c) = api_base self +:+ "/v1/apps/" +:+ app self +:+ "/" +:+ join (segments c).
Proof.
  assert (E : forall a b : string, "/" +:+ a +:+ b = ("/" +:+ a) +:+ b) by (intros; by rewrite append_assoc).
  destruct c; cbn [request_of url segments join]; unfold machine_path, app_path; cbn [is_empty bool_decide];
    rewrite ?append_assoc; reflexivity.
Qed.

Lemma append_inj_l (s a b : string) : s +:+ a = s +:+ b -> a = b.
Proof.
  intros E%(f_equal as_bytes). rewrite !as_bytes_app in E. apply app_inv_head in E. by apply as_bytes_inj.
Qed.

(** Up to the first separator two byte strings agree. *)
Lemma sep_inj {A} (sep : A) x y r r' :
  sep ∉ x -> sep ∉ y -> x ++ sep :: r = y ++ sep :: r' -> x = y /\ r = r'.
Proof.
  revert y. induction x as [|a x IH]; intros [|b y] Hx Hy; cbn.
  - by intros [= ->].
  - intros [= -> _]. destruct Hy. apply list_elem_of_here.
  - intros [= -> _]. destruct Hx. apply list_elem_of_here.
  - intros [= -> E]. apply IH in E as [-> ->]; [done| |]; intros Hin;
      [apply Hx|apply Hy]; by apply list_elem_of_further.
Qed.

Lemma join_cons s t rest : as_bytes (join (s :: t :: rest)) = as_bytes s ++ slash :: as_bytes (join (t :: rest)).
Proof. cbn [join]. by rewrite !as_bytes_app. Qed.

Lemma join_inj l k :
  l <> [] -> k <> [] -> Forall slash_free l -> Forall slash_free k -> join l = join k -> l = k.
Proof.
  revert k. induction l as [|s l IH]; intros [|t k] Hl Hk; [done..|].
  intros [Hs Hfl]%Forall_cons [Ht Hfk]%Forall_cons E.
  destruct l as [|s' l], k as [|t' k].
  - cbn in E. by subst.
  - exfalso. apply Hs. cbn [join] in E. apply (f_equal as_bytes) in E. rewrite !as_bytes_app in E.
    rewrite E. apply elem_of_app. right. apply list_elem_of_here.
  - exfalso. apply Ht. cbn [join] in E. apply (f_equal as_bytes) in E. rewrite !as_bytes_app in E.
    rewrite <- E. apply elem_of_app. right. apply list_elem_of_here.
  - apply (f_equal as_bytes) in E. rewrite !join_cons in E.
    apply sep_inj in E as [E1 E2]; [|done|done].
    apply as_bytes_inj in E1, E2. subst t. f_equal. by apply IH.
Qed.

(** ** The bodies *)

Definition back {A} (key : string) (f : Value -> option A) (v : Value) : option A :=
  fields ← as_object v; obj_get key fields ≫= f.

Definition as_bool (v : Value) : option bool := match v with VBool b => Some b | _ => None end.

Definition CreateMachineRequest_of (v : Value) : CreateMachineRequest :=
  mkRequest (back "name" as_str v) (back "region" as_str v) (default VNull (back "config" Some v))
    (back "lease_ttl" as_u64 v) (back "skip_launch" as_bool v)
    (back "skip_service_registration" as_bool v) (back "lsvd" as_bool v).

Definition CreateVolumeRequest_of (v : Value) : CreateVolumeRequest :=
  mkVolumeRequest (default "" (back "name" as_str v)) (back "region" as_str v) (back "size_gb" as_u64 v).

Definition UpdateMachineRequest_of (v : Value) : UpdateMachineRequest :=
  mkUpdate (back "name" as_str v) (back "region" as_str v) (default VNull (back "config" Some v))
    (back "current_version" as_str v).

#[export] Instance CreateMachineRequest_inj : Inj (=) (=) CreateMachineRequest_json.
Proof.
  intros r r' E%(f_equal CreateMachineRequest_of).
  assert (H : forall r, CreateMachineRequest_of (CreateMachineRequest_json r) = r)
    by (clear; intros [[] [] ? [] [] [] []]; reflexivity).
  by rewrite !H in E.
Qed.

#[export] Instance CreateVolumeRequest_inj : Inj (=) (=) CreateVolumeRequest_json.
Proof.
  intros r r' E%(f_equal CreateVolumeRequest_of).
  assert (H : forall r, CreateVolumeRequest_of (CreateVolumeRequest_json r) = r)
    by (clear; intros [? [] []]; reflexivity).
  by rewrite !H in E.
Qed.

#[export] Instance UpdateMachineRequest_inj : Inj (=) (=) UpdateMachineRequest_json.
Proof.
  intros r r' E%(f_equal UpdateMachineRequest_of).
  assert (H : forall r, UpdateMachineRequest_of (UpdateMachineRequest_json r) = r)
    by (clear; intros [[] [] ? []]; reflexivity).
  by rewrite !H in E.
Qed.

(** The identifier in the path of a call. *)
Definition call_id (c : ApiCall) : string :=
  match c with
  | ListMachines _ | CreateMachine _ | CreateVolume _ | ListVolumes => ""
  | GetMachine id | UpdateMachine id _ _ | DeleteMachineCall id _ | WaitFor id _ _ _ | StopMachine id
  | CordonMachine id _ | UncordonMachine id _ | CreateLease id _ | ReleaseLease id _
  | DeleteVolumeCall id => id
  end.

Lemma segments_free c : slash_free (call_id c) -> Forall slash_free (segments c) /\ segments c <> [].
Proof.
  intros Hc. assert (Hl : forall s : string, bool_decide (slash ∈ as_bytes s) = false -> slash_free s)
    by (intros s Hs; by apply bool_decide_eq_false in Hs).
  destruct c; cbn in *; (split; [|done]); repeat (apply Forall_cons; split); try done;
    try (apply Hl; reflexivity); by apply Forall_nil.
Qed.

(** Requests are unambiguous.  Two calls of the API client that send the same
    request - method, URL, query, lease nonce and JSON body - are the same call with
    the same arguments, as long as identifiers hold no slash; every request carries
    the client's token and is addressed to its application. *)
Theorem requests_are_unambiguous self c c' :
  slash_free (call_id c) -> slash_free (call_id c') ->
  request_of self c = request_of self c' ->
  c = c' /\ bearer (request_of self c) = token self /\
  exists path, url (request_of self c) = api_base self +:+ "/v1/apps/" +:+ app self +:+ "/" +:+ path.
Proof.
  intros Hc Hc' E. split; [|split; [by destruct c|rewrite url_segments; eauto]].
  apply segments_free in Hc as [Hf Hn]. apply segments_free in Hc' as [Hf' Hn'].
  pose proof (f_equal url E) as Hu. rewrite !url_segments in Hu.
  do 4 apply append_inj_l in Hu. apply join_inj in Hu; [|done..].
  pose proof (f_equal method E) as Hm. pose proof (f_equal query E) as Hq.
  pose proof (f_equal lease_nonce E) as Hl. pose proof (f_equal json_body E) as Hb.
  clear E Hf Hf' Hn Hn'.
  destruct c, c'; cbn in Hu, Hm, Hq, Hl, Hb; try discriminate Hm; try discriminate Hu; try discriminate Hl;
    simplify_eq; try done.
  - by destruct instance_id, instance_id0; simplify_eq.
  - by destruct force, force0.
Qed.

(** ** Answers *)

Section answers.
Context {Net : Type} `{HN : Http Net}.

(** What becomes of an answer.  A request that cannot be sent is an error of
    the transport; a status outside 200-299 is an [ApiError] with that status and
    the body, which the callers' classification finds below whatever context they
    add; a success is parsed, or its parse error is returned; a call without a
    result does not look at the body. *)
Theorem answers_become_results {T} (parse : string -> Res T) req n answer n' :
  transmit req n = (answer, n') ->
  snd (send parse req n) = n' /\ snd (send_empty req n) = n' /\
  match answer with
  | Ok response =>
      if is_success (response_status response) then
        fst (send_empty req n) = Ok tt /\
        fst (send parse req n) = with_context "parse machines api response"
          (body ← response_text response; parse body)
      else
        exists body, fst (send parse req n) = Err [ApiError (response_status response) body] /\
          fst (send_empty req n) = Err [ApiError (response_status response) body] /\
          (forall text, response_text response = Ok text -> body = text) /\
          forall contexts, api_status (map Msg contexts ++ [ApiError (response_status response) body])
            = Some (response_status response)
  | Err e =>
      fst (send parse req n) = Err (Msg "machines api request" :: e) /\
      fst (send_empty req n) = Err (Msg "machines api request" :: e)
  | Panic => fst (send parse req n) = Panic
  end.
Proof.
  intros E. unfold send, send_empty, mbind, M_bind, mbind_st, mlift, mcontext, mret, M_ret, mret_st.
  rewrite E. destruct answer as [response|e|]; cbn; [|done|done].
  unfold error_for_status. destruct (is_success (response_status response)); [done|].
  split; [done|]. split; [done|]. eexists. split; [done|]. split; [done|]. split.
  - by intros text ->.
  - induction contexts as [|c contexts IH]; [done|exact IH].
Qed.
End answers.

(** ** Waiting *)

(** A network that answers the [k]-th request with [f k] and records it. *)
Definition Script : Type := list Request * (nat -> Res Response).

#[export] Instance script_http : Http Script := {|
  transmit req := fun n => (snd n (length (fst n)), (fst n ++ [req], snd n));
|}.

(** What the loop makes of an answer. *)
Definition outcome (answer : Res Response) : Res unit :=
  response ← with_context "machines api request" answer;
  _ ← error_for_status response;
  Ok tt.

Definition wait_timed_out (r : Res unit) : bool :=
  match r with Err e => is_wait_timeout e | _ => false end.

Definition total (chunks : list Z) : Z := fold_right Z.add 0 chunks.

Lemma send_empty_script req log f :
  send_empty req ((log, f) : Script) = (outcome (f (length log)), (log ++ [req], f)).
Proof.
  unfold send_empty, outcome, mcontext, mbind, M_bind, mbind_st, mlift, mret, M_ret, mret_st. cbn.
  destruct (f (length log)) as [response|e|]; cbn; [|done|done].
  by destruct (error_for_status response).
Qed.

Record WaitSpec (requests : list Z -> list Request) (log : list Request) (f : nat -> Res Response)
    (remaining : Z) (r : Res unit) (log' : list Request) (chunks : list Z) : Prop := {
  ws_log : log' = log ++ requests chunks;
  ws_some : chunks <> [];
  ws_chunks : Forall (fun c => 1 <= c <= 60) chunks;
  ws_total : total chunks <= remaining;
  ws_before : forall k, (S k < length chunks)%nat -> wait_timed_out (outcome (f (length log + k)%nat)) = true;
  ws_last : r = outcome (f (length log + (length chunks - 1))%nat);
  ws_timeout : wait_timed_out r = true -> total chunks = remaining;
}.

Lemma wait_http_spec self machine_id state instance_id f fuel log remaining :
  (forall k, f k <> Panic) -> 1 <= remaining -> (Z.to_nat remaining <= fuel)%nat ->
  let requests := map (fun c => request_of self (WaitFor machine_id state c instance_id)) in
  exists r log' chunks,
    wait_http self fuel machine_id state instance_id remaining ((log, f) : Script) = (r, (log', f)) /\
    r = Machines.wait_loop fuel (fun k => outcome (f k)) (length log) remaining /\
    WaitSpec requests log f remaining r log' chunks.
Proof.
  intros Hf. revert log remaining. induction fuel as [|fuel IH]; intros log remaining Hr Hfuel requests; [lia|].
  cbn [wait_http Machines.wait_loop].
  unfold mbind at 1, M_bind at 1, mbind_st at 1, mtry. rewrite send_empty_script.
  assert (Hone : forall r, r = outcome (f (length log)) ->
    (wait_timed_out r = true -> Z.min remaining 60 = remaining) ->
    WaitSpec requests log f remaining r
      (log ++ [request_of self (WaitFor machine_id state (Z.min remaining 60) instance_id)])
      [Z.min remaining 60]).
  { intros r Hro Ht. split; cbn; try done; try lia.
    - apply Forall_singleton. lia.
    - by rewrite Nat.add_0_r.
    - intros H. specialize (Ht H). lia. }
  destruct (outcome (f (length log))) as [[]|e|] eqn:Eo.
  - eexists _, _, _. split; [reflexivity|]. split; [done|]. by apply Hone.
  - destruct (Z.ltb_spec (Z.min remaining 60) remaining) as [Hlt|Hge]; cbn [andb];
      [destruct (is_wait_timeout e) eqn:Et|].
    + edestruct (IH (log ++ [request_of self (WaitFor machine_id state (Z.min remaining 60) instance_id)])
        (remaining - Z.min remaining 60)) as (r & log' & chunks & Ew & Er & [Hl Hs Hc Hto Hb Hla Hti]); [lia..|].
      exists r, log', (Z.min remaining 60 :: chunks). split; [exact Ew|].
      rewrite length_app, Nat.add_1_r in *. split; [exact Er|].
      unfold total in *. split; cbn.
      * by rewrite Hl, <- app_assoc.
      * done.
      * apply Forall_cons. split; [lia|done].
      * lia.
      * intros [|k] Hk; [rewrite Nat.add_0_r, Eo; exact Et|].
        rewrite <- Nat.add_succ_comm. apply Hb. lia.
      * rewrite Hla. destruct chunks; [done|]. cbn. do 2 f_equal. lia.
      * intros H. specialize (Hti H). lia.
    + eexists _, _, _. split; [reflexivity|]. split; [done|]. apply Hone; [done|]. cbn. by rewrite Et.
    + eexists _, _, _. split; [reflexivity|]. split; [done|]. apply Hone; [done|]. lia.
  - exfalso. unfold outcome in Eo. specialize (Hf (length log)).
    destruct (f (length log)) as [response|e|]; cbn in Eo; [|done|done].
    unfold error_for_status in Eo. by destruct (is_success (response_status response)).
Qed.

(** Waiting for a state.  The client asks the API in pieces of one to sixty
    seconds; it asks again only after an answer that timed out, never asks for more
    than the timeout in total, gives up with a timeout only when it asked for all of
    it, and returns what the last answer says; this is the loop of [Machines], so
    it ends whatever the answers are. *)
Theorem wait_asks_in_minutes self machine_id state timeout instance_id f :
  (forall k, f k <> Panic) ->
  let requests := map (fun c => request_of self (WaitFor machine_id state c instance_id)) in
  exists r log chunks,
    wait_for_state self machine_id state timeout instance_id (([], f) : Script) = (r, (log, f)) /\
    r = Machines.wait_for_state (fun k => outcome (f k)) timeout /\ r <> Panic /\
    WaitSpec requests [] f (Z.max (timeout / 1000) 1) r log chunks.
Proof.
  intros Hf requests. unfold wait_for_state, Machines.wait_for_state.
  edestruct (wait_http_spec self machine_id state instance_id f) as (r & log & chunks & E & Er & Hs);
    [done| | |exists r, log, chunks; split; [exact E|]; split; [exact Er|]; split; [|exact Hs]]; [lia..|].
  rewrite (ws_last _ _ _ _ _ _ _ Hs). cbn. unfold outcome. set (k := (length chunks - 1)%nat).
  specialize (Hf k). destruct (f k) as [response|e|]; cbn; [|done|done].
  unfold error_for_status. by destruct (is_success (response_status response)).
Qed.

(** ** Witnesses *)

Definition demo_client : MachinesClient := MachinesClient_new "https://api.machines.dev//" "vault" "secret".

Lemma requests_are_unambiguous_witness :
  url (request_of demo_client (StopMachine "m1")) =
    "https://api.machines.dev/v1/apps/vault/machines/m1/stop" /\
  StopMachine "m1" = StopMachine "m1".
Proof.
  split; [vm_compute; reflexivity|].
  assert (Hid : slash_free (call_id (StopMachine "m1")))
    by (unfold slash_free; apply (bool_decide_unpack _); vm_compute; exact I).
  apply (requests_are_unambiguous demo_client (StopMachine "m1") (StopMachine "m1") Hid Hid eq_refl).
Defined.

Lemma answers_become_results_witness :
  fst (send_empty (request_of demo_client (StopMachine "m1"))
    (([], fun _ => Ok (mkResponse 404 (Ok "gone"))) : Script)) = Err [ApiError 404 "gone"].
Proof.
  destruct (answers_become_results (Net := Script) (fun s => Ok s) (request_of demo_client (StopMachine "m1"))
    (([], fun _ => Ok (mkResponse 404 (Ok "gone"))) : Script) _ _ (surjective_pairing _))
    as (_ & _ & body & _ & E & Hb & _).
  rewrite E, (Hb "gone" eq_refl). reflexivity.
Defined.

(** Two timeouts, then the state is reached. *)
Lemma wait_asks_in_minutes_witness :
  exists log chunks,
    wait_for_state demo_client "m1" "stopped" 150000 None
      (([], fun k => Ok (mkResponse (if (k <? 2)%nat then 408 else 200) (Ok ""))) : Script) =
      (Ok tt, (log, fun k => Ok (mkResponse (if (k <? 2)%nat then 408 else 200) (Ok "")))) /\
    Forall (fun c => 1 <= c <= 60) chunks /\ total chunks <= 150.
Proof.
  destruct (wait_asks_in_minutes demo_client "m1" "stopped" 150000 None
    (fun k => Ok (mkResponse (if (k <? 2)%nat then 408 else 200) (Ok "")))) as (r & log & chunks & E & Er & _ & Hs);
    [done|].
  exists log, chunks. split; [rewrite E; f_equal; rewrite Er; vm_compute; reflexivity|].
  split; [exact (ws_chunks _ _ _ _ _ _ _ Hs)|exact (ws_total _ _ _ _ _ _ _ Hs)].
Defined.
