(* ===== verification/TenantCreate.v ===== *)
(** * What creating a tenant leaves behind

    Proofs over [create_tenant] of [Tenant.v]: a creation that fails leaves the
    machines and the volumes as they were, one that succeeds made the tenant's
    machines with a volume on every mount, and a dry run calls nothing. *)

From stdpp Require Import numbers.
From S2P Require Import Prelude Text Machines Template Tenant.

(** ** What a creation has added *)

(** The cloud [c] differs from [c0] only in the machines [ms] and the volumes
    [vs], which [c0] does not have. *)
Definition grown (c0 : Cloud) (ms vs : list string) (c : Cloud) : Prop :=
  (forall i, i ∉ ms -> machines c !! i = machines c0 !! i) /\ (forall i, i ∈ ms -> machines c0 !! i = None) /\
  (forall i, i ∉ vs -> cloud_volumes c !! i = cloud_volumes c0 !! i) /\
  (forall i, i ∈ vs -> cloud_volumes c0 !! i = None) /\ cordoned_ids c = cordoned_ids c0.

Definition grown_in (c0 : Cloud) (ms vs : list string) (s : Sys) : Prop := grown c0 ms vs s.2.

Lemma grown_refl c : grown c [] [] c.
Proof. by split_and!; try done; intros i Hi; inversion Hi. Qed.

Lemma grown_nil c0 c : grown c0 [] [] c -> c = c0.
Proof.
  intros (Hm & _ & Hv & _ & Hc). destruct c as [m v q], c0 as [m0 v0 q0]. cbn in *. f_equal; [apply map_eq; intros i..|exact Hc].
  - apply Hm. intros Hi. inversion Hi.
  - apply Hv. intros Hi. inversion Hi.
Qed.

Lemma grown_add_machine c0 ms vs new m c :
  grown c0 ms vs c -> machines c0 !! new = None -> grown c0 (ms ++ [new]) vs (set_machines <[new := m]> c).
Proof.
  intros (Hm & Hm0 & Hv & Hv0 & Hc) Hn. split_and!; try done; cbn.
  - intros i Hi. rewrite elem_of_app, list_elem_of_singleton in Hi. rewrite lookup_insert_ne by (intros ->; tauto).
    apply Hm. tauto.
  - intros i [Hi| ->%list_elem_of_singleton]%elem_of_app; auto.
Qed.

Lemma grown_add_volume c0 ms vs new v c :
  grown c0 ms vs c -> cloud_volumes c0 !! new = None -> grown c0 ms (vs ++ [new]) (set_volumes <[new := v]> c).
Proof.
  intros (Hm & Hm0 & Hv & Hv0 & Hc) Hn. split_and!; try done; cbn.
  - intros i Hi. rewrite elem_of_app, list_elem_of_singleton in Hi. rewrite lookup_insert_ne by (intros ->; tauto).
    apply Hv. tauto.
  - intros i [Hi| ->%list_elem_of_singleton]%elem_of_app; auto.
Qed.

(** Deleting an added machine or volume that is there, or finding it gone. *)
Lemma grown_delete_machine c0 ms vs i c : grown c0 (i :: ms) vs c -> grown c0 ms vs (set_machines (delete i) c).
Proof.
  intros (Hm & Hm0 & Hv & Hv0 & Hc). split_and!; try done; cbn.
  - intros j Hj. destruct (decide (i = j)) as [->|Hn]; [rewrite lookup_delete_eq|rewrite lookup_delete_ne by done].
    + symmetry. apply Hm0. by left.
    + apply Hm. intros [->|Hin]%elem_of_cons; done.
  - intros j Hj. apply Hm0. by right.
Qed.

Lemma grown_delete_volume c0 ms vs i c : grown c0 ms (i :: vs) c -> grown c0 ms vs (set_volumes (delete i) c).
Proof.
  intros (Hm & Hm0 & Hv & Hv0 & Hc). split_and!; try done; cbn.
  - intros j Hj. destruct (decide (i = j)) as [->|Hn]; [rewrite lookup_delete_eq|rewrite lookup_delete_ne by done].
    + symmetry. apply Hv0. by left.
    + apply Hv. intros [->|Hin]%elem_of_cons; done.
  - intros j Hj. apply Hv0. by right.
Qed.

Lemma set_machines_absent i c : machines c !! i = None -> set_machines (delete i) c = c.
Proof. intros Hi. destruct c. unfold set_machines. cbn in *. by rewrite delete_id. Qed.

Lemma set_volumes_absent i c : cloud_volumes c !! i = None -> set_volumes (delete i) c = c.
Proof. intros Hi. destruct c. unfold set_volumes. cbn in *. by rewrite delete_id. Qed.

Section create.
Context (api : Api) (show : Cause -> string) (c0 : Cloud).

(** The API answers what it creates, gives new ids, and deletes what it is asked
    to delete. *)
Record ApiOk : Prop := {
  ok_create : forall k new e, create_reply api k <> CreateLost new e;
  ok_fresh : forall k new, create_reply api k = Created new ->
    machines c0 !! new = None /\ cloud_volumes c0 !! new = None;
  ok_delete : forall k e, delete_reply api k <> Refused e;
  ok_launched : forall new request, id (launched api new request) = new /\
    config (launched api new request) = req_config request /\
    ~ (state (launched api new request) = "destroyed" \/ state (launched api new request) = "deleted");
}.
Context (api_ok : ApiOk).

(** A deletion that is applied, or whose answer is lost, has happened; a 404 means
    there was nothing to delete. *)
Lemma delete_machine_spec i ms vs E :
  spec (grown_in c0 (i :: ms) vs) (mtry (delete_machine api i)) (fun r s => r <> Panic /\ grown_in c0 ms vs s) E.
Proof using api_ok.
  intros [k c] Hg. unfold grown_in in *. cbn in Hg. unfold mtry, delete_machine, numbered.
  destruct (machines c !! i) as [m|] eqn:Ei.
  - destruct api_ok as [_ _ Hd _]. specialize (Hd k). destruct (delete_reply api k) as [|e|e]; cbn.
    + split; [done|]. by apply grown_delete_machine.
    + by destruct (Hd e).
    + split; [done|]. by apply grown_delete_machine.
  - cbn. split; [done|]. apply grown_delete_machine in Hg. by rewrite set_machines_absent in Hg.
Qed.

Lemma delete_volume_spec i ms vs E :
  spec (grown_in c0 ms (i :: vs)) (mtry (delete_volume api i)) (fun r s => r <> Panic /\ grown_in c0 ms vs s) E.
Proof using api_ok.
  intros [k c] Hg. unfold grown_in in *. cbn in Hg. unfold mtry, delete_volume, numbered.
  destruct (cloud_volumes c !! i) as [m|] eqn:Ei.
  - destruct api_ok as [_ _ Hd _]. specialize (Hd k). destruct (delete_reply api k) as [|e|e]; cbn.
    + split; [done|]. by apply grown_delete_volume.
    + by destruct (Hd e).
    + split; [done|]. by apply grown_delete_volume.
  - cbn. split; [done|]. apply grown_delete_volume in Hg. by rewrite set_volumes_absent in Hg.
Qed.

(** Deleting a list of ids, given what deleting one does. *)
Lemma delete_each_spec (I : list string -> Sys -> Prop) action what del ids E :
  (forall i rest, spec (I (i :: rest)) (mtry (del i)) (fun r s => r <> Panic /\ I rest s) E) ->
  spec (I ids) (delete_each show action what del ids) (fun _ => I []) E.
Proof using Type.
  intros Hdel. induction ids as [|i rest IH]; cbn [delete_each]; [by apply spec_ret|].
  eapply spec_bind; [apply Hdel|]. intros r. cbn beta.
  destruct r as [u|err|]; [| |intros s [Hp _]; by destruct Hp].
  - eapply spec_pre; [exact IH|by intros s [_ ?]].
  - eapply spec_bind; [eapply spec_pre; [exact IH|by intros s [_ ?]]|].
    intros errors. by apply spec_ret.
Qed.

Lemma cleanup_machines_spec ids ms vs E :
  spec (grown_in c0 (ids ++ ms) vs) (cleanup_created_machines api show ids) (fun _ => grown_in c0 ms vs) E.
Proof using api_ok.
  apply (delete_each_spec (fun ids => grown_in c0 (ids ++ ms) vs)). intros i rest. apply delete_machine_spec.
Qed.

Lemma cleanup_volumes_spec ids ms vs E :
  spec (grown_in c0 ms (ids ++ vs)) (cleanup_created_volumes api show ids) (fun _ => grown_in c0 ms vs) E.
Proof using api_ok.
  apply (delete_each_spec (fun ids => grown_in c0 ms (ids ++ vs))). intros i rest. apply delete_volume_spec.
Qed.

Lemma grown_volumes_comm ms vs vs' s : grown_in c0 ms (vs ++ vs') s -> grown_in c0 ms (vs' ++ vs) s.
Proof using Type.
  intros (Hm & Hm0 & Hv & Hv0 & Hc). split_and!; try done; intros i Hi; rewrite elem_of_app in Hi;
    [apply Hv|apply Hv0]; rewrite elem_of_app; tauto.
Qed.

(** ** Volumes for mounts *)

Lemma create_volume_spec request ms vs :
  spec (grown_in c0 ms vs) (create_volume api request) (fun vid => grown_in c0 ms (vs ++ [vid])) (grown_in c0 ms vs).
Proof using api_ok.
  intros [k c] Hg. unfold create_volume, numbered. destruct api_ok as [Hc Hf _ _].
  specialize (Hc k). specialize (Hf k). destruct (create_reply api k) as [new|e|new e]; cbn; [|done|by destruct (Hc new e)].
  apply grown_add_volume; [done|by apply Hf].
Qed.

Lemma create_mount_volumes_spec region dry_run pending mounts created ms vs :
  (region = None -> created = []) ->
  spec (grown_in c0 ms (vs ++ created)) (create_mount_volumes api show region dry_run pending mounts created)
    (fun r => grown_in c0 ms (vs ++ r.2)) (grown_in c0 ms vs).
Proof using api_ok.
  revert mounts created. induction pending as [|[index name] rest IH]; intros mounts created Hr;
    cbn [create_mount_volumes]; [by apply spec_ret|].
  apply spec_lift_bind; [intros region' Eregion|].
  2: { intros e s He. destruct region; [done|]. rewrite Hr by done. by rewrite app_nil_r. }
  destruct dry_run; [by apply IH|].
  eapply spec_bind; [apply spec_try, spec_context, create_volume_spec|].
  intros r. destruct r as [vid|err|]; [| |by intros s Hs].
  - rewrite <- app_assoc. apply IH. intros ->. done.
  - eapply spec_bind; [eapply spec_pre; [apply (cleanup_volumes_spec created ms vs)|intros s; apply grown_volumes_comm]|].
    intros errors. apply spec_lift; [done|]. by intros e s _.
Qed.

Lemma ensure_mount_volumes_spec request dry_run ms vs :
  spec (grown_in c0 ms vs) (ensure_mount_volumes api show request dry_run)
    (fun r => grown_in c0 ms (vs ++ r.2)) (grown_in c0 ms vs).
Proof using api_ok.
  unfold ensure_mount_volumes. apply spec_lift_bind; [intros fields _|by intros e s _].
  destruct (obj_get "mounts" fields) as [mounts|]; [|apply spec_ret; cbn; intros s Hs; by rewrite app_nil_r].
  apply spec_lift_bind; [intros items _|by intros e s _].
  apply spec_lift_bind; [intros pending _|by intros e s _].
  eapply spec_bind.
  - eapply spec_pre; [by apply (create_mount_volumes_spec _ dry_run pending items [] ms vs)|]. intros s. by rewrite app_nil_r.
  - intros [mounts' created]. by apply spec_ret.
Qed.

(** ** The machines *)

Lemma create_machine_spec request ms vs :
  spec (grown_in c0 ms vs) (create_machine api request) (fun m => grown_in c0 (ms ++ [id m]) vs) (grown_in c0 ms vs).
Proof using api_ok.
  intros [k c] Hg. unfold create_machine, numbered. destruct api_ok as [Hc Hf _ Hl].
  specialize (Hc k). specialize (Hf k). destruct (create_reply api k) as [new|e|new e]; cbn; [|done|by destruct (Hc new e)].
  destruct (Hl new request) as [-> _]. apply grown_add_machine; [done|by apply Hf].
Qed.

Lemma cleanup_and_fail_spec {A} ms vs error context :
  spec (grown_in c0 ms vs) (cleanup_and_fail (A := A) api show ms vs error context) (fun _ _ => False) (grown_in c0 [] []).
Proof using api_ok.
  unfold cleanup_and_fail. eapply (spec_bind _ _ _ (fun _ => grown_in c0 [] vs)).
  { eapply spec_weaken; [apply (cleanup_machines_spec ms [] vs (grown_in c0 [] []))|intros s; by rewrite app_nil_r|done|done]. }
  intros errors. eapply (spec_bind _ _ _ (fun _ => grown_in c0 [] [])).
  { eapply spec_weaken; [apply (cleanup_volumes_spec vs [] [] (grown_in c0 [] []))|intros s; by rewrite app_nil_r|done|done]. }
  intros errors'. apply spec_lift; [done|]. by intros e s _.
Qed.

Lemma create_machines_spec tenant_id requests vs ids :
  spec (grown_in c0 ids vs) (create_machines api show tenant_id requests vs ids)
    (fun ids' => grown_in c0 ids' vs) (grown_in c0 [] []).
Proof using api_ok.
  revert ids. induction requests as [|request rest IH]; intros ids; cbn [create_machines]; [by apply spec_ret|].
  eapply spec_bind; [apply spec_try, spec_context, create_machine_spec|].
  intros r. destruct r as [m|err|]; [by apply IH| |by intros s Hs].
  eapply spec_weaken; [apply cleanup_and_fail_spec|done..].
Qed.

Lemma wait_state_spec (P : Sys -> Prop) timeout :
  (forall k c, P (k, c) -> P (S k, c)) -> spec P (wait_state api timeout) (fun _ => P) P.
Proof using Type.
  intros HP [k c] Hs. unfold wait_state, numbered. destruct (wait_for_state _ _); cbn; auto.
Qed.

Lemma wait_started_spec tenant_id timeout waiting ids vs :
  spec (grown_in c0 ids vs) (wait_started api show tenant_id timeout waiting ids vs)
    (fun _ => grown_in c0 ids vs) (grown_in c0 [] []).
Proof using api_ok.
  induction waiting as [|mid rest IH]; cbn [wait_started]; [by apply spec_ret|].
  eapply spec_bind; [by apply spec_try, spec_context, wait_state_spec|].
  intros r. destruct r as [u|err|]; [exact IH| |by intros s Hs].
  eapply spec_weaken; [apply cleanup_and_fail_spec|done..].
Qed.

(** ** The requests *)

Definition object_spec (spec : RenderedMachineSpec) : Prop := exists fields, spec_config spec = VObject fields.

Lemma prepare_requests_spec tenant_id label dry_run rendered created requests :
  Forall object_spec rendered ->
  spec (grown_in c0 [] created) (prepare_requests api show tenant_id label dry_run rendered created requests)
    (fun r => grown_in c0 [] r.2) (grown_in c0 [] []).
Proof using api_ok.
  revert created requests. induction rendered as [|sp rest IH]; intros created requests Hall;
    cbn [prepare_requests]; [by apply spec_ret|]. apply Forall_cons in Hall as [(fields & Hf) Hall].
  apply spec_lift_bind; [intros config _|intros e s; by rewrite Hf].
  eapply spec_bind; [apply spec_try, ensure_mount_volumes_spec|].
  intros r. destruct r as [[request new]|err|]; [by apply IH| |by intros s Hs].
  eapply (spec_bind _ _ _ (fun _ => grown_in c0 [] [])).
  { eapply spec_weaken; [apply (cleanup_volumes_spec created [] [] (grown_in c0 [] []))|intros s; by rewrite app_nil_r|done|done]. }
  intros errors. apply spec_lift; [done|]. by intros e s _.
Qed.
End create.

(** A template that was loaded renders to configurations that are objects. *)
Lemma render_value_object value vars value' fields :
  render_value value vars = Ok value' -> value = VObject fields -> exists fields', value' = VObject fields'.
Proof. intros Hr ->. cbn in Hr. apply bind_Ok in Hr as (fields' & _ & [= <-]). eauto. Qed.

Lemma rendered_objects {Toml} (to_json : Toml -> Res Value) iter template tenant_id token vars rendered fields :
  to_json (mt_config (machine template)) = Ok (VObject fields) ->
  render_template to_json iter template tenant_id token vars = Ok rendered -> Forall object_spec rendered.
Proof.
  intros Hc. unfold render_template. generalize (seq 0 (machine_count template)) as indices. intros indices.
  revert rendered. induction indices as [|idx rest IH]; intros rendered Hr; cbn in Hr; [by injection Hr as <-|].
  apply bind_Ok in Hr as (sp & Hs & Hr). apply bind_Ok in Hr as (specs & Hss & [= <-]). constructor; [|by apply IH].
  unfold render_machine in Hs. rewrite Hc in Hs. apply bind_Ok in Hs as (c & [= <-] & Hs).
  apply bind_Ok in Hs as (c' & Hc' & Hs). apply bind_Ok in Hs as (md & _ & Hs). apply bind_Ok in Hs as (nm & _ & Hs).
  apply bind_Ok in Hs as (rg & _ & [= <-]). by eapply render_value_object.
Qed.

Lemma rendered_count {Toml} (to_json : Toml -> Res Value) iter template tenant_id token vars rendered :
  render_template to_json iter template tenant_id token vars = Ok rendered -> length rendered = machine_count template.
Proof.
  unfold render_template. rewrite <- (length_seq (machine_count template) 0) at 2.
  generalize (seq 0 (machine_count template)) as indices. intros indices. revert rendered.
  induction indices as [|idx rest IH]; intros rendered Hr; cbn in Hr; [by injection Hr as <-|].
  apply bind_Ok in Hr as (sp & _ & Hr). apply bind_Ok in Hr as (specs & Hss & [= <-]). cbn. f_equal. by apply IH.
Qed.

Lemma load_template_object {Toml} (to_json : Toml -> Res Value) raw parse path template :
  load_template to_json raw parse path = Ok template ->
  exists fields, to_json (mt_config (machine template)) = Ok (VObject fields).
Proof.
  unfold load_template. intros Hl. apply bind_Ok in Hl as (text & _ & Hl). apply bind_Ok in Hl as (t & _ & Hl).
  destruct (machine_count t =? 0)%nat; [done|]. apply bind_Ok in Hl as (c & Hc & Hl). apply with_context_Ok in Hc.
  destruct c; try done. injection Hl as <-. eauto.
Qed.

Section creating.
Context {Toml : Type} (to_json : Toml -> Res Value) (iter : nat -> gmap string string -> list (string * string)).
Context (raw : Res string) (parse : string -> Res (TenantTemplate Toml)) (template_path : string).
Context (api : Api) (show : Cause -> string) (client_app tenant_id template_label : string)
  (access_token : option string) (extra_vars : gmap string string) (wait_timeout : Z).

Definition run_create (dry_run : bool) : M Sys (list string) :=
  create_tenant api show to_json iter client_app tenant_id template_label
    (load_template to_json raw parse template_path) access_token extra_vars dry_run wait_timeout.

Lemma run_create_spec c0 dry_run :
  ApiOk api c0 ->
  spec (grown_in c0 [] []) (run_create dry_run)
    (fun ids s => exists vs, grown_in c0 ids vs s) (grown_in c0 [] []).
Proof.
  intros Hapi. unfold run_create, create_tenant. apply spec_lift_bind; [intros template Ht|by intros e s _].
  destruct (load_template_object _ _ _ _ _ Ht) as [fields Hc].
  destruct (negb (tt_version template =? 1)); [apply spec_lift; [done|by intros e s _]|].
  destruct (negb (bool_decide _)); [apply spec_lift; [done|by intros e s _]|].
  apply spec_lift_bind; [intros rendered Hr|by intros e s _].
  apply rendered_objects with (fields := fields) in Hr; [|done].
  eapply spec_bind; [by apply prepare_requests_spec|]. intros [requests vs].
  destruct dry_run; [apply spec_ret; intros s Hs; by exists vs|].
  eapply spec_bind; [by apply create_machines_spec|]. intros ids. cbn beta.
  eapply spec_bind; [by apply wait_started_spec|]. intros u. apply spec_ret. cbn. eauto.
Qed.

(** C16: a tenant creation that fails leaves nothing behind: the machines and the
    volumes are exactly those there were, whatever the step that failed, when the
    API performs the deletions asked of it and loses no answer to a creation. *)
Theorem failed_creation_leaves_nothing c0 k0 dry_run e k1 c1 :
  ApiOk api c0 -> run_create dry_run (k0, c0) = (Err e, (k1, c1)) -> c1 = c0.
Proof.
  intros Hapi Hr. pose proof (run_create_spec c0 dry_run Hapi (k0, c0) (grown_refl c0)) as Hs.
  rewrite Hr in Hs. by apply grown_nil.
Qed.

(** *** The dry run *)

Lemma dry_mount_volumes s0 region pending mounts :
  spec (eq s0) (create_mount_volumes api show region true pending mounts []) (fun r s => r.2 = [] /\ s0 = s) (eq s0).
Proof.
  revert mounts. induction pending as [|[index name] rest IH]; intros mounts; cbn [create_mount_volumes];
    [by apply spec_ret|].
  apply spec_lift_bind; [intros region' _; apply IH|by intros e s _].
Qed.

Lemma dry_ensure s0 request :
  spec (eq s0) (ensure_mount_volumes api show request true) (fun r s => r.2 = [] /\ s0 = s) (eq s0).
Proof.
  unfold ensure_mount_volumes. apply spec_lift_bind; [intros fields _|by intros e s _].
  destruct (obj_get "mounts" fields) as [mounts|]; [|by apply spec_ret].
  apply spec_lift_bind; [intros items _|by intros e s _].
  apply spec_lift_bind; [intros pending _|by intros e s _].
  eapply spec_bind; [by apply dry_mount_volumes|]. intros [mounts' created]. by apply spec_ret.
Qed.

Lemma dry_prepare s0 rendered requests :
  spec (eq s0) (prepare_requests api show tenant_id template_label true rendered [] requests) (fun _ => eq s0) (eq s0).
Proof.
  revert requests. induction rendered as [|sp rest IH]; intros requests; cbn [prepare_requests]; [by apply spec_ret|].
  apply spec_lift_bind; [intros config _|by intros e s _].
  eapply spec_bind; [apply spec_try, dry_ensure|].
  intros r. destruct r as [[request new]|err|]; [| |by intros s Hs].
  - intros s [Hnew Hs]. cbn in Hnew. subst new. by apply IH.
  - by intros s Hs.
Qed.

(** A dry run calls nothing: it makes no request and changes nothing, whether
    it succeeds or fails. *)
Theorem dry_run_calls_nothing s0 r s1 : run_create true s0 = (r, s1) -> r <> Panic -> s1 = s0.
Proof.
  intros Hr Hp. assert (Hs : spec (eq s0) (run_create true) (fun _ => eq s0) (eq s0)).
  - unfold run_create, create_tenant. apply spec_lift_bind; [intros template _|by intros e s _].
    destruct (negb (tt_version template =? 1)); [apply spec_lift; [done|by intros e s _]|].
    destruct (negb (bool_decide _)); [apply spec_lift; [done|by intros e s _]|].
    apply spec_lift_bind; [intros rendered _|by intros e s _].
    eapply spec_bind; [by apply dry_prepare|]. intros [requests vs]. by apply spec_ret.
  - specialize (Hs s0 eq_refl). rewrite Hr in Hs. by destruct r.
Qed.
End creating.

(** ** What a creation that succeeds leaves *)

Definition has_volume (mount : Value) : Prop :=
  exists fields vid, mount = VObject fields /\ obj_get "volume" fields = Some (VString vid).

(** Every mount of the configuration names a volume. *)
Definition mounts_have_volumes (config : Value) : Prop :=
  forall fields mounts, config = VObject fields -> obj_get "mounts" fields = Some (VArray mounts) ->
    Forall has_volume mounts.

Lemma pending_mounts_Ok k mounts pending :
  pending_mounts k mounts = Ok pending ->
  forall j mount, mounts !! j = Some mount ->
    exists fields, mount = VObject fields /\ (has_volume mount \/ exists name, ((k + j)%nat, name) ∈ pending).
Proof.
  revert k pending. induction mounts as [|mt mounts IH]; intros k pending Hp j mount Hj; [done|]. cbn in Hp.
  apply bind_Ok in Hp as (fields & Hf & Hp). destruct mt as [| | | | |fs]; try done. injection Hf as ->.
  destruct j as [|j]; cbn in Hj.
  - injection Hj as <-. exists fields. split; [done|].
    destruct (v ← obj_get "volume" fields; s ← as_str v; trimmed_nonempty s) as [vid|] eqn:Ev.
    + left. destruct (obj_get "volume" fields) as [v|] eqn:Eo; [|done]. destruct v; try done. by eexists _, _.
    + right. apply bind_Ok in Hp as (name & _ & Hp). apply bind_Ok in Hp as (rest & _ & [= <-]).
      exists name. rewrite Nat.add_0_r. by left.
  - assert (Hrest : exists rest, pending_mounts (S k) mounts = Ok rest /\ forall x, x ∈ rest -> x ∈ pending).
    { destruct (v ← obj_get "volume" fields; s ← as_str v; trimmed_nonempty s); [by eauto|].
      apply bind_Ok in Hp as (name & _ & Hp). apply bind_Ok in Hp as (rest & Hr & [= <-]).
      exists rest. split; [done|]. intros x Hx. by right. }
    destruct Hrest as (rest & Hr & Hin). destruct (IH (S k) rest Hr j mount Hj) as (f & -> & Hv).
    exists f. split; [done|]. destruct Hv as [Hv|(name & Hn)]; [by left|right].
    exists name. rewrite Nat.add_succ_r. by apply Hin.
Qed.

(** A mount that gets a volume has it; the others stay. *)
Lemma set_mount_volume_lookup index vid mounts j mount :
  set_mount_volume index vid mounts !! j = Some mount ->
  (exists fields, mounts !! j = Some (VObject fields) /\ index = j /\ has_volume mount) \/
  (mounts !! j = Some mount /\ (index = j -> forall fields, mount <> VObject fields)).
Proof.
  unfold set_mount_volume. intros Hj. destruct (decide (index = j)) as [->|Hn].
  - destruct (mounts !! j) as [m|] eqn:Ej; [|congruence]. destruct m as [| | | | |fields];
      try (right; split; congruence). left. exists fields. split; [done|]. split; [done|].
    rewrite list_lookup_insert_eq in Hj by (by eapply lookup_lt_Some). injection Hj as <-.
    eexists _, vid. split; [done|]. apply obj_get_insert.
  - right. split; [|done]. destruct (mounts !! index) as [[| | | | |fields]|]; try done.
    by rewrite list_lookup_insert_ne in Hj.
Qed.

Section created.
Context (api : Api) (show : Cause -> string).

(** The mounts that wait for a volume all get one. *)
Lemma create_mount_volumes_mounts region pending mounts created :
  (forall j mount, mounts !! j = Some mount ->
     exists fields, mount = VObject fields /\ (has_volume mount \/ exists name, (j, name) ∈ pending)) ->
  spec (fun _ => True) (create_mount_volumes api show region false pending mounts created)
    (fun r _ => Forall has_volume r.1) (fun _ => True).
Proof.
  revert mounts created. induction pending as [|[index name] rest IH]; intros mounts created Hm;
    cbn [create_mount_volumes].
  - apply spec_ret. intros _ _. cbn. apply Forall_lookup. intros j mount Hj.
    destruct (Hm j mount Hj) as (f & -> & [Hv|(n & Hn)]); [done|inversion Hn].
  - apply spec_lift_bind; [intros region' _|done]. eapply spec_bind; [apply spec_try, spec_context, spec_true|].
    intros [vid|err|]; cbn beta.
    + apply IH. intros j mount Hj. apply set_mount_volume_lookup in Hj as [(f & Hj & <- & Hv)|[Hj Hn]].
      * destruct Hv as (f' & v & -> & Hv). exists f'. split; [done|]. left. by eexists _, _.
      * destruct (Hm j mount Hj) as (f & -> & [Hv|(n & Hin)]); exists f; (split; [done|]); [by left|].
        apply elem_of_cons in Hin as [[= <- <-]|Hin]; [by destruct (Hn eq_refl f)|right; eauto].
    + eapply spec_bind; [apply spec_true|]. intros errors. by apply spec_lift.
    + by intros s Hs.
Qed.

Definition good_request (md : gmap string string) (request : CreateMachineRequest) : Prop :=
  config_metadata (req_config request) = md /\ mounts_have_volumes (req_config request).

Lemma ensure_mount_volumes_good request md :
  config_metadata (req_config request) = md ->
  spec (fun _ => True) (ensure_mount_volumes api show request false) (fun r _ => good_request md r.1) (fun _ => True).
Proof.
  intros Hmd. unfold ensure_mount_volumes. apply spec_lift_bind; [intros fields Hf|done].
  destruct (req_config request) as [| | | | |fs] eqn:Ec; try done. injection Hf as ->.
  destruct (obj_get "mounts" fields) as [mounts|] eqn:Em.
  2: { apply spec_ret. intros _ _. split; cbn; rewrite Ec; [done|]. intros f ms [= <-]. by rewrite Em. }
  apply spec_lift_bind; [intros items Hi|done]. apply spec_lift_bind; [intros pending Hp|done].
  eapply spec_bind; [apply create_mount_volumes_mounts; by apply (pending_mounts_Ok 0)|].
  intros [mounts' created]. apply spec_ret. cbn [fst]. intros _ Hall. split; cbn.
  - rewrite <- Hmd. unfold config_metadata. cbn. by rewrite obj_get_insert_ne.
  - intros f ms [= <-]. rewrite obj_get_insert. by intros [= <-].
Qed.

Context (tenant_id template_label : string).

Definition tenant_request (request : CreateMachineRequest) : Prop :=
  exists md, good_request (tenant_metadata tenant_id template_label md) request.

Lemma prepare_requests_good rendered created requests :
  Forall tenant_request requests ->
  spec (fun _ => True) (prepare_requests api show tenant_id template_label false rendered created requests)
    (fun r _ => Forall tenant_request r.1 /\ length r.1 = (length requests + length rendered)%nat) (fun _ => True).
Proof.
  revert created requests. induction rendered as [|sp rest IH]; intros created requests Hall;
    cbn [prepare_requests].
  - apply spec_ret. intros _ _. cbn. split; [done|lia].
  - apply spec_lift_bind; [intros config Hc|done]. apply with_context_Ok, with_metadata_metadata in Hc.
    eapply spec_bind; [apply spec_try, ensure_mount_volumes_good; exact Hc|].
    intros [[request new]|err|]; [| |by intros s Hs].
    + intros s Hgood. cbn in Hgood. specialize (IH (created ++ new) (requests ++ [request])).
      rewrite length_app in IH. cbn [length] in IH |- *. rewrite <- Nat.add_assoc in IH. apply IH; [|done].
      apply Forall_app. split; [done|]. apply Forall_singleton. by eexists.
    + eapply spec_bind; [apply spec_true|]. intros errors. by apply spec_lift.
Qed.

(** The machine is the tenant's, and its mounts have volumes. *)
Definition tenant_machine_ok (m : Machine) : Prop :=
  is_managed m = true /\ belongs_to tenant_id m = true /\ mounts_have_volumes (config m).

Definition owned (ids : list string) (s : Sys) : Prop :=
  forall i, i ∈ ids -> exists m, machines s.2 !! i = Some m /\ tenant_machine_ok m.

Lemma tenant_request_machine c0 request new :
  ApiOk api c0 -> tenant_request request -> tenant_machine_ok (launched api new request).
Proof.
  intros [_ _ _ Hl] (md & Hmd & Hmounts). destruct (Hl new request) as (_ & Hc & Hst).
  assert (Hmeta : metadata (launched api new request) = tenant_metadata tenant_id template_label md)
    by (unfold metadata; by rewrite Hc).
  unfold tenant_machine_ok, is_managed, is_managed_with, belongs_to. rewrite Hmeta, Hc. unfold tenant_metadata.
  rewrite !(lookup_insert_ne _ TEMPLATE_KEY) by done. rewrite lookup_insert_eq.
  rewrite (lookup_insert_ne _ MANAGED_BY_KEY TENANT_ID_KEY) by done. rewrite lookup_insert_eq.
  rewrite (bool_decide_true (Some MANAGED_BY_VALUE = _)), (bool_decide_true (Some tenant_id = _)) by done.
  split_and!; [|done|done]. cbn.
  destruct (bool_decide_reflect (state (launched api new request) = "destroyed")); [tauto|].
  destruct (bool_decide_reflect (state (launched api new request) = "deleted")); [tauto|done].
Qed.

Lemma create_machine_owned c0 request ids :
  ApiOk api c0 -> tenant_request request ->
  spec (owned ids) (create_machine api request) (fun m => owned (ids ++ [id m])) (fun _ => True).
Proof.
  intros Hapi Hr [k c] Ho. unfold create_machine, numbered.
  destruct (create_reply api k) as [new|e|new e]; cbn; [|done|done]. intros i Hi. cbn.
  destruct Hapi as [Hn Hf Hd Hl] eqn:EA. destruct (Hl new request) as (Hid & _). rewrite Hid in Hi.
  destruct (decide (i = new)) as [->|Hne].
  - rewrite lookup_insert_eq. eexists. split; [done|]. by eapply tenant_request_machine.
  - rewrite lookup_insert_ne by done. apply elem_of_app in Hi as [Hi|Hi]; [by apply Ho|].
    by apply list_elem_of_singleton in Hi.
Qed.

Lemma cleanup_and_fail_fails {A} (P : Sys -> Prop) ms vs err context (Q : A -> Sys -> Prop) :
  spec P (cleanup_and_fail api show ms vs err context) Q (fun _ => True).
Proof.
  unfold cleanup_and_fail. eapply spec_bind; [apply spec_true|]. intros e1.
  eapply spec_bind; [apply spec_true|]. intros e2. by apply spec_lift.
Qed.

Lemma create_machines_owned c0 requests vs ids :
  ApiOk api c0 -> Forall tenant_request requests ->
  spec (owned ids) (create_machines api show tenant_id requests vs ids)
    (fun ids' s => owned ids' s /\ length ids' = (length ids + length requests)%nat) (fun _ => True).
Proof.
  intros Hapi Hall. revert ids. induction Hall as [|request rest Hr Hall IH]; intros ids; cbn [create_machines].
  - apply spec_ret. intros s Hs. split; [done|]. cbn. lia.
  - eapply spec_bind; [by apply spec_try, spec_context, (create_machine_owned c0)|].
    intros [m|err|]; cbn beta; [| |by intros s Hs].
    + specialize (IH (ids ++ [id m])). rewrite length_app in IH. cbn [length] in IH |- *.
      by rewrite <- Nat.add_assoc in IH.
    + apply cleanup_and_fail_fails.
Qed.

Lemma wait_started_owned timeout waiting ids created vs :
  spec (owned ids) (wait_started api show tenant_id timeout waiting created vs) (fun _ => owned ids) (fun _ => True).
Proof.
  induction waiting as [|mid rest IH]; cbn [wait_started]; [by apply spec_ret|].
  eapply spec_bind; [by apply spec_try, spec_context, (wait_state_spec api (owned ids))|].
  intros [u|err|]; cbn beta; [exact IH|apply cleanup_and_fail_fails|by intros s Hs].
Qed.
End created.

(** A tenant creation that succeeds made one machine for each the template asks
    for, and each is a machine the listing of the tenant keeps, with a volume on
    every mount; it touched no machine and no volume that was there before. *)
Theorem created_tenant_is_complete {Toml} (to_json : Toml -> Res Value) iter raw parse path api show client_app
    tenant_id label token vars timeout c0 k0 ids k1 c1 :
  ApiOk api c0 ->
  run_create to_json iter raw parse path api show client_app tenant_id label token vars timeout false (k0, c0)
    = (Ok ids, (k1, c1)) ->
  (exists template, load_template to_json raw parse path = Ok template /\ length ids = machine_count template) /\
  (forall i, i ∈ ids -> exists m, machines c1 !! i = Some m /\ tenant_machine_ok tenant_id m) /\
  (forall i, i ∉ ids -> machines c1 !! i = machines c0 !! i) /\
  (forall v x, cloud_volumes c0 !! v = Some x -> cloud_volumes c1 !! v = Some x).
Proof.
  intros Hapi Hr.
  pose proof (run_create_spec to_json iter raw parse path api show client_app tenant_id label token vars timeout
                c0 false Hapi (k0, c0) (grown_refl c0)) as Hg. rewrite Hr in Hg.
  destruct Hg as (vs & Hm & _ & Hv & Hv0 & _). cbn in Hm, Hv.
  assert (Hs : spec (owned tenant_id []) (run_create to_json iter raw parse path api show client_app tenant_id label token
      vars timeout false)
    (fun ids s => (exists template, load_template to_json raw parse path = Ok template /\
        length ids = machine_count template) /\ owned tenant_id ids s) (fun _ => True)).
  - unfold run_create, create_tenant. apply spec_lift_bind; [intros template Ht|done].
    destruct (negb (tt_version template =? 1)); [by apply spec_lift|].
    destruct (negb (bool_decide _)); [by apply spec_lift|].
    apply spec_lift_bind; [intros rendered Hren|done].
    apply rendered_count in Hren.
    eapply spec_bind; [eapply spec_pre; [apply (prepare_requests_good api show tenant_id label); constructor|done]|].
    intros [requests vols] s [Hall Hlen]. cbn in Hall, Hlen.
    assert (Ho : owned tenant_id [] s) by (intros i Hi; inversion Hi). revert s Ho.
    change (spec (owned tenant_id []) (ids ← create_machines api show tenant_id requests vols [];
      _ ← wait_started api show tenant_id timeout ids ids vols; mret ids) (fun ids s =>
      (exists template, load_template to_json raw parse path = Ok template /\ length ids = machine_count template) /\
      owned tenant_id ids s) (fun _ => True)).
    eapply spec_bind; [by apply (create_machines_owned api show tenant_id label c0)|]. intros ids'. cbn beta.
    intros s [Ho Hl]. revert s Ho.
    change (spec (owned tenant_id ids') (_ ← wait_started api show tenant_id timeout ids' ids' vols; mret ids') (fun ids s =>
      (exists template, load_template to_json raw parse path = Ok template /\ length ids = machine_count template) /\
      owned tenant_id ids s) (fun _ => True)).
    eapply spec_bind; [apply wait_started_owned|]. intros u. apply spec_ret. cbn. intros s Ho. split; [|done].
    exists template. split; [done|]. cbn in Hl. by rewrite Hl, Hlen, Hren.
  - assert (Ho : owned tenant_id [] (k0, c0)) by (intros i Hi; inversion Hi). specialize (Hs _ Ho).
    rewrite Hr in Hs. destruct Hs as [Hc Hown]. split_and!; [done|exact Hown|exact Hm|].
    intros v x Hx. rewrite Hv; [done|]. intros Hin. specialize (Hv0 v Hin). congruence.
Qed.

(** ** Witnesses *)

Definition demo_template : TenantTemplate Value :=
  mkTemplate 1 "vault" 2
    (mkMachineTemplate (Some "vm-{{index}}") (Some "ord")
       (VObject [("image", VString "{{img}}"); ("mounts", VArray [VObject [("name", VString "data")]])])
       None None None None) ∅.

(** Ids are new; the second machine to wait for never starts when [fails]. *)
Definition demo_create_api (fails : bool) : Api :=
  mkApi (fun k => Created ("new" +:+ pretty k)) (fun _ => Applied) (fun _ => Applied) (fun _ => Applied)
    (fun k _ => if fails && (k =? 5)%nat then Err [] else Ok tt) (fun _ => None)
    (fun _ _ ms => map snd (map_to_list ms)) (fun _ vs => map_to_list vs)
    (fun new request => mkMachine new (req_name request) "started" (req_region request) (Some "v1") None None None None
                          (req_config request) VNull []).

Definition empty_cloud : Cloud := mkCloud ∅ ∅ ∅.

Lemma demo_create_api_ok fails : ApiOk (demo_create_api fails) empty_cloud.
Proof.
  split; [done|intros k new _; split; apply lookup_empty|done|].
  intros new request. split_and!; [done|done|]. intros [E|E]; discriminate.
Qed.

Definition demo_create (fails dry_run : bool) : Res (list string) * Sys :=
  run_create Ok (fun _ => map_to_list) (Ok "") (fun _ => Ok demo_template) "t.toml" (demo_create_api fails) (fun _ => "")
    "vault" "acme" "t.toml" None {["img" := "vault:1"]} 1000 dry_run (0%nat, empty_cloud).

Lemma failed_creation_leaves_nothing_witness :
  exists e k1, demo_create true false = (Err e, (k1, empty_cloud)) /\ (2 < k1)%nat.
Proof.
  destruct (demo_create true false) as [r [k1 c1]] eqn:E.
  assert (Hr : (exists e, r = Err e) /\ (2 < k1)%nat).
  { assert (Hf : (exists e, fst (demo_create true false) = Err e) /\ (2 < fst (snd (demo_create true false)))%nat)
      by (vm_compute; split; [eauto|lia]). by rewrite E in Hf. }
  destruct Hr as [[e ->] Hk]. exists e, k1. split; [|done].
  rewrite (failed_creation_leaves_nothing Ok (fun _ => map_to_list) (Ok "") (fun _ => Ok demo_template) "t.toml"
    (demo_create_api true) (fun _ => "") "vault" "acme" "t.toml" None _ 1000 empty_cloud 0 false e k1 c1
    (demo_create_api_ok true) E). done.
Defined.

Lemma dry_run_calls_nothing_witness : snd (demo_create true true) = (0%nat, empty_cloud).
Proof.
  destruct (demo_create true true) as [r s1] eqn:E. cbn.
  apply (dry_run_calls_nothing Ok (fun _ => map_to_list) (Ok "") (fun _ => Ok demo_template) "t.toml"
    (demo_create_api true) (fun _ => "") "vault" "acme" "t.toml" None _ 1000 _ r s1 E).
  intros ->. assert (Hf : is_ok (fst (demo_create true true)) = true) by (vm_compute; reflexivity). by rewrite E in Hf.
Defined.

Lemma created_tenant_is_complete_witness :
  exists ids k1 c1, demo_create false false = (Ok ids, (k1, c1)) /\ length ids = 2%nat /\
    forall i, i ∈ ids -> exists m, machines c1 !! i = Some m /\ tenant_machine_ok "acme" m.
Proof.
  destruct (demo_create false false) as [r [k1 c1]] eqn:E.
  assert (Hr : exists ids, r = Ok ids).
  { assert (Hf : exists ids, fst (demo_create false false) = Ok ids) by (vm_compute; eauto). by rewrite E in Hf. }
  destruct Hr as [ids ->]. exists ids, k1, c1. split; [done|].
  destruct (created_tenant_is_complete Ok (fun _ => map_to_list) (Ok "") (fun _ => Ok demo_template) "t.toml"
    (demo_create_api false) (fun _ => "") "vault" "acme" "t.toml" None _ 1000 empty_cloud 0 ids k1 c1
    (demo_create_api_ok false) E) as ((template & Ht & Hlen) & Hown & _).
  split; [|exact Hown]. rewrite Hlen. cbn in Ht. by injection Ht as <-.
Defined.
