(* ===== verification/TenantDelete.v ===== *)
(** * What deleting a tenant does

    Proofs over [delete_tenant] of [Tenant.v]: which machines and volumes it
    touches, and what is gone when it succeeds. *)

From stdpp Require Import numbers.
From S2P Require Import Prelude Text Machines Template Tenant.

(** A machine answers a query when its metadata has each pair the query names. *)
Definition matches_query (q : list (string * string)) (m : Machine) : Prop :=
  forall key v, ("metadata." +:+ key, v) ∈ q -> metadata m !! key = Some v.

(** The API lists machines it holds, all those a query asks for, and refuses a
    deletion with a 404 only for what is not there. *)
Record ListingOk (api : Api) : Prop := {
  lo_sound : forall k q ms m, m ∈ listing api k q ms -> exists i, ms !! i = Some m;
  lo_complete : forall k q ms i m, ms !! i = Some m -> matches_query q m -> m ∈ listing api k q ms;
  lo_honest : forall k e, delete_reply api k = Refused e -> api_status e <> Some 404;
}.

(** A machine is stored under its id. *)
Definition IdsOk (c : Cloud) : Prop := forall i m, machines c !! i = Some m -> id m = i.

Section delete.
Context (api : Api) (show : Cause -> string) (tenant_id : string) (c0 : Cloud).
Context (listing_ok : ListingOk api).

(** The machines of the tenant that [c] holds. *)
Definition of_tenant (c : Cloud) (m : Machine) : Prop :=
  (exists i, machines c !! i = Some m) /\ is_managed m = true /\ belongs_to tenant_id m = true.

Lemma list_managed_spec s :
  spec (eq s) (list_managed_machines api (Some tenant_id))
    (fun ms s' => s'.2 = s.2 /\ forall m, m ∈ ms <-> of_tenant s.2 m) (fun s' => s'.2 = s.2).
Proof using listing_ok.
  intros ? <-. destruct s as [k c]. unfold list_managed_machines, list_managed_machines_with_options, list_machines, numbered.
  unfold mbind, M_bind, mbind_st. destruct (list_error api k) as [e|]; [done|]. split; [done|].
  intros m. rewrite list_elem_of_In, !filter_In, <- list_elem_of_In. unfold of_tenant. cbn.
  destruct listing_ok as [Hs Hc _]. split.
  - intros [[Hin Hm] Hb]. split; [by eapply Hs|done].
  - intros ((i & Hi) & Hm & Hb). split; [split; [|done]|done]. eapply Hc; [done|].
    intros key v [E|[E|E]%elem_of_cons]%elem_of_cons; [..|inversion E].
    + apply pair_equal_spec in E as [Ek ->]. apply (inj (String.append "metadata.")) in Ek as ->.
      unfold is_managed, is_managed_with in Hm. rewrite !andb_true_iff in Hm.
      destruct Hm as [[Hm _] _]. by apply bool_decide_eq_true in Hm.
    + apply pair_equal_spec in E as [Ek ->]. apply (inj (String.append "metadata.")) in Ek as ->.
      unfold belongs_to in Hb. by apply bool_decide_eq_true in Hb.
Qed.

(** Only the machines [ms] and the volumes [vs] may differ from [c0]. *)
Definition only (ms vs : list string) (s : Sys) : Prop :=
  (forall i, i ∉ ms -> machines s.2 !! i = machines c0 !! i) /\
  (forall v, v ∉ vs -> cloud_volumes s.2 !! v = cloud_volumes c0 !! v) /\
  (forall i, i ∉ ms -> i ∈ cordoned_ids s.2 <-> i ∈ cordoned_ids c0).

Lemma only_machines f ms vs i k c :
  i ∈ ms -> (forall m j, i <> j -> f m !! j = m !! j) -> only ms vs (k, c) -> only ms vs (S k, set_machines f c).
Proof using Type.
  intros Hi Hf (Hm & Hv & Hc). split_and!; cbn; [|exact Hv|exact Hc]. intros j Hj. rewrite Hf; [by apply Hm|]. by intros ->.
Qed.

Lemma only_volumes f ms vs v k c :
  v ∈ vs -> (forall m j, v <> j -> f m !! j = m !! j) -> only ms vs (k, c) -> only ms vs (S k, set_volumes f c).
Proof using Type.
  intros Hi Hf (Hm & Hv & Hc). split_and!; cbn; [exact Hm| |exact Hc]. intros j Hj. rewrite Hf; [by apply Hv|]. by intros ->.
Qed.

Lemma delete_machine_only i ms vs :
  i ∈ ms -> spec (only ms vs) (delete_machine api i) (fun _ => only ms vs) (only ms vs).
Proof using Type.
  intros Hi [k c] Ho. unfold delete_machine, numbered. destruct (machines c !! i); [|done].
  pose proof (only_machines (delete i) ms vs i k c Hi ltac:(intros; by apply lookup_delete_ne) Ho) as Ho'.
  by destruct (delete_reply api k).
Qed.


Lemma delete_volume_only v ms vs :
  v ∈ vs -> spec (only ms vs) (delete_volume api v) (fun _ => only ms vs) (only ms vs).
Proof using Type.
  intros Hi [k c] Ho. unfold delete_volume, numbered. destruct (cloud_volumes c !! v); [|done].
  pose proof (only_volumes (delete v) ms vs v k c Hi ltac:(intros; by apply lookup_delete_ne) Ho) as Ho'.
  by destruct (delete_reply api k).
Qed.

(** A deletion with nothing to report has happened. *)
Lemma delete_volume_gone v s r s' :
  mtry (delete_volume api v) s = (Ok r, s') ->
  match r with Ok _ => True | Err err => deletion_error show DeleteVolume "volume" v err = [] | Panic => False end ->
  cloud_volumes s'.2 !! v = None.
Proof using listing_ok.
  destruct s as [k c]. unfold mtry, delete_volume, numbered. destruct (cloud_volumes c !! v) eqn:Ev.
  - destruct listing_ok as [_ _ Hh]. specialize (Hh k). destruct (delete_reply api k) as [|e|e]; cbn;
      intros [= <- <-]; cbn; try by rewrite lookup_delete_eq.
    specialize (Hh e eq_refl). unfold deletion_error, classify_machine_action_error.
    destruct (api_status e) as [st|]; [|done]. destruct (existsb _ _); [done|].
    destruct (Z.eqb_spec st 404) as [->|_]; [done|]. by destruct ((st =? 409) || (st =? 422)).
  - by intros [= <- <-].
Qed.

Lemma delete_volume_keeps_gone v w s r s' :
  mtry (delete_volume api v) s = (r, s') -> cloud_volumes s.2 !! w = None -> cloud_volumes s'.2 !! w = None.
Proof using Type.
  destruct s as [k c]. cbn. unfold mtry, delete_volume, numbered. intros Hr Hw.
  destruct (cloud_volumes c !! v) as [x|] eqn:Ev; [|by injection Hr as _ <-].
  assert (Hn : v <> w) by congruence.
  destruct (delete_reply api k); cbn in Hr; injection Hr as _ <-; cbn; [by rewrite lookup_delete_ne|done|by rewrite lookup_delete_ne].
Qed.

Definition gone_in (gone : list string) (s : Sys) : Prop := forall v, v ∈ gone -> cloud_volumes s.2 !! v = None.

Lemma delete_volume_step i ms vs gone E :
  i ∈ vs ->
  spec (fun s => only ms vs s /\ gone_in gone s) (mtry (delete_volume api i))
    (fun r s => only ms vs s /\ gone_in gone s /\
       match r with
       | Ok _ => gone_in [i] s
       | Err err => deletion_error show DeleteVolume "volume" i err = [] -> gone_in [i] s
       | Panic => False
       end) E.
Proof using listing_ok.
  intros Hi s [Ho Hg].
  pose proof (spec_try _ _ _ _ (fun _ => False) (delete_volume_only i ms vs Hi) s Ho) as Ht.
  destruct (mtry (delete_volume api i) s) as [[r|e|] s1] eqn:Et; [|done|done].
  assert (Hone : match r with Ok _ => True | Err err => deletion_error show DeleteVolume "volume" i err = []
    | Panic => False end -> gone_in [i] s1).
  { intros Hr v ->%list_elem_of_singleton. by eapply delete_volume_gone. }
  split_and!.
  - by destruct r.
  - intros v Hv. eapply delete_volume_keeps_gone; [exact Et|by apply Hg].
  - destruct r; auto.
Qed.

(** Deleting volumes one after the other, with nothing to report. *)
Lemma delete_volumes_spec (ids gone ms vs : list string) :
  (forall v, v ∈ ids -> v ∈ vs) ->
  spec (fun s => only ms vs s /\ gone_in gone s) (cleanup_created_volumes api show ids)
    (fun errors s => only ms vs s /\ gone_in gone s /\ (errors = [] -> gone_in ids s)) (only ms vs).
Proof using listing_ok.
  unfold cleanup_created_volumes. revert gone. induction ids as [|i rest IH]; intros gone Hin; cbn [delete_each].
  { apply spec_ret. intros s [Ho Hg]. split_and!; try done. intros _ v Hv. inversion Hv. }
  assert (Hin' : forall v, v ∈ rest -> v ∈ vs) by (intros v Hv; apply Hin; by right).
  assert (Hsplit : forall gone i s, gone_in gone s -> gone_in [i] s -> gone_in (i :: gone) s).
  { clear. intros gone i s Hg Hi v [->|Hv]%elem_of_cons; [apply Hi; by left|auto]. }
  assert (Htail : forall gone i s, gone_in (i :: gone) s -> gone_in gone s /\ gone_in [i] s).
  { clear. intros gone i s Hg. split; [intros v Hv; apply Hg; by right|].
    intros v ->%list_elem_of_singleton. apply Hg. by left. }
  eapply spec_bind; [apply (delete_volume_step i ms vs gone); apply Hin; by left|].
  intros [u|err|]; [| |by intros s (? & ? & ?)].
  - eapply spec_weaken; [exact (IH (i :: gone) Hin')|intros s (Ho & Hg & Hi); split; [done|by apply Hsplit]| |done].
    intros errors s (Ho & Hg & He). apply Htail in Hg as [Hg Hi]. split_and!; [done..|]. intros E. by apply Hsplit; [apply He|].
  - destruct (deletion_error show DeleteVolume "volume" i err) as [|msg msgs] eqn:Ed; cbn [app].
    + eapply spec_bind; [eapply spec_pre; [exact (IH (i :: gone) Hin')|]|].
      { intros s (Ho & Hg & Hi). split; [done|]. by apply Hsplit; [|apply Hi]. }
      intros errors. apply spec_ret. intros s (Ho & Hg & He). apply Htail in Hg as [Hg Hi].
      split_and!; [done..|]. intros E. by apply Hsplit; [apply He|].
    + eapply spec_bind; [eapply spec_pre; [exact (IH gone Hin')|by intros s (? & ? & _)]|].
      intros errors. apply spec_ret. intros s (Ho & Hg & _). split_and!; try done.
Qed.

(** *** The machines *)

Lemma delete_each_only (I : Sys -> Prop) action what del (ids : list string) :
  (forall i, i ∈ ids -> spec I (del i) (fun _ => I) I) ->
  spec I (delete_each show action what del ids) (fun _ => I) I.
Proof using Type.
  intros Hdel. induction ids as [|i rest IH]; cbn [delete_each]; [by apply spec_ret|].
  assert (IH' : spec I (delete_each show action what del rest) (fun _ => I) I)
    by (apply IH; intros j Hj; apply Hdel; by right).
  eapply spec_bind; [apply spec_try, Hdel; by left|]. intros [u|err|]; cbn beta; [exact IH'| |by intros s Hs].
  eapply spec_bind; [exact IH'|]. intros errors. by apply spec_ret.
Qed.

Lemma bump_only ms vs k c : only ms vs (k, c) -> only ms vs (S k, c).
Proof using Type. done. Qed.

Lemma cordon_only i ms vs :
  i ∈ ms -> spec (only ms vs) (cordon_machine api i) (fun _ => only ms vs) (only ms vs).
Proof using Type.
  intros Hi [k c] Ho. unfold cordon_machine, numbered.
  assert (Ho' : only ms vs (S k, set_cordoned i c)).
  { destruct Ho as (Hm & Hv & Hc). split_and!; [exact Hm|exact Hv|]. cbn. intros j Hj.
    rewrite <- (Hc j Hj). cbn. rewrite elem_of_union, elem_of_singleton.
    split; [intros [->|H]; done|by right]. }
  by destruct (cordon_reply api k).
Qed.

Lemma stop_only i ms vs :
  i ∈ ms -> spec (only ms vs) (stop_machine api i) (fun _ => only ms vs) (only ms vs).
Proof using Type.
  intros Hi [k c] Ho. unfold stop_machine, numbered.
  pose proof (only_machines (alter stopped i) ms vs i k c Hi ltac:(intros; by apply lookup_alter_ne) Ho) as Ho'.
  by destruct (stop_reply api k).
Qed.

Lemma wait_only ms vs timeout : spec (only ms vs) (wait_state api timeout) (fun _ => only ms vs) (only ms vs).
Proof using Type. intros [k c] Ho. unfold wait_state, numbered. by destruct (wait_for_state _ _). Qed.

Lemma delete_tenant_machine_only timeout m ms vs :
  id m ∈ ms -> spec (only ms vs) (delete_tenant_machine api show timeout m) (fun _ => only ms vs) (only ms vs).
Proof using Type.
  intros Hi. unfold delete_tenant_machine.
  eapply spec_bind; [by apply spec_try, cordon_only|]. intros rc.
  apply (spec_bind _ _ _ (fun _ => only ms vs)); cbn zeta.
  { destruct rc as [u|e|]; cbn beta; [| |by intros s Hs]; (destruct (bool_decide _); [|by apply spec_ret]).
    all: eapply spec_bind; [apply spec_try, stop_only; done|].
    all: intros [v|err|]; cbn beta; [|by apply spec_ret|by intros s Hs].
    all: eapply spec_bind; [apply spec_try, wait_only|].
    all: intros [w|err|]; cbn beta; [by apply spec_ret..|by intros s Hs]. }
  intros stop_errors. eapply spec_bind.
  { apply (delete_each_only (only ms vs)). intros i ->%list_elem_of_singleton. by apply delete_machine_only. }
  intros delete_errors. by apply spec_ret.
Qed.

Lemma delete_tenant_machines_only timeout l ms vs :
  (forall m, m ∈ l -> id m ∈ ms) ->
  spec (only ms vs) (delete_tenant_machines api show timeout l) (fun _ => only ms vs) (only ms vs).
Proof using Type.
  induction l as [|m l IH]; intros Hin; cbn [delete_tenant_machines]; [by apply spec_ret|].
  eapply spec_bind; [apply delete_tenant_machine_only, Hin; by left|]. intros errors.
  eapply spec_bind; [apply IH; intros m' Hm'; apply Hin; by right|]. intros more. by apply spec_ret.
Qed.

(** *** The whole deletion *)

Lemma sorted_set_elem v l : v ∈ sorted_set l <-> v ∈ l.
Proof using Type. unfold sorted_set. rewrite sort_by_perm. apply elem_of_remove_dups. Qed.

(** What only the tenant's machines and their volumes may change. *)
Definition only_tenant (c : Cloud) : Prop :=
  (forall i, (forall m, of_tenant c0 m -> id m <> i) -> machines c !! i = machines c0 !! i) /\
  (forall v, (forall m, of_tenant c0 m -> v ∉ mounted_volume_ids m) -> cloud_volumes c !! v = cloud_volumes c0 !! v) /\
  (forall i, (forall m, of_tenant c0 m -> id m <> i) -> i ∈ cordoned_ids c <-> i ∈ cordoned_ids c0).

(** Nothing of the tenant is left. *)
Definition tenant_gone (c : Cloud) : Prop :=
  (forall m, ~ of_tenant c m) /\
  (forall m v, of_tenant c0 m -> v ∈ mounted_volume_ids m -> cloud_volumes c !! v = None).

Lemma only_only_tenant machines s :
  (forall m, m ∈ machines <-> of_tenant c0 m) ->
  only (id <$> machines) (sorted_set (concat (map mounted_volume_ids machines))) s -> only_tenant s.2.
Proof using Type.
  intros Hms (Hm & Hv & Hc).
  assert (Hid : forall i, (forall m, of_tenant c0 m -> id m <> i) -> i ∉ id <$> machines).
  { intros i Hi (m & -> & Hin)%list_elem_of_fmap. apply (Hi m); [by apply Hms|done]. }
  split_and!; [auto| |auto].
  - intros v Hn. apply Hv. rewrite sorted_set_elem. intros (l & (m & <- & Hmin)%in_map_iff & Hin)%list_elem_of_In%in_concat.
    apply (Hn m); [by apply Hms, list_elem_of_In|by apply list_elem_of_In].
Qed.

Lemma list_managed_again ms vs gone :
  spec (fun s => only ms vs s /\ gone_in gone s) (list_managed_machines api (Some tenant_id))
    (fun l s => only ms vs s /\ gone_in gone s /\ forall m, m ∈ l <-> of_tenant s.2 m) (only ms vs).
Proof using listing_ok.
  intros s [Ho Hg]. pose proof (list_managed_spec s s eq_refl) as Hl.
  destruct (list_managed_machines api (Some tenant_id) s) as [[l|e|] s']; cbn in Hl; [|by unfold only; rewrite Hl|done].
  destruct Hl as [Hs Hl]. unfold only, gone_in. rewrite Hs. done.
Qed.

Lemma delete_listed_spec timeout (l : list Machine) (vids : list string) :
  spec (only (id <$> l) vids) (delete_listed api show tenant_id timeout l vids)
    (fun _ s => only (id <$> l) vids s /\ gone_in vids s /\ forall m, ~ of_tenant s.2 m) (only (id <$> l) vids).
Proof using listing_ok.
  unfold delete_listed.
  eapply spec_bind; [apply delete_tenant_machines_only; intros m Hm; by apply list_elem_of_fmap_2|]. intros me.
  eapply spec_bind; [eapply spec_pre; [apply (delete_volumes_spec vids [] (id <$> l) vids); done|]|].
  { intros s Ho. split; [done|]. intros v Hv. inversion Hv. }
  intros ve. cbn beta. destruct ve as [|err ve].
  - eapply spec_bind; [eapply spec_pre; [apply (list_managed_again (id <$> l) vids vids)|]|].
    { intros s (Ho & _ & He). split; [done|by apply He]. }
    intros remaining. cbn zeta. destruct me as [|x me]; [destruct remaining as [|r rs]|]; cbn [app].
    + apply spec_ret. intros s (Ho & Hg & Hr). split_and!; [done..|]. intros m Hm. apply Hr in Hm. inversion Hm.
    + apply spec_lift; [done|]. by intros e s _ (Ho & _).
    + apply spec_lift; [done|]. by intros e s _ (Ho & _).
  - eapply spec_bind; [eapply spec_pre; [apply (list_managed_again (id <$> l) vids [])|]|].
    { intros s (Ho & Hg & _). split; [done|done]. }
    intros remaining. cbn zeta. destruct me as [|x me]; cbn [app];
      (apply spec_lift; [done|]; by intros e s _ (Ho & _)).
Qed.

Lemma delete_tenant_spec yes timeout :
  spec (fun s => s.2 = c0) (delete_tenant api show tenant_id yes timeout)
    (fun _ s => only_tenant s.2 /\ tenant_gone s.2 /\ (yes = false -> s.2 = c0))
    (fun s => only_tenant s.2 /\ (yes = false -> s.2 = c0)).
Proof using listing_ok.
  assert (Hrefl : only_tenant c0) by done.
  unfold delete_tenant. eapply spec_bind.
  { intros s Hs. eapply (spec_weaken _ (eq s) _ _ (fun ms s => s.2 = c0 /\ forall m, m ∈ ms <-> of_tenant c0 m) _
      (fun s => only_tenant s.2 /\ (yes = false -> s.2 = c0)) (list_managed_spec s)); [done|..|done].
    - intros ms s'. by rewrite Hs.
    - intros s' E. by rewrite E, Hs. }
  intros l. cbn beta. destruct l as [|m0 l].
  { apply spec_ret. intros s [Hs Hl]. rewrite Hs. split_and!; [done| |done].
    split; [intros m Hm|intros m v Hm]; apply Hl in Hm; inversion Hm. }
  set (ms := m0 :: l) in *. destruct yes; cbn [negb].
  2: { apply spec_lift; [done|]. intros e s _ [Hs _]. by rewrite Hs. }
  intros s [Hs Hl]. set (vids := sorted_set _).
  assert (Ho : only (id <$> ms) vids s) by (unfold only; by rewrite Hs).
  pose proof (delete_listed_spec timeout ms vids s Ho) as Hd.
  destruct (delete_listed _ _ _ _ _ _ s) as [[u|e|] s1]; [|split; [by eapply only_only_tenant|done]|done].
  destruct Hd as (Ho1 & Hg & Hn). split_and!; [by eapply only_only_tenant| |done]. split; [done|].
  intros m v Hm Hv. apply Hg, sorted_set_elem, list_elem_of_In, in_concat. exists (mounted_volume_ids m).
  split; [|by apply list_elem_of_In]. apply in_map, list_elem_of_In. by apply Hl.
Qed.

(** C24: deleting a tenant changes, and takes out of traffic, nothing but its
    machines and the volumes they mount, and nothing at all without [--yes]; when it succeeds, the API lists no
    machine of the tenant and none of those volumes is left. *)
Theorem delete_tenant_deletes_the_tenant yes timeout k0 r k1 c1 :
  delete_tenant api show tenant_id yes timeout (k0, c0) = (r, (k1, c1)) -> r <> Panic ->
  only_tenant c1 /\ (yes = false -> c1 = c0) /\ (r = Ok tt -> tenant_gone c1).
Proof using listing_ok.
  intros Hr Hp. pose proof (delete_tenant_spec yes timeout (k0, c0) eq_refl) as Hs. rewrite Hr in Hs.
  destruct r as [[]|e|]; [| |done]; cbn in Hs.
  - by destruct Hs as (Ho & Hg & Hy).
  - by destruct Hs as (Ho & Hy).
Qed.
End delete.

(** ** Witness *)

Definition demo_tenant_machine : Machine :=
  mkMachine "m1" None "started" None None None None None None
    (VObject [("metadata", VObject [(MANAGED_BY_KEY, VString MANAGED_BY_VALUE); (TENANT_ID_KEY, VString "acme")]);
              ("mounts", VArray [VObject [("volume", VString "vol1")]])]) VNull [].

Definition demo_cloud : Cloud := mkCloud {["m1" := demo_tenant_machine]} (<["vol1" := None]> {["vol2" := None]}) ∅.

Definition demo_delete_api : Api :=
  mkApi (fun k => CreateRefused []) (fun _ => Applied) (fun _ => Applied) (fun _ => Applied) (fun _ _ => Ok tt)
    (fun _ => None) (fun _ _ ms => map snd (map_to_list ms)) (fun _ vs => map_to_list vs)
    (fun _ _ => demo_tenant_machine).

Lemma demo_delete_api_ok : ListingOk demo_delete_api.
Proof.
  split; [| |done].
  - intros k q ms m Hm. cbn in Hm. apply list_elem_of_fmap in Hm as ([i m'] & -> & Hm). exists i.
    by apply elem_of_map_to_list.
  - intros k q ms i m Hi _. cbn. apply list_elem_of_fmap. exists (i, m). split; [done|].
    by apply elem_of_map_to_list.
Qed.

Lemma delete_tenant_deletes_the_tenant_witness :
  let '(r, s1) := delete_tenant demo_delete_api (fun _ => "") "acme" true 1000 (0%nat, demo_cloud) in
  r = Ok tt /\ tenant_gone "acme" demo_cloud s1.2.
Proof.
  destruct (delete_tenant demo_delete_api (fun _ => "") "acme" true 1000 (0%nat, demo_cloud)) as [r [k1 c1]] eqn:E.
  assert (Hr : r = Ok tt).
  { assert (Hf : fst (delete_tenant demo_delete_api (fun _ => "") "acme" true 1000 (0%nat, demo_cloud)) = Ok tt)
      by (vm_compute; reflexivity). by rewrite E in Hf. }
  split; [done|].
  apply (delete_tenant_deletes_the_tenant demo_delete_api (fun _ => "") "acme" demo_cloud demo_delete_api_ok true 1000
           0%nat r k1 c1 E); [by rewrite Hr|done].
Defined.
