(* ===== verification/TenantLife.v ===== *)
(** * The life of a tenant: created, then deleted

    [create_tenant] and [delete_tenant] of [Tenant.v], one after the other: the
    volumes a creation makes are exactly mounted by the machines it makes, so that
    the deletion, which goes by the mounts, finds them. *)

From stdpp Require Import numbers.
From S2P Require Import Prelude Text Machines Template Tenant TenantCreate TenantDelete.

(** ** A volume that a configuration mounts *)

Definition mount_names (mount : Value) (v : string) : Prop :=
  exists fields, mount = VObject fields /\ obj_get "volume" fields = Some (VString v).

Definition config_mounts (config : Value) (v : string) : Prop :=
  exists fields mounts mount, config = VObject fields /\ obj_get "mounts" fields = Some (VArray mounts) /\
    mount ∈ mounts /\ mount_names mount v.

Lemma config_mounts_ids m v :
  config_mounts (config m) v -> trimmed_nonempty v = Some v -> v ∈ mounted_volume_ids m.
Proof.
  intros (fields & mounts & mount & Ec & Em & Hin & (mf & -> & Hv)) Ht.
  unfold mounted_volume_ids, mounted_volume_facts, mounted_volume_facts_with_sizes. rewrite Ec. cbn. rewrite Em. cbn.
  change (v ∈ volume_id <$> omap (mounted_volume ∅) (omap as_object mounts)).
  apply list_elem_of_fmap. exists (mkVolumeFact v
    (w ← obj_get "name" mf; s ← as_str w; trimmed_nonempty s) (w ← obj_get "path" mf; s ← as_str w; trimmed_nonempty s)
    (default DEFAULT_VOLUME_SIZE_GIB (w ← obj_get "size_gb" mf; n ← as_u64 w; Some (as_u32 n)))).
  split; [done|]. apply list_elem_of_omap. exists mf. split; [apply list_elem_of_omap; by exists (VObject mf)|].
  unfold mounted_volume. rewrite Hv. cbn. rewrite Ht. cbn. by rewrite lookup_empty.
Qed.

(** ** The volumes a creation makes *)

(** The waiting mounts are objects, each named once. *)
Lemma pending_mounts_objects k mounts pending :
  pending_mounts k mounts = Ok pending ->
  NoDup pending.*1 /\ (forall i name, (i, name) ∈ pending ->
    (k <= i)%nat /\ exists fields, mounts !! (i - k)%nat = Some (VObject fields)).
Proof.
  revert k pending. induction mounts as [|mt mounts IH]; intros k pending Hp; cbn in Hp.
  { injection Hp as <-. split; [apply NoDup_nil_2|]. intros i n Hi. inversion Hi. }
  apply bind_Ok in Hp as (fields & Hf & Hp). destruct mt as [| | | | |fs]; try done. injection Hf as ->.
  assert (Hrest : forall rest, pending_mounts (S k) mounts = Ok rest ->
    NoDup rest.*1 /\ (forall i name, (i, name) ∈ rest ->
      (S k <= i)%nat /\ exists f, (VObject fields :: mounts) !! (i - k)%nat = Some (VObject f))).
  { intros rest Hr. destruct (IH _ _ Hr) as [Hnd Hin]. split; [done|]. intros i name Hi.
    destruct (Hin i name Hi) as [Hle [f Hl]]. split; [done|]. exists f.
    replace (i - k)%nat with (S (i - S k)) by lia. exact Hl. }
  destruct (v ← obj_get "volume" fields; s ← as_str v; trimmed_nonempty s).
  - destruct (Hrest _ Hp) as [Hnd Hin]. split; [done|]. intros i name Hi.
    destruct (Hin i name Hi) as [Hle Hl]. split; [lia|done].
  - apply bind_Ok in Hp as (name & _ & Hp). apply bind_Ok in Hp as (rest & Hr & [= <-]).
    destruct (Hrest _ Hr) as [Hnd Hin]. split.
    + cbn. apply NoDup_cons. split; [|done]. intros ([i n] & E & Hi)%list_elem_of_fmap.
      destruct (Hin i n Hi) as [Hle _]. cbn in E. lia.
    + intros i n [[= -> ->]|Hi]%elem_of_cons.
      * split; [lia|]. rewrite Nat.sub_diag. by exists fields.
      * destruct (Hin i n Hi) as [Hle Hl]. split; [lia|done].
Qed.

Lemma set_mount_volume_ne index vid mounts j :
  index <> j -> set_mount_volume index vid mounts !! j = mounts !! j.
Proof.
  intros Hn. unfold set_mount_volume. destruct (mounts !! index) as [[]|]; try done.
  by rewrite list_lookup_insert_ne.
Qed.

Lemma set_mount_volume_eq index vid mounts fields :
  mounts !! index = Some (VObject fields) ->
  set_mount_volume index vid mounts !! index = Some (VObject (obj_insert "volume" (VString vid) fields)).
Proof.
  intros Hi. unfold set_mount_volume. rewrite Hi. apply list_lookup_insert_eq. by eapply lookup_lt_Some.
Qed.

Section life.
Context (api : Api) (show : Cause -> string).

(** The API gives each id once, and ids have no spaces around them. *)
Record NewIds : Prop := {
  ni_once : forall j k new, create_reply api j = Created new -> create_reply api k = Created new -> j = k;
  ni_trimmed : forall k new, create_reply api k = Created new -> trimmed_nonempty new = Some new;
}.

(** A cleanup, and then the error. *)
Lemma report_fails {A B} (P : Sys -> Prop) (m : M Sys A) (f : A -> Error) (Q : B -> Sys -> Prop) :
  spec P (x ← m; mlift (Err (f x))) Q (fun _ => True).
Proof. eapply spec_bind; [apply spec_true|]. intros x. by apply spec_lift. Qed.

(** What holds of the volumes created so far: a mount has each, which none of the
    waiting mounts is. *)
Definition in_mounts (pending : list (nat * string)) (mounts : list Value) (v : string) : Prop :=
  trimmed_nonempty v = Some v /\
  exists j mount, mounts !! j = Some mount /\ mount_names mount v /\ j ∉ pending.*1.

Lemma create_volume_id request :
  NewIds -> spec (fun _ => True) (create_volume api request) (fun v _ => trimmed_nonempty v = Some v) (fun _ => True).
Proof.
  intros [_ Ht] [k c] _. unfold create_volume, numbered. specialize (Ht k).
  destruct (create_reply api k); cbn; [by apply Ht|done..].
Qed.

Lemma create_mount_volumes_mounted region pending mounts created :
  NewIds -> NoDup pending.*1 ->
  (forall i name, (i, name) ∈ pending -> exists fields, mounts !! i = Some (VObject fields)) ->
  Forall (in_mounts pending mounts) created ->
  spec (fun _ => True) (create_mount_volumes api show region false pending mounts created)
    (fun r _ => Forall (in_mounts [] r.1) r.2) (fun _ => True).
Proof.
  intros Hids. revert mounts created. induction pending as [|[index name] rest IH]; intros mounts created Hnd Hobj Hall;
    cbn [create_mount_volumes]; [by apply spec_ret|].
  cbn in Hnd. apply NoDup_cons in Hnd as [Hi Hnd].
  apply spec_lift_bind; [intros region' _|done].
  eapply spec_bind; [by apply spec_try, spec_context, create_volume_id|].
  intros [vid|err|]; cbn beta; [|apply report_fails|by intros s Hs]. intros s Ht. refine (IH _ _ Hnd _ _ s I).
  - intros i n Hin. destruct (Hobj i n) as [f Hf]; [by right|]. exists f.
    rewrite set_mount_volume_ne; [done|]. intros ->. apply Hi, list_elem_of_fmap. by exists (i, n).
  - destruct (Hobj index name) as [f Hf]; [by left|]. apply Forall_app. split.
    + eapply Forall_impl; [exact Hall|]. intros v (Hv & j & mount & Hj & Hm & Hn). split; [done|].
      apply not_elem_of_cons in Hn as [Hne Hn].
      exists j, mount. rewrite set_mount_volume_ne by (cbn in Hne; congruence). done.
    + apply Forall_singleton. split; [done|]. exists index. eexists. split; [by apply set_mount_volume_eq|].
      split; [|done]. eexists. split; [done|apply obj_get_insert].
Qed.

(** Each of [vs] is mounted by one of the requests. *)
Definition mounted_by (requests : list CreateMachineRequest) (v : string) : Prop :=
  trimmed_nonempty v = Some v /\ exists request, request ∈ requests /\ config_mounts (req_config request) v.

Lemma ensure_mount_volumes_mounted request :
  NewIds -> spec (fun _ => True) (ensure_mount_volumes api show request false)
    (fun r _ => Forall (mounted_by [r.1]) r.2) (fun _ => True).
Proof.
  intros Hids. unfold ensure_mount_volumes. apply spec_lift_bind; [intros fields Hf|done].
  destruct (obj_get "mounts" fields) as [mounts|] eqn:Em; [|by apply spec_ret].
  apply spec_lift_bind; [intros items Hi|done]. apply spec_lift_bind; [intros pending Hp|done].
  apply pending_mounts_objects in Hp as [Hnd Hobj].
  eapply spec_bind; [apply create_mount_volumes_mounted; [done|done| |constructor]|].
  { intros i n Hin. destruct (Hobj i n Hin) as [_ H]. by rewrite Nat.sub_0_r in H. }
  intros [mounts' created]. apply spec_ret. cbn. intros _ Hall.
  eapply Forall_impl; [exact Hall|]. intros v (Ht & j & mount & Hj & Hm & _). split; [done|].
  eexists. split; [by apply list_elem_of_singleton|]. cbn. eexists _, mounts', mount. split; [done|].
  split; [apply obj_get_insert|]. split; [by eapply list_elem_of_lookup_2|done].
Qed.

Lemma mounted_by_app l l' v : mounted_by l v -> (forall r, r ∈ l -> r ∈ l') -> mounted_by l' v.
Proof. intros (Ht & r & Hr & Hc) Hin. split; [done|]. eauto. Qed.

Lemma prepare_requests_mounted tenant_id label rendered created requests :
  NewIds -> Forall (mounted_by requests) created ->
  spec (fun _ => True) (prepare_requests api show tenant_id label false rendered created requests)
    (fun r _ => Forall (mounted_by r.1) r.2) (fun _ => True).
Proof.
  intros Hids. revert created requests. induction rendered as [|sp rest IH]; intros created requests Hall;
    cbn [prepare_requests]; [by apply spec_ret|].
  apply spec_lift_bind; [intros config _|done].
  eapply spec_bind; [by apply spec_try, ensure_mount_volumes_mounted|].
  intros [[request new]|err|]; cbn beta; [|apply report_fails|by intros s Hs]. intros s Hn. cbn in Hn.
  refine (IH _ _ _ s I). apply Forall_app. split.
  - eapply Forall_impl; [exact Hall|]. intros v Hv. eapply mounted_by_app; [exact Hv|]. intros r Hr. by apply elem_of_app; left.
  - eapply Forall_impl; [exact Hn|]. intros v Hv. eapply mounted_by_app; [exact Hv|].
    intros r ->%list_elem_of_singleton. apply elem_of_app. right. by left.
Qed.

(** ** The machines *)

(** Each request has its machine, stored under its id, which an earlier call got. *)
Definition placed (requests : list CreateMachineRequest) (ids : list string) (s : Sys) : Prop :=
  (forall request, request ∈ requests -> exists i m, i ∈ ids /\ machines s.2 !! i = Some m /\ config m = req_config request) /\
  (forall i, i ∈ ids -> exists m, machines s.2 !! i = Some m /\ id m = i) /\
  (forall i, i ∈ ids -> exists j, (j < s.1)%nat /\ create_reply api j = Created i).

Lemma create_machine_placed c0 request requests ids :
  ApiOk api c0 -> NewIds ->
  spec (placed requests ids) (create_machine api request)
    (fun m => placed (requests ++ [request]) (ids ++ [id m])) (fun _ => True).
Proof.
  intros [_ _ _ Hl] [Honce _] [k c] (Hr & Hm & Hi). cbn in Hr, Hm, Hi. unfold create_machine, numbered.
  destruct (create_reply api k) as [new|e|new e] eqn:Ek; cbn; [|done|done].
  destruct (Hl new request) as (Hid & Hc & _). rewrite Hid.
  assert (Hnew : forall i, i ∈ ids -> i <> new).
  { intros i Hin ->. destruct (Hi _ Hin) as (j & Hj & Ej). specialize (Honce _ _ _ Ej Ek). lia. }
  split_and!; cbn.
  - intros r [Hin| ->%list_elem_of_singleton]%elem_of_app.
    + destruct (Hr r Hin) as (i & m & Hi1 & Hm1 & Hcm). exists i, m. split; [by apply elem_of_app; left|]. split; [|done].
      rewrite lookup_insert_ne; [exact Hm1|]. intros <-. by destruct (Hnew new).
    + eexists new, _. split; [apply elem_of_app; right; by left|]. rewrite lookup_insert_eq. done.
  - intros i [Hin| ->%list_elem_of_singleton]%elem_of_app; [|rewrite lookup_insert_eq; eauto].
    rewrite lookup_insert_ne; [by apply Hm|]. intros <-. by destruct (Hnew new).
  - intros i [Hin| ->%list_elem_of_singleton]%elem_of_app; [|eauto with lia].
    destruct (Hi i Hin) as (j & Hj & Ej). exists j. split; [lia|done].
Qed.

Lemma create_machines_placed c0 tenant_id requests rest vs ids :
  ApiOk api c0 -> NewIds ->
  spec (placed requests ids) (create_machines api show tenant_id rest vs ids)
    (placed (requests ++ rest)) (fun _ => True).
Proof.
  intros Hapi Hids. revert requests ids. induction rest as [|request rest IH]; intros requests ids; cbn [create_machines].
  - apply spec_ret. intros s Hs. by rewrite app_nil_r.
  - eapply spec_bind; [by apply spec_try, spec_context, (create_machine_placed c0)|].
    intros [m|err|]; cbn beta; [|apply cleanup_and_fail_fails|by intros s Hs].
    rewrite (cons_middle request requests rest), app_assoc. apply IH.
Qed.

Lemma placed_later requests ids k c : placed requests ids (k, c) -> placed requests ids (S k, c).
Proof.
  intros (Hr & Hm & Hi). split_and!; [exact Hr|exact Hm|]. intros i Hin.
  destruct (Hi i Hin) as (j & Hj & E). exists j. cbn in *. split; [lia|done].
Qed.

Lemma wait_started_placed tenant_id timeout waiting requests ids created vs :
  spec (placed requests ids) (wait_started api show tenant_id timeout waiting created vs)
    (fun _ => placed requests ids) (fun _ => True).
Proof.
  induction waiting as [|mid rest IH]; cbn [wait_started]; [by apply spec_ret|].
  eapply spec_bind; [apply spec_try, spec_context, (wait_state_spec api (placed requests ids)), placed_later|].
  intros [u|err|]; cbn beta; [exact IH|apply cleanup_and_fail_fails|by intros s Hs].
Qed.
End life.

(** ** The whole creation *)

Section created.
Context {Toml : Type} (to_json : Toml -> Res Value) (iter : nat -> gmap string string -> list (string * string)).
Context (raw : Res string) (parse : string -> Res (TenantTemplate Toml)) (path : string).
Context (api : Api) (show : Cause -> string) (client_app tenant_id label : string)
  (token : option string) (vars : gmap string string) (timeout : Z) (c0 : Cloud).
Context (api_ok : ApiOk api c0) (new_ids : NewIds api).

Abbreviation creation := (run_create to_json iter raw parse path api show client_app tenant_id label token vars timeout false).

(** The machines [ids] and the volumes [vs] are new, the machines are the tenant's,
    and they mount the volumes. *)
Record Made (ids vs : list string) (c : Cloud) : Prop := {
  md_grown : grown c0 ids vs c;
  md_owned : forall i, i ∈ ids -> exists m, machines c !! i = Some m /\ tenant_machine_ok tenant_id m /\ id m = i;
  md_mounted : forall v, v ∈ vs -> exists i m, i ∈ ids /\ machines c !! i = Some m /\ v ∈ mounted_volume_ids m;
}.

Lemma creation_made :
  spec (fun s => s.2 = c0) creation (fun ids s => exists vs, Made ids vs s.2) (fun _ => True).
Proof using api_ok new_ids.
  unfold run_create, create_tenant. apply spec_lift_bind; [intros template Ht|done].
  destruct (load_template_object _ _ _ _ _ Ht) as [fields Hc].
  destruct (negb (tt_version template =? 1)); [by apply spec_lift|].
  destruct (negb (bool_decide _)); [by apply spec_lift|].
  apply spec_lift_bind; [intros rendered Hr|done].
  pose proof (rendered_objects _ _ _ _ _ _ _ _ Hc Hr) as Hobj.
  eapply spec_bind.
  { eapply spec_weaken.
    - eapply spec_and; [by apply (prepare_requests_spec api show c0 api_ok tenant_id label false rendered [] [])|].
      eapply spec_and; [apply (prepare_requests_mounted api show tenant_id label rendered [] [] new_ids); constructor|].
      apply (prepare_requests_good api show tenant_id label rendered [] []). constructor.
    - intros s Hs. split; [unfold grown_in; rewrite Hs; apply grown_refl|done].
    - intros a s H. exact H.
    - done. }
  intros [requests vs] s (Hg & Hmounted & Hgood & _). cbn in Hg, Hmounted, Hgood. revert s Hg.
  change (spec (grown_in c0 [] vs) (ids ← create_machines api show tenant_id requests vs [];
    _ ← wait_started api show tenant_id timeout ids ids vs; mret ids)
    (fun ids s => exists vs, Made ids vs s.2) (fun _ => True)).
  eapply spec_bind.
  { eapply spec_weaken.
    - eapply spec_and; [by apply (create_machines_spec api show c0 api_ok tenant_id requests vs [])|].
      eapply spec_and; [by apply (create_machines_owned api show tenant_id label c0 requests vs [])|].
      by apply (create_machines_placed api show c0 tenant_id [] requests vs []).
    - intros s Hg. split; [exact Hg|]. split; [intros i Hi; inversion Hi|].
      split_and!; intros x Hx; inversion Hx.
    - intros a s H. exact H.
    - done. }
  intros ids. cbn beta. eapply spec_bind.
  { eapply spec_weaken.
    - eapply spec_and; [by apply (wait_started_spec api show c0 api_ok tenant_id timeout ids ids vs)|].
      eapply spec_and; [apply (wait_started_owned api show tenant_id timeout ids ids ids vs)|].
      apply (wait_started_placed api show tenant_id timeout ids requests ids ids vs).
    - intros s (Hg & [Ho _] & Hp). split; [exact Hg|]. split; [exact Ho|exact Hp].
    - intros a s H. exact H.
    - done. }
  intros u. apply spec_ret. cbn. intros s (Hg & Ho & Hp & Hpid & _). exists vs. split; [exact Hg| |].
  { intros i Hi. destruct (Ho i Hi) as (m & Hm & Hok). exists m. split_and!; [done..|].
    destruct (Hpid i Hi) as (m' & Hm' & Hid). congruence. }
  intros v Hv. rewrite Forall_forall in Hmounted. destruct (Hmounted v Hv) as (Htr & request & Hrq & Hcm).
  destruct (Hp request Hrq) as (i & m & Hi & Hm & Ecm). exists i, m. split_and!; [done..|].
  apply config_mounts_ids; [by rewrite Ecm|done].
Qed.
End created.

(** ** What a deletion leaves of a machine *)

Section survivors.
Context (api : Api) (show : Cause -> string) (tenant_id : string) (c1 : Cloud).

(** Each machine is as it was, stopped, or gone. *)
Definition survives (s : Sys) : Prop :=
  forall i, machines s.2 !! i = None \/
    exists m, machines c1 !! i = Some m /\ (machines s.2 !! i = Some m \/ machines s.2 !! i = Some (stopped m)).

Lemma survives_delete k c i : survives (k, c) -> survives (S k, set_machines (delete i) c).
Proof.
  intros H j. cbn. destruct (decide (i = j)) as [->|Hn]; [left; apply lookup_delete_eq|].
  rewrite lookup_delete_ne by done. apply H.
Qed.

Lemma survives_stop k c i : survives (k, c) -> survives (S k, set_machines (alter stopped i) c).
Proof.
  intros H j. cbn. destruct (decide (i = j)) as [->|Hn]; [|rewrite lookup_alter_ne by done; apply H].
  rewrite lookup_alter_eq. destruct (H j) as [E|(m & Hm & [E|E])]; cbn in E; rewrite E; [by left|right..]; exists m; auto.
Qed.

Lemma delete_machine_survives i : keeps survives (delete_machine api i).
Proof.
  intros [k c] H. unfold delete_machine, numbered. destruct (machines c !! i); [|done].
  pose proof (survives_delete k c i H). by destruct (delete_reply api k).
Qed.

Lemma delete_volume_survives i : keeps survives (delete_volume api i).
Proof. intros [k c] H. unfold delete_volume, numbered. destruct (cloud_volumes c !! i); [|done]. by destruct (delete_reply api k). Qed.

Lemma cordon_survives i : keeps survives (cordon_machine api i).
Proof. intros [k c] H. unfold cordon_machine, numbered. by destruct (cordon_reply api k). Qed.

Lemma stop_survives i : keeps survives (stop_machine api i).
Proof.
  intros [k c] H. unfold stop_machine, numbered. pose proof (survives_stop k c i H). by destruct (stop_reply api k).
Qed.

Lemma wait_survives timeout : keeps survives (wait_state api timeout).
Proof. by intros [k c] H. Qed.

Lemma list_survives filter : keeps survives (list_managed_machines api filter).
Proof.
  unfold list_managed_machines, list_managed_machines_with_options. apply keeps_bind; [|intros; apply keeps_ret].
  intros [k c] H. unfold list_machines, numbered. by destruct (list_error api k).
Qed.

#[local] Hint Resolve delete_machine_survives delete_volume_survives cordon_survives stop_survives wait_survives
  list_survives : keeps.

Lemma delete_each_survives action what del ids :
  (forall i, keeps survives (del i)) -> keeps survives (delete_each show action what del ids).
Proof.
  intros Hd. induction ids as [|i rest IH]; cbn [delete_each]; [apply keeps_ret|].
  apply keeps_bind; [auto with keeps|]. intros [u|e|]; auto with keeps.
Qed.
#[local] Hint Resolve delete_each_survives : keeps.

Lemma delete_machines_survive timeout l : keeps survives (delete_tenant_machines api show timeout l).
Proof.
  induction l as [|m l IH]; cbn [delete_tenant_machines]; [apply keeps_ret|].
  unfold delete_tenant_machine, cleanup_created_machines. keeps_code.
Qed.
#[local] Hint Resolve delete_machines_survive : keeps.

Lemma delete_survives yes timeout : keeps survives (delete_tenant api show tenant_id yes timeout).
Proof. unfold delete_tenant, delete_listed, cleanup_created_volumes. keeps_code. Qed.
End survivors.

Lemma stopped_of_tenant tenant_id c i m :
  machines c !! i = Some (stopped m) -> is_managed m = true -> belongs_to tenant_id m = true ->
  of_tenant tenant_id c (stopped m).
Proof.
  intros Hi Hm Hb. split; [by exists i|]. split; [|exact Hb].
  unfold is_managed, is_managed_with in *. rewrite !andb_true_iff in Hm |- *.
  destruct Hm as [[H1 H2] _]. split_and!; [exact H1|exact H2|reflexivity].
Qed.

Section lifecycle.
Context {Toml : Type} (to_json : Toml -> Res Value) (iter : nat -> gmap string string -> list (string * string)).
Context (raw : Res string) (parse : string -> Res (TenantTemplate Toml)) (path : string).
Context (api : Api) (show : Cause -> string) (client_app tenant_id label : string)
  (token : option string) (vars : gmap string string) (timeout : Z).

(** C9: A tenant that is created and deleted leaves no trace.  When the tenant had no
    machine before, the machines are exactly those before the creation, no other
    machine was cordoned, and every volume is as it was, those the creation made being gone; the one exception is a
    volume that was there before and that the template mounts by its id, which the
    deletion deletes with the tenant. *)
Theorem create_then_delete_leaves_no_trace timeout' c0 k0 ids k1 c1 k2 c2 :
  ApiOk api c0 -> NewIds api -> ListingOk api -> (forall m, ~ of_tenant tenant_id c0 m) ->
  run_create to_json iter raw parse path api show client_app tenant_id label token vars timeout false (k0, c0)
    = (Ok ids, (k1, c1)) ->
  delete_tenant api show tenant_id true timeout' (k1, c1) = (Ok tt, (k2, c2)) ->
  machines c2 = machines c0 /\ (forall i, i ∉ ids -> i ∈ cordoned_ids c2 <-> i ∈ cordoned_ids c0) /\
  forall v, cloud_volumes c2 !! v = cloud_volumes c0 !! v \/
    (cloud_volumes c2 !! v = None /\ is_Some (cloud_volumes c0 !! v) /\
     exists i m, i ∈ ids /\ machines c1 !! i = Some m /\ v ∈ mounted_volume_ids m).
Proof.
  intros Hapi Hids Hlist Hnone Hc Hd.
  pose proof (creation_made to_json iter raw parse path api show client_app tenant_id label token vars timeout c0
    Hapi Hids (k0, c0) eq_refl) as Hm. rewrite Hc in Hm. destruct Hm as [vs [(Hmk & Hm0 & Hvk & Hv0 & Hq) Hown Hmount]]. cbn in *.
  pose proof (delete_tenant_spec api show tenant_id c1 Hlist true timeout' (k1, c1) eq_refl) as Hs.
  pose proof (delete_survives api show tenant_id c1 true timeout' (k1, c1)) as Hsv. rewrite Hd in Hs, Hsv.
  specialize (Hsv ltac:(intros j; cbn; destruct (machines c1 !! j); [right; eauto|by left])).
  destruct Hs as ((Hom & Hov & Hoc) & [Hgm Hgv] & _). cbn in *.
  assert (Hmine : forall i m, i ∈ ids -> machines c1 !! i = Some m -> of_tenant tenant_id c1 m).
  { intros i m Hi Hi1. destruct (Hown i Hi) as (m' & Hm' & (H1 & H2 & _) & _). rewrite Hi1 in Hm'. injection Hm' as <-.
    split; [by exists i|done]. }
  assert (Hall : forall m, of_tenant tenant_id c1 m -> exists i, i ∈ ids /\ machines c1 !! i = Some m /\ id m = i).
  { intros m [(j & Hj) Hm]. destruct (decide (j ∈ ids)) as [Hin|Hin].
    - exists j. destruct (Hown j Hin) as (m' & Hm' & _ & Hid). split_and!; [done..|congruence].
    - rewrite Hmk in Hj by done. destruct (Hnone m). split; [by exists j|done]. }
  split_and!; [|intros i Hi; rewrite Hoc, Hq; [done|]; intros m Hm Hid;
    destruct (Hall m Hm) as (j & Hj & _ & Hidj); congruence|].
  - apply map_eq. intros i. destruct (decide (i ∈ ids)) as [Hi|Hi].
    + rewrite Hm0 by done. destruct (Hsv i) as [E|(m & Hm & E)]; [exact E|]. exfalso. destruct (Hmine i m Hi Hm) as (_ & Hman & Hbel).
      destruct E as [E|E]; [apply (Hgm m); split; [by exists i|done]|].
      apply (Hgm (stopped m)). by eapply stopped_of_tenant.
    + rewrite Hom; [by apply Hmk|]. intros m Hm Hid. destruct (Hall m Hm) as (j & Hj & _ & Hidj). congruence.
  - intros v. set (mine := omap (fun i => machines c1 !! i) ids).
    destruct (decide (v ∈ concat (map mounted_volume_ids mine))) as [Hv|Hv].
    + apply list_elem_of_In, in_concat in Hv as (l & (m & <- & Hm)%in_map_iff & Hl).
      apply list_elem_of_In, list_elem_of_omap in Hm as (i & Hi & Hm). apply list_elem_of_In in Hl.
      pose proof (Hgv m v (Hmine i m Hi Hm) Hl) as Hg. rewrite Hg.
      destruct (cloud_volumes c0 !! v) eqn:E0; [right|by left]. split_and!; eauto.
    + assert (Hno : forall i m, i ∈ ids -> machines c1 !! i = Some m -> v ∉ mounted_volume_ids m).
      { intros i m Hi Hm Hin. apply Hv, list_elem_of_In, in_concat. exists (mounted_volume_ids m).
        split; [|by apply list_elem_of_In]. apply in_map, list_elem_of_In, list_elem_of_omap. eauto. }
      left. rewrite Hov, Hvk; [done| |].
      * intros Hin. destruct (Hmount v Hin) as (i & m & Hi & Hm & Hvm). by apply (Hno i m).
      * intros m Hm. destruct (Hall m Hm) as (i & Hi & Hi1 & _). by eapply Hno.
Qed.
End lifecycle.

(** ** Witness: a second tenant comes and goes *)

Definition life_names : list string := ["v0"; "v1"; "n2"; "n3"].

Definition life_api : Api :=
  mkApi (fun k => match life_names !! k with Some new => Created new | None => CreateRefused [] end)
    (fun _ => Applied) (fun _ => Applied) (fun _ => Applied) (fun _ _ => Ok tt) (fun _ => None)
    (fun _ _ ms => map snd (map_to_list ms)) (fun _ vs => map_to_list vs)
    (fun new request => mkMachine new (req_name request) "started" (req_region request) (Some "v1") None None None None
                          (req_config request) VNull []).

Lemma life_name k new : create_reply life_api k = Created new -> life_names !! k = Some new.
Proof. cbn. destruct (life_names !! k); congruence. Qed.

Lemma life_api_ok : ApiOk life_api demo_cloud.
Proof.
  split; [|intros k new Hn%life_name|done|].
  - intros k new e. cbn. by destruct (life_names !! k).
  - do 4 (destruct k as [|k]; [injection Hn as <-; by vm_compute|]). done.
  - intros new request. split_and!; [done|done|]. intros [E|E]; discriminate.
Qed.

Lemma life_new_ids : NewIds life_api.
Proof.
  split; [intros j k new Hj%life_name Hk%life_name|intros k new Hn%life_name].
  - eapply NoDup_lookup; [|exact Hj|exact Hk]. apply (bool_decide_unpack _). by vm_compute.
  - do 4 (destruct k as [|k]; [injection Hn as <-; by vm_compute|]). done.
Qed.

Lemma life_listing_ok : ListingOk life_api.
Proof. destruct demo_delete_api_ok as [Hs Hc _]. split; [exact Hs|exact Hc|done]. Qed.

Lemma life_no_machine m : ~ of_tenant "blue" demo_cloud m.
Proof.
  intros [(i & Hi) [_ Hb]]. cbn in Hi. apply lookup_singleton_Some in Hi as [_ <-]. by vm_compute in Hb.
Qed.

Definition life_create : Res (list string) * Tenant.Sys :=
  run_create Ok (fun _ => map_to_list) (Ok "") (fun _ => Ok demo_template) "t.toml" life_api (fun _ => "")
    "vault" "blue" "t.toml" None {["img" := "vault:1"]} 1000 false (0%nat, demo_cloud).

Lemma create_then_delete_leaves_no_trace_witness :
  exists ids s1 s2, life_create = (Ok ids, s1) /\ length ids = 2%nat /\
    delete_tenant life_api (fun _ => "") "blue" true 1000 s1 = (Ok tt, s2) /\ machines s2.2 = machines demo_cloud.
Proof.
  destruct life_create as [r [k1 c1]] eqn:Ec.
  destruct (delete_tenant life_api (fun _ => "") "blue" true 1000 (k1, c1)) as [r2 [k2 c2]] eqn:Ed.
  assert (Hr : r = Ok ["n2"; "n3"] /\ r2 = Ok tt).
  { assert (H1 : fst life_create = Ok ["n2"; "n3"]) by (vm_compute; reflexivity).
    assert (H2 : fst (delete_tenant life_api (fun _ => "") "blue" true 1000 (snd life_create)) = Ok tt)
      by (vm_compute; reflexivity).
    rewrite Ec in H1, H2. unfold snd in H2. rewrite Ed in H2. split; [exact H1|exact H2]. }
  destruct Hr as [-> ->]. exists ["n2"; "n3"], (k1, c1), (k2, c2). split; [done|]. split; [done|].
  split; [exact Ed|].
  apply (create_then_delete_leaves_no_trace Ok (fun _ => map_to_list) (Ok "") (fun _ => Ok demo_template) "t.toml"
    life_api (fun _ => "") "vault" "blue" "t.toml" None _ 1000 1000 demo_cloud 0 ["n2"; "n3"] k1 c1 k2 c2
    life_api_ok life_new_ids life_listing_ok life_no_machine Ec Ed).
Defined.
