(* ===== verification/Listing.v ===== *)
(** * Listing tenants and usage facts ([crates/admin/src/tenant.rs])

    The summary of each tenant, the sorted usage facts, the tables, and the HTTP
    handler of the usage-facts server with its bearer token. *)

From Stdlib Require Import Sorting.Sorted.
From stdpp Require Import numbers sorting.
From S2P Require Import Prelude Text Machines Template Tenant.

(** ** Summaries *)

Record TenantMachine := mkRow {
  row_id : string;
  row_name : option string;
  row_state : string;
  row_region : option string;
  row_instance_id : option string;
  row_private_ip : option string;
  row_created_at : option string;
  row_updated_at : option string;
  row_image : option string;
  row_image_ref : option ImageRef;
  row_volumes : list string;
  row_usage_fact : MachineUsageFact;
  row_config : Value;
  row_checks : Value;
}.

Record TenantSummary := mkSummary {
  sum_tenant_id : string;
  total : nat;
  started : nat;
  stopped : nat;
  other : nat;
  regions : list string;
  sum_image : string;
  last_updated_at : option string;
  sum_machines : list TenantMachine;
}.

Definition in_state (s : string) (machine : Machine) : bool := bool_decide (state machine = s).

(** The digest of the image, or the image of the configuration. *)
Definition machine_image (machine : Machine) : option string :=
  or_else (image_ref machine ≫= digest) (config_image (config machine)).

(** [last_updated_at] after one more machine: the greatest string. *)
Definition later (current : option string) (machine : Machine) : option string :=
  match updated_at machine with
  | None => current
  | Some updated =>
      match current with
      | None => Some updated
      | Some c => if str_leb updated c then current else Some updated
      end
  end.

Section usage.
Context (format_event_timestamp : Z -> option string).

Definition tenant_machine (volume_sizes : gmap string Z) (machine : Machine) : TenantMachine :=
  let usage_fact := usage_fact_with_volume_sizes format_event_timestamp machine volume_sizes in
  mkRow (id machine) (name machine) (state machine) (region machine) (instance_id machine) (private_ip machine)
    (created_at machine) (updated_at machine) (machine_image machine) (image_ref machine)
    (map volume_id (volumes usage_fact)) usage_fact (config machine) (checks machine).

Definition row_leb (a b : TenantMachine) : bool := str_leb (row_id a) (row_id b).

Definition summarize_tenant (tenant_id : string) (machines : list Machine) (volume_sizes : gmap string Z) : TenantSummary :=
  let total := length machines in
  let started := length (List.filter (in_state "started") machines) in
  let stopped := length (List.filter (in_state "stopped") machines) in
  let images := sorted_set (omap machine_image machines) in
  let image := match images with
    | [] => "unknown"
    | [image] => image
    | _ => "drift(" +:+ pretty (length images) +:+ ")"
    end in
  mkSummary tenant_id total started stopped (total - (started + stopped)) (sorted_set (omap region machines)) image
    (fold_left later machines None) (sort_by row_leb (map (tenant_machine volume_sizes) machines)).

(** A machine joins the group of its tenant, in a map ordered by tenant. *)
Fixpoint push_group (tenant : string) (machine : Machine) (groups : list (string * list Machine)) :
    list (string * list Machine) :=
  match groups with
  | [] => [(tenant, [machine])]
  | (t, ms) :: rest =>
      if bool_decide (t = tenant) then (t, ms ++ [machine]) :: rest
      else if str_leb tenant t then (tenant, [machine]) :: (t, ms) :: rest
      else (t, ms) :: push_group tenant machine rest
  end.

Definition add_to_group (groups : list (string * list Machine)) (machine : Machine) : list (string * list Machine) :=
  match metadata machine !! TENANT_ID_KEY with
  | Some tenant => push_group tenant machine groups
  | None => groups
  end.

Definition group_machines_by_tenant (machines : list Machine) (volume_sizes : gmap string Z) : list TenantSummary :=
  map (fun '(tenant_id, machines) => summarize_tenant tenant_id machines volume_sizes)
    (fold_left add_to_group machines []).

(** ** Usage facts *)

Definition fact_leb (a b : MachineUsageFact) : bool := str_leb (fact_machine_id a) (fact_machine_id b).

Definition usage_facts_from_machines (machines : list Machine) (volume_sizes : gmap string Z) : list MachineUsageFact :=
  sort_by fact_leb (map (fun machine => usage_fact_with_volume_sizes format_event_timestamp machine volume_sizes) machines).

Definition list_usage_facts (api : Api) (tenant_filter : option string) : M Sys (list MachineUsageFact) :=
  volume_sizes ← list_volume_sizes api;
  machines ← list_managed_machines_with_options api tenant_filter true;
  mret (usage_facts_from_machines machines volume_sizes).

Definition list_tenants (api : Api) (tenant : option string) : M Sys (list TenantSummary) :=
  machines ← list_managed_machines api tenant;
  volume_sizes ← list_volume_sizes api;
  mret (group_machines_by_tenant machines volume_sizes).

(** ** The usage-facts server *)

(** The [Authorization] header: its bytes, when they are a visible string. *)
Record HttpRequest := mkHttpRequest {
  method : string;
  path : string;
  authorization : option (option string);
}.

Inductive HttpResponse :=
| OkText (body : string)
| UsageFacts (facts : list MachineUsageFact)
| JsonError (status : Z) (message : string).

Definition is_usage_facts_authorized (req : HttpRequest) (bearer_token : option string) : bool :=
  match bearer_token ≫= trimmed_nonempty with
  | None => true
  | Some expected =>
      match authorization req with
      | Some (Some header_value) =>
          match strip_prefix "Bearer " header_value with
          | Some token => bool_decide (trim token = expected)
          | None => false
          end
      | _ => false
      end
  end.

Definition usage_facts_http_handler (show : Cause -> string) (api : Api) (tenant bearer_token : option string)
    (req : HttpRequest) : M Sys HttpResponse :=
  if negb (is_usage_facts_authorized req bearer_token) then mret (JsonError 401 "unauthorized")
  else if bool_decide (method req = "GET") && bool_decide (path req = "/healthz") then mret (OkText "ok")
  else if bool_decide (method req = "GET") && bool_decide (path req = "/usage-facts") then
    r ← mtry (list_usage_facts api tenant);
    match r with
    | Ok facts => mret (UsageFacts facts)
    | Err error => mret (JsonError 500 (display_error show error))
    | Panic => mlift Panic
    end
  else mret (JsonError 404 "not found").
End usage.

(** ** Tables *)

Definition ellipsis : list byte := [xe2; x80; xa6].

Definition truncate (value : string) (width : nat) : string :=
  if (length (chars value) <=? width)%nat then value
  else if (width <=? 1)%nat then from_chars (take width (chars value))
  else from_chars (take (width - 1) (chars value) ++ [ellipsis]).

(** ** Lemmas *)

(** The groups hold the machines of their tenant, in a strictly sorted list. *)
Definition GroupsOk (seen : list Machine) (groups : list (string * list Machine)) : Prop :=
  NoDup (map fst groups) /\ StronglySorted (fun a b => str_leb a b = true) (map fst groups) /\
  (forall t ms, (t, ms) ∈ groups -> ms = List.filter (belongs_to t) seen /\ ms <> []) /\
  (forall m t, m ∈ seen -> metadata m !! TENANT_ID_KEY = Some t -> t ∈ map fst groups).

Lemma push_group_keys tenant machine groups k :
  k ∈ map fst (push_group tenant machine groups) <-> k = tenant \/ k ∈ map fst groups.
Proof.
  induction groups as [|[t ms] groups IH]; cbn; [by rewrite list_elem_of_singleton; split; [left|intros [|Hk]; [|inversion Hk]]|].
  case_bool_decide as E; [|destruct (str_leb tenant t)]; cbn; rewrite ?elem_of_cons, ?IH; [|tauto..]. subst. tauto.
Qed.

Lemma push_group_sorted tenant machine groups :
  NoDup (map fst groups) -> StronglySorted (fun a b => str_leb a b = true) (map fst groups) ->
  NoDup (map fst (push_group tenant machine groups)) /\
  StronglySorted (fun a b => str_leb a b = true) (map fst (push_group tenant machine groups)).
Proof.
  induction groups as [|[t ms] groups IH]; intros Hn Hso; cbn.
  - split; [apply NoDup_singleton|repeat constructor].
  - cbn in Hn, Hso. apply NoDup_cons in Hn as [Hk Hn]. inversion Hso as [|? ? Hso1 Hall]; subst.
    destruct (IH Hn Hso1) as [Hn1 Hs1]. rewrite Forall_forall in Hall.
    case_bool_decide as Et; [|destruct (str_leb tenant t) eqn:El]; cbn.
    + split; [by apply NoDup_cons|constructor; [done|by apply Forall_forall]].
    + split.
      * repeat (apply NoDup_cons; split); try done. intros [E|Hin]%elem_of_cons; [by destruct Et|].
        destruct Et. apply str_leb_antisym; [by apply Hall|done].
      * constructor; [by constructor; [|apply Forall_forall]|]. apply Forall_forall.
        intros k [->|Hin]%elem_of_cons; [done|]. eapply str_leb_trans; [exact El|by apply Hall].
    + split.
      * apply NoDup_cons. split; [|done]. rewrite push_group_keys. intros [E|Hin]; [by destruct Et|done].
      * constructor; [done|]. apply Forall_forall. intros k [->|Hin]%push_group_keys; [|by apply Hall].
        destruct (str_leb_total tenant t); congruence.
Qed.

Lemma push_group_elem tenant machine groups t ms :
  NoDup (map fst groups) -> StronglySorted (fun a b => str_leb a b = true) (map fst groups) ->
  (t, ms) ∈ push_group tenant machine groups ->
  (t = tenant /\ exists ms', ms = ms' ++ [machine] /\ ((t, ms') ∈ groups \/ (ms' = [] /\ t ∉ map fst groups))) \/
  (t <> tenant /\ (t, ms) ∈ groups).
Proof.
  induction groups as [|[t' ms'] groups IH]; intros Hn Hso Hin; cbn in Hin.
  - apply list_elem_of_singleton in Hin as [= -> ->]. left. split; [done|]. exists []. split; [done|]. right.
    split; [done|]. intros Hk. inversion Hk.
  - cbn in Hn, Hso |- *. apply NoDup_cons in Hn as [Hk Hn]. inversion Hso as [|? ? Hso1 Hall]; subst.
    rewrite Forall_forall in Hall.
    assert (Hkey : forall x l, (x, l) ∈ groups -> x ∈ map fst groups)
      by (intros x l Hx; change x with (fst (x, l)); by apply (list_elem_of_fmap_2 fst)).
    case_bool_decide as E; [|destruct (str_leb tenant t') eqn:El].
    + subst t'. apply elem_of_cons in Hin as [[= -> ->]|Hin].
      * left. split; [done|]. exists ms'. split; [done|]. left. by left.
      * right. split; [|by right]. intros ->. by eapply Hk, Hkey.
    + assert (Hnew : tenant ∉ t' :: map fst groups).
      { intros [Eq|Hx]%elem_of_cons; [by destruct E|]. destruct E. apply str_leb_antisym; [by apply Hall|done]. }
      apply elem_of_cons in Hin as [[= -> ->]|Hin].
      * left. split; [done|]. exists []. split; [done|]. by right.
      * right. split; [|done]. intros ->. apply Hnew. apply elem_of_cons in Hin as [[= -> _]|Hin]; [by left|].
        right. by eapply Hkey.
    + apply elem_of_cons in Hin as [[= -> ->]|Hin]; [right; split; [done|by left]|].
      destruct (IH Hn Hso1 Hin) as [(-> & l & -> & [Hl|[-> Hl]])|[Hne Hl]].
      * left. split; [done|]. exists l. split; [done|]. left. by right.
      * left. split; [done|]. exists []. split; [done|]. right. split; [done|].
        intros [Eq|Hx]%elem_of_cons; [by destruct E|done].
      * right. split; [done|by right].
Qed.

Lemma filter_belongs_app t seen m :
  List.filter (belongs_to t) (seen ++ [m]) =
  List.filter (belongs_to t) seen ++ (if belongs_to t m then [m] else []).
Proof. rewrite List.filter_app. done. Qed.

Lemma add_to_group_ok seen groups m :
  GroupsOk seen groups -> GroupsOk (seen ++ [m]) (add_to_group groups m).
Proof.
  intros (Hn & Hso & Hg & Hs). unfold add_to_group. destruct (metadata m !! TENANT_ID_KEY) as [tenant|] eqn:Et.
  - destruct (push_group_sorted tenant m groups Hn Hso) as [Hn1 Hs1]. split_and!; [done..| |].
    + intros t ms Hin. rewrite filter_belongs_app. unfold belongs_to at 2. rewrite Et.
      apply push_group_elem in Hin as [(-> & ms' & -> & [Hin|[-> Hk]])|[Hne Hin]]; [..|done|done].
      * rewrite bool_decide_true by done. destruct (Hg _ _ Hin) as [<- _]. split; [done|]. by destruct ms'.
      * rewrite bool_decide_true by done. split; [|done].
        assert (Hf : List.filter (belongs_to tenant) seen = []); [|by rewrite Hf].
        destruct (List.filter (belongs_to tenant) seen) as [|x l] eqn:Ef; [done|]. exfalso. apply Hk.
        assert (Hx : In x (List.filter (belongs_to tenant) seen)) by (rewrite Ef; by left).
        apply filter_In in Hx as [Hx Hb]. apply bool_decide_eq_true in Hb. eapply Hs; [|exact Hb].
        by apply list_elem_of_In.
      * rewrite bool_decide_false by congruence. rewrite app_nil_r. by apply Hg.
    + intros m' t [Hin|Hin]%elem_of_app Ht; apply push_group_keys; [right; by eapply Hs|].
      apply list_elem_of_singleton in Hin as ->. left. congruence.
  - split_and!; [done..| |].
    + intros t ms Hin. rewrite filter_belongs_app. unfold belongs_to at 2. rewrite Et, bool_decide_false by done.
      rewrite app_nil_r. by apply Hg.
    + intros m' t [Hin|Hin]%elem_of_app Ht; [by eapply Hs|]. apply list_elem_of_singleton in Hin as ->. congruence.
Qed.

Lemma groups_ok machines : GroupsOk machines (fold_left add_to_group machines []).
Proof.
  assert (Hgen : forall l seen groups, GroupsOk seen groups -> GroupsOk (seen ++ l) (fold_left add_to_group l groups)).
  { induction l as [|m l IH]; intros seen groups Hg; cbn; [by rewrite app_nil_r|].
    change (m :: l) with ([m] ++ l). rewrite app_assoc. apply IH, add_to_group_ok, Hg. }
  apply (Hgen machines [] []). split; [constructor|]. split; [constructor|].
  split; [intros t ms Hin|intros m t Hin]; inversion Hin.
Qed.

Section usage_facts.
Context (format_event_timestamp : Z -> option string).

(** The summaries of the tenants partition the machines listed: the tenants are
    in strict order, each has the rows of exactly its machines in the order of
    their ids, its counts add up, and every machine with a tenant is in one. *)
Theorem summaries_partition_the_machines machines volume_sizes :
  let summaries := group_machines_by_tenant format_event_timestamp machines volume_sizes in
  NoDup (map sum_tenant_id summaries) /\
  StronglySorted (fun a b => str_leb a b = true) (map sum_tenant_id summaries) /\
  (forall s, s ∈ summaries ->
     let members := List.filter (belongs_to (sum_tenant_id s)) machines in
     sum_machines s ≡ₚ map (tenant_machine format_event_timestamp volume_sizes) members /\
     StronglySorted (fun a b => row_leb a b = true) (sum_machines s) /\
     total s = length members /\ total s = (started s + stopped s + other s)%nat /\ (0 < total s)%nat) /\
  (forall m t, m ∈ machines -> metadata m !! TENANT_ID_KEY = Some t -> t ∈ map sum_tenant_id summaries).
Proof.
  intros summaries. destruct (groups_ok machines) as (Hn & Hso & Hg & Hs).
  assert (Hkeys : map sum_tenant_id summaries = map fst (fold_left add_to_group machines [])).
  { unfold summaries, group_machines_by_tenant. rewrite map_map. apply map_ext. by intros [t ms]. }
  rewrite !Hkeys. split_and!; [done..| |done].
  intros s Hin. unfold summaries, group_machines_by_tenant in Hin.
  apply list_elem_of_fmap in Hin as ([t ms] & -> & Hin). destruct (Hg t ms Hin) as [Hms Hne].
  unfold summarize_tenant. cbn. rewrite <- Hms. split_and!.
  - apply sort_by_perm.
  - apply sort_by_sorted.
    + intros x y. apply str_leb_total.
    + intros x y z. apply str_leb_trans.
  - done.
  - assert (Hle : (length (List.filter (in_state "started") ms) + length (List.filter (in_state "stopped") ms) <= length ms)%nat); [|lia].
    clear. unfold in_state. induction ms as [|m ms IH]; [done|]. cbn.
    destruct (bool_decide_reflect (state m = "started")) as [E|E]; cbn.
    + rewrite bool_decide_false by congruence. cbn. lia.
    + destruct (bool_decide (state m = "stopped")); cbn; lia.
  - destruct ms; [done|]. cbn. lia.
Qed.

(** The request carries the configured token, after trimming, or no token that is
    not blank is configured. *)
Definition carries_token (req : HttpRequest) (bearer_token : option string) : Prop :=
  bearer_token ≫= trimmed_nonempty = None \/
  exists expected token, bearer_token ≫= trimmed_nonempty = Some expected /\
    authorization req = Some (Some ("Bearer " +:+ token)) /\ trim token = expected.

Lemma strip_bytes_Some pat bs rest : strip_bytes pat bs = Some rest <-> bs = pat ++ rest.
Proof.
  split; [|intros ->; apply strip_bytes_app]. revert bs. induction pat as [|p pat IH]; intros bs Hs; cbn in Hs; [by injection Hs as ->|].
  destruct bs as [|b bs]; [done|]. case_bool_decide; [|done]. subst. cbn. f_equal. by apply IH.
Qed.

Lemma strip_prefix_Some pat s rest : strip_prefix pat s = Some rest <-> s = pat +:+ rest.
Proof.
  unfold strip_prefix. split.
  - intros (bs & Hs & ->)%fmap_Some. apply strip_bytes_Some in Hs.
    apply as_bytes_inj. by rewrite as_bytes_app, as_bytes_from_bytes.
  - intros ->. rewrite as_bytes_app, strip_bytes_app. cbn. by rewrite from_bytes_as_bytes.
Qed.

Lemma authorized_iff req bearer_token :
  is_usage_facts_authorized req bearer_token = true <-> carries_token req bearer_token.
Proof.
  unfold is_usage_facts_authorized, carries_token.
  destruct (bearer_token ≫= trimmed_nonempty) as [expected|]; [|by split; [left|]]. split.
  - intros Ha. right. destruct (authorization req) as [[header|]|]; [|done..].
    destruct (strip_prefix "Bearer " header) as [token|] eqn:Et; [|done].
    apply strip_prefix_Some in Et as ->. apply bool_decide_eq_true in Ha. eauto.
  - intros [?|(x & token & [= <-] & -> & Ht)]; [done|].
    rewrite (proj2 (strip_prefix_Some "Bearer " _ token)) by done. by apply bool_decide_eq_true.
Qed.

(** A request without the configured bearer token gets 401 and calls nothing;
    the machines' facts are only given to a request that carries it. *)
Theorem usage_facts_need_the_token show api tenant bearer_token req s :
  (~ carries_token req bearer_token ->
     usage_facts_http_handler format_event_timestamp show api tenant bearer_token req s
       = (Ok (JsonError 401 "unauthorized"), s)) /\
  (forall facts s', usage_facts_http_handler format_event_timestamp show api tenant bearer_token req s
       = (Ok (UsageFacts facts), s') -> carries_token req bearer_token).
Proof.
  pose proof (authorized_iff req bearer_token) as Hi. unfold usage_facts_http_handler.
  destruct (is_usage_facts_authorized req bearer_token).
  - split; [|intros facts s' _; by apply Hi]. intros Hn. destruct Hn. by apply Hi.
  - split; [done|]. intros facts s' Hr. by injection Hr.
Qed.
End usage_facts.
