(* ===== verification/Reports.v ===== *)
(** * What the admin tool shows ([crates/admin/src/tenant.rs], [machines.rs])

    The JSON of summaries and usage facts, the tables, what [tenant list] and
    [tenant usage-facts] print, and the usage-facts server as a transition system
    around the handler of [Listing].  [serde_json]'s printers are parameters. *)

From Stdlib Require Import Sorting.Sorted.
From stdpp Require Import numbers sorting.
From S2P Require Import Prelude Text Machines Template Tenant TenantDelete Listing.
From S2P Require MachinesApi.

Abbreviation field := MachinesApi.field.
Abbreviation number := MachinesApi.number.

(** ** JSON *)

(** An [Option] that is serialized when it is [None] too. *)
Definition nullable {A} (f : A -> Value) (x : option A) : Value := match x with Some a => f a | None => VNull end.

Definition MountedVolumeFact_json (v : MountedVolumeFact) : Value :=
  VObject (("volume_id", VString (volume_id v)) :: field "name" VString (volume_name v) ++
    field "mount_path" VString (mount_path v) ++ [("size_gib", number (size_gib v))]).

Section json.
(** The order in which a [HashMap] is iterated over. *)
Context (iter : gmap string string -> list (string * string)).

Definition metadata_json (m : gmap string string) : Value := VObject (map (fun '(k, v) => (k, VString v)) (iter m)).

(** [skip_serializing_if = "HashMap::is_empty"] and ["Vec::is_empty"]. *)
Definition nonempty_field {A} (key : string) (l : list A) (v : Value) : list (string * Value) :=
  match l with [] => [] | _ => [(key, v)] end.

Definition MachineUsageFact_json (f : MachineUsageFact) : Value :=
  VObject ([("machine_id", VString (fact_machine_id f)); ("state", VString (fact_state f))] ++
    field "region" VString (fact_region f) ++ field "instance_id" VString (fact_instance_id f) ++
    field "started_at" VString (started_at f) ++ field "stopped_at" VString (stopped_at f) ++
    field "deleted_at" VString (deleted_at f) ++ field "created_at" VString (fact_created_at f) ++
    field "updated_at" VString (fact_updated_at f) ++
    nonempty_field "metadata" (iter (fact_metadata f)) (metadata_json (fact_metadata f)) ++
    nonempty_field "volumes" (volumes f) (VArray (map MountedVolumeFact_json (volumes f)))).

Definition ImageRef_json (r : ImageRef) : Value :=
  VObject [("repository", nullable VString (repository r)); ("tag", nullable VString (tag r));
    ("digest", nullable VString (digest r))].

(** [skip_serializing_if = "Value::is_null"]. *)
Definition unless_null (key : string) (v : Value) : list (string * Value) :=
  match v with VNull => [] | _ => [(key, v)] end.

Definition TenantMachine_json (m : TenantMachine) : Value :=
  VObject ([("id", VString (row_id m))] ++ field "name" VString (row_name m) ++
    [("state", VString (row_state m)); ("region", nullable VString (row_region m));
     ("instance_id", nullable VString (row_instance_id m))] ++
    field "private_ip" VString (row_private_ip m) ++ field "created_at" VString (row_created_at m) ++
    [("updated_at", nullable VString (row_updated_at m)); ("image", nullable VString (row_image m))] ++
    field "image_ref" ImageRef_json (row_image_ref m) ++
    [("volumes", VArray (map VString (row_volumes m))); ("usage_fact", MachineUsageFact_json (row_usage_fact m));
     ("config", row_config m)] ++
    unless_null "checks" (row_checks m)).

Definition TenantSummary_json (s : TenantSummary) : Value :=
  VObject [("tenant_id", VString (sum_tenant_id s)); ("total", number (Z.of_nat (total s)));
    ("started", number (Z.of_nat (started s))); ("stopped", number (Z.of_nat (stopped s)));
    ("other", number (Z.of_nat (other s))); ("regions", VArray (map VString (regions s)));
    ("image", VString (sum_image s)); ("last_updated_at", nullable VString (last_updated_at s));
    ("machines", VArray (map TenantMachine_json (sum_machines s)))].
End json.

(** *** Reading facts back

    The derived [Deserialize], of an object ([serde] also reads an array by position):
    a missing or null [Option] is [None], a field with
    [default] may be missing, other fields may not, unknown ones are ignored. *)

Definition opt_string (key : string) (fields : list (string * Value)) : option (option string) :=
  match obj_get key fields with
  | None | Some VNull => Some None
  | Some (VString s) => Some (Some s)
  | Some _ => None
  end.

Definition req_string (key : string) (fields : list (string * Value)) : option string := obj_get key fields ≫= as_str.

Definition u32_of (v : Value) : option Z :=
  match v with VNumber (PosInt n) => if n <? 2 ^ 32 then Some n else None | _ => None end.

Definition MountedVolumeFact_of_json (v : Value) : option MountedVolumeFact :=
  fields ← as_object v;
  volume_id ← req_string "volume_id" fields;
  name ← opt_string "name" fields;
  mount_path ← opt_string "mount_path" fields;
  size_gib ← obj_get "size_gib" fields ≫= u32_of;
  Some (mkVolumeFact volume_id name mount_path size_gib).

Definition metadata_of_json (v : Value) : option (gmap string string) :=
  fields ← as_object v;
  pairs ← mapM (fun '(k, v) => s ← as_str v; Some (k, s)) fields;
  Some (list_to_map (rev pairs)).

Definition defaulted {A} (key : string) (dflt : A) (f : Value -> option A) (fields : list (string * Value)) : option A :=
  match obj_get key fields with None => Some dflt | Some v => f v end.

Definition MachineUsageFact_of_json (v : Value) : option MachineUsageFact :=
  fields ← as_object v;
  machine_id ← req_string "machine_id" fields;
  state ← req_string "state" fields;
  region ← opt_string "region" fields;
  instance_id ← opt_string "instance_id" fields;
  started_at ← opt_string "started_at" fields;
  stopped_at ← opt_string "stopped_at" fields;
  deleted_at ← opt_string "deleted_at" fields;
  created_at ← opt_string "created_at" fields;
  updated_at ← opt_string "updated_at" fields;
  metadata ← defaulted "metadata" ∅ metadata_of_json fields;
  volumes ← defaulted "volumes" [] (fun v => items ← as_array v; mapM MountedVolumeFact_of_json items) fields;
  Some (mkUsageFact machine_id state region instance_id started_at stopped_at deleted_at created_at updated_at
    metadata volumes).

(** ** Tables *)

(** [{:<width}]: the width counts characters. *)
Definition pad (width : nat) (s : string) : string :=
  s +:+ from_bytes_unchecked (replicate (width - length (chars s)) x20).

Definition table_row (cells : list (nat * string)) : string :=
  String.concat " " (map (fun '(width, s) => pad width s) cells).

Definition dash_if_empty (l : list string) : string := match l with [] => "-" | _ => String.concat "," l end.

(** The lines printed. *)
Definition print_summary (tenants : list TenantSummary) : list string :=
  match tenants with
  | [] => ["no managed tenants found"]
  | _ =>
      [table_row [(24%nat, "TENANT"); (12%nat, "MACHINES"); (16%nat, "REGIONS"); (20%nat, "IMAGE"); (26%nat, "LAST UPDATED")]] ++
      map (fun tenant =>
        let machines := pretty (total tenant) +:+ "/" +:+ pretty (started tenant) +:+ "/" +:+ pretty (stopped tenant) in
        table_row [(24%nat, sum_tenant_id tenant); (12%nat, machines); (16%nat, dash_if_empty (regions tenant));
          (20%nat, truncate (sum_image tenant) 20); (26%nat, default "-" (last_updated_at tenant))]) tenants ++
      ["machines: total/started/stopped"]
  end.

Definition print_wide (tenants : list TenantSummary) : list string :=
  match tenants with
  | [] => ["no managed tenants found"]
  | _ =>
      [table_row [(24%nat, "TENANT"); (18%nat, "MACHINE"); (10%nat, "STATE"); (8%nat, "REGION"); (22%nat, "IMAGE"); (18%nat, "VOLUMES")]] ++
      concat (map (fun tenant =>
        map (fun machine =>
          table_row [(24%nat, sum_tenant_id tenant); (18%nat, row_id machine); (10%nat, row_state machine);
            (8%nat, default "-" (row_region machine)); (22%nat, truncate (default "-" (row_image machine)) 22);
            (18%nat, truncate (dash_if_empty (row_volumes machine)) 18)])
          (sum_machines tenant)) tenants)
  end.

(** ** The commands *)

Section reports.
Context (format_event_timestamp : Z -> option string) (iter : gmap string string -> list (string * string)).
Context (to_string_pretty : Value -> Res string) (to_vec : Value -> Res (list byte)).
Context (show : Cause -> string) (api : Api).

(** [list_tenants] with what it prints. *)
Definition print_tenants (tenant : option string) (wide as_json : bool) : M Sys (list string) :=
  grouped ← list_tenants format_event_timestamp api tenant;
  if as_json then
    text ← mlift (with_context "serialize tenant list json"
                    (to_string_pretty (VArray (map (TenantSummary_json iter) grouped))));
    mret [text]
  else mret (if wide : bool then print_wide grouped else print_summary grouped).

Definition facts_json (facts : list MachineUsageFact) : Value := VArray (map (MachineUsageFact_json iter) facts).

Definition print_usage_facts (tenant : option string) : M Sys (list string) :=
  facts ← list_usage_facts format_event_timestamp api tenant;
  text ← mlift (with_context "serialize usage facts json" (to_string_pretty (facts_json facts)));
  mret [text].

(** *** The answers of the server *)

(** An answer on the wire: status, content type and body. *)
Record WireResponse := mkWire {
  wire_status : Z;
  content_type : option string;
  wire_body : list byte;
}.

(** A string in quotes. *)
Definition quoted (s : string) : list byte := x22 :: as_bytes s ++ [x22].
Definition serialization_failed : list byte :=
  as_bytes "{" ++ quoted "error" ++ as_bytes ":" ++ quoted "serialization failed" ++ as_bytes "}".

Definition json_response (status : Z) (body : Value) : WireResponse :=
  mkWire status (Some "application/json")
    (match to_vec body with Ok payload => payload | _ => serialization_failed end).

Definition wire_response (r : HttpResponse) : WireResponse :=
  match r with
  | OkText body => mkWire 200 None (as_bytes body)
  | UsageFacts facts => json_response 200 (facts_json facts)
  | JsonError status message => json_response status (VObject [("error", VString message)])
  end.

(** [serve_usage_facts] up to the accept loop; [parse] of a socket address. *)
Definition serve_usage_facts (parse : string -> Res string) (bind : Res unit) (listen : string) : Res string :=
  addr ← with_context ("parse listen address '" +:+ listen +:+ "'") (parse listen);
  _ ← with_context ("bind usage-facts listener on " +:+ addr) bind;
  Ok addr.

(** *** The server *)

(** The connections accepted, and every request with its answer. *)
Record Server := mkServer {
  accepted : nat;
  exchanges : list (HttpRequest * HttpResponse * WireResponse);
  server_sys : Sys;
}.

Section server.
Context (tenant bearer_token : option string).

Abbreviation handler := (usage_facts_http_handler format_event_timestamp show api tenant bearer_token).

(** [serve_usage_facts_with_shutdown]: a connection is accepted and served by a task
    of its own, in any order with the others; the shutdown never comes, since the
    sender lives as long as the loop.  Other tools change the app meanwhile. *)
Inductive serve_step : Server -> Server -> Prop :=
| serve_accept s : serve_step s (mkServer (S (accepted s)) (exchanges s) (server_sys s))
| serve_request s connection req resp sys' :
    (connection < accepted s)%nat -> handler req (server_sys s) = (Ok resp, sys') ->
    serve_step s (mkServer (accepted s) (exchanges s ++ [(req, resp, wire_response resp)]) sys')
| serve_elsewhere s c : serve_step s (mkServer (accepted s) (exchanges s) ((server_sys s).1, c)).

Inductive server_reachable (sys : Sys) : Server -> Prop :=
| server_init : server_reachable sys (mkServer 0 [] sys)
| server_more s s' : server_reachable sys s -> serve_step s s' -> server_reachable sys s'.
End server.

(** ** Lemmas *)

Lemma list_machines_cloud query s : snd (snd (list_machines api query s)) = snd s.
Proof. destruct s as [k c]. unfold list_machines, numbered. by destruct (list_error api k). Qed.

Lemma list_volumes_cloud s : snd (snd (list_volumes api s)) = snd s.
Proof. destruct s as [k c]. unfold list_volumes, numbered. by destruct (list_error api k). Qed.

(** The app is what it was. *)
Definition Same (c : Cloud) (s : Sys) : Prop := snd s = c.

Lemma same_list_machines c query : keeps (Same c) (list_machines api query).
Proof. intros s Hs. unfold Same. by rewrite list_machines_cloud. Qed.

Lemma same_list_volumes c : keeps (Same c) (list_volumes api).
Proof. intros s Hs. unfold Same. by rewrite list_volumes_cloud. Qed.
Hint Resolve same_list_machines same_list_volumes : keeps.

Lemma same_managed c tenant include : keeps (Same c) (list_managed_machines_with_options api tenant include).
Proof. unfold list_managed_machines_with_options. keeps_code. Qed.

Lemma same_sizes c : keeps (Same c) (list_volume_sizes api).
Proof. unfold list_volume_sizes. keeps_code. Qed.
Hint Resolve same_managed same_sizes : keeps.

Lemma same_facts c tenant : keeps (Same c) (list_usage_facts format_event_timestamp api tenant).
Proof. unfold list_usage_facts. keeps_code. Qed.

Lemma same_tenants c tenant : keeps (Same c) (list_tenants format_event_timestamp api tenant).
Proof. unfold list_tenants, list_managed_machines. keeps_code. Qed.
Hint Resolve same_facts same_tenants : keeps.

Lemma same_handler c tenant bearer req : keeps (Same c) (usage_facts_http_handler format_event_timestamp show api tenant bearer req).
Proof. unfold usage_facts_http_handler. keeps_code. Qed.

Lemma same_print_tenants c tenant wide as_json : keeps (Same c) (print_tenants tenant wide as_json).
Proof. unfold print_tenants. keeps_code. Qed.

Lemma same_print_facts c tenant : keeps (Same c) (print_usage_facts tenant).
Proof. unfold print_usage_facts. keeps_code. Qed.

(** The facts listed are those of managed machines of the tenant. *)
Definition fact_of (tenant : option string) (f : MachineUsageFact) : Prop :=
  fact_metadata f !! MANAGED_BY_KEY = Some MANAGED_BY_VALUE /\
  forall t, tenant = Some t -> fact_metadata f !! TENANT_ID_KEY = Some t.

Lemma usage_fact_fields m sizes :
  let f := usage_fact_with_volume_sizes format_event_timestamp m sizes in
  fact_metadata f = metadata m /\ fact_machine_id f = id m.
Proof. cbn. unfold usage_fact_with_volume_sizes. by destruct (lifecycle_usage_timestamps _ m) as [[??]?]. Qed.

Lemma listed_facts tenant s facts s' :
  list_usage_facts format_event_timestamp api tenant s = (Ok facts, s') ->
  Forall (fact_of tenant) facts /\ StronglySorted (fun a b => fact_leb a b = true) facts.
Proof.
  unfold list_usage_facts. intros H.
  apply mbind_run in H as [(sizes & s1 & _ & H)|(x & _ & _ & Hr)]; [|done].
  apply mbind_run in H as [(ms & s2 & Hms & H)|(x & _ & _ & Hr)]; [|done]. injection H as <- _. split.
  - unfold list_managed_machines_with_options in Hms.
    apply mbind_run in Hms as [(l & s3 & _ & Hms)|(x & _ & _ & Hr)]; [|done]. injection Hms as <- _.
    apply Forall_forall. intros f Hf. unfold usage_facts_from_machines in Hf.
    rewrite sort_by_perm in Hf. apply list_elem_of_fmap in Hf as (m & -> & Hm).
    destruct (usage_fact_fields m sizes) as [Em _]. unfold fact_of. rewrite Em.
    assert (Hin : m ∈ List.filter (is_managed_with true) l /\
      forall t, tenant = Some t -> metadata m !! TENANT_ID_KEY = Some t).
    { destruct tenant as [t|]; [|split; [done|by intros]].
      apply list_elem_of_In, filter_In in Hm as [Hm Hb]. apply list_elem_of_In in Hm. split; [done|].
      intros t' [= <-]. by apply bool_decide_eq_true in Hb. }
    destruct Hin as [Hin Ht]. split; [|done].
    apply list_elem_of_In, filter_In in Hin as [_ Hin]. unfold is_managed_with in Hin.
    apply andb_prop in Hin as [Hin _]. apply andb_prop in Hin as [Hin _]. by apply bool_decide_eq_true in Hin.
  - apply sort_by_sorted.
    + intros x y. apply str_leb_total.
    + intros x y z. apply str_leb_trans.
Qed.

(** What an exchange has to do with the token and the tenant. *)
Definition exchange_ok (tenant bearer_token : option string) (e : HttpRequest * HttpResponse * WireResponse) : Prop :=
  let '(req, resp, wire) := e in
  (~ carries_token req bearer_token ->
     wire = json_response 401 (VObject [("error", VString "unauthorized")])) /\
  (forall facts, resp = UsageFacts facts ->
     carries_token req bearer_token /\ wire = json_response 200 (facts_json facts) /\
     Forall (fact_of tenant) facts /\ StronglySorted (fun a b => fact_leb a b = true) facts).

Lemma handler_exchange tenant bearer req s resp s' :
  usage_facts_http_handler format_event_timestamp show api tenant bearer req s = (Ok resp, s') ->
  exchange_ok tenant bearer (req, resp, wire_response resp).
Proof.
  intros H. destruct (usage_facts_need_the_token format_event_timestamp show api tenant bearer req s) as [Hno Hyes]. split.
  - intros Ha. rewrite (Hno Ha) in H. by injection H as <- _.
  - intros facts ->. split; [by eapply Hyes|]. unfold usage_facts_http_handler in H.
    destruct (is_usage_facts_authorized req bearer); [|done]. cbn in H.
    destruct (bool_decide (method req = "GET") && bool_decide (path req = "/healthz")); [done|].
    destruct (bool_decide (method req = "GET") && bool_decide (path req = "/usage-facts")); [|done].
    split; [done|]. unfold mbind, M_bind, mbind_st, mtry in H.
    destruct (list_usage_facts format_event_timestamp api tenant s) as [[fs|e|] s1] eqn:El; [|done..].
    injection H as <- _. by apply listed_facts in El.
Qed.

(** C18: The usage-facts server tells nothing to who does not have the token, and
    changes nothing.  Whatever requests come on however many connections, and
    whatever other tools do to the app meanwhile: a request without the configured
    bearer token gets the same answer to the byte, facts go only to requests that
    carry it, they are those of managed machines, of the configured tenant when
    there is one, in the order of the machine ids; and no request changes the app. *)
Theorem usage_server_tells_only_the_authorized tenant bearer_token sys s :
  server_reachable tenant bearer_token sys s ->
  Forall (exchange_ok tenant bearer_token) (exchanges s) /\
  (forall s', serve_step tenant bearer_token s s' ->
     length (exchanges s') <> length (exchanges s) -> snd (server_sys s') = snd (server_sys s)).
Proof.
  intros Hr. split.
  - induction Hr as [|s s' _ IH Hs]; [constructor|]. destruct Hs as [s|s k req resp sys' Hk Hh|s c]; [done| |done].
    apply Forall_app. split; [exact IH|]. apply Forall_singleton. by eapply handler_exchange.
  - intros s' Hs. destruct Hs as [s|s k req resp sys' Hk Hh|s c]; cbn; [done| |done]. intros _.
    pose proof (same_handler (snd (server_sys s)) tenant bearer_token req (server_sys s) eq_refl) as Hsame.
    by rewrite Hh in Hsame.
Qed.
End reports.

(** *** Facts survive JSON *)

Lemma obj_get_app key l l' : obj_get key (l ++ l') = match obj_get key l with Some v => Some v | None => obj_get key l' end.
Proof. induction l as [|[k v] l IH]; [done|]. cbn. by case_bool_decide. Qed.

Lemma obj_get_cons key k v l : obj_get key ((k, v) :: l) = if bool_decide (k = key) then Some v else obj_get key l.
Proof. done. Qed.

Lemma obj_get_field {A} key k (f : A -> Value) x :
  obj_get key (field k f x) = if bool_decide (k = key) then f <$> x else None.
Proof. destruct x; cbn; by case_bool_decide. Qed.

Lemma obj_get_nonempty {A} key k (l : list A) v :
  obj_get key (nonempty_field k l v) = if bool_decide (k = key) then match l with [] => None | _ => Some v end else None.
Proof. destruct l; cbn; by case_bool_decide. Qed.

(** A field of a serialized struct is read back: its key is looked up among the
    others, none of which has it. *)
Ltac read_field :=
  unfold req_string, opt_string, defaulted;
  repeat first [rewrite obj_get_app | rewrite obj_get_cons | rewrite obj_get_field | rewrite obj_get_nonempty |
    rewrite bool_decide_true by reflexivity | rewrite bool_decide_false by discriminate].

Lemma u32_number n : 0 <= n < 2 ^ 32 -> u32_of (number n) = Some n.
Proof. intros Hn. unfold u32_of, number, MachinesApi.number. by rewrite (proj2 (Z.ltb_lt n (2 ^ 32))) by lia. Qed.

Lemma volume_roundtrip v : 0 <= size_gib v < 2 ^ 32 -> MountedVolumeFact_of_json (MountedVolumeFact_json v) = Some v.
Proof.
  destruct v as [vid n mp sz]. intros Hsz. cbn in Hsz. unfold MountedVolumeFact_of_json, MountedVolumeFact_json.
  cbn [as_object mbind option_bind volume_id volume_name mount_path size_gib]. set (fields := _ :: _).
  assert (Hvid : req_string "volume_id" fields = Some vid) by (unfold fields; read_field; done).
  assert (Hn : opt_string "name" fields = Some n) by (unfold fields; read_field; by destruct n).
  assert (Hm : opt_string "mount_path" fields = Some mp) by (unfold fields; read_field; by destruct mp).
  assert (Hs : obj_get "size_gib" fields = Some (number sz)) by (unfold fields; read_field; by destruct n, mp).
  rewrite Hvid, Hn, Hm, Hs. cbn [mbind option_bind]. by rewrite u32_number.
Qed.

Lemma volumes_roundtrip vs :
  Forall (fun v => 0 <= size_gib v < 2 ^ 32) vs -> mapM MountedVolumeFact_of_json (map MountedVolumeFact_json vs) = Some vs.
Proof. induction 1 as [|v vs Hv _ IH]; [done|]. cbn -[MountedVolumeFact_of_json MountedVolumeFact_json]. by rewrite volume_roundtrip, IH. Qed.

Section roundtrip.
Context (iter : gmap string string -> list (string * string)) (iter_all : forall m, iter m ≡ₚ map_to_list m).

Lemma metadata_roundtrip m : metadata_of_json (metadata_json iter m) = Some m.
Proof using iter_all.
  unfold metadata_of_json, metadata_json. cbn.
  assert (E : forall l : list (string * string),
    mapM (fun '(k, v) => s ← as_str v; Some (k, s)) (map (fun '(k, v) => (k, VString v)) l) = Some l).
  { induction l as [|[k v] l IH]; [done|]. cbn. by rewrite IH. }
  rewrite E. cbn. f_equal. assert (Hp : rev (iter m) ≡ₚ map_to_list m).
  { etransitivity; [symmetry; apply Permutation_rev|apply iter_all]. }
  rewrite <- (list_to_map_to_list m) at 2. apply list_to_map_proper; [|done].
  rewrite Hp. apply NoDup_fst_map_to_list.
Qed.

Lemma iter_nil m : iter m = [] -> m = ∅.
Proof using iter_all. intros Hn. pose proof (iter_all m) as Hp. rewrite Hn in Hp. apply map_to_list_empty_iff. by apply Permutation_nil_l in Hp. Qed.

(** A usage fact survives JSON: whatever the optional fields are, and in
    whatever order the metadata is written, reading what was written gives the
    fact back. *)
Theorem usage_facts_roundtrip f :
  Forall (fun v => 0 <= size_gib v < 2 ^ 32) (volumes f) ->
  MachineUsageFact_of_json (MachineUsageFact_json iter f) = Some f.
Proof using iter_all.
  destruct f as [mid st rg iid sa so de cr up md vs]. intros Hv. cbn in Hv.
  unfold MachineUsageFact_of_json, MachineUsageFact_json.
  cbn [as_object mbind option_bind fact_machine_id fact_state fact_region fact_instance_id started_at stopped_at
    deleted_at fact_created_at fact_updated_at fact_metadata volumes]. set (fields := _ ++ _).
  assert (H1 : req_string "machine_id" fields = Some mid) by (unfold fields; read_field; done).
  assert (H2 : req_string "state" fields = Some st) by (unfold fields; read_field; done).
  assert (H3 : opt_string "region" fields = Some rg) by (unfold fields; read_field; by destruct rg).
  assert (H4 : opt_string "instance_id" fields = Some iid) by (unfold fields; read_field; by destruct iid).
  assert (H5 : opt_string "started_at" fields = Some sa) by (unfold fields; read_field; by destruct sa).
  assert (H6 : opt_string "stopped_at" fields = Some so) by (unfold fields; read_field; by destruct so).
  assert (H7 : opt_string "deleted_at" fields = Some de) by (unfold fields; read_field; by destruct de).
  assert (H8 : opt_string "created_at" fields = Some cr) by (unfold fields; read_field; by destruct cr).
  assert (H9 : opt_string "updated_at" fields = Some up) by (unfold fields; read_field; by destruct up).
  assert (H10 : defaulted "metadata" ∅ metadata_of_json fields = Some md).
  { unfold fields. read_field. destruct (iter md) eqn:E; [by rewrite (iter_nil md E)|apply metadata_roundtrip]. }
  assert (H11 : defaulted "volumes" [] (fun v => items ← as_array v; mapM MountedVolumeFact_of_json items) fields = Some vs).
  { unfold fields. read_field. destruct vs as [|v vs]; [by destruct (iter md)|].
    destruct (iter md); by apply volumes_roundtrip. }
  rewrite H1, H2, H3, H4, H5, H6, H7, H8, H9, H10, H11. reflexivity.
Qed.
End roundtrip.

(** ** Witnesses *)

Definition demo_request (header : string) : HttpRequest := mkHttpRequest "GET" "/usage-facts" (Some (Some header)).

Definition demo_handler (req : HttpRequest) : M Sys HttpResponse :=
  usage_facts_http_handler (fun _ => None) (fun _ => "") demo_delete_api (Some "acme") (Some "t0") req.

(** Two requests on one connection: a guess, then the token. *)
Definition demo_exchanges : Res HttpResponse * Sys -> list (HttpRequest * HttpResponse * WireResponse) := fun r =>
  let wire := wire_response map_to_list (fun _ => Ok []) in
  let refused := JsonError 401 "unauthorized" in
  let told := match fst r with Ok resp => resp | _ => refused end in
  [(demo_request "Bearer guess", refused, wire refused); (demo_request "Bearer t0", told, wire told)].

Definition demo_told : Res HttpResponse * Sys := demo_handler (demo_request "Bearer t0") (0%nat, demo_cloud).

Definition demo_server : Server := mkServer 1 (demo_exchanges demo_told) (snd demo_told).

Abbreviation demo_server_reachable := (server_reachable (fun _ => None) map_to_list (fun _ => Ok []) (fun _ => "")
  demo_delete_api (Some "acme") (Some "t0") (0%nat, demo_cloud)).

Lemma demo_server_reachable_ok : demo_server_reachable demo_server.
Proof.
  eapply server_more; [eapply server_more; [eapply server_more; [apply server_init|apply serve_accept]|]|].
  - apply (serve_request _ _ _ _ _ _ _ _ 0 (demo_request "Bearer guess") (JsonError 401 "unauthorized") (0%nat, demo_cloud));
      [cbn; lia|vm_compute; reflexivity].
  - refine (serve_request _ _ _ _ _ _ _ _ 0 (demo_request "Bearer t0") _ (snd demo_told) _ _); [cbn; lia|].
    change (demo_told = (Ok (match fst demo_told with Ok resp => resp | _ => JsonError 401 "unauthorized" end), snd demo_told)).
    vm_compute. reflexivity.
Qed.

Lemma usage_server_tells_only_the_authorized_witness :
  exists facts, In (demo_request "Bearer t0", UsageFacts facts, json_response (fun _ => Ok []) 200 (facts_json map_to_list facts))
    (exchanges demo_server) /\ length facts = 1%nat /\ Forall (fact_of (Some "acme")) facts.
Proof.
  destruct (usage_server_tells_only_the_authorized (fun _ => None) map_to_list (fun _ => Ok []) (fun _ => "")
    demo_delete_api (Some "acme") (Some "t0") (0%nat, demo_cloud) demo_server demo_server_reachable_ok) as [He _].
  destruct (fst demo_told) as [[body|facts|status message]|e|] eqn:Et; try (vm_compute in Et; discriminate Et).
  assert (Hx : exchanges demo_server = demo_exchanges (Ok (UsageFacts facts), snd demo_told))
    by (unfold demo_server, demo_exchanges; cbn [exchanges]; rewrite Et; reflexivity).
  rewrite Hx in He |- *. exists facts. split; [right; left; reflexivity|]. split.
  - vm_compute in Et. injection Et as <-. reflexivity.
  - apply Forall_cons in He as [_ He]. apply Forall_cons in He as [[_ He] _].
    destruct (He facts eq_refl) as (_ & _ & Hf & _). exact Hf.
Defined.

Definition demo_fact : MachineUsageFact :=
  mkUsageFact "m1" "started" (Some "ams") None (Some "2024-01-01T00:00:00Z") None None None None
    {[TENANT_ID_KEY := "acme"]} [mkVolumeFact "vol1" None (Some "/data") 30].

Lemma usage_facts_roundtrip_witness :
  MachineUsageFact_of_json (MachineUsageFact_json map_to_list demo_fact) = Some demo_fact.
Proof. apply (usage_facts_roundtrip map_to_list); [intros m; reflexivity|]. repeat constructor; cbn; lia. Defined.
