(* ===== verification/AdminMain.v ===== *)
(** * The admin tool's command line ([crates/admin/src/main.rs])

    The settings, taken from the flags or the environment, and the command they
    run: [main] against an interface of the commands, and the instance that the
    other files of the admin tool are.  [clap] is a parameter: a [Cli] is what it
    parsed. *)

From stdpp Require Import numbers.
From S2P Require Import Prelude Text Process Machines Template Tenant TenantCreate TenantDelete Listing Reports.
From S2P Require MachinesApi Rollout.

Abbreviation MachinesClient := MachinesApi.MachinesClient.
Abbreviation UpdateImageOptions := Rollout.UpdateImageOptions.

(** ** The command line *)

(** Times in seconds. *)
Inductive TenantCommand :=
| Create (tenant_id template : string) (access_token : option string) (vars : list string) (dry_run : bool)
    (wait_timeout_secs : Z)
| Delete (tenant_id : string) (yes : bool) (wait_timeout_secs : Z)
| List (tenant : option string) (wide json : bool)
| UsageFacts (tenant listen bearer_token : option string)
| UpdateImage (image : string) (tenants : list string) (all_tenants : bool) (concurrency canary : nat)
    (soak_secs start_timeout_secs health_timeout_secs lease_ttl_secs : Z).

Inductive Command := TenantC (command : TenantCommand).

Record Cli := mkCli {
  api_token : option string;
  app : option string;
  api_base : option string;
  command : Command;
}.

(** What [clap] fills in. *)
Definition default_create (tenant_id template : string) : TenantCommand := Create tenant_id template None [] false 180.
Definition default_delete (tenant_id : string) : TenantCommand := Delete tenant_id false 180.
Definition default_update (image : string) : TenantCommand := UpdateImage image [] false 4 1 20 180 120 120.

(** ** The commands *)

(** What [main] can ask for: each command with the client, its effect, and the lines
    it prints. *)
Class Commands (W : Type) := {
  create_tenant : MachinesClient -> string -> string -> option string -> gmap string string -> bool -> Z -> M W (list string);
  delete_tenant : MachinesClient -> string -> bool -> Z -> M W (list string);
  list_tenants : MachinesClient -> option string -> bool -> bool -> M W (list string);
  print_usage_facts : MachinesClient -> option string -> M W (list string);
  serve_usage_facts : MachinesClient -> option string -> string -> option string -> M W (list string);
  update_image : MachinesClient -> UpdateImageOptions -> Z -> M W (list string);
}.

(** What they promise about an observation of the world: those that only read it
    leave it. *)
Class ReadingCommands (W : Type) `{Commands W} {O : Type} (observe : W -> O) := {
  dry_create_reads client tenant_id template token vars timeout w :
    fst (create_tenant client tenant_id template token vars true timeout w) <> Panic ->
    observe (snd (create_tenant client tenant_id template token vars true timeout w)) = observe w;
  unconfirmed_delete_reads client tenant_id timeout w :
    observe (snd (delete_tenant client tenant_id false timeout w)) = observe w;
  list_reads client tenant wide json w : observe (snd (list_tenants client tenant wide json w)) = observe w;
  facts_reads client tenant w : observe (snd (print_usage_facts client tenant w)) = observe w;
  serve_reads client tenant listen token w : observe (snd (serve_usage_facts client tenant listen token w)) = observe w;
}.

(** ** [main] *)

Definition from_secs (secs : Z) : Z := 1000 * secs.

(** The client, from the flags or else the environment. *)
Definition settings (vars : Vars) (cli : Cli) : Res MachinesClient :=
  api_token ← ok_or "missing api token (set --api-token or FLY_API_TOKEN)"
    (Machines.or_else (api_token cli) (ok (env_var "FLY_API_TOKEN" vars)));
  app ← ok_or "missing app (set --app or FLY_APP)" (Machines.or_else (app cli) (ok (env_var "FLY_APP" vars)));
  let api_base := default "https://api.machines.dev" (Machines.or_else (api_base cli) (ok (env_var "FLY_API_BASE" vars))) in
  Ok (MachinesApi.MachinesClient_new api_base app api_token).

Section main.
Context {W : Type} `{HC : Commands W}.

Definition run_command (client : MachinesClient) (c : Command) : M W (list string) :=
  match c with
  | TenantC (Create tenant_id template access_token vars dry_run wait_timeout_secs) =>
      vars ← mlift (parse_vars vars);
      create_tenant client tenant_id template access_token vars dry_run (from_secs wait_timeout_secs)
  | TenantC (Delete tenant_id yes wait_timeout_secs) => delete_tenant client tenant_id yes (from_secs wait_timeout_secs)
  | TenantC (List tenant wide json) => list_tenants client tenant wide json
  | TenantC (UsageFacts tenant listen bearer_token) =>
      match listen with
      | Some listen => serve_usage_facts client tenant listen bearer_token
      | None => print_usage_facts client tenant
      end
  | TenantC (UpdateImage image tenants all_tenants concurrency canary soak_secs start_timeout_secs health_timeout_secs lease_ttl_secs) =>
      update_image client
        (Rollout.mkOptions image tenants all_tenants concurrency canary (from_secs soak_secs)
           (from_secs start_timeout_secs) (from_secs health_timeout_secs)) lease_ttl_secs
  end.

Definition main (environment : Vars) (cli : Cli) : M W (list string) :=
  let vars := default_log_level environment in
  client ← mlift (settings vars cli);
  run_command client (command cli).

(** The commands that are not to change anything. *)
Definition only_reads (c : Command) : bool :=
  match c with
  | TenantC (Create _ _ _ _ dry_run _) => dry_run
  | TenantC (Delete _ yes _) => negb yes
  | TenantC (List _ _ _) | TenantC (UsageFacts _ _ _) => true
  | TenantC (UpdateImage _ _ _ _ _ _ _ _ _) => false
  end.

Lemma settings_log environment cli : settings (default_log_level environment) cli = settings environment cli.
Proof. unfold settings. by rewrite !env_var_log. Qed.

Lemma reading_main {O} (observe : W -> O) `{!ReadingCommands W observe} environment cli w r w' :
  main environment cli w = (r, w') -> r <> Panic -> only_reads (command cli) = true -> observe w' = observe w.
Proof.
  intros Hm Hr Hc. unfold main in Hm. apply mbind_run in Hm as [(client & w1 & Hl & Hm)|(x & Hl & _ & _)].
  2: { by injection Hl as _ <-. }
  injection Hl as _ <-. unfold run_command in Hm. destruct (command cli) as [[]]; cbn in Hc; try done.
  - subst dry_run. apply mbind_run in Hm as [(vs & w1 & Hl & Hm)|(x & Hl & _ & _)]; injection Hl as _ <-; [|done].
    pose proof (dry_create_reads client tenant_id template access_token vs (from_secs wait_timeout_secs) w) as Hd.
    rewrite Hm in Hd. by apply Hd.
  - destruct yes; [done|].
    pose proof (unconfirmed_delete_reads client tenant_id (from_secs wait_timeout_secs) w) as Hd. by rewrite Hm in Hd.
  - pose proof (list_reads client tenant wide json w) as Hd. by rewrite Hm in Hd.
  - destruct listen as [listen|].
    + pose proof (serve_reads client tenant listen bearer_token w) as Hd. by rewrite Hm in Hd.
    + pose proof (facts_reads client tenant w) as Hd. by rewrite Hm in Hd.
Qed.
End main.

(** ** The instance *)

(** [Path::file_name], of a path in bytes: the last component that is a name. *)
Fixpoint components (current : list byte) (bs : list byte) : list (list byte) :=
  match bs with
  | [] => [current]
  | b :: rest => if bool_decide (b = MachinesApi.slash) then current :: components [] rest else components (current ++ [b]) rest
  end.

Definition file_name (p : string) : option string :=
  match last (List.filter (fun c => negb (bool_decide (c = []) || bool_decide (c = as_bytes "."))) (components [] (as_bytes p))) with
  | Some c => if bool_decide (c = as_bytes "..") then None else Some (from_bytes_unchecked c)
  | None => None
  end.

(** What happens to a usage-facts server, in order. *)
Inductive ServerEvent :=
| Accepted
| Requested (connection : nat) (req : HttpRequest).

(** Everything outside: files, time, the network. *)
Record Outside (Toml : Type) := mkOutside {
  to_json : Toml -> Res Value;
  iter : nat -> gmap string string -> list (string * string);
  read_template : string -> Res string;
  parse_template : string -> Res (TenantTemplate Toml);
  api : MachinesClient -> Api;
  show : Cause -> string;
  format_event_timestamp : Z -> option string;
  to_string_pretty : Value -> Res string;
  to_vec : Value -> Res (list byte);
  parse_addr : string -> Res string;
  bind_listener : Res unit;
  (** what comes to the server until accepting fails, and how that fails *)
  server_events : list ServerEvent;
  accept_error : Error;
  (** the rollout: what happens to each machine's update and rollback, and the
      order in which a batch completes *)
  update_env : string -> Rollout.Env;
  rollback_env : string -> Rollout.Env;
  completion : list Rollout.MachineSnapshot -> list Rollout.MachineSnapshot;
}.
Arguments to_json {Toml}. Arguments iter {Toml}. Arguments read_template {Toml}. Arguments parse_template {Toml}.
Arguments api {Toml}. Arguments show {Toml}. Arguments format_event_timestamp {Toml}. Arguments to_string_pretty {Toml}.
Arguments to_vec {Toml}. Arguments parse_addr {Toml}. Arguments bind_listener {Toml}. Arguments server_events {Toml}.
Arguments accept_error {Toml}. Arguments update_env {Toml}. Arguments rollback_env {Toml}. Arguments completion {Toml}.

(** The world of the tool: what the API holds, as [Tenant] has it, and what a
    rollout changes of it, as [Rollout] has it. *)
Record Admin := mkAdmin { sys : Sys; fleet : Rollout.World }.

Definition on_sys {A} (m : M Sys A) : M Admin A := fun w =>
  let '(r, s) := m (sys w) in (r, mkAdmin s (fleet w)).

Section instance.
Context {Toml : Type} (out : Outside Toml).

(** [create_tenant] with the label it takes from the path; no messages. *)
Definition admin_create (client : MachinesClient) (tenant_id template_path : string) (access_token : option string)
    (vars : gmap string string) (dry_run : bool) (wait_timeout : Z) : M Admin (list string) :=
  on_sys (_ ← run_create (to_json out) (iter out) (read_template out template_path) (parse_template out) template_path
            (api out client) (show out) (MachinesApi.app client) tenant_id
            (default "template" (file_name template_path)) access_token vars wait_timeout dry_run;
          mret []).

Definition serve_event (handler : HttpRequest -> M Sys HttpResponse) (e : ServerEvent) (s : Server) : Server :=
  match e with
  | Accepted => mkServer (S (accepted s)) (exchanges s) (server_sys s)
  | Requested connection req =>
      if (connection <? accepted s)%nat then
        match handler req (server_sys s) with
        | (Ok resp, sys') => mkServer (accepted s) (exchanges s ++ [(req, resp, wire_response (iter out 0) (to_vec out) resp)]) sys'
        | (_, _) => s
        end
      else s
  end.

Definition admin_serve (client : MachinesClient) (tenant : option string) (listen : string) (bearer_token : option string) :
    M Admin (list string) := fun w =>
  match Reports.serve_usage_facts (parse_addr out) (bind_listener out) listen with
  | Ok _ =>
      let handler := usage_facts_http_handler (format_event_timestamp out) (show out) (api out client) tenant bearer_token in
      let s := fold_left (fun s e => serve_event handler e s) (server_events out) (mkServer 0 [] (sys w)) in
      (Err (Msg "accept usage-facts connection" :: accept_error out), mkAdmin (server_sys s) (fleet w))
  | Err e => (Err e, w)
  | Panic => (Panic, w)
  end.

(** [update_image]: the machines are listed once the options are found valid. *)
Definition admin_update (client : MachinesClient) (options : UpdateImageOptions) (lease_ttl_secs : Z) :
    M Admin (list string) := fun w =>
  let '(listed, s) :=
    if is_ok (Rollout.validate_selectors options) && negb (Rollout.concurrency options =? 0)%nat
    then list_managed_machines (api out client) None (sys w) else (Ok [], sys w) in
  let '(r, f) := Rollout.update_image (show out) (update_env out) (rollback_env out) (completion out) options listed (fleet w) in
  (_ ← r; Ok [], mkAdmin s f).

#[export] Instance admin_commands : Commands Admin := {|
  create_tenant := admin_create;
  delete_tenant client tenant_id yes wait_timeout :=
    on_sys (_ ← Tenant.delete_tenant (api out client) (show out) tenant_id yes wait_timeout; mret []);
  list_tenants client tenant wide json :=
    on_sys (print_tenants (format_event_timestamp out) (iter out 0) (to_string_pretty out) (api out client) tenant wide json);
  print_usage_facts client tenant :=
    on_sys (Reports.print_usage_facts (format_event_timestamp out) (iter out 0) (to_string_pretty out) (api out client) tenant);
  serve_usage_facts := admin_serve;
  update_image := admin_update;
|}.

(** What the app is. *)
Definition app_of (w : Admin) : Cloud * Rollout.World := (snd (sys w), fleet w).

Lemma on_sys_reads {A} (m : M Sys A) w : keeps (Same (snd (sys w))) m -> app_of (snd (on_sys m w)) = app_of w.
Proof.
  intros Hk. unfold on_sys. specialize (Hk (sys w) eq_refl). destruct (m (sys w)) as [r s].
  unfold app_of. cbn in *. by rewrite Hk.
Qed.

Lemma serve_event_reads client tenant token e s :
  snd (server_sys (serve_event (usage_facts_http_handler (format_event_timestamp out) (show out) (api out client) tenant token) e s))
  = snd (server_sys s).
Proof.
  destruct e as [|connection req]; [done|]. unfold serve_event. destruct (connection <? accepted s)%nat; [|done].
  pose proof (same_handler (format_event_timestamp out) (show out) (api out client) (snd (server_sys s)) tenant token
    req (server_sys s) eq_refl) as Hs.
  by destruct (usage_facts_http_handler _ _ _ _ _ req (server_sys s)) as [[] ?].
Qed.

#[export] Instance admin_reading : ReadingCommands Admin app_of.
Proof.
  split.
  - intros client tid template token vars timeout w Hp. cbn in *. unfold admin_create, on_sys in *.
    match type of Hp with context [run_create ?a ?b ?c ?d ?e ?f ?g ?h ?i ?j ?k ?l ?m true] =>
      pose proof (dry_run_calls_nothing a b c d e f g h i j k l m (sys w)) as Hd;
      destruct (run_create a b c d e f g h i j k l m true (sys w)) as [r s] eqn:Er end.
    unfold mbind, M_bind, mbind_st in *. rewrite Er in *.
    assert (s = sys w) as ->; [|destruct r; by destruct w].
    eapply Hd; [reflexivity|]. by intros ->.
  - intros client tid timeout w. cbn. apply on_sys_reads. unfold Tenant.delete_tenant, list_managed_machines. cbn [negb].
    pose proof same_managed. keeps_code.
  - intros client tenant wide json w. cbn. apply on_sys_reads, same_print_tenants.
  - intros client tenant w. cbn. apply on_sys_reads, same_print_facts.
  - intros client tenant listen token w. cbn. unfold admin_serve.
    destruct (Reports.serve_usage_facts _ _ listen); [|done..]. unfold app_of. cbn. f_equal.
    change (snd (sys w)) with (snd (server_sys (mkServer 0 [] (sys w)))).
    generalize (mkServer 0 [] (sys w)). induction (server_events out) as [|e es IH]; intros s; [done|]. cbn.
    rewrite IH. apply serve_event_reads.
Qed.

(** C19: A command that is not to change anything does not.  Whatever the API answers
    and whatever requests the usage-facts server gets, a dry run of a creation, a
    deletion without the confirmation, the lists and the usage facts leave the
    machines and volumes of the app, and which of them take traffic, as they were; and without a token and an app,
    from the flags or from the environment, no command at all is run. *)
Theorem reading_commands_change_nothing environment cli w r w' :
  main environment cli w = (r, w') ->
  (r <> Panic -> only_reads (command cli) = true -> app_of w' = app_of w) /\
  (api_token cli = None -> ok (env_var "FLY_API_TOKEN" environment) = None ->
     r = anyhow "missing api token (set --api-token or FLY_API_TOKEN)" /\ w' = w) /\
  (app cli = None -> ok (env_var "FLY_APP" environment) = None -> is_ok r = false /\ w' = w).
Proof.
  intros Hm. split; [intros Hr Hc; by eapply (reading_main app_of)|].
  unfold main in Hm. rewrite settings_log in Hm. split.
  - intros Ht He. unfold settings in Hm. rewrite Ht, He in Hm. by injection Hm as <- <-.
  - intros Ha He. unfold settings in Hm. rewrite Ha, He in Hm.
    destruct (Machines.or_else (api_token cli) (ok (env_var "FLY_API_TOKEN" environment))); by injection Hm as <- <-.
Qed.
End instance.

(** ** Witness *)

Definition demo_outside : Outside unit :=
  mkOutside unit (fun _ => Ok VNull) (fun _ => map_to_list) (fun _ => Ok "") (fun _ => anyhow "toml") (fun _ => demo_delete_api)
    (fun _ => "") (fun _ => None) (fun _ => Ok "json") (fun _ => Ok []) Ok (Ok tt) [] []
    (fun _ => Rollout.demo_env "started" Applied) (fun _ => Rollout.demo_env "started" Applied) (fun batch => batch).

Definition demo_environment : Vars := {["FLY_API_TOKEN" := Some "t0"; "FLY_APP" := Some "vault"]}.

Definition demo_cli (c : TenantCommand) : Cli := mkCli None None None (TenantC c).

Definition demo_admin : Admin := mkAdmin (0%nat, demo_cloud) ∅.

(** The flag comes before the environment, the slashes at the end are cut. *)
Example demo_settings :
  settings demo_environment (mkCli (Some "t1") None (Some "http://local//") (TenantC (default_delete "acme")))
    = Ok (MachinesApi.mkClient "http://local" "vault" "t1").
Proof. vm_compute. reflexivity. Qed.

Example demo_file_names :
  map file_name ["tenants/blue.toml"; "/blue.toml/"; "blue/."; ".."; "/"] =
    [Some "blue.toml"; Some "blue.toml"; Some "blue"; None; None].
Proof. vm_compute. reflexivity. Qed.

Lemma reading_commands_change_nothing_witness :
  let '(r, w) := main (HC := admin_commands demo_outside) demo_environment (demo_cli (default_delete "acme")) demo_admin in
  r = anyhow "refusing delete without --yes" /\ app_of w = app_of demo_admin.
Proof.
  destruct (main (HC := admin_commands demo_outside) demo_environment (demo_cli (default_delete "acme")) demo_admin)
    as [r w] eqn:E.
  assert (Hr : r = anyhow "refusing delete without --yes").
  { change (fst (r, w) = anyhow "refusing delete without --yes"). rewrite <- E. vm_compute. reflexivity. }
  split; [exact Hr|].
  apply (proj1 (reading_commands_change_nothing demo_outside demo_environment (demo_cli (default_delete "acme")) demo_admin r w E));
    [rewrite Hr; discriminate|reflexivity].
Defined.
