(* ===== verification/ServerMain.v ===== *)
(** * How the machine comes up ([crates/init/src/main.rs], [firewall.rs], [quic.rs])

    [main] around the boot of [InitServer]: the firewall, the access token taken out
    of the environment, the QUIC endpoint with its configuration, and the end of
    the process, by a signal that may come before the endpoint or after any work of
    the connections, whose tasks go on until the process is gone.  [nft], the sockets, certificates and signals are parameters. *)

From S2P Require Import Prelude Protocol Text Machines Process.
From S2P Require Setup InitServer Forward.

(** ** [firewall.rs] *)

(** What running [nft] comes to: the spawn, the pipe to it, the write, and its exit
    with what it said. *)
Record Nft := mkNft {
  nft_spawn : Res unit;
  nft_stdin : bool;
  nft_write : Res unit;
  (** whether it succeeded, its status, and its standard error *)
  nft_output : Res (bool * string * string);
}.

Definition ruleset (listen_port : Z) : string :=
"
table inet filter {
    chain input {
        type filter hook input priority 0; policy accept;
        iif lo accept
        ct state established,related counter accept
        icmpv6 type { nd-neighbor-solicit, nd-neighbor-advert, nd-router-solicit, nd-router-advert } counter accept
        udp dport " +:+ pretty listen_port +:+ " counter accept
        tcp dport 22 counter accept
        counter drop
    }
    chain forward {
        type filter hook forward priority 0; policy drop;
    }
    chain output {
        type filter hook output priority 0; policy accept;
    }
}
".

(** ** [main.rs] *)

Record Args := mkArgs {
  listen : string;
  data_dir : Setup.path;
  root_mount_dir : Setup.path;
  init_binary : Setup.path;
  test_mode : bool;
}.

(** What [clap] fills in for what the command line leaves out; [listen] may also come
    from [VAULT_LISTEN]. *)
Definition default_listen : string := "[::]:8443".
Definition default_args (vars : Vars) : Args :=
  mkArgs (default default_listen (ok (env_var "VAULT_LISTEN" vars))) ["data"] ["data"; "rootfs"] ["sbin"; "init"] false.

(** What the process has done that others can see. *)
Inductive Event :=
| Spawned (program : string) (args : list string) (vars : Vars)
| Fed (input : string)
| Booted (vars : Vars)
| Listening (vars : Vars)
(** the inner init the manager had, the one it has after, and every pid killed *)
| ShutDown (was after : option Z) (killed : list Z).

Record Init := mkInit {
  vars : Vars;
  events : list Event;
  shared : option InitServer.Srv;
}.

Definition log (e : Vars -> Event) : M Init unit := fun s => (Ok tt, mkInit (vars s) (events s ++ [e (vars s)]) (shared s)).
Definition set_vars (f : Vars -> Vars) : M Init unit := fun s => (Ok tt, mkInit (f (vars s)) (events s) (shared s)).

(** [firewall::setup]. *)
Definition firewall_setup (nft : Nft) (listen_port : Z) : M Init unit :=
  _ ← mcontext "spawn nft" (mlift (nft_spawn nft));
  _ ← log (Spawned "nft" ["-f"; "-"]);
  _ ← mlift (if nft_stdin nft then Ok tt else anyhow "open stdin pipe");
  _ ← mcontext "write ruleset" (mlift (nft_write nft));
  _ ← log (fun _ => Fed (ruleset listen_port));
  '(success, status, stderr) ← mcontext "wait for nft" (mlift (nft_output nft));
  if success : bool then mret tt else mlift (anyhow ("nft failed (" +:+ status +:+ "): " +:+ stderr)).

(** [rsplit_once] at a byte. *)
Fixpoint rsplit_at_byte (sep : byte) (bs : list byte) : option (list byte * list byte) :=
  match bs with
  | [] => None
  | b :: rest =>
      match rsplit_at_byte sep rest with
      | Some (l, r) => Some (b :: l, r)
      | None => if bool_decide (b = sep) then Some ([], rest) else None
      end
  end.

Definition listen_port (a : Args) : Res Z :=
  ok_or "parse listen port from address"
    ('(_, port) ← rsplit_at_byte Forward.colon (as_bytes (listen a)); ok (Forward.parse_u16 port)).

(** ** [quic.rs]: the endpoint *)

Record TransportConfig := mkTransport {
  initial_mtu : Z;
  congestion : string;
  max_idle_timeout_ms : option Z;
  mtu_discovery : bool;
  keep_alive_interval_ms : option Z;
}.

Record ServerConfig := mkServerConfig {
  cert_names : list string;
  alpn_protocols : list string;
  client_auth : bool;
  server_transport : TransportConfig;
}.

(** [generated], [tls] and [quic]: whether the libraries make a certificate and
    accept it and the configuration. *)
Definition build_server_config (generated tls quic : Res unit) : Res ServerConfig :=
  _ ← with_context "generate self-signed cert" generated;
  _ ← with_context "build rustls server config" tls;
  let transport := mkTransport 1200 "bbr" (Some 30000) false (Some 2000) in
  _ ← with_context "build quic rustls server config" quic;
  Ok (mkServerConfig ["localhost"] ["h3"] false transport).

(** The system the process runs on. *)
Record System := mkSystem {
  nft : Nft;
  disk : Setup.Os;
  sigterm_handler : Res unit;
  sigint_handler : Res unit;
  config_results : Res unit * Res unit * Res unit;
  (** the addresses [listen] resolves to *)
  addresses : Res (list string);
  endpoint : ServerConfig -> string -> Res unit;
}.

(** [serve] up to its loop, which hands every connection to a task of its own. *)
Definition serve (sys : System) (a : Args) : M Init unit :=
  let '(generated, tls, quic) := config_results sys in
  server_config ← mlift (build_server_config generated tls quic);
  resolved ← mcontext ("failed to resolve --listen address: " +:+ listen a) (mlift (addresses sys));
  addr ← mlift (ok_or ("invalid --listen address: " +:+ listen a) (head resolved));
  _ ← mcontext "start quic endpoint" (mlift (endpoint sys server_config addr));
  log Listening.

(** What the connections do to the shared state, each under its lock: an attestation,
    a setup request, or making sure of a live runtime for a console. *)
Inductive Work :=
| Attest
| Apply (state : VmState) (request : SetupRequest)
| EnsureLive.

(** How the wait of [main] ends.  [select!] polls in any order: a signal may be taken
    before [serve] runs at all, or the endpoint may stop accepting, or a signal comes
    after the connections have done some work.  What their tasks still do after the
    shutdown, until the process is gone, is [late]. *)
Inductive Stop :=
| SignalFirst
| EndpointStopped (work : list Work)
| SignalAfter (work late : list Work).

Section main.
Context `{HO : InitServer.Host} `{TG : Setup.TarGz}.

Definition with_shared {A} (m : M InitServer.Srv A) : M Init A := fun s =>
  match shared s with
  | Some srv => let '(r, srv) := m srv in (r, mkInit (vars s) (events s) (Some srv))
  | None => (Panic, s)
  end.

(** A task of its own: what it fails or panics with goes nowhere, and the state is as
    it left it. *)
Definition spawned {A} (m : M InitServer.Srv A) : M InitServer.Srv unit := fun s => (Ok tt, snd (m s)).

Definition do_work (tm : bool) (w : Work) : M InitServer.Srv unit :=
  match w with
  | Attest => spawned (InitServer.build_attestation tm)
  | Apply state request => spawned (InitServer.apply_setup_request state request)
  | EnsureLive => spawned (InitServer.with_setup (Setup.ensure_live_inner_init_pid InitServer.own_pid))
  end.

Fixpoint do_works (tm : bool) (ws : list Work) : M InitServer.Srv unit :=
  match ws with
  | [] => mret tt
  | w :: ws => _ ← do_work tm w; do_works tm ws
  end.

Definition boot (sys : System) (manager : Setup.SetupManager) (access_token : option string) : M Init unit := fun s =>
  let '(r, srv) := InitServer.boot manager access_token (disk sys) in
  (r, mkInit (vars s) (events s ++ [Booted (vars s)]) (Some srv)).

Definition runtime : M Init (option Z * list Z) := with_shared (fun srv =>
  (Ok (Setup.inner_init_pid (Setup.mgr (InitServer.setup srv)), Setup.killed (Setup.os (InitServer.setup srv))), srv)).

(** What [main] does once it is told to stop. *)
Definition shut_down : M Init unit :=
  '(was, _) ← runtime;
  _ ← with_shared (InitServer.with_setup Setup.shutdown);
  '(after, killed) ← runtime;
  log (fun _ => ShutDown was after killed).

(** The [select!] and the end: what [serve] fails with ends [main] at once. *)
Definition run (sys : System) (a : Args) (stop : Stop) : M Init unit :=
  match stop with
  | SignalFirst => shut_down
  | EndpointStopped work =>
      _ ← serve sys a;
      _ ← with_shared (do_works (test_mode a) work);
      mlift (anyhow "quic endpoint stopped accepting")
  | SignalAfter work late =>
      _ ← serve sys a;
      _ ← with_shared (do_works (test_mode a) work);
      _ ← shut_down;
      with_shared (do_works (test_mode a) late)
  end.

(** [main] after the arguments are parsed. *)
Definition main (sys : System) (a : Args) (stop : Stop) : M Init unit :=
  _ ← (if test_mode a then mret tt
       else
         port ← mlift (listen_port a);
         mcontext "set up nftables firewall" (firewall_setup (nft sys) port));
  let setup := Setup.SetupManager_new (data_dir a) (root_mount_dir a) (init_binary a) (test_mode a) in
  s ← mget;
  let access_token := ok (env_var "ACCESS_TOKEN" (vars s)) in
  _ ← set_vars (remove_var "ACCESS_TOKEN");
  _ ← boot sys setup access_token;
  _ ← mcontext "install SIGTERM handler" (mlift (sigterm_handler sys));
  _ ← mcontext "install SIGTERM handler" (mlift (sigint_handler sys));
  run sys a stop.

Definition start (environment : Vars) : Init := mkInit (default_log_level environment) [] None.
End main.

(** ** Lemmas *)

Section lemmas.
Context `{HO : InitServer.Host} `{TG : Setup.TarGz}.

(** What the firewall leaves to see: all of [nft]'s run when it succeeds, and never more. *)
Lemma firewall_run nft port v r s :
  mcontext "set up nftables firewall" (firewall_setup nft port) (mkInit v [] None) = (r, s) ->
  let all := [Spawned "nft" ["-f"; "-"] v; Fed (ruleset port)] in
  exists evs, s = mkInit v evs None /\ evs `prefix_of` all /\
    (r = Ok tt -> evs = all /\ exists status stderr, nft_output nft = Ok (true, status, stderr)).
Proof.
  cbv zeta. unfold mcontext, firewall_setup, mbind, M_bind, mbind_st, mlift, mcontext, log, anyhow. cbn.
  set (all := [Spawned "nft" ["-f"; "-"] v; Fed (ruleset port)]).
  assert (H1 : [Spawned "nft" ["-f"; "-"] v] `prefix_of` all) by (by eexists).
  destruct (nft_spawn nft) as [u|e|]; cbn.
  2, 3: intros [= <- <-]; eexists; split_and!; [done|apply prefix_nil|done].
  destruct (nft_stdin nft); cbn; [|intros [= <- <-]; eexists; split_and!; done].
  destruct (nft_write nft) as [u'|e|]; cbn; [|intros [= <- <-]; eexists; split_and!; done..].
  destruct (nft_output nft) as [[[[] status] stderr]|e|]; cbn; intros [= <- <-]; eexists; split_and!; eauto; done.
Qed.

(** ** The mode and the token are the ones the process started with *)

Definition Mode (b : bool) (s : Setup.St) : Prop := Setup.test_mode (Setup.mgr s) = b.

Section mode.
Context (b : bool).

Lemma mode_io : keeps (Mode b) Setup.io.
Proof. intros s Hs. unfold Setup.io. by destruct (Setup.io_faults (Setup.os s)) as [|[]]. Qed.

Lemma mode_put_fs f : keeps (Mode b) (Setup.put_fs f).
Proof. by intros s Hs. Qed.

Lemma mode_get_fs : keeps (Mode b) Setup.get_fs.
Proof. by intros s Hs. Qed.

Lemma mode_get_mgr : keeps (Mode b) Setup.get_mgr.
Proof. by intros s Hs. Qed.

Lemma mode_put_runtime r : keeps (Mode b) (Setup.put_runtime r).
Proof. by intros s Hs. Qed.

Lemma mode_poll pid : keeps (Mode b) (Setup.poll_runtime pid).
Proof. intros s Hs. unfold Setup.poll_runtime. by destruct (Setup.waits (Setup.os s)). Qed.

Lemma mode_launch x y p : keeps (Mode b) (Setup.launch_namespaced_init x y p).
Proof.
  intros s Hs. unfold Setup.launch_namespaced_init. destruct (Setup.file_name p); [|done].
  by destruct (Setup.clones (Setup.os s)).
Qed.

Lemma mode_kill pid : keeps (Mode b) (Setup.kill pid).
Proof. by intros s Hs. Qed.

Hint Resolve mode_io mode_put_fs mode_get_fs mode_get_mgr mode_put_runtime mode_poll mode_launch mode_kill : keeps.

Lemma mode_for_each l (f : Setup.PersistentMount -> M Setup.St unit) :
  (forall m, keeps (Mode b) (f m)) -> keeps (Mode b) (Setup.for_each l f).
Proof. intros Hf. induction l as [|m l IH]; cbn; [auto with keeps|]. by apply keeps_bind. Qed.

Lemma mode_exists p : keeps (Mode b) (Setup.path_exists p).
Proof. unfold Setup.path_exists. keeps_code. Qed.
Hint Resolve mode_exists mode_for_each : keeps.

Lemma mode_ensure_directory p : keeps (Mode b) (Setup.ensure_directory p).
Proof. unfold Setup.ensure_directory, Setup.symlink_metadata, Setup.create_dir_all, Setup.fail. keeps_code. Qed.

Lemma mode_remove_path p : keeps (Mode b) (Setup.remove_path_if_exists p).
Proof.
  unfold Setup.remove_path_if_exists, Setup.symlink_metadata, Setup.remove_dir_all, Setup.remove_file, Setup.fail.
  keeps_code.
Qed.

Lemma mode_replace x p : keeps (Mode b) (Setup.replace_with_symlink x p).
Proof.
  unfold Setup.replace_with_symlink, Setup.symlink_metadata, Setup.remove_dir_all, Setup.remove_file, Setup.symlink,
    Setup.fail. keeps_code.
Qed.

Lemma mode_rename x y : keeps (Mode b) (Setup.rename x y).
Proof. unfold Setup.rename, Setup.fail. keeps_code. Qed.

Lemma mode_clear_marker p : keeps (Mode b) (Setup.clear_marker p).
Proof. unfold Setup.clear_marker, Setup.remove_file, Setup.fail. keeps_code. Qed.

Lemma mode_store : keeps (Mode b) Setup.store_provision_marker.
Proof. unfold Setup.store_provision_marker, Setup.write, Setup.fail. keeps_code. Qed.
Hint Resolve mode_ensure_directory mode_remove_path mode_replace mode_rename mode_clear_marker mode_store : keeps.

Lemma mode_source m p : keeps (Mode b) (Setup.ensure_persistent_source_dir m p).
Proof. unfold Setup.ensure_persistent_source_dir, Setup.symlink_metadata, Setup.create_dir_all, Setup.fail. keeps_code. Qed.
Hint Resolve mode_source : keeps.

Lemma mode_ensure : keeps (Mode b) (Setup.ensure_runtime_started InitServer.own_pid).
Proof.
  unfold Setup.ensure_runtime_started, Setup.launch_runtime, Setup.clear_fallback_marker,
    Setup.materialize_test_mode_persistent_links. keeps_code; apply mode_for_each; intros m; keeps_code.
Qed.
Hint Resolve mode_ensure : keeps.

Lemma mode_stage `{Setup.TarGz} data : keeps (Mode b) (Setup.stage_rootfs data).
Proof.
  unfold Setup.stage_rootfs, Setup.reset_dir, Setup.create_dir_all, Setup.prepare_persistent_layout, Setup.extract_rootfs.
  keeps_code; apply mode_for_each; intros m; keeps_code.
Qed.

Lemma mode_restore e : keeps (Mode b) (Setup.restore_previous_root e).
Proof. unfold Setup.restore_previous_root, Setup.clear_provision_marker. keeps_code. Qed.
Hint Resolve mode_stage mode_restore : keeps.

Lemma mode_activate alternate : keeps (Mode b) (Setup.activate_staged_root InitServer.own_pid alternate).
Proof.
  unfold Setup.activate_staged_root, Setup.stop_runtime, Setup.start_or_roll_back, Setup.clear_fallback_marker. keeps_code.
Qed.

Lemma mode_detect : keeps (Mode b) Setup.detect_state.
Proof. unfold Setup.detect_state. keeps_code. Qed.
Hint Resolve mode_activate mode_detect : keeps.

Lemma mode_setup alternate tarball : keeps (Mode b) (Setup.setup_and_prepare InitServer.own_pid alternate tarball).
Proof. unfold Setup.setup_and_prepare. keeps_code. Qed.

Lemma mode_shutdown : keeps (Mode b) Setup.shutdown.
Proof. unfold Setup.shutdown, Setup.stop_runtime, Setup.clear_fallback_marker. keeps_code. Qed.

Lemma mode_status : keeps (Mode b) Setup.runtime_status.
Proof. unfold Setup.runtime_status, Setup.clear_fallback_marker. keeps_code. Qed.

Lemma mode_live : keeps (Mode b) (Setup.ensure_live_inner_init_pid InitServer.own_pid).
Proof. unfold Setup.ensure_live_inner_init_pid. keeps_code. Qed.

Lemma mode_start : keeps (Mode b) (Setup.start_ready_runtime InitServer.own_pid).
Proof. unfold Setup.start_ready_runtime. keeps_code. Qed.

(** The shared state: what was read from the command line and the environment. *)
Definition Given (token : option string) (s : InitServer.Srv) : Prop :=
  Mode b (InitServer.setup s) /\ InitServer.access_token s = token.

Lemma given_setup {A} token (m : M Setup.St A) : keeps (Mode b) m -> keeps (Given token) (InitServer.with_setup m).
Proof.
  intros Hm s [Hs Ht]. unfold InitServer.with_setup. specialize (Hm _ Hs).
  by destruct (m (InitServer.setup s)).
Qed.

Lemma given_vm_state token v : keeps (Given token) (mmodify (InitServer.set_vm_state v)).
Proof. by intros s Hs. Qed.
Hint Resolve given_setup given_vm_state mode_setup mode_status mode_live mode_start mode_shutdown : keeps.

Lemma given_boot token manager os :
  Setup.test_mode manager = b -> Given token (snd (InitServer.boot manager token os)).
Proof.
  intros Hb. unfold InitServer.boot. match goal with |- Given token (snd (?m ?s)) =>
    assert (Hk : keeps (Given token) m) by keeps_code; exact (Hk s (conj Hb eq_refl)) end.
Qed.

Lemma given_works token tm ws : keeps (Given token) (do_works tm ws).
Proof.
  induction ws as [|w ws IH]; cbn; [auto with keeps|]. apply keeps_bind; [|done].
  assert (Hsp : forall A (m : M InitServer.Srv A), keeps (Given token) m -> keeps (Given token) (spawned m))
    by (intros A m Hm s Hs; exact (Hm s Hs)).
  destruct w; apply Hsp; unfold InitServer.build_attestation, InitServer.apply_setup_request; keeps_code.
Qed.
End mode.

Lemma boot_given sys a manager token s r s' :
  Setup.test_mode manager = test_mode a -> boot sys manager token s = (r, s') ->
  vars s' = vars s /\ events s' = events s ++ [Booted (vars s)] /\
  exists srv, shared s' = Some srv /\ Given (test_mode a) token srv.
Proof.
  intros Hm. unfold boot. pose proof (given_boot (test_mode a) token manager (disk sys) Hm) as Hg.
  destruct (InitServer.boot manager token (disk sys)) as [r0 srv]. intros [= <- <-]. cbn in *. eauto.
Qed.

Lemma serve_run sys a s r s' :
  serve sys a s = (r, s') ->
  vars s' = vars s /\ shared s' = shared s /\
  ((r = Ok tt /\ events s' = events s ++ [Listening (vars s)]) \/ (is_ok r = false /\ events s' = events s)).
Proof.
  unfold serve. destruct (config_results sys) as [[generated tls] quic].
  intros H. apply mbind_run in H as [(c & s1 & Hl & H)|(x & Hl & _ & Hr)]; injection Hl as _ <-; [|by auto].
  apply mbind_run in H as [(l & s1 & Hl & H)|(x & Hl & _ & Hr)]; unfold mcontext, mlift in Hl.
  2: { destruct (addresses sys); injection Hl as _ <-; by auto. }
  destruct (addresses sys); try done. injection Hl as _ <-.
  apply mbind_run in H as [(addr & s1 & Hl & H)|(x & Hl & _ & Hr)]; injection Hl as _ <-; [|by auto].
  apply mbind_run in H as [(u & s1 & Hl & H)|(x & Hl & _ & Hr)]; unfold mcontext, mlift in Hl.
  2: { destruct (endpoint sys c addr); injection Hl as _ <-; by auto. }
  destruct (endpoint sys c addr); try done. injection Hl as _ <-. injection H as <- <-. by auto.
Qed.

(** Shutting down leaves no process behind: none is registered, and the one that was
    has been killed unless this is the test mode. *)
Definition Stopped (pid : option Z) (s : Setup.St) : Prop :=
  Setup.inner_init_pid (Setup.mgr s) = None /\ forall p, pid = Some p -> p ∈ Setup.killed (Setup.os s).

Lemma stopped_io pid : keeps (Stopped pid) Setup.io.
Proof. intros s Hs. unfold Setup.io. by destruct (Setup.io_faults (Setup.os s)) as [|[]]. Qed.

Lemma stopped_put_fs pid f : keeps (Stopped pid) (Setup.put_fs f).
Proof. by intros s Hs. Qed.

Lemma stopped_get_fs pid : keeps (Stopped pid) Setup.get_fs.
Proof. by intros s Hs. Qed.

Lemma stopped_get_mgr pid : keeps (Stopped pid) Setup.get_mgr.
Proof. by intros s Hs. Qed.
Hint Resolve stopped_io stopped_put_fs stopped_get_fs stopped_get_mgr : keeps.

Lemma stopped_marker pid : keeps (Stopped pid) Setup.clear_fallback_marker.
Proof. unfold Setup.clear_fallback_marker, Setup.clear_marker, Setup.remove_file, Setup.fail. keeps_code. Qed.

Lemma clear_fallback_returns s : fst (Setup.clear_fallback_marker s) <> Panic.
Proof.
  unfold Setup.clear_fallback_marker, Setup.clear_marker, Setup.remove_file, mbind, M_bind, mbind_st, mtry,
    Setup.get_mgr, Setup.get_fs, Setup.fail, mlift.
  destruct (Setup.io s) as [r1 s1] eqn:E. apply Setup.io_inv in E as (_ & _ & [->| ->]); [|done]. cbn.
  by destruct (Setup.fs (Setup.os s1) !! _) as [[]|].
Qed.

Lemma shutdown_stops s :
  let '(r, s') := Setup.shutdown s in
  r = Ok tt /\ Stopped (if Setup.test_mode (Setup.mgr s) then None else Setup.inner_init_pid (Setup.mgr s)) s'.
Proof.
  unfold Setup.shutdown, Setup.runtime_started, Setup.stop_runtime.
  unfold mbind at 1, M_bind, mbind_st, Setup.get_mgr at 1. cbn.
  destruct (Setup.inner_init_pid (Setup.mgr s)) as [pid|] eqn:Ep; cbn.
  2: { split; [done|]. split; [done|]. by destruct (Setup.test_mode (Setup.mgr s)). }
  unfold mtry, mbind, M_bind, mbind_st, Setup.get_mgr, Setup.put_runtime. rewrite Ep.
  destruct (Setup.test_mode (Setup.mgr s)); cbn; [done|].
  pose proof (stopped_marker (Some pid)) as Hk. unfold Setup.kill. cbn.
  set (s1 := Setup.mkSt _ _). specialize (Hk s1).
  assert (Hs1 : Stopped (Some pid) s1).
  { split; [done|]. intros p [= <-]. cbn. apply elem_of_app. right. by left. }
  specialize (Hk Hs1). pose proof (clear_fallback_returns s1) as Hr.
  by destruct (Setup.clear_fallback_marker s1) as [[[]|e|] s2].
Qed.

(** A shared state there is, with what the process was given. *)
Definition Up (b : bool) (token : option string) (s : Init) : Prop :=
  exists srv, shared s = Some srv /\ Given b token srv.

Lemma works_up b token tm ws s r s' :
  with_shared (do_works tm ws) s = (r, s') -> Up b token s -> vars s' = vars s /\ events s' = events s /\ Up b token s'.
Proof.
  unfold with_shared. intros H (srv & Hs & Hg). rewrite Hs in H.
  pose proof (given_works b token tm ws srv Hg) as Hk. destruct (do_works tm ws srv) as [r1 srv1].
  injection H as <- <-. split_and!; [done..|]. by exists srv1.
Qed.

Lemma shut_down_run b token s r s' :
  shut_down s = (r, s') -> Up b token s ->
  r = Ok tt /\ vars s' = vars s /\ Up b token s' /\
  exists was killed, events s' = events s ++ [ShutDown was None killed] /\
    (b = false -> forall p, was = Some p -> p ∈ killed).
Proof.
  intros H (srv & Hs & Hg). unfold shut_down, runtime, with_shared, InitServer.with_setup, mbind, M_bind, mbind_st, log in H.
  rewrite Hs in H. cbn in H. pose proof (shutdown_stops (InitServer.setup srv)) as Hst.
  pose proof (given_setup b token Setup.shutdown (mode_shutdown b) srv Hg) as Hk. unfold InitServer.with_setup in Hk.
  destruct (Setup.shutdown (InitServer.setup srv)) as [r1 st1]. destruct Hst as (-> & Hp & Hkill).
  cbn in H, Hk. injection H as <- <-. cbn. rewrite Hp. split; [done|]. split; [done|].
  split; [by eexists|]. eexists _, _. split; [done|]. intros Hb p E. destruct Hg as [Hm _].
  unfold Mode in Hm. rewrite Hm, Hb in Hkill. by apply Hkill.
Qed.

(** The order of what follows the firewall, and what a shutdown leaves. *)
Definition Ordered (b : bool) (clean : Vars) (rest : list Event) : Prop :=
  exists was killed,
    (rest `prefix_of` [Booted clean; Listening clean; ShutDown was None killed] \/
     rest `prefix_of` [Booted clean; ShutDown was None killed]) /\
    (b = false -> forall p, was = Some p -> p ∈ killed).

Definition is_signal (stop : Stop) : bool :=
  match stop with EndpointStopped _ => false | SignalFirst | SignalAfter _ _ => true end.

Definition is_shutdown (e : Event) : bool := match e with ShutDown _ _ _ => true | _ => false end.

(** After the boot. *)
Lemma run_ordered sys a stop token clean evs s r s' :
  run sys a stop s = (r, s') -> Up (test_mode a) token s -> vars s = clean -> events s = evs ++ [Booted clean] ->
  exists rest, events s' = evs ++ rest /\ rest <> [] /\ Ordered (test_mode a) clean rest /\
    Up (test_mode a) token s' /\
    (r = Ok tt -> is_signal stop = true /\ existsb is_shutdown rest = true).
Proof.
  intros H Hup Hv He.
  assert (Hno : forall rest, rest `prefix_of` [Booted clean; Listening clean] -> Ordered (test_mode a) clean rest).
  { intros rest Hr. exists None, []. split; [|done]. left. etrans; [exact Hr|]. by exists [ShutDown None None []]. }
  assert (Hserve : forall m : M Init unit, (_ ← serve sys a; m) s = (r, s') ->
    (exists s1, m s1 = (r, s') /\ Up (test_mode a) token s1 /\ vars s1 = clean /\
       events s1 = evs ++ [Booted clean; Listening clean]) \/
    (events s' = evs ++ [Booted clean] /\ Up (test_mode a) token s' /\ r <> Ok tt)).
  { intros m Hm. apply mbind_run in Hm as [(u & s1 & Hl & Hm)|(x & Hl & Hx & Hr)];
      apply serve_run in Hl as (Hv1 & Hs1 & [[Hok He1]|[Hok He1]]); try done.
    - left. exists s1. split; [done|]. split; [unfold Up in *; by rewrite Hs1|]. split; [congruence|].
      rewrite He1, He, Hv, <- app_assoc. done.
    - by rewrite Hok in Hx.
    - right. split; [congruence|]. split; [unfold Up in *; by rewrite Hs1|]. intros ->. by destruct x. }
  destruct stop as [|work|work late]; cbn [run] in H.
  - apply (shut_down_run (test_mode a) token) in H as (-> & _ & Hup' & was & killed & He' & Hk); [|done].
    exists [Booted clean; ShutDown was None killed]. rewrite He', He, <- app_assoc. split_and!; [done..| |done|done].
    exists was, killed. split; [by right|done].
  - apply Hserve in H as [(s1 & H & Hup1 & _ & He1)|(He1 & Hup1 & Hr)].
    + apply mbind_run in H as [(u & s2 & Hl & H)|(x & Hl & _ & Hr)];
        apply (works_up (test_mode a) token) in Hl as (_ & He2 & Hup2); try done.
      * injection H as <- <-. exists [Booted clean; Listening clean]. split_and!; [congruence|done|by apply Hno|done|done].
      * exists [Booted clean; Listening clean]. split_and!; [congruence|done|by apply Hno|done|by intros ->].
    + exists [Booted clean]. split_and!; [done..|apply Hno; by eexists|done|done].
  - apply Hserve in H as [(s1 & H & Hup1 & _ & He1)|(He1 & Hup1 & Hr)].
    + apply mbind_run in H as [(u & s2 & Hl & H)|(x & Hl & _ & Hr)];
        apply (works_up (test_mode a) token) in Hl as (_ & He2 & Hup2); try done.
      2: { exists [Booted clean; Listening clean]. split_and!; [congruence|done|by apply Hno|done|by intros ->]. }
      apply mbind_run in H as [(u' & s3 & Hl & H)|(x & Hl & Hx & _)];
        apply (shut_down_run (test_mode a) token) in Hl as (Hr3 & _ & Hup3 & was & killed & He3 & Hk); try done.
      2: { by rewrite Hr3 in Hx. }
      apply (works_up (test_mode a) token) in H as (_ & He4 & Hup4); [|done].
      exists [Booted clean; Listening clean; ShutDown was None killed].
      rewrite He4, He3, He2, He1, <- app_assoc. split_and!; [done..| |done|done]. exists was, killed. split; [by left|done].
    + exists [Booted clean]. split_and!; [done..|apply Hno; by eexists|done|done].
Qed.

(** What follows the firewall, from the state it left. *)
Lemma after_firewall sys a manager stop token v evs r s' :
  Setup.test_mode manager = test_mode a ->
  (_ ← set_vars (remove_var "ACCESS_TOKEN");
   _ ← boot sys manager token;
   _ ← mcontext "install SIGTERM handler" (mlift (sigterm_handler sys));
   _ ← mcontext "install SIGTERM handler" (mlift (sigint_handler sys));
   run sys a stop) (mkInit v evs None) = (r, s') ->
  let clean := remove_var "ACCESS_TOKEN" v in
  exists rest, events s' = evs ++ rest /\ rest <> [] /\ Ordered (test_mode a) clean rest /\
    Up (test_mode a) token s' /\
    (r = Ok tt -> is_signal stop = true /\ existsb is_shutdown rest = true).
Proof.
  intros Hmode. cbv zeta. set (clean := remove_var "ACCESS_TOKEN" v). intros H.
  apply mbind_run in H as [(u & s1 & Hl & H)|(x & Hl & Hx & _)]; injection Hl as <- <-; [|done].
  apply mbind_run in H as [(u & s2 & Hl & H)|(x & Hl & _ & Hr)];
    apply (boot_given sys a manager token _ _ _ Hmode) in Hl as (Hv & He & Hup); cbn in Hv, He.
  - assert (Hstop : forall (h : Res unit) (m : unit -> M Init unit) x0 y0,
      (mcontext "install SIGTERM handler" (mlift h) ≫= m) x0 = (r, y0) -> m tt x0 = (r, y0) \/ (y0 = x0 /\ r <> Ok tt)).
    { intros h m x0 y0. unfold mcontext, mlift, mbind, M_bind, mbind_st.
      destruct h as [[]|e|]; intros E; [by left|right; injection E as <- <-..]; done. }
    assert (Hbooted : s' = s2 -> r <> Ok tt ->
      exists rest, events s' = evs ++ rest /\ rest <> [] /\ Ordered (test_mode a) clean rest /\
        Up (test_mode a) token s' /\ (r = Ok tt -> is_signal stop = true /\ existsb is_shutdown rest = true)).
    { intros -> Hr. exists [Booted clean]. split_and!; [done..| |done|done]. exists None, []. split; [|done]. left. by eexists. }
    apply Hstop in H as [H|[-> Hr]]; [|by apply Hbooted].
    apply Hstop in H as [H|[-> Hr]]; [|by apply Hbooted].
    by eapply run_ordered.
  - exists [Booted clean]. split_and!; [done..| |done|by intros ->]. exists None, []. split; [|done]. left. by eexists.
Qed.

End lemmas.

(** ** Witness *)

#[local] Existing Instance InitServer.demo_host.
#[local] Existing Instance Setup.one_file_targz.

Definition demo_system : System :=
  mkSystem (mkNft (Ok tt) true (Ok tt) (Ok (true, "exit status: 0", "")))
    (Setup.mkOs (Setup.demo_fs [(["data"; ".provisioned"], Setup.NFile [])]) [] [] [inl 2; inl 3] [])
    (Ok tt) (Ok tt) (Ok tt, Ok tt, Ok tt) (Ok ["[::]:8443"]) (fun _ _ => Ok tt).

Definition demo_vars : Vars := {["ACCESS_TOKEN" := Some "s3cret"]}.

(** A client attests and reprovisions before the signal. *)
Definition demo_stop : Stop :=
  SignalAfter [Attest; Apply Ready (mkSetupRequest "s3cret" (RootfsInline [])); EnsureLive] [].

Definition last_shutdown (l : list Event) : option (option Z * option Z * list Z) :=
  match last l with Some (ShutDown was after killed) => Some (was, after, killed) | _ => None end.

Definition demo_run : Res unit * Init := main demo_system (default_args demo_vars) demo_stop (start demo_vars).


(** The connections' tasks outlive the shutdown: one that waited for the lock starts the
    inner init again, and the process ends well with that one running. *)
Theorem late_work_restarts_the_runtime :
  let '(r, s) := main demo_system (default_args demo_vars) (SignalAfter [] [EnsureLive]) (start demo_vars) in
  r = Ok tt /\ last_shutdown (events s) = Some (Some 2, None, [2]) /\
  Setup.inner_init_pid ∘ Setup.mgr ∘ InitServer.setup <$> shared s = Some (Some 3).
Proof. vm_compute. split; [reflexivity|]. split; reflexivity. Qed.
