(* ===== verification/ProxyMain.v ===== *)
(** * The proxy and the Machines API ([crates/proxy/src/machines.rs], [main.rs])

    The requests of the proxy to the API, the start of the process, and its tasks
    with the network they ask: a refinement of the interleaving of [Proxy], whose
    arguments are here what the API answered. *)

From stdpp Require Import numbers countable.
From S2P Require Import Prelude Text Process Protocol Proxy.
From S2P Require MachinesApi.

Abbreviation Request := MachinesApi.Request.
Abbreviation mkHttp := MachinesApi.mkHttp.

(** ** [machines.rs] *)

(** What [reqwest] makes of a status that is an error, and the parser of the list. *)
Class Reqwest := {
  status_error : Z -> Error;
  parse_entries : string -> Res (list MachineEntry);
}.

(** [Response::error_for_status]: an error for 400 to 599. *)
Definition error_for_status `{RQ : Reqwest} (response : MachinesApi.Response) : Res MachinesApi.Response :=
  let status := MachinesApi.response_status response in
  if is_error_status status then Err (status_error status) else Ok response.

Definition machines_url (app : string) : string := "https://api.machines.dev/v1/apps/" +:+ app +:+ "/machines".

(** The requests. *)
Definition list_request (api_token app : string) : Request :=
  mkHttp MachinesApi.GET (machines_url app) api_token [] None None.
Definition start_request (api_token app machine_id : string) : Request :=
  mkHttp MachinesApi.POST (machines_url app +:+ "/" +:+ machine_id +:+ "/start") api_token [] None None.
Definition wait_request (api_token app machine_id : string) : Request :=
  mkHttp MachinesApi.GET (machines_url app +:+ "/" +:+ machine_id +:+ "/wait") api_token
    [("state", "started"); ("timeout", "30")] None None.

Section api.
Context {Net : Type} `{HN : MachinesApi.Http Net} `{RQ : Reqwest}.
Context (api_token app : string).

Definition fetch_machines : M Net (list MachineEntry) :=
  response ← mcontext "fetch machines list" (MachinesApi.transmit (list_request api_token app));
  response ← mlift (with_context "machines api error status" (error_for_status response));
  mlift (with_context "parse machines response" (body ← MachinesApi.response_text response; parse_entries body)).

Definition start_machine (machine_id : string) : M Net unit :=
  response ← mcontext "start machine request" (MachinesApi.transmit (start_request api_token app machine_id));
  _ ← mlift (with_context "start machine error status" (error_for_status response));
  mret tt.

Definition wait_for_started (machine_id : string) : M Net unit :=
  response ← mcontext "wait for machine started" (MachinesApi.transmit (wait_request api_token app machine_id));
  _ ← mlift (with_context "wait for started error status" (error_for_status response));
  mret tt.
End api.

(** ** [main.rs] *)

Record Args := mkArgs {
  port : Z;
  backend_port : Z;
  refresh_interval_secs : Z;
  session_timeout_secs : Z;
}.

(** What [clap] fills in. *)
Definition default_args : Args := mkArgs 8443 8443 15 120.

Section main.
Context {Ip : Type} `{Countable Ip} (parse_ip : string -> option Ip).
Context {Net : Type} `{HN : MachinesApi.Http Net} `{RQ : Reqwest}.

Abbreviation Proxy := (Proxy (Ip := Ip)).

(** The proxy with its network; [asked] and [listed] are what it asked the API and
    the machines the API ever listed. *)
Record Running := mkRunning {
  proxy : Proxy;
  net : Net;
  asked : list Request;
  listed : list MachineEntry;
}.

Definition entries_of (fetched : Res (list MachineEntry)) : list MachineEntry :=
  match fetched with Ok entries => entries | _ => [] end.

Section tasks.
Context (api_token app : string).

(** [refresh_once] with its request. *)
Definition refresh (s : Running) : Running :=
  let '(fetched, net) := fetch_machines api_token app (net s) in
  mkRunning (refresh_once parse_ip fetched (proxy s)) net (asked s ++ [list_request api_token app])
    (listed s ++ entries_of fetched).

(** A task of [maybe_start_machine] with the call of the API it is at. *)
Definition starter_call (i : nat) (s : Running) : option Running :=
  match starters (proxy s) !! i with
  | None => None
  | Some (mkStarter machine_id pc) =>
      match pc with
      | CallStart =>
          let '(r, net) := start_machine api_token app machine_id (net s) in
          p ← starter_step parse_ip (Answer r) i (proxy s);
          Some (mkRunning p net (asked s ++ [start_request api_token app machine_id]) (listed s))
      | CallWait =>
          let '(r, net) := wait_for_started api_token app machine_id (net s) in
          p ← starter_step parse_ip (Answer r) i (proxy s);
          Some (mkRunning p net (asked s ++ [wait_request api_token app machine_id]) (listed s))
      | CallRefresh =>
          let '(fetched, net) := fetch_machines api_token app (net s) in
          p ← starter_step parse_ip (Fetched fetched) i (proxy s);
          Some (mkRunning p net (asked s ++ [list_request api_token app]) (listed s ++ entries_of fetched))
      | _ =>
          p ← starter_step parse_ip NoAnswer i (proxy s);
          Some (mkRunning p (net s) (asked s) (listed s))
      end
  end.

Definition set_proxy (p : Proxy) (s : Running) : Running := mkRunning p (net s) (asked s) (listed s).

(** The three loops of the [select!] and the tasks they spawn. *)
Inductive run_step (a : Args) : Running -> Running -> Prop :=
| run_packet s io f g send_result client packet r p' :
    sweeps (session_timeout_secs a) f -> sweeps (session_timeout_secs a) g ->
    bind_result io <> Panic -> connect_result io <> Panic ->
    proxy_packet io f g send_result (backend_port a) client packet (proxy s) = (r, p') ->
    run_step a s (set_proxy p' s)
| run_relay s now received send_result session :
    run_step a s (set_proxy (relay_step now received send_result session (proxy s)) s)
| run_cleanup s now : run_step a s (set_proxy (sweep now (session_timeout_secs a) (proxy s)) s)
| run_poll s : run_step a s (refresh s)
| run_starter s i s' : starter_call i s = Some s' -> run_step a s s'.
End tasks.

(** [main] up to its [select!]; [bind]: the frontend socket.  The result is the app
    and the token with the proxy as it starts serving. *)
Definition main (vars : Vars) (bind : Res unit) (n : Net) : Res (string * string * Running) :=
  let vars := default_log_level vars in
  fly_app ← with_context "FLY_APP env var required" (env_var "FLY_APP" vars);
  fly_api_token ← with_context "FLY_API_TOKEN env var required" (env_var "FLY_API_TOKEN" vars);
  let s := refresh fly_api_token fly_app (mkRunning proxy_initial n [] []) in
  _ ← with_context "bind frontend socket" bind;
  Ok (fly_app, fly_api_token, s).

Inductive main_reachable (vars : Vars) (bind : Res unit) (n : Net) (a : Args) : string -> string -> Running -> Prop :=
| main_started app token s : main vars bind n = Ok (app, token, s) -> main_reachable vars bind n a app token s
| main_more app token s s' : main_reachable vars bind n a app token s -> run_step token app a s s' ->
    main_reachable vars bind n a app token s'.

(** ** Lemmas *)

Lemma refresh_entries_known entries m f id st :
  snd (fold_left (refresh_entry parse_ip) entries (m, f)) !! id = Some st ->
  (exists e, e ∈ entries /\ entry_id e = id /\ entry_state e = st) \/ f !! id = Some st.
Proof.
  revert m f. induction entries as [|e es IH]; intros m f Hl; cbn [fold_left] in Hl; [by right|].
  set (m' := fst (refresh_entry parse_ip (m, f) e)).
  assert (Es : refresh_entry parse_ip (m, f) e = (m', <[entry_id e := entry_state e]> f))
    by (subst m'; unfold refresh_entry; case_bool_decide; [destruct (_ ≫= _)|]; done).
  rewrite Es in Hl. apply IH in Hl as [(x & Hx & Hr)|Hl]; [left; exists x; split; [by right|done]|].
  apply lookup_insert_Some in Hl as [[<- <-]|[_ Hl]]; [left; exists e; split; [by left|done]|by right].
Qed.

Section invariant.
Context (api_token app : string) (a : Args).

(** Some entry the API listed says that the machine can be started. *)
Definition listed_startable (l : list MachineEntry) (machine_id : string) : Prop :=
  exists e, e ∈ l /\ entry_id e = machine_id /\ startable (Some (entry_state e)) = true.

(** A request of the proxy. *)
Definition own_request (l : list MachineEntry) (q : Request) : Prop :=
  q = list_request api_token app \/
  exists machine_id, listed_startable l machine_id /\
    (q = start_request api_token app machine_id \/ q = wait_request api_token app machine_id).

Record AskedOk (s : Running) : Prop := {
  ak_known : forall id st, full_map (proxy s) !! id = Some st ->
    exists e, e ∈ listed s /\ entry_id e = id /\ entry_state e = st;
  ak_starters : forall i id pc, starters (proxy s) !! i = Some (mkStarter id pc) ->
    pc = CheckState \/ pc = StartDone \/ listed_startable (listed s) id;
  ak_asked : Forall (own_request (listed s)) (asked s);
}.

Lemma listed_more l l' id : listed_startable l id -> listed_startable (l ++ l') id.
Proof. intros (e & He & Hr). exists e. split; [apply elem_of_app; by left|done]. Qed.

Lemma own_more l l' q : own_request l q -> own_request (l ++ l') q.
Proof. intros [->|(id & Hl & Hq)]; [by left|]. right. exists id. split; [by apply listed_more|done]. Qed.

(** The parts the invariant looks at stayed. *)
Lemma asked_same p s :
  full_map p = full_map (proxy s) -> starters p = starters (proxy s) -> AskedOk s -> AskedOk (set_proxy p s).
Proof. intros Hf Hs []. split; cbn; rewrite ?Hf, ?Hs; done. Qed.

Lemma asked_refresh s :
  AskedOk s -> AskedOk (refresh api_token app s).
Proof.
  intros [Hk Hs Ha]. unfold refresh. destruct (fetch_machines api_token app (net s)) as [fetched n'].
  destruct (refresh_rest parse_ip fetched (proxy s)) as (_ & _ & _ & Est & _). split; cbn.
  - intros id st Hl. destruct fetched as [es|e|]; cbn in Hl |- *.
    2, 3: rewrite app_nil_r; by apply Hk.
    pose proof (refresh_entries_known es ∅ ∅ id st) as Hn.
    destruct (fold_left _ es (∅, ∅)) as [nm nf]. cbn in Hl, Hn. apply Hn in Hl as [(e & He & Hr)|Hl].
    + exists e. split; [apply elem_of_app; by right|done].
    + by rewrite lookup_empty in Hl.
  - intros i id pc Hi. rewrite Est in Hi. destruct (Hs i id pc Hi) as [?|[?|?]]; auto using listed_more.
  - apply Forall_app. split; [eapply Forall_impl; [exact Ha|]; intros q; apply own_more|].
    apply Forall_singleton. by left.
Qed.

Lemma asked_starters (p : Proxy) s l q :
  full_map p = full_map (proxy s) -> AskedOk s ->
  (forall i id pc, starters p !! i = Some (mkStarter id pc) ->
     starters (proxy s) !! i = Some (mkStarter id pc) \/ pc = CheckState \/ pc = StartDone \/ listed_startable (listed s) id) ->
  Forall (own_request (listed s)) q -> AskedOk (mkRunning p l (asked s ++ q) (listed s)).
Proof.
  intros Hf [Hk Hs Ha] Hp Hq. split; cbn.
  - by rewrite Hf.
  - intros i id pc Hi. destruct (Hp i id pc Hi) as [Ho|?]; [by eapply Hs|done].
  - by apply Forall_app.
Qed.

(** A step of a starter: the one it is moves, with what it found. *)
Lemma starter_step_starters answer i (p p' : Proxy) id pc :
  starters p !! i = Some (mkStarter id pc) -> starter_step parse_ip answer i p = Some p' ->
  (answer = NoAnswer \/ (exists r, answer = Answer r) -> full_map p' = full_map p) /\
  exists pc', starters p' = <[i := mkStarter id pc']> (starters p) /\
    (pc = CheckState -> pc' = StartDone \/ startable (full_map p !! id) = true).
Proof.
  intros Hi Hs. unfold starter_step in Hs. rewrite Hi in Hs.
  destruct pc, answer as [|r|fetched]; try done; try case_bool_decide; injection Hs as <-; cbn;
    try (split; [done|]; eexists; split; [done|]; done).
  - split; [done|]. eexists. split; [done|]. intros _. destruct (startable _); [by right|by left].
  - split; [by intros [?|[? ?]]|]. destruct (refresh_rest parse_ip fetched p) as (_ & _ & _ & -> & _).
    by eexists.
Qed.

Lemma asked_starter i s s' : AskedOk s -> starter_call api_token app i s = Some s' -> AskedOk s'.
Proof.
  intros Hok Hc. unfold starter_call in Hc. destruct (starters (proxy s) !! i) as [[id pc]|] eqn:Ei; [|done].
  assert (Hgo : forall answer p q, starter_step parse_ip answer i (proxy s) = Some p ->
    answer = NoAnswer \/ (exists r, answer = Answer r) -> Forall (own_request (listed s)) q ->
    forall l, AskedOk (mkRunning p l (asked s ++ q) (listed s))).
  { intros answer p q Hs Ha Hq l. destruct (starter_step_starters _ _ _ _ _ _ Ei Hs) as (Hf & pc' & Hst & Hcheck).
    apply asked_starters; [by apply Hf|done| |done]. intros j jd jpc Hj. rewrite Hst in Hj.
    apply list_lookup_insert_Some in Hj as [(<- & [= <- <-] & _)|[_ Hj]]; [right|by left].
    destruct (ak_starters s Hok i id pc Ei) as [->|[->|Hl]]; [| |by auto].
    - destruct (Hcheck eq_refl) as [->|Hst']; [by auto|]. right; right.
      destruct (full_map (proxy s) !! id) as [st|] eqn:Ef; [|done].
      destruct (ak_known s Hok id st Ef) as (e & He & Hid & Hes). exists e. by rewrite Hes.
    - unfold starter_step in Hs. rewrite Ei in Hs. by destruct answer. }
  assert (Hl : pc <> CheckState -> pc <> StartDone -> listed_startable (listed s) id).
  { intros Hn1 Hn2. destruct (ak_starters s Hok i id pc Ei) as [?|[?|?]]; done. }
  destruct pc.
  1, 2, 6, 7: destruct (starter_step parse_ip NoAnswer i (proxy s)) as [p|] eqn:Es; [|done];
    injection Hc as <-; rewrite <- (app_nil_r (asked s)); eapply Hgo; [exact Es|by left|constructor].
  - destruct (start_machine api_token app id (net s)) as [r n'].
    destruct (starter_step parse_ip (Answer r) i (proxy s)) as [p|] eqn:Es; [|done]. injection Hc as <-.
    eapply Hgo; [exact Es|eauto|]. apply Forall_singleton. right. exists id. split; [by apply Hl|by left].
  - destruct (wait_for_started api_token app id (net s)) as [r n'].
    destruct (starter_step parse_ip (Answer r) i (proxy s)) as [p|] eqn:Es; [|done]. injection Hc as <-.
    eapply Hgo; [exact Es|eauto|]. apply Forall_singleton. right. exists id. split; [by apply Hl|by right].
  - pose proof (asked_refresh s Hok) as Hr. unfold refresh in Hr.
    destruct (fetch_machines api_token app (net s)) as [fetched n'].
    destruct (starter_step parse_ip (Fetched fetched) i (proxy s)) as [p|] eqn:Es; [|done]. injection Hc as <-.
    unfold starter_step in Es. rewrite Ei in Es. injection Es as <-. destruct Hr as [Hk Hs Ha]. split; cbn in *.
    + exact Hk.
    + intros j jd jpc Hj. destruct (refresh_rest parse_ip fetched (proxy s)) as (_ & _ & _ & Est & _).
      apply list_lookup_insert_Some in Hj as [(<- & [= <- <-] & _)|[_ Hj]]; [|by eapply Hs].
      right; right. by apply listed_more, Hl.
    + exact Ha.
Qed.

Lemma asked_step s s' :
  SessionsOk (proxy s) -> AskedOk s -> run_step api_token app a s s' -> AskedOk s'.
Proof.
  intros HS Hok. destruct 1 as [s io f g sr c packet r p' Hf Hg Hb Hcn Hp|s now rv sr k|s now|s|s i s' Hc].
  - destruct (proxy_packet_spec _ _ _ _ _ _ _ _ _ _ _ HS Hb Hcn Hf Hg Hp) as [_ Hd].
    destruct (decode_proxy_packet packet) as [d|e|].
    2, 3: destruct Hd as [_ ->]; by destruct s.
    destruct Hd as [_ Hd]. destruct (machine_map (proxy s) !! machine_id d) as [ip|].
    + destruct Hd as (rs & q & (_ & Ef & _ & E2 & _) & _ & Hq).
      apply asked_same; [..|done]; destruct rs, sr; subst p'; cbn; done.
    + subst p'. unfold set_proxy. rewrite <- (app_nil_r (asked s)). apply asked_starters; [done|done| |constructor].
      intros j id pc Hj. cbn in Hj. apply lookup_snoc_Some in Hj as [[_ Hj]|[_ [= <- <-]]]; auto.
  - apply asked_same; [..|done]; unfold relay_step; (destruct (heap (proxy s) !! k) as [x|]; [|done]);
      destruct (negb _); [done|..|done|]; by destruct rv, sr.
  - by apply asked_same.
  - by apply asked_refresh.
  - by eapply asked_starter.
Qed.
End invariant.

(** The proxy with its network is the interleaving of [Proxy]. *)
Lemma run_step_refines api_token app a s s' :
  run_step api_token app a s s' ->
  proxy_step parse_ip (session_timeout_secs a) (backend_port a) (proxy s) (proxy s').
Proof.
  destruct 1 as [s io f g sr c packet r p' Hf Hg Hb Hcn Hp|s now rv sr k|s now|s|s i s' Hc]; cbn.
  - eapply step_packet; [exact Hf|exact Hg|exact Hb|exact Hcn|exact Hp].
  - apply step_relay.
  - apply step_sweep.
  - unfold refresh. destruct (fetch_machines api_token app (net s)). apply step_refresh.
  - unfold starter_call in Hc. destruct (starters (proxy s) !! i) as [[id pc]|]; [|done].
    destruct pc.
    1, 2, 6, 7: destruct (starter_step parse_ip NoAnswer i (proxy s)) as [p|] eqn:Es; [|done];
      injection Hc as <-; by eapply step_starter.
    + destruct (start_machine api_token app id (net s)) as [r n'].
      destruct (starter_step parse_ip (Answer r) i (proxy s)) as [p|] eqn:Es; [|done]. injection Hc as <-. by eapply step_starter.
    + destruct (wait_for_started api_token app id (net s)) as [r n'].
      destruct (starter_step parse_ip (Answer r) i (proxy s)) as [p|] eqn:Es; [|done]. injection Hc as <-. by eapply step_starter.
    + destruct (fetch_machines api_token app (net s)) as [r n'].
      destruct (starter_step parse_ip (Fetched r) i (proxy s)) as [p|] eqn:Es; [|done]. injection Hc as <-. by eapply step_starter.
Qed.

End main.

(** ** Witness: a datagram for a stopped machine *)

Definition demo_http : MachinesApi.Http unit := {|
  MachinesApi.transmit _ := fun n => (Ok (MachinesApi.mkResponse 200 (Ok "")), n);
|}.
Definition demo_reqwest : Reqwest := {|
  status_error _ := [];
  parse_entries _ := Ok demo_machines;
|}.
#[local] Existing Instance demo_http.
#[local] Existing Instance demo_reqwest.

Definition demo_vars : Vars := <["FLY_APP" := Some "vault"]> {["FLY_API_TOKEN" := Some "t0"]}.

Abbreviation DemoRunning := (Running (Ip := Z) (Net := unit)).

Definition demo_started : DemoRunning :=
  refresh demo_ip "t0" "vault" (mkRunning proxy_initial tt [] []).

Definition demo_call (s : DemoRunning) : DemoRunning := default s (starter_call demo_ip "t0" "vault" 0 s).

Definition demo_running : DemoRunning :=
  demo_call (demo_call (demo_call (set_proxy (demo_datagram 100 "m2" (proxy demo_started)) demo_started))).

Abbreviation demo_main_reachable := (main_reachable demo_ip demo_vars (Ok tt) tt default_args "vault" "t0").

Lemma demo_call_reachable s : demo_main_reachable s -> demo_main_reachable (demo_call s).
Proof.
  intros Hs. unfold demo_call. destruct (starter_call demo_ip "t0" "vault" 0 s) as [s'|] eqn:E; [|done].
  eapply main_more; [exact Hs|by eapply run_starter].
Qed.

Lemma demo_running_reachable : demo_main_reachable demo_running.
Proof.
  do 3 apply demo_call_reachable. eapply main_more; [apply main_started; vm_compute; reflexivity|].
  eapply (run_packet _ _ _ _ demo_started (demo_io 100) _ _ (Ok tt) demo_client (demo_packet "m2") (Ok tt));
    [apply no_sweep|apply no_sweep|done|done|]. apply surjective_pairing.
Qed.

