(* ===== verification/ClientEndpoint.v ===== *)
(** * The client's end of TLS ([crates/client/src/quic.rs])

    The addresses, the endpoint in its two transports, the TLS and QUIC
    configuration, and the certificate verifier; what is shown while connecting;
    and what the verifier means for a client that has a machine in its cache.
    Sockets, [rustls] and [quinn] are parameters. *)

From S2P Require Import Prelude Protocol ClientTrust Handshake.
From S2P Require ProxyUdp ServerMain.

(** ** What is shown *)

Inductive ConnectPhase :=
| ResolvingAddress
| Handshaking
| RequestingAttestation
| VerifyingAttestation
| SendingSetupRequest
| WaitingForReady.

Definition message (self : ConnectPhase) : string :=
  match self with
  | ResolvingAddress => "Resolving machine address"
  | Handshaking => "Connecting to machine"
  | RequestingAttestation => "Requesting machine attestation"
  | VerifyingAttestation => "Verifying machine attestation"
  | SendingSetupRequest => "Sending setup request"
  | WaitingForReady => "Waiting for machine to become ready"
  end.

(** The spinner: nothing without a terminal, else its message. *)
Record ConnectSpinner := mkSpinner { bar : option string }.

Definition ConnectSpinner_new (is_terminal : bool) (cfg : VaultConfig) : ConnectSpinner :=
  if negb is_terminal then mkSpinner None else mkSpinner (Some ("Connecting to " +:+ cfg_app cfg)).

Definition set_message (text : string) (self : ConnectSpinner) : ConnectSpinner :=
  mkSpinner (match bar self with Some _ => Some text | None => None end).

Definition set_phase (phase : ConnectPhase) : ConnectSpinner -> ConnectSpinner := set_message (message phase).

Definition set_setup_message (state : VmState) (reprovision : bool) : ConnectSpinner -> ConnectSpinner :=
  set_message
    (if bool_decide (state = Ready) && negb reprovision then "Authenticating with machine"
     else if reprovision then "Loading replacement rootfs"
     else "Loading rootfs").

(** ** The endpoint *)

Definition resolve_addr (to_socket_addrs : string -> Res (list string)) (addr : string) : Res string :=
  resolved ← with_context ("resolve address " +:+ addr) (to_socket_addrs addr);
  ok_or ("address resolution returned no results for " +:+ addr) (head resolved).

(** An endpoint: the address it is bound to, and the header its socket puts before
    each datagram. *)
Record Endpoint := mkEndpoint {
  local_addr : string;
  machine_header : option (list byte);
}.

(** [bind] of a UDP socket; the runtime and its wrapping of a socket; [quinn]'s
    constructors. *)
Record Sockets := mkSockets {
  client_result : Res unit;
  runtime : bool;
  bind : string -> Res unit;
  wrap_udp_socket : Res unit;
  abstract_result : Res unit;
}.

Section endpoint.
Context (os : Sockets) (display : Error -> string).

(** [Result::or_else]. *)
Definition res_or_else {A} (r : Res A) (f : Res A) : Res A := match r with Err _ => f | _ => r end.

Definition build_proxy_endpoint (machine_id : string) : Res Endpoint :=
  _ ← (if runtime os then Ok tt else anyhow "no async runtime found");
  addr ← with_context "bind proxy-mode udp socket"
    (res_or_else (_ ← bind os "[::]:0"; Ok "[::]:0") (_ ← bind os "0.0.0.0:0"; Ok "0.0.0.0:0"));
  _ ← with_context "wrap proxy-mode udp socket" (wrap_udp_socket os);
  socket ← match ProxyUdp.new_socket machine_id with
           | Err e => anyhow ("configure proxy-mode udp socket: " +:+ display e)
           | r => r
           end;
  _ ← with_context "create quic client" (abstract_result os);
  Ok (mkEndpoint addr (Some (ProxyUdp.machine_header socket))).

Definition build_client_endpoint (transport : TransportConfig) : Res Endpoint :=
  match transport with
  | Direct => _ ← with_context "create quic client" (client_result os); Ok (mkEndpoint "[::]:0" None)
  | ProxyMode machine_id => build_proxy_endpoint machine_id
  end.
End endpoint.

(** ** TLS *)

Inductive SignatureScheme := RSA_PSS_SHA256 | ECDSA_NISTP256_SHA256 | ED25519.

(** [rustls]'s [ServerCertVerifier]: what it is asked about the certificate, and
    about the signature that shows the key. *)
Record ServerCertVerifier := mkVerifier {
  verify_server_cert : list byte -> list (list byte) -> string -> list byte -> Z -> Res unit;
  verify_tls12_signature : list byte -> list byte -> list byte -> Res unit;
  verify_tls13_signature : list byte -> list byte -> list byte -> Res unit;
  supported_verify_schemes : list SignatureScheme;
}.

Definition NoVerifier : ServerCertVerifier :=
  mkVerifier (fun _ _ _ _ _ => Ok tt) (fun _ _ _ => Ok tt) (fun _ _ _ => Ok tt)
    [RSA_PSS_SHA256; ECDSA_NISTP256_SHA256; ED25519].

Record ClientConfig := mkClientConfig {
  verifier : ServerCertVerifier;
  client_alpn : list string;
  client_transport : ServerMain.TransportConfig;
}.

Definition insecure_client_config (quic : Res unit) : Res ClientConfig :=
  let transport := ServerMain.mkTransport 1200 "bbr" (Some 30000) false (Some 2000) in
  _ ← with_context "build quinn rustls client config" quic;
  Ok (mkClientConfig NoVerifier ["h3"] transport).

(** What a server shows in a TLS 1.3 handshake: its certificates, and a signature of
    the transcript. *)
Record Peer := mkPeer {
  certificates : list (list byte);
  transcript : list byte;
  signature : list byte;
}.

(** ** Trust *)

Create HintDb calm.

(** Code that does not panic. *)
Definition calm {S A} (m : M S A) : Prop := forall s, fst (m s) <> Panic.

Lemma calm_bind {S A B} (m : M S A) (f : A -> M S B) : calm m -> (forall a, calm (f a)) -> calm (m ≫= f).
Proof.
  intros Hm Hf s. unfold mbind, M_bind, mbind_st. specialize (Hm s).
  destruct (m s) as [[a|e|] s1]; [apply Hf|done|done].
Qed.

Lemma calm_lift {S A} (r : Res A) : r <> Panic -> calm (S := S) (mlift r).
Proof. by intros Hr s. Qed.

Lemma calm_context {S A} msg (m : M S A) : calm m -> calm (mcontext msg m).
Proof. intros Hm s. unfold mcontext. specialize (Hm s). by destruct (m s) as [[] ?]. Qed.

(** Nothing reaches the handler of a [mtry] but what does not panic. *)
Lemma calm_try {S A B} (m : M S A) (f : Res A -> M S B) :
  calm m -> (forall r, r <> Panic -> calm (f r)) -> calm (mtry m ≫= f).
Proof.
  intros Hm Hf s. unfold mbind, M_bind, mbind_st, mtry. specialize (Hm s).
  destruct (m s) as [r s1]. cbn in Hm. destruct r; [by apply Hf|by apply Hf|done].
Qed.

Section calm.
Context `{JS : Json}.

Lemma calm_io_fault : calm io_fault.
Proof. intros s. unfold io_fault. by destruct (io_faults s) as [|[] ?]. Qed.

Lemma calm_get : calm (S := Cl) mget.
Proof. by intros s. Qed.

Lemma calm_modify f : calm (S := Cl) (mmodify f).
Proof. by intros s. Qed.

Lemma calm_ret {A} (a : A) : calm (S := Cl) (mret a).
Proof. by intros s. Qed.

Lemma calm_with_context {A} msg (r : Res A) : r <> Panic -> calm (S := Cl) (mlift (with_context msg r)).
Proof. intros Hr. apply calm_lift. by destruct r. Qed.

Hint Resolve calm_io_fault calm_get calm_modify calm_ret calm_with_context : calm.

Ltac calm_code :=
  repeat match goal with
  | |- calm (mtry _ ≫= _) => apply calm_try; [|intros ? ?]
  | |- calm (_ ≫= _) => apply calm_bind; [|intros ?]
  | |- calm (mcontext _ _) => apply calm_context
  | |- calm (if ?b then _ else _) => destruct b
  | |- calm (match ?x with _ => _ end) => destruct x
  | |- calm (mlift (ok_or _ ?o)) => apply calm_lift; by destruct o
  | |- calm (mlift _) => first [by auto with calm | apply calm_lift; done]
  | |- calm _ => by auto with calm
  end.

Lemma calm_acquire others p : calm (acquire others p).
Proof.
  unfold acquire. generalize LOCK_RETRY_ATTEMPTS. intros n.
  induction n as [|n IH]; cbn; [by apply calm_lift|]. unfold create_new, put_disk. calm_code.
Qed.

Lemma calm_with_lock {A} p (m : M Cl A) : calm m -> calm (with_lock p m).
Proof.
  intros Hm. unfold with_lock. apply calm_try; [done|]. intros r Hr. apply calm_try; [|intros; by apply calm_lift].
  unfold remove_file, put_disk. calm_code.
Qed.

Hint Resolve calm_acquire : calm.

Lemma calm_record_cache_hit now unique others cfg transport fp :
  now <> Panic -> (forall es, to_vec_pretty es <> Panic) ->
  calm (record_cache_hit now unique others cfg transport fp).
Proof.
  intros Hnow Hser. unfold record_cache_hit, set_entries, persist. calm_code.
  apply calm_with_lock. unfold write, rename, put_disk. calm_code.
Qed.
End calm.

Section trust.
Context `{JS : Json} `{JW : Jwt}.
Context (hex_encode : list byte -> string) (sha256 : list byte -> list byte) (debug : ControlMessage -> string).

(** Whether [rustls] completes a handshake with a peer: it does when the verifier
    accepts the certificate and the signature, whatever they are. *)
Context (handshake : ClientConfig -> Peer -> Res unit).
Context (handshake_asks_the_verifier : forall config peer cert rest,
  certificates peer = cert :: rest ->
  (forall name ocsp now, verify_server_cert (verifier config) cert rest name ocsp now = Ok tt) ->
  verify_tls13_signature (verifier config) (transcript peer) cert (signature peer) = Ok tt ->
  handshake config peer = Ok tt).

(** The write of the setup request, whatever the answer to it is. *)
Lemma last_request q ib s :
  Net [CMRequestAttestation] ib s ->
  exists r s', (_ ← mcontext "send setup request" (write_stream [CMSetupRequest q]);
     reply ← read_message;
     mlift (match reply with
            | CMSetupComplete => Ok tt
            | CMError message => anyhow ("server setup error: " +:+ message)
            | other => anyhow ("expected setup response, got " +:+ debug other)
            end)) s = (r, s') /\ sent s' = [CMRequestAttestation; CMSetupRequest q].
Proof.
  intros Hn. destruct (write_stream_net [CMSetupRequest q] _ _ s Hn) as (s1 & E1 & Hx & Hi & _).
  rewrite (M_bind_Ok _ _ s tt s1) by (unfold mcontext; by rewrite E1).
  unfold mbind, M_bind, mbind_st, read_message. rewrite Hi.
  destruct ib as [|[m|e|] ib]; eexists _, _; (split; [reflexivity|]); done.
Qed.

(** C12: The certificate of a cached machine is trusted without its key.  Anyone who
    shows that certificate completes the handshake, whatever the signature; and when
    the cache has the certificate's fingerprint for the configuration, an attestation
    with any JWT makes the client send its access token. *)
Theorem cached_certificate_gets_the_token quic config a fp peer cert rest s p ib aud token e :
  insecure_client_config quic = Ok config ->
  certificates peer = cert :: rest -> peer_identity a = Some (Some (certificates peer)) ->
  server_cert_fingerprint hex_encode sha256 a = Ok fp ->
  lookup (cache s) (cfg a) (transport (cfg a)) fp = Some e ->
  export_attestation_audience hex_encode a = Ok aud -> open_result a = Ok tt ->
  cfg_access_token (cfg a) = Some token -> reprovision a = false ->
  protocol_version p = PROTOCOL_VERSION -> state p = Ready ->
  clock a <> Panic -> (forall es, to_vec_pretty es <> Panic) ->
  Net [] (Ok (CMAttestation p) :: ib) s ->
  handshake config peer = Ok tt /\ fp = hex_encode (sha256 cert) /\
  exists r s', connect_attested hex_encode debug a fp s = (r, s') /\
    sent s' = [CMRequestAttestation; CMSetupRequest (mkSetupRequest token RootfsNone)].
Proof using handshake_asks_the_verifier.
  intros Hcfg Hcert Hid Hfp Hl Haud Hopen Htok Hrep Hpv Hst Hnow Hser Hn. split_and!.
  - unfold insecure_client_config in Hcfg. apply bind_Ok in Hcfg as (u & _ & [= <-]).
    by apply (handshake_asks_the_verifier _ peer cert rest Hcert).
  - unfold server_cert_fingerprint in Hfp. rewrite Hid, Hcert in Hfp. by injection Hfp as <-.
  - unfold connect_attested. rewrite Haud, Hopen.
    rewrite (M_bind_Ok _ _ s aud s) by done. rewrite (M_bind_Ok _ _ s tt s) by done.
    destruct (write_stream_net [] _ _ s Hn) as (s1 & E1 & Hn1).
    destruct (write_stream_net [CMRequestAttestation] _ _ s1 Hn1) as (s2 & E2 & (Hx2 & Hi2 & Hw2)).
    rewrite (M_bind_Ok _ _ s tt s1) by (unfold mcontext; by rewrite E1).
    rewrite (M_bind_Ok _ _ s1 tt s2) by (unfold mcontext; by rewrite E2).
    assert (Hc2 : cache s2 = cache s).
    { unfold write_stream in E1, E2. destruct Hn as (_ & _ & Hw). rewrite Hw in E1. injection E1 as <-.
      cbn in E2. by injection E2 as <-. }
    set (s3 := mkCl (disk s2) (io_faults s2) (cache s2) (sent s2) ib (write_faults s2)).
    rewrite (M_bind_Ok read_message _ s2 (CMAttestation p) s3) by (unfold read_message; by rewrite Hi2).
    rewrite (M_bind_Ok _ _ s3 p s3) by done.
    assert (Hn3 : Net [CMRequestAttestation] ib s3) by done.
    pose proof (net_validate [CMRequestAttestation] ib a (transport (cfg a)) p aud fp s3 Hn3) as Hn4.
    assert (Hv : exists s4, validate_attestation a (transport (cfg a)) p aud fp s3 = (Ok tt, s4)).
    { unfold validate_attestation, assert_protocol_version. rewrite Hpv, Z.eqb_refl. cbn [negb].
      rewrite (M_bind_Ok _ _ s3 tt s3) by done. unfold mbind at 1, M_bind, mbind_st, mget.
      change (cache s3) with (cache s2). rewrite Hc2, Hl. unfold mbind, M_bind, mbind_st, mtry.
      pose proof (calm_record_cache_hit _ (unique a) (others a) (cfg a) (transport (cfg a)) fp Hnow Hser s3) as Hnp.
      destruct (record_cache_hit _ _ _ _ _ _ s3) as [[x|x|] s4]; [by eexists..|done]. }
    destruct Hv as (s4 & E4). rewrite E4 in Hn4. cbn in Hn4. rewrite (M_bind_Ok _ _ s3 tt s4 E4).
    rewrite Htok. rewrite (M_bind_Ok _ _ s4 token s4) by done.
    unfold provisioning_source. rewrite Hst, Hrep.
    rewrite (M_bind_Ok _ _ s4 RootfsNone s4) by done.
    destruct (last_request (mkSetupRequest token RootfsNone) ib s4 Hn4) as (r & s' & E & Hx). eauto.
Qed.
End trust.

(** ** Witness *)

#[local] Existing Instance demo_json.
#[local] Existing Instance demo_jwt.

(** A handshake that asks the verifier, on a machine that holds a certificate's bytes
    and not its key; the process has the machine in its cache. *)
Definition asking (config : ClientConfig) (peer : Peer) : Res unit :=
  match certificates peer with
  | [] => anyhow "no certificates"
  | cert :: rest =>
      _ ← verify_server_cert (verifier config) cert rest "m1" [] 0;
      verify_tls13_signature (verifier config) (transcript peer) cert (signature peer)
  end.

Definition copied_certificate : Peer := mkPeer [[x61]] (as_bytes "transcript") (as_bytes "no signature").

Definition cached_client : Cl :=
  mkCl ∅ [] (mkCache None [mkCacheEntry "my-org" "my-app" "m1" "a" 1000 1000]) []
    [Ok (CMAttestation (mkAttestation PROTOCOL_VERSION Ready SystemInit "no token"))] [].

Lemma cached_certificate_gets_the_token_witness :
  exists config, insecure_client_config (Ok tt) = Ok config /\ asking config copied_certificate = Ok tt /\
  sent (snd (connect_attested from_bytes_unchecked (fun _ => "") demo_a "a" cached_client)) =
    [CMRequestAttestation; CMSetupRequest (mkSetupRequest "s3cret" RootfsNone)].
Proof.
  destruct (insecure_client_config (Ok tt)) as [config|e|] eqn:E; [|by vm_compute in E..].
  destruct (cached_certificate_gets_the_token from_bytes_unchecked (fun b => b) (fun _ => "") asking
    ltac:(intros c p0 cert rest Hp Hv Hs; unfold asking; rewrite Hp, (Hv _ _ _); exact Hs)
    (Ok tt) config demo_a "a" copied_certificate [x61] [] cached_client
    (mkAttestation PROTOCOL_VERSION Ready SystemInit "no token") [] "*" "s3cret"
    (mkCacheEntry "my-org" "my-app" "m1" "a" 1000 1000))
    as (Hh & _ & r & s' & Hc & Hs).
  all: try (vm_compute; reflexivity).
  - exact E.
  - done.
  - done.
  - by repeat split.
  - exists config. split; [reflexivity|]. split; [exact Hh|]. by rewrite Hc.
Defined.
