(* ===== verification/ControlSocket.v ===== *)
(** * The control socket as a server ([crates/client/src/control.rs])

    The start of [serve], the answers on the wire, and the requests of all clients
    in the order the lock serves them: the socket refines a map from local ports to
    targets.  The file system, [serde_json] and [hyper] are parameters. *)

From Stdlib Require Import Sorting.Sorted.
From S2P Require Import Prelude Protocol Machines Forward.
From S2P Require MachinesApi Reports.

(** ** [serve] *)

(** A path: absolute or not, and its components. *)
Record SocketPath := mkSocketPath { absolute : bool; names : list string }.

Definition show_path (p : SocketPath) : string := (if absolute p then "/" else "") +:+ String.concat "/" (names p).

(** [Path::parent], without the empty path. *)
Definition parent_dir (p : SocketPath) : option SocketPath :=
  match names p with
  | [] => None
  | _ =>
      let parent := mkSocketPath (absolute p) (removelast (names p)) in
      if negb (absolute p) && bool_decide (names parent = []) then None else Some parent
  end.

(** What the system says to [create_dir_all] and [bind]; the result of [remove_file]
    is dropped. *)
Record SocketOs := mkSocketOs {
  create_dir_result : SocketPath -> Res unit;
  bind_result : SocketPath -> Res unit;
}.

Inductive SocketCall := Removed (p : SocketPath) | CreatedDirs (p : SocketPath) | Bound (p : SocketPath).

(** [serve] up to its accept loop: the calls it makes, and the state it serves. *)
Definition serve (os : SocketOs) (p : SocketPath) : M (list SocketCall) ControlState :=
  _ ← mmodify (fun calls => calls ++ [Removed p]);
  _ ← match parent_dir p with
      | None => mret tt
      | Some parent =>
          _ ← mmodify (fun calls => calls ++ [CreatedDirs parent]);
          mlift (with_context ("create control socket directory " +:+ show_path parent) (create_dir_result os parent))
      end;
  _ ← mmodify (fun calls => calls ++ [Bound p]);
  _ ← mlift (with_context ("bind control socket " +:+ show_path p) (bind_result os p));
  mret control_start.

(** ** The answers on the wire *)

Record HttpReply := mkHttpReply {
  reply_code : Z;
  reply_headers : list (string * string);
  (** the body of an exec is streamed *)
  reply_bytes : option (list byte);
}.

Section wire.
Context (to_vec : Value -> Res (list byte)) (to_string : Value -> list byte).

Definition ForwardInfo_json (local_port : Z) (target : string) : Value :=
  VObject [("local_port", MachinesApi.number local_port); ("target", VString target)].

Definition ExecSessionInfo_json (i : ExecSessionInfo) : Value :=
  VObject [("session_id", VString (info_session_id i)); ("argv", VArray (map VString (info_argv i)));
    ("context", Reports.nullable VString (info_context i)); ("attached", VBool (info_attached i));
    ("exit_code", Reports.nullable MachinesApi.number (info_exit_code i))].

Definition json_headers : list (string * string) := [("content-type", "application/json")].

Definition control_json (value : Value) : Res HttpReply :=
  body ← with_context "serialize response" (to_vec value); Ok (mkHttpReply 200 json_headers (Some body)).

Definition json_error (status : Z) (message : string) : HttpReply :=
  mkHttpReply status json_headers (Some (to_string (VObject [("error", VString message)]))).

Definition control_reply (r : Response) : Res HttpReply :=
  match r with
  | JsonForward local_port target => control_json (ForwardInfo_json local_port target)
  | JsonForwards l => control_json (VArray (map (fun '(local_port, target) => ForwardInfo_json local_port target) l))
  | JsonSessions l => control_json (VArray (map ExecSessionInfo_json l))
  | ExecStream session_id =>
      Ok (mkHttpReply 200 [("content-type", "application/octet-stream"); ("x-session-id", session_id)] None)
  | JsonError status message => Ok (json_error status message)
  end.
End wire.

(** ** The requests of all clients *)

Inductive ControlTurn :=
| Request (req : ControlRequest)
| LoopEnded (i : nat).

Section control.
Context (show : Cause -> string).

(** The requests in the order in which they take the lock, with their responses; an
    accept loop may end between them. *)
Fixpoint serve_turns (turns : list ControlTurn) (s : ControlState) :
    list (ControlRequest * option (Res Response)) * ControlState :=
  match turns with
  | [] => ([], s)
  | Request req :: rest =>
      let '(r, s) := route show req s in
      let '(log, s) := serve_turns rest s in
      ((req, r) :: log, s)
  | LoopEnded i :: rest => serve_turns rest (accept_failed i s)
  end.

(** *** The map of ports *)

(** What a request asks of the map. *)
Inductive PortOp :=
| OpCreate (port : Z) (target : string) (free : bool)
| OpDelete (port : Z)
| OpList
| OpInvalid
| OpOther.

Inductive PortAnswer :=
| Holds (port : Z) (target : string)
| Listed (m : gmap Z string)
| Refused (status : Z)
| Unrelated.

(** The specification: a port has at most one target; one that is taken, in the map
    or on the machine, is not given again; one that is not there is not deleted. *)
Definition port_map (op : PortOp) (m : gmap Z string) : PortAnswer * gmap Z string :=
  match op with
  | OpCreate port target free =>
      match m !! port with
      | Some _ => (Refused 409, m)
      | None => if free then (Holds port target, <[port := target]> m) else (Refused 400, m)
      end
  | OpDelete port =>
      match m !! port with
      | Some target => (Holds port target, delete port m)
      | None => (Refused 404, m)
      end
  | OpList => (Listed m, m)
  | OpInvalid => (Refused 400, m)
  | OpOther => (Unrelated, m)
  end.

Definition op_of (req : ControlRequest) : PortOp :=
  if negb (bool_decide (uri_path req = "/forwards")) then OpOther
  else
    match method req with
    | POST =>
        match collected req with
        | Ok body =>
            match (spec ← parse_create req body; parse_forward spec) with
            | Ok (port, target) => OpCreate port target (is_ok (bind_local req port))
            | _ => OpInvalid
            end
        | _ => OpOther
        end
    | DELETE =>
        match collected req with
        | Ok body => match parse_delete req body with Ok port => OpDelete port | _ => OpInvalid end
        | _ => OpOther
        end
    | GET => OpList
    | OtherMethod => OpOther
    end.

Fixpoint port_turns (turns : list ControlTurn) (m : gmap Z string) : list PortAnswer * gmap Z string :=
  match turns with
  | [] => ([], m)
  | Request req :: rest =>
      let '(a, m) := port_map (op_of req) m in
      let '(log, m) := port_turns rest m in (a :: log, m)
  | LoopEnded _ :: rest => port_turns rest m
  end.

(** What a response says, when it is one about the ports. *)
Definition agrees (r : option (Res Response)) (a : PortAnswer) : Prop :=
  match a with
  | Holds port target => r = Some (Ok (JsonForward port target))
  | Listed m => exists l, r = Some (Ok (JsonForwards l)) /\ StronglySorted (fun a b => fst a <= fst b) l /\
      forall p t, (p, t) ∈ l <-> m !! p = Some t
  | Refused status => exists message, r = Some (Ok (JsonError status message))
  | Unrelated => True
  end.

(** Parsers and the system's calls do not panic, and the map yields what it holds. *)
Record well_served (turn : ControlTurn) : Prop := {
  ws_create : forall req body, turn = Request req -> parse_create req body <> Panic;
  ws_delete : forall req body, turn = Request req -> parse_delete req body <> Panic;
  ws_bind : forall req port, turn = Request req -> bind_local req port <> Panic;
  ws_order : forall req m, turn = Request req -> map_order req m ≡ₚ map_to_list m;
}.

(** ** Lemmas *)

Definition targets (s : ControlState) : gmap Z string := target <$> forwards s.

Lemma targets_lookup s p : targets s !! p = target <$> forwards s !! p.
Proof. apply lookup_fmap. Qed.

(** Requests whose body is read and parsed: what the handlers do is what [op_of] says. *)
Lemma with_body_run {A} (parse : list byte -> Res A) body s f :
  parse body <> Panic ->
  with_body show (parse <$> Ok body) s f =
    match parse body with
    | Ok a => f a
    | Err err => (Ok (JsonError BAD_REQUEST ("invalid json: " +:+ display_error show err)), s)
    | Panic => (Panic, s)
    end.
Proof. intros Hp. unfold with_body. cbn. by destruct (parse body). Qed.

(** One request does to the targets what its operation does to the map. *)
Lemma route_refines req s :
  well_served (Request req) ->
  let '(r, s') := route show req s in
  let '(a, m) := port_map (op_of req) (targets s) in
  agrees r a /\ targets s' = m.
Proof.
  intros [Hc Hd Hb Ho]. unfold route, op_of.
  destruct (method req); repeat case_bool_decide; cbn [negb]; try congruence; try (split; [done|done]).
  - (* the listing *)
    destruct (listing_is_exact s (map_order req) (Ho req (forwards s) eq_refl)) as (l & E & Hs & Hl).
    rewrite E. cbn. split; [|done]. exists l. split; [done|]. split; [done|]. intros p t. by rewrite Hl, targets_lookup.
  - unfold handle_exec. destruct (with_body _ _ _ _) as [r s'] eqn:E. cbn. split; [done|].
    unfold with_body in E. destruct (with_context _ _) as [[[[command sid] context]|e|]|e|]; try (by injection E as <- <-).
    destruct command; by injection E as <- <-.
  - (* a creation *)
    destruct (collected req) as [body|e|]; [|by split..].
    unfold handle_create_forward. rewrite with_body_run by (by eapply Hc).
    pose proof (Hc req body eq_refl) as Hcb.
    destruct (parse_create req body) as [spec|e|]; [|by split; [eexists|]|done]. cbn [mbind Res_bind].
    pose proof (parse_forward_not_Panic spec) as Hpf.
    destruct (parse_forward spec) as [[port tg]|e|]; [|by split; [eexists|]|done]. cbn.
    rewrite targets_lookup. destruct (forwards s !! port) as [entry|] eqn:Ef; cbn; [by split; [eexists|]|].
    pose proof (Hb req port eq_refl) as Hbp.
    destruct (bind_local req port) as [u|e|]; [|by split; [eexists|]|done]. cbn. split; [done|].
    unfold targets. cbn. apply fmap_insert.
  - (* a deletion *)
    destruct (collected req) as [body|e|]; [|by split..].
    unfold handle_delete_forward. rewrite with_body_run by (by eapply Hd).
    pose proof (Hd req body eq_refl) as Hdb.
    destruct (parse_delete req body) as [port|e|]; [|by split; [eexists|]|done]. cbn.
    rewrite targets_lookup. destruct (forwards s !! port) as [entry|] eqn:Ef; cbn; [|by split; [eexists|]].
    split; [done|]. unfold targets. cbn. apply fmap_delete.
Qed.

Lemma turns_refine turns s :
  Forall well_served turns ->
  let '(log, s') := serve_turns turns s in
  let '(answers, m) := port_turns turns (targets s) in
  Forall2 (fun e a => agrees (snd e) a) log answers /\ targets s' = m.
Proof.
  revert s. induction turns as [|turn turns IH]; intros s Hw; [by split|].
  inversion_clear Hw as [|? ? Ht Hts]. destruct turn as [req|i]; cbn [serve_turns port_turns].
  - pose proof (route_refines req s Ht) as Hr. destruct (route show req s) as [r s1].
    destruct (port_map (op_of req) (targets s)) as [a m]. destruct Hr as [Ha <-].
    specialize (IH s1 Hts). destruct (serve_turns turns s1) as [log s'], (port_turns turns (targets s1)) as [answers m'].
    destruct IH as [Hl Hm]. split; [by constructor|done].
  - specialize (IH (accept_failed i s) Hts). exact IH.
Qed.

Lemma serve_turns_reachable turns s : control_reachable show s -> control_reachable show (snd (serve_turns turns s)).
Proof.
  revert s. induction turns as [|[req|i] turns IH]; intros s Hs; cbn; [done| |].
  - specialize (IH (snd (route show req s)) (control_more show _ _ Hs (control_route show s req))).
    destruct (route show req s) as [r s1]. cbn in IH. by destruct (serve_turns turns s1).
  - apply IH. eapply control_more; [exact Hs|apply control_accept].
Qed.

Lemma ended_loop_stays turns i m : port_turns (turns ++ [LoopEnded i]) m = port_turns turns m.
Proof.
  revert m. induction turns as [|[req|j] turns IH]; intros m; cbn; [done| |done].
  destruct (port_map _ m) as [a m']. by rewrite IH.
Qed.

Lemma serve_starts os p calls s0 calls' : serve os p calls = (Ok s0, calls') -> s0 = control_start.
Proof.
  unfold serve. intros H. apply mbind_run in H as [(u & s1 & _ & H)|(x & _ & _ & Hr)]; [|done].
  apply mbind_run in H as [(u' & s2 & _ & H)|(x & _ & _ & Hr)]; [|done].
  apply mbind_run in H as [(u'' & s3 & _ & H)|(x & _ & _ & Hr)]; [|done].
  apply mbind_run in H as [(u3 & s4 & _ & H)|(x & _ & _ & Hr)]; [|done]. by injection H as <- _.
Qed.

(** C27: The control socket is a map from local ports to targets.  Whatever the
    clients ask, in whatever order the lock lets them in, with executions and other
    requests between: every response about the forwards is the one the map gives,
    which has one target to a port, gives no port twice, deletes only what is there
    and lists exactly what it holds, by port; a loop that runs is that of a port in
    the map.  A loop that ended on its own leaves its port in the map, listed and
    taken, until somebody deletes it. *)
Theorem control_socket_is_a_port_map os p calls s0 calls' turns :
  serve os p calls = (Ok s0, calls') -> Forall well_served turns ->
  let '(log, s) := serve_turns turns s0 in
  let '(answers, m) := port_turns turns ∅ in
  Forall2 (fun e a => agrees (snd e) a) log answers /\ targets s = m /\
  (forall i, Forward.tasks s !! i = Some true -> exists port e, forwards s !! port = Some e /\ task e = i /\ is_Some (m !! port)) /\
  (forall i, port_turns (turns ++ [LoopEnded i]) ∅ = port_turns turns ∅).
Proof.
  intros Hs Hw. apply serve_starts in Hs as ->. pose proof (turns_refine turns control_start Hw) as H.
  pose proof (serve_turns_reachable turns control_start (control_init show)) as Hr.
  assert (E0 : targets control_start = ∅) by (unfold targets; cbn; apply fmap_empty). rewrite E0 in H.
  pose proof (fun i => ended_loop_stays turns i ∅) as Hend.
  destruct (serve_turns turns control_start) as [log s], (port_turns turns ∅) as [answers m].
  destruct H as [Hl <-]. split; [done|]. split; [done|]. split; [|exact Hend].
  intros i Hi. destruct (control_ok _ _ Hr) as [_ _ Hrun]. cbn [snd] in Hrun.
  destruct (Hrun i Hi) as (port & e & He & Ht).
  exists port, e. split; [done|]. split; [done|]. rewrite targets_lookup, He. by eexists.
Qed.
End control.

(** ** Witness *)

Definition demo_socket : SocketOs := mkSocketOs (fun _ => Ok tt) (fun _ => Ok tt).
Definition demo_socket_path : SocketPath := mkSocketPath true ["run"; "vault.sock"].

(** Two forwards, the second on a port that is taken; a deletion; the list. *)
Definition demo_turns : list ControlTurn :=
  [Request (demo_control_request POST "9000:db:5432"); Request (demo_control_request POST "9000:web:80");
   LoopEnded 0; Request (demo_control_request DELETE "81"); Request (demo_control_request GET "")].

Lemma demo_turns_served : Forall well_served demo_turns.
Proof.
  repeat constructor; intros *; intros [= <-]; cbn; try done.
  all: unfold parse_u16; repeat case_match; done.
Qed.

Lemma control_socket_is_a_port_map_witness :
  serve demo_socket demo_socket_path [] =
    (Ok control_start, [Removed demo_socket_path; CreatedDirs (mkSocketPath true ["run"]); Bound demo_socket_path]) /\
  targets (snd (serve_turns (fun _ => "") demo_turns control_start)) = {[9000 := "db:5432"]}.
Proof.
  assert (E : serve demo_socket demo_socket_path [] =
    (Ok control_start, [Removed demo_socket_path; CreatedDirs (mkSocketPath true ["run"]); Bound demo_socket_path]))
    by (vm_compute; reflexivity).
  split; [exact E|].
  pose proof (control_socket_is_a_port_map (fun _ => "") demo_socket demo_socket_path [] control_start _ demo_turns E demo_turns_served) as H.
  destruct (serve_turns (fun _ => "") demo_turns control_start) as [log s] eqn:Es.
  destruct (port_turns demo_turns ∅) as [answers m] eqn:Ep. destruct H as (_ & Hm & _). cbn [snd]. rewrite Hm.
  change m with (snd (answers, m)). rewrite <- Ep. vm_compute. reflexivity.
Defined.
